(** * Replica state machine, privilege descriptors and wire formats

    A shallow embedding of

    - [sql/privilege.go] (package [sql]): the sorted access-control list
      [PrivilegeDescriptor] with [Grant], [Revoke] and [CheckPrivilege];
    - [proto/internal.pb.go]: the protobuf encoders and decoders of
      [RaftTruncatedState] and [RaftCommand];
    - [storage/replica.go]: the admission and apply pipeline of a [Replica].

    Integers of the program are [Z] with their wrap-around written out,
    byte slices are lists of [Z] in [0, 256), Go slices are lists indexed by
    [nat]. *)

From Stdlib Require Import ZArith Lia Bool.
From stdpp Require Import base list strings gmap.

Local Open Scope Z_scope.

(** ** Machine integers *)

Definition uint32 (z : Z) : Z := z mod 2 ^ 32.
Definition uint64 (z : Z) : Z := z mod 2 ^ 64.
Definition uint8 (z : Z) : Z := z mod 2 ^ 8.
(** Conversion to a signed two's complement integer of [w] bits. *)
Definition sint (w : Z) (z : Z) : Z := (z + 2 ^ (w - 1)) mod 2 ^ w - 2 ^ (w - 1).
Definition int64 (z : Z) : Z := sint 64 z.
Definition int32 (z : Z) : Z := sint 32 z.

(** ** [sort.Search] of the Go standard library

    [i, j := 0, n; for i < j { h := int(uint(i+j) >> 1);
       if !f(h) { i = h + 1 } else { j = h } }; return i].
    The loop runs at most [n] times, which is the fuel given to it. *)
Fixpoint sort_Search_loop (fuel : nat) (f : nat -> bool) (i j : nat) : nat :=
  match fuel with
  | O => i
  | S fuel' =>
      if (i <? j)%nat then
        let h := ((i + j) / 2)%nat in
        if negb (f h) then sort_Search_loop fuel' f (h + 1)%nat j
        else sort_Search_loop fuel' f i h
      else i
  end.

Definition sort_Search (n : nat) (f : nat -> bool) : nat :=
  sort_Search_loop n f 0%nat n.

(** ** Privilege descriptors ([sql/privilege.go]) *)
Module Privilege.

(** A privilege kind is a [uint32] ([privilege.Kind]). *)
Definition Kind := Z.

Record UserPrivileges := mkUserPrivileges {
  User : string;
  Privileges : Z  (* uint32 bit field *)
}.

Record PrivilegeDescriptor := mkPrivilegeDescriptor {
  Users : list UserPrivileges
}.

(** [1 << k] in [uint32] arithmetic: zero once [k] reaches the width. *)
Definition bit (k : Kind) : Z := uint32 (Z.shiftl 1 k).

(** Modelled from the spec: [privilege.List.ToBitField] belongs to package
    [privilege], which is not among the sources.  The bits of a list are the
    union of the bits of its kinds. *)
Definition ToBitField (privList : list Kind) : Z :=
  fold_left (fun ret p => Z.lor ret (bit p)) privList 0.

Section descriptor.

(** [privilege.ALL] and the table [privilege.ByValue] are declared in package
    [privilege]; they are parameters here. *)
Variable ALL : Kind.
Variable ByValue : list Kind.
(** [security.RootUser]. *)
Variable RootUser : string.

(** Go's [>=] on strings: bytewise lexicographic order. *)
Definition string_ge (a b : string) : bool := String.leb b a.

(** [p.Users[i].User >= user]; the search only asks for indices in range. *)
Definition user_ge (p : PrivilegeDescriptor) (user : string) (i : nat) : bool :=
  match Users p !! i with
  | Some u => string_ge (User u) user
  | None => true
  end.

Definition findUserIndex (p : PrivilegeDescriptor) (user : string) : option nat :=
  let idx := sort_Search (length (Users p)) (user_ge p user) in
  match Users p !! idx with
  | Some u => if String.eqb (User u) user then Some idx else None
  | None => None
  end.

Definition findUser (p : PrivilegeDescriptor) (user : string)
  : option UserPrivileges :=
  match findUserIndex p user with
  | None => None
  | Some idx => Users p !! idx
  end.

(** Returns the descriptor after the possible insertion and the index of the
    entry the Go code returns a pointer to. *)
Definition findOrCreateUser (p : PrivilegeDescriptor) (user : string)
  : PrivilegeDescriptor * nat :=
  let idx := sort_Search (length (Users p)) (user_ge p user) in
  match Users p !! idx with
  | None =>
      (mkPrivilegeDescriptor (Users p ++ [mkUserPrivileges user 0]), idx)
  | Some u =>
      if String.eqb (User u) user then (p, idx)
      else (mkPrivilegeDescriptor
              (take idx (Users p) ++ mkUserPrivileges user 0 :: drop idx (Users p)),
            idx)
  end.

Definition removeUser (p : PrivilegeDescriptor) (user : string)
  : PrivilegeDescriptor :=
  match findUserIndex p user with
  | None => p
  | Some idx => mkPrivilegeDescriptor (delete idx (Users p))
  end.

(** Assignment through the pointer [userPriv] to the entry at [idx]. *)
Definition setPrivileges (p : PrivilegeDescriptor) (idx : nat) (v : Z)
  : PrivilegeDescriptor :=
  mkPrivilegeDescriptor
    (alter (fun u => mkUserPrivileges (User u) v) idx (Users p)).

Definition NewDefaultDatabasePrivilegeDescriptor : PrivilegeDescriptor :=
  mkPrivilegeDescriptor [mkUserPrivileges RootUser (bit ALL)].

Definition Grant (p : PrivilegeDescriptor) (user : string) (privList : list Kind)
  : PrivilegeDescriptor :=
  let '(p1, idx) := findOrCreateUser p user in
  match Users p1 !! idx with
  | None => p1
  | Some userPriv =>
      if negb (Z.land (Privileges userPriv) (bit ALL) =? 0) then p1
      else
        let bits := ToBitField privList in
        if negb (Z.land bits (bit ALL) =? 0) then setPrivileges p1 idx (bit ALL)
        else setPrivileges p1 idx (Z.lor (Privileges userPriv) bits)
  end.

(** The loop of [Revoke] over [privilege.ByValue]. *)
Definition allOtherBits : Z :=
  fold_left (fun acc v => if v =? ALL then acc else Z.lor acc (bit v)) ByValue 0.

Definition Revoke (p : PrivilegeDescriptor) (user : string) (privList : list Kind)
  : PrivilegeDescriptor :=
  match findUserIndex p user with
  | None => p
  | Some idx =>
      match Users p !! idx with
      | None => p
      | Some userPriv =>
          if Privileges userPriv =? 0 then p
          else
            let bits := ToBitField privList in
            if negb (Z.land bits (bit ALL) =? 0) then removeUser p user
            else
              let expanded :=
                if negb (Z.land (Privileges userPriv) (bit ALL) =? 0)
                then allOtherBits else Privileges userPriv in
              let v := Z.ldiff expanded bits in
              let p1 := setPrivileges p idx v in
              if v =? 0 then removeUser p1 user else p1
      end
  end.

Definition CheckPrivilege (p : PrivilegeDescriptor) (user : string) (priv : Kind)
  : bool :=
  match findUser p user with
  | None => false
  | Some userPriv =>
      if negb (Z.land (Privileges userPriv) (bit ALL) =? 0) then true
      else negb (Z.land (Privileges userPriv) (bit priv) =? 0)
  end.

(** Sequences of operations on a descriptor. *)
Inductive op :=
| OpGrant (user : string) (privList : list Kind)
| OpRevoke (user : string) (privList : list Kind).

Definition step (p : PrivilegeDescriptor) (o : op) : PrivilegeDescriptor :=
  match o with
  | OpGrant u l => Grant p u l
  | OpRevoke u l => Revoke p u l
  end.

Definition run (ops : list op) (p : PrivilegeDescriptor) : PrivilegeDescriptor :=
  fold_left step ops p.

(** The entries are in strictly increasing order of user name. *)
Definition sorted_users (p : PrivilegeDescriptor) : Prop :=
  forall i j ui uj, (i < j)%nat ->
    Users p !! i = Some ui -> Users p !! j = Some uj ->
    String.ltb (User ui) (User uj) = true.

Definition hasALL (up : UserPrivileges) : bool :=
  negb (Z.land (Privileges up) (bit ALL) =? 0).
Definition hasBit (up : UserPrivileges) (priv : Kind) : bool :=
  negb (Z.land (Privileges up) (bit priv) =? 0).

(** An entry that has the ALL bit has nothing else. *)
Definition all_alone (u : UserPrivileges) : Prop :=
  Z.land (Privileges u) (bit ALL) <> 0 -> Privileges u = bit ALL.

Definition all_singleton (p : PrivilegeDescriptor) : Prop :=
  Forall all_alone (Users p).

End descriptor.

(** A descriptor with two users, where ALL is kind 1: [alice] holds kind 2
    and [root] holds ALL. *)
Definition descriptor0 : PrivilegeDescriptor :=
  mkPrivilegeDescriptor [mkUserPrivileges "alice" 4; mkUserPrivileges "root" 2].

End Privilege.

(** ** Wire formats ([proto/internal.pb.go]) *)
Module Proto.

(** A byte slice is a list of bytes, each a [Z] in [0, 256).  Go's [int] is
    the 64-bit signed integer of the platforms the program is built for. *)
Definition bytes := list Z.
Definition int (z : Z) : Z := int64 z.

Inductive error :=
| ErrUnexpectedEOF                                  (* io.ErrUnexpectedEOF *)
| ErrInvalidLengthInternal
| ErrWrongWireType (wireType : Z) (field : string)  (* "proto: wrong wireType = %d for field %s" *)
| ErrIllegalWireType (wireType : Z)                 (* "proto: illegal wireType %d" *)
| ErrForeign (msg : string).                        (* an error of another message's codec *)

(** Outcome of a call: a value, an error value, a run-time panic, or a
    loop that was given too little fuel. *)
Inductive result (A : Type) :=
| Ok (a : A)
| Err (e : error)
| Panic
| OutOfFuel.
Arguments Ok {A} a.
Arguments Err {A} e.
Arguments Panic {A}.
Arguments OutOfFuel {A}.

#[global] Instance result_bind : MBind result := fun A B k r =>
  match r with
  | Ok a => k a
  | Err e => Err e
  | Panic => Panic
  | OutOfFuel => OutOfFuel
  end.

(** *** Encoding *)

(** [encodeVarintInternal]:
    [for v >= 1<<7 { data[offset] = uint8(v&0x7f | 0x80); v >>= 7; offset++ };
     data[offset] = uint8(v)].
    The bytes written from [offset] on are returned.  A [uint64] leaves the
    loop after at most nine rounds. *)
Fixpoint encodeVarint_loop (fuel : nat) (v : Z) : bytes :=
  match fuel with
  | O => [uint8 v]
  | S fuel' =>
      if 128 <=? v
      then uint8 (Z.lor (Z.land v 127) 128) :: encodeVarint_loop fuel' (Z.shiftr v 7)
      else [uint8 v]
  end.

Definition encodeVarintInternal (v : Z) : bytes := encodeVarint_loop 9 v.

(** [sovInternal]: [for { n++; x >>= 7; if x == 0 { break } }]. *)
Fixpoint sov_loop (fuel : nat) (n x : Z) : Z :=
  match fuel with
  | O => n + 1
  | S fuel' =>
      let n := n + 1 in
      let x := Z.shiftr x 7 in
      if x =? 0 then n else sov_loop fuel' n x
  end.

Definition sovInternal (x : Z) : Z := sov_loop 9 0 x.

Record RaftTruncatedState := mkRaftTruncatedState {
  Index : Z;  (* uint64 *)
  Term : Z    (* uint64 *)
}.

Definition RaftTruncatedState_Size (m : RaftTruncatedState) : Z :=
  (1 + sovInternal (uint64 (Index m))) + (1 + sovInternal (uint64 (Term m))).

Definition RaftTruncatedState_MarshalTo (m : RaftTruncatedState) : bytes :=
  [8] ++ encodeVarintInternal (uint64 (Index m)) ++
  [16] ++ encodeVarintInternal (uint64 (Term m)).

(** [Marshal] allocates [Size()] bytes, lets [MarshalTo] fill them and
    returns the filled prefix; writing past the allocation panics. *)
Definition RaftTruncatedState_Marshal (m : RaftTruncatedState) : result bytes :=
  let size := RaftTruncatedState_Size m in
  let out := RaftTruncatedState_MarshalTo m in
  if Z.of_nat (length out) <=? size then Ok out else Panic.

(** *** Decoding *)

(** The varint loop of the decoders, on the bytes from [iNdEx] on:
    [for shift := uint(0); ; shift += 7 {
       if iNdEx >= l { return io.ErrUnexpectedEOF }
       b := data[iNdEx]; iNdEx++
       x |= (T(b) & 0x7F) << shift
       if b < 0x80 { break } }].
    [conv] is the conversion to the type [T] of the target.  The result is
    the value and the number of bytes read, or [None] at the end of input. *)
Fixpoint readVarint (conv : Z -> Z) (rest : bytes) (shift acc : Z)
  : option (Z * Z) :=
  match rest with
  | [] => None
  | b :: rest' =>
      let acc' := Z.lor acc (conv (Z.shiftl (Z.land (conv b) 127) shift)) in
      if b <? 128 then Some (acc', 1)
      else match readVarint conv rest' (uint64 (shift + 7)) acc' with
           | Some (x, n) => Some (x, n + 1)
           | None => None
           end
  end.

(** The loop started at index [iNdEx] of [data]; a negative index panics on
    [data[iNdEx]].  Returns the value and the index after it. *)
Definition readVarintAt (conv : Z -> Z) (data : bytes) (iNdEx : Z) (acc : Z)
  : result (Z * Z) :=
  if iNdEx <? 0 then Panic
  else match readVarint conv (drop (Z.to_nat iNdEx) data) 0 acc with
       | Some (x, n) => Ok (x, int (iNdEx + n))
       | None => Err ErrUnexpectedEOF
       end.

(** [data[lo:hi]], which panics unless [0 <= lo <= hi <= len(data)]. *)
Definition slice (data : bytes) (lo hi : Z) : result bytes :=
  if (0 <=? lo) && (lo <=? hi) && (hi <=? Z.of_nat (length data))
  then Ok (take (Z.to_nat (hi - lo)) (drop (Z.to_nat lo) data))
  else Panic.

Definition sliceFrom (data : bytes) (lo : Z) : result bytes :=
  slice data lo (Z.of_nat (length data)).

(** Case 0 of [skipInternal]:
    [for { if iNdEx >= l { return 0, io.ErrUnexpectedEOF }; iNdEx++;
           if data[iNdEx-1] < 0x80 { break } }]. *)
Fixpoint skipVarint (rest : bytes) : option Z :=
  match rest with
  | [] => None
  | b :: rest' =>
      if b <? 128 then Some 1
      else match skipVarint rest' with
           | Some n => Some (n + 1)
           | None => None
           end
  end.

(** Case 3 of [skipInternal], the loop over the members of a group; [rec]
    is the recursive call [skipInternal(data[start:])]. *)
Fixpoint skipGroup (rec : bytes -> result Z) (fuel : nat) (data : bytes)
    (iNdEx : Z) : result Z :=
  match fuel with
  | O => OutOfFuel
  | S fuel' =>
      let start := iNdEx in
      '(innerWire, iNdEx) ← readVarintAt uint64 data iNdEx 0;
      let innerWireType := int (Z.land innerWire 7) in
      if innerWireType =? 4 then Ok iNdEx
      else
        sub ← sliceFrom data start;
        next ← rec sub;
        skipGroup rec fuel' data (int (start + next))
  end.

Fixpoint skipInternal (fuel : nat) (data : bytes) : result Z :=
  match fuel with
  | O => OutOfFuel
  | S fuel' =>
      let l := Z.of_nat (length data) in
      if 0 <? l then
        '(wire, iNdEx) ← readVarintAt uint64 data 0 0;
        let wireType := int (Z.land wire 7) in
        if wireType =? 0 then
          match skipVarint (drop (Z.to_nat iNdEx) data) with
          | Some n => Ok (int (iNdEx + n))
          | None => Err ErrUnexpectedEOF
          end
        else if wireType =? 1 then Ok (int (iNdEx + 8))
        else if wireType =? 2 then
          '(length, iNdEx) ← readVarintAt int data iNdEx 0;
          let iNdEx := int (iNdEx + length) in
          if length <? 0 then Err ErrInvalidLengthInternal else Ok iNdEx
        else if wireType =? 3 then skipGroup (skipInternal fuel') fuel' data iNdEx
        else if wireType =? 4 then Ok iNdEx
        else if wireType =? 5 then Ok (int (iNdEx + 4))
        else Err (ErrIllegalWireType wireType)
      else Panic  (* panic("unreachable") *)
  end.

(** The [default:] case of every decoder: step back over the tag and skip
    the unknown field.  [wire] is the tag, [iNdEx] the index after it. *)
Definition skipUnknown (data : bytes) (wire iNdEx : Z) : result Z :=
  let l := Z.of_nat (length data) in
  let sizeOfWire := sovInternal wire in
  let iNdEx := int (iNdEx - sizeOfWire) in
  sub ← sliceFrom data iNdEx;
  skippy ← skipInternal (S (length sub)) sub;
  if skippy <? 0 then Err ErrInvalidLengthInternal
  else if l <? int (iNdEx + skippy) then Err ErrUnexpectedEOF
  else Ok (int (iNdEx + skippy)).

(** The loop [for iNdEx < l { ... }] shared by the decoders: read the tag,
    split it into field number and wire type, and hand over to the
    [switch fieldNum] of the message, given as [field]; [None] stands for
    its [default:] case. *)
Fixpoint unmarshalLoop {M : Type}
    (field : M -> Z -> Z -> bytes -> Z -> option (result (M * Z)))
    (fuel : nat) (m : M) (data : bytes) (iNdEx : Z) : result M :=
  let l := Z.of_nat (length data) in
  if iNdEx <? l then
    match fuel with
    | O => OutOfFuel
    | S fuel' =>
        '(wire, iNdEx) ← readVarintAt uint64 data iNdEx 0;
        let fieldNum := int32 (Z.shiftr wire 3) in
        let wireType := int (Z.land wire 7) in
        '(m, iNdEx) ←
          match field m fieldNum wireType data iNdEx with
          | Some r => r
          | None => iNdEx ← skipUnknown data wire iNdEx; Ok (m, iNdEx)
          end;
        unmarshalLoop field fuel' m data iNdEx
    end
  else Ok m.

Definition RaftTruncatedState_field (m : RaftTruncatedState)
    (fieldNum wireType : Z) (data : bytes) (iNdEx : Z)
  : option (result (RaftTruncatedState * Z)) :=
  if fieldNum =? 1 then Some (
    if negb (wireType =? 0) then Err (ErrWrongWireType wireType "Index")
    else
      '(x, iNdEx) ← readVarintAt uint64 data iNdEx 0;
      Ok (mkRaftTruncatedState x (Term m), iNdEx))
  else if fieldNum =? 2 then Some (
    if negb (wireType =? 0) then Err (ErrWrongWireType wireType "Term")
    else
      '(x, iNdEx) ← readVarintAt uint64 data iNdEx 0;
      Ok (mkRaftTruncatedState (Index m) x, iNdEx))
  else None.

(** [m.Unmarshal(data)]: the receiver as it is before the call, and as it
    is after a call that returns [nil]. *)
Definition RaftTruncatedState_Unmarshal (m : RaftTruncatedState) (data : bytes)
  : result RaftTruncatedState :=
  unmarshalLoop RaftTruncatedState_field (length data) m data 0.

Section RaftCommand.

(** [BatchRequest] and its codec are generated into [proto/api.pb.go], which
    is not among the sources. *)
Variable BatchRequest : Type.
Variable BatchRequest_Size : BatchRequest -> Z.
Variable BatchRequest_MarshalTo : BatchRequest -> result bytes.
Variable BatchRequest_Unmarshal : BatchRequest -> bytes -> result BatchRequest.

Record RaftCommand := mkRaftCommand {
  RangeID : Z;       (* RangeID, an int64 *)
  OriginNodeID : Z;  (* RaftNodeID, a uint64 *)
  Cmd : BatchRequest
}.

Definition RaftCommand_Size (m : RaftCommand) : Z :=
  let n := 1 + sovInternal (uint64 (RangeID m)) in
  let n := n + (1 + sovInternal (uint64 (OriginNodeID m))) in
  let l := BatchRequest_Size (Cmd m) in
  n + (1 + l + sovInternal (uint64 l)).

Definition RaftCommand_MarshalTo (m : RaftCommand) : result bytes :=
  let head :=
    [8] ++ encodeVarintInternal (uint64 (RangeID m)) ++
    [16] ++ encodeVarintInternal (uint64 (OriginNodeID m)) ++
    [26] ++ encodeVarintInternal (uint64 (BatchRequest_Size (Cmd m))) in
  body ← BatchRequest_MarshalTo (Cmd m);
  Ok (head ++ body).

Definition RaftCommand_Marshal (m : RaftCommand) : result bytes :=
  let size := RaftCommand_Size m in
  out ← RaftCommand_MarshalTo m;
  if Z.of_nat (length out) <=? size then Ok out else Panic.

Definition RaftCommand_field (m : RaftCommand)
    (fieldNum wireType : Z) (data : bytes) (iNdEx : Z)
  : option (result (RaftCommand * Z)) :=
  let l := Z.of_nat (length data) in
  if fieldNum =? 1 then Some (
    if negb (wireType =? 0) then Err (ErrWrongWireType wireType "RangeID")
    else
      '(x, iNdEx) ← readVarintAt int64 data iNdEx 0;
      Ok (mkRaftCommand x (OriginNodeID m) (Cmd m), iNdEx))
  else if fieldNum =? 2 then Some (
    if negb (wireType =? 0) then Err (ErrWrongWireType wireType "OriginNodeID")
    else
      '(x, iNdEx) ← readVarintAt uint64 data iNdEx 0;
      Ok (mkRaftCommand (RangeID m) x (Cmd m), iNdEx))
  else if fieldNum =? 3 then Some (
    if negb (wireType =? 2) then Err (ErrWrongWireType wireType "Cmd")
    else
      '(msglen, iNdEx) ← readVarintAt int data iNdEx 0;
      if msglen <? 0 then Err ErrInvalidLengthInternal
      else
        let postIndex := int (iNdEx + msglen) in
        if l <? postIndex then Err ErrUnexpectedEOF
        else
          sub ← slice data iNdEx postIndex;
          cmd ← BatchRequest_Unmarshal (Cmd m) sub;
          Ok (mkRaftCommand (RangeID m) (OriginNodeID m) cmd, postIndex))
  else None.

Definition RaftCommand_Unmarshal (m : RaftCommand) (data : bytes)
  : result RaftCommand :=
  unmarshalLoop RaftCommand_field (length data) m data 0.

End RaftCommand.

Arguments mkRaftCommand {BatchRequest} _ _ _.
Arguments RangeID {BatchRequest} _.
Arguments OriginNodeID {BatchRequest} _.
Arguments Cmd {BatchRequest} _.

End Proto.

(** ** The replica ([storage/replica.go]) *)
Module Storage.

Definition Key := list Z.
(** [type cmdIDKey string]. *)
Definition cmdIDKey := string.

(** *** Messages of package [proto] used by the replica

    The fields are those the replica reads and writes. *)
Record Timestamp := mkTimestamp {
  WallTime : Z;  (* int64 *)
  Logical : Z    (* int32 *)
}.

Definition ZeroTimestamp : Timestamp := mkTimestamp 0 0.

Record ClientCmdID := mkClientCmdID {
  cmd_WallTime : Z;
  cmd_Random : Z
}.

Record Lease := mkLease {
  Start : Timestamp;
  Expiration : Timestamp;
  lease_RaftNodeID : Z
}.

(** [proto.Replica], an entry of the replica set of a range. *)
Record ReplicaDescriptor := mkReplicaDescriptor {
  NodeID : Z;
  StoreID : Z
}.

Record RangeDescriptor := mkRangeDescriptor {
  RangeID : Z;
  StartKey : Key;
  EndKey : Key;
  Replicas : list ReplicaDescriptor
}.

Record Transaction := mkTransaction {
  txn_ID : list Z;
  txn_rest : list Z  (* the fields the replica does not look at *)
}.

Inductive ReadConsistencyType := CONSISTENT | CONSENSUS | INCONSISTENT.

(** [proto.Method]: the methods [replica.go] names, and the others. *)
Inductive Method :=
| Get | Put | ConditionalPut | Increment | Delete | DeleteRange | Scan
| ReverseScan | EndTransaction | PushTxn | ResolveIntent | ResolveIntentRange
| LeaderLease
| OtherMethod (id : Z).

Definition Method_eqb (a b : Method) : bool :=
  match a, b with
  | Get, Get | Put, Put | ConditionalPut, ConditionalPut
  | Increment, Increment | Delete, Delete | DeleteRange, DeleteRange
  | Scan, Scan | ReverseScan, ReverseScan | EndTransaction, EndTransaction
  | PushTxn, PushTxn | ResolveIntent, ResolveIntent
  | ResolveIntentRange, ResolveIntentRange | LeaderLease, LeaderLease => true
  | OtherMethod x, OtherMethod y => x =? y
  | _, _ => false
  end.

Record RequestHeader := mkRequestHeader {
  h_Timestamp : Timestamp;
  h_CmdID : ClientCmdID;
  h_Key : Key;
  h_EndKey : Key;
  h_UserPriority : option Z;        (* *int32 *)
  h_Txn : option Transaction;       (* *Transaction *)
  h_ReadConsistency : ReadConsistencyType;
  h_RangeID : Z
}.

(** The zero value [proto.RequestHeader{}]. *)
Definition zeroHeader : RequestHeader :=
  mkRequestHeader ZeroTimestamp (mkClientCmdID 0 0) [] [] None None CONSISTENT 0.

Definition setTimestamp (h : RequestHeader) (t : Timestamp) : RequestHeader :=
  mkRequestHeader t (h_CmdID h) (h_Key h) (h_EndKey h) (h_UserPriority h)
    (h_Txn h) (h_ReadConsistency h) (h_RangeID h).

Inductive RequestBody :=
| LeaseBody (l : Lease)        (* the [Lease] of a [LeaderLeaseRequest] *)
| OpaqueBody (b : list Z).     (* the fields of the other requests *)

(** A [proto.Request]: its [Method()], its [Header()] and the rest. *)
Record Request := mkRequest {
  req_Method : Method;
  req_Header : RequestHeader;
  req_Body : RequestBody
}.

Definition req_setTimestamp (a : Request) (t : Timestamp) : Request :=
  mkRequest (req_Method a) (setTimestamp (req_Header a) t) (req_Body a).

(** [proto.BatchRequest]: the embedded header and the requests. *)
Record BatchRequest := mkBatchRequest {
  b_Header : RequestHeader;
  Requests : list Request
}.

Definition b_Timestamp (b : BatchRequest) : Timestamp := h_Timestamp (b_Header b).

Definition b_setTimestamp (b : BatchRequest) (t : Timestamp) : BatchRequest :=
  mkBatchRequest (setTimestamp (b_Header b) t) (Requests b).

Record Response := mkResponse {
  resp_Timestamp : Timestamp;   (* [reply.Header().Timestamp] *)
  resp_Body : list Z
}.

Record BatchResponse := mkBatchResponse {
  br_Timestamp : Timestamp;
  Responses : list Response
}.

Record Intent := mkIntent {
  i_Key : Key;
  i_EndKey : Key;
  i_Txn : Transaction
}.

(** *** Errors *)
#[local] Set Warnings "-register-all".
Inductive Error :=
| Errorf (msg : string)                    (* [util.Errorf] *)
| NotLeaderError (rangeID : Z) (replica leader : option ReplicaDescriptor)
| LeaseRejectedError
| RangeKeyMismatchError (key endKey : Key) (desc : RangeDescriptor)
| replicaCorruptionError (processed : bool) (err : option chainedError)
| OtherError (msg : string)                (* any other error of a collaborator *)
with chainedError :=
| mkChainedError (ce_error : option Error) (ce_cause : option chainedError).

Record ResponseWithError := mkResponseWithError {
  Reply : option BatchResponse;
  Err : option Error
}.

(** [newChainedError]: the loop moves [ce] along the chain it builds and
    the function returns [ce], that is the node made last. *)
Definition newChainedError (errs : list (option Error)) : option chainedError :=
  match errs with
  | [] => None
  | [None] => None
  | e0 :: rest =>
      Some (fold_left
              (fun ce err =>
                 match err with
                 | None => ce
                 | Some e => mkChainedError (Some e) None
                 end)
              rest (mkChainedError e0 None))
  end.

Definition newReplicaCorruptionError (errs : list (option Error)) : Error :=
  replicaCorruptionError false (newChainedError errs).

Definition isNotLeaderError (e : option Error) : bool :=
  match e with Some (NotLeaderError _ _ _) => true | _ => false end.

Definition isReplicaCorruptionError (e : option Error) : bool :=
  match e with Some (replicaCorruptionError _ _) => true | _ => false end.

(** *** What the replica hands to its collaborators *)
Inductive Event :=
| EvExecute (args : Request)                           (* [r.executeCmd] *)
| EvPutResponse (cmdID : ClientCmdID) (rwe : ResponseWithError)
                                                       (* [respCache.PutResponse] *)
| EvPropose (idKey : cmdIDKey) (raftCmd : Proto.RaftCommand BatchRequest)
                                                       (* [rm.ProposeRaftCommand] *)
| EvDone (idKey : cmdIDKey) (rwe : ResponseWithError). (* send on [pendingCmd.done] *)

(** *** State of a replica

    [Engine] is the content of the storage engine; a batch is the content
    as seen through the batch, and a successful [Commit] makes it the content
    of the engine.  [Env] is the state of the range manager's other services:
    clock, gossip, event feed, split queue, task runner. *)
Record Replica_ (Engine CommandQueue TimestampCache RangeStats Env : Type) :=
  mkReplica {
    desc : RangeDescriptor;
    stats : RangeStats;
    maxBytes : Z;
    lastIndex : Z;
    appliedIndex : Z;
    configHashes : option (gmap nat (list Z));
    systemDBHash : list Z;
    lease : Lease;
    cmdQ : CommandQueue;
    tsCache : TimestampCache;
    pendingCmds : gmap cmdIDKey unit;
    engine : Engine;
    env : Env
  }.
Arguments mkReplica {_ _ _ _ _}.
Arguments desc {_ _ _ _ _}.
Arguments stats {_ _ _ _ _}.
Arguments maxBytes {_ _ _ _ _}.
Arguments lastIndex {_ _ _ _ _}.
Arguments appliedIndex {_ _ _ _ _}.
Arguments configHashes {_ _ _ _ _}.
Arguments systemDBHash {_ _ _ _ _}.
Arguments lease {_ _ _ _ _}.
Arguments cmdQ {_ _ _ _ _}.
Arguments tsCache {_ _ _ _ _}.
Arguments pendingCmds {_ _ _ _ _}.
Arguments engine {_ _ _ _ _}.
Arguments env {_ _ _ _ _}.

Record Span := mkSpan { span_Start : Key; span_End : Key }.

(** What [executeCmd] hands back: the replica and the batch as it leaves
    them, the statistics, and its three results. *)
Record Executed (R Engine MVCCStats : Type) := mkExecuted {
  ex_replica : R;
  ex_batch : Engine;
  ex_ms : MVCCStats;
  ex_reply : Response;
  ex_intents : list Intent;
  ex_err : option Error
}.
Arguments mkExecuted {_ _ _}.
Arguments ex_replica {_ _ _}.
Arguments ex_batch {_ _ _}.
Arguments ex_ms {_ _ _}.
Arguments ex_reply {_ _ _}.
Arguments ex_intents {_ _ _}.
Arguments ex_err {_ _ _}.

(** The code the replica calls and that is not in [replica.go]: the methods
    of the messages (package [proto]), the command queue, the timestamp
    cache and the response cache (package [storage]), the engine and the
    services behind the [rangeManager] interface.  Receiving from a channel
    and waiting for a wait group are answered by the environment, which may
    change the replica meanwhile. *)
Class Collaborators := {
  Engine : Type;
  CommandQueue : Type;
  CmdKey : Type;
  WaitGroup : Type;
  TimestampCache : Type;
  RangeStats : Type;
  MVCCStats : Type;
  ConfigMap : Type;
  Env : Type;
  (* package proto *)
  ts_Less : Timestamp -> Timestamp -> bool;
  ts_Equal : Timestamp -> Timestamp -> bool;
  ts_Next : Timestamp -> Timestamp;
  ts_Add : Timestamp -> Z -> Z -> Timestamp;
  ts_Forward : Timestamp -> Timestamp -> Timestamp;
  lease_Covers : Lease -> Timestamp -> bool;
  lease_OwnedBy : Lease -> Z -> bool;
  txn_Equal : option Transaction -> option Transaction -> bool;
  IsReadOnly : Method -> bool;
  IsWrite : Method -> bool;
  batch_IsReadOnly : BatchRequest -> bool;
  batch_IsWrite : BatchRequest -> bool;
  batch_Add : BatchRequest -> Request -> BatchRequest;
  batch_Method : BatchRequest -> Method;
  br_Add : BatchResponse -> Response -> BatchResponse;
  Default_RequestHeader_UserPriority : Z;
  GetOrCreateCmdID : Env -> RequestHeader -> Z -> Env * ClientCmdID;
  DecodeRaftNodeID : Z -> Z * Z;
  FindReplica : RangeDescriptor -> Z -> option ReplicaDescriptor;
  desc_ContainsKey : RangeDescriptor -> Key -> bool;
  desc_ContainsKeyRange : RangeDescriptor -> Key -> Key -> bool;
  key_Less : Key -> Key -> bool;
  key_PrefixEnd : Key -> Key;
  (* packages keys and gossip *)
  KeyAddress : Key -> Key;
  SystemMax : Key;
  ConfigZonePrefix : Key;
  KeyConfigZone : string;
  (* package storage, other files *)
  makeCmdIDKey : ClientCmdID -> cmdIDKey;
  cmdQ_GetWait : CommandQueue -> bool -> list Span -> WaitGroup;
  cmdQ_Add : CommandQueue -> bool -> list Span -> CommandQueue * list CmdKey;
  cmdQ_Remove : CommandQueue -> CmdKey -> CommandQueue;
  tsCache_GetMax : TimestampCache -> Key -> Key -> list Z -> Timestamp * Timestamp;
  tsCache_Add :
    TimestampCache -> Key -> Key -> Timestamp -> list Z -> bool -> TimestampCache;
  respCache_GetResponse : Engine -> ClientCmdID -> ResponseWithError * option Error;
  respCache_PutResponse :
    Engine -> ClientCmdID -> ResponseWithError -> Engine * option Error;
  setAppliedIndex : Engine -> Z -> Z -> Engine * option Error;
  MergeMVCCStats :
    RangeStats -> Engine -> MVCCStats -> Z -> RangeStats * Engine * option Error;
  stats_KeyBytes : RangeStats -> Z;
  stats_ValBytes : RangeStats -> Z;
  zeroMVCCStats : MVCCStats;
  executeCmd :
    Replica_ Engine CommandQueue TimestampCache RangeStats Env ->
    Engine -> MVCCStats -> Request ->
    Executed (Replica_ Engine CommandQueue TimestampCache RangeStats Env)
             Engine MVCCStats;
  loadConfigMap : Engine -> Key -> ConfigMap * list Z * option Error;
  (* package engine *)
  batch_Commit : Engine -> option Error;
  (* the range manager *)
  rm_RaftNodeID : Env -> Z;
  rm_hasGossip : Env -> bool;
  Clock_Now : Env -> Env * Timestamp;
  Clock_PhysicalNow : Env -> Z;
  rand_Int63 : Env -> Env * Z;
  gossip_AddInfoProto : Env -> string -> ConfigMap -> Env;
  eventFeed_updateRange : Env -> Method -> MVCCStats -> Env;
  splitQueue_MaybeAdd : Env -> Timestamp -> Env;
  RunAsyncTask_resolve : Env -> Request -> list Intent -> Env;
  (* the environment *)
  wait_cmdQ :
    Replica_ Engine CommandQueue TimestampCache RangeStats Env -> WaitGroup ->
    Replica_ Engine CommandQueue TimestampCache RangeStats Env;
  wait_errChan :
    Replica_ Engine CommandQueue TimestampCache RangeStats Env -> cmdIDKey ->
    Replica_ Engine CommandQueue TimestampCache RangeStats Env * option Error;
  wait_done :
    Replica_ Engine CommandQueue TimestampCache RangeStats Env -> cmdIDKey ->
    Replica_ Engine CommandQueue TimestampCache RangeStats Env * ResponseWithError
}.

(** A call returns, or it ends the process ([log.Fatalc]). *)
Inductive outcome (A : Type) :=
| Done (a : A)
| Fatal (msg : string).
Arguments Done {A} a.
Arguments Fatal {A} msg.

Section replica.
Context {C : Collaborators}.

Definition Replica : Type :=
  Replica_ Engine CommandQueue TimestampCache RangeStats Env.

(** Updates of the fields of a replica. *)
Definition set_env (r : Replica) (e : Env) : Replica :=
  mkReplica (desc r) (stats r) (maxBytes r) (lastIndex r) (appliedIndex r)
    (configHashes r) (systemDBHash r) (lease r) (cmdQ r) (tsCache r)
    (pendingCmds r) (engine r) e.
Definition set_stats (r : Replica) (s : RangeStats) : Replica :=
  mkReplica (desc r) s (maxBytes r) (lastIndex r) (appliedIndex r)
    (configHashes r) (systemDBHash r) (lease r) (cmdQ r) (tsCache r)
    (pendingCmds r) (engine r) (env r).
Definition set_appliedIndex (r : Replica) (i : Z) : Replica :=
  mkReplica (desc r) (stats r) (maxBytes r) (lastIndex r) i
    (configHashes r) (systemDBHash r) (lease r) (cmdQ r) (tsCache r)
    (pendingCmds r) (engine r) (env r).
Definition set_configHashes (r : Replica) (h : option (gmap nat (list Z)))
  : Replica :=
  mkReplica (desc r) (stats r) (maxBytes r) (lastIndex r) (appliedIndex r)
    h (systemDBHash r) (lease r) (cmdQ r) (tsCache r)
    (pendingCmds r) (engine r) (env r).
Definition set_cmdQ (r : Replica) (q : CommandQueue) : Replica :=
  mkReplica (desc r) (stats r) (maxBytes r) (lastIndex r) (appliedIndex r)
    (configHashes r) (systemDBHash r) (lease r) q (tsCache r)
    (pendingCmds r) (engine r) (env r).
Definition set_tsCache (r : Replica) (t : TimestampCache) : Replica :=
  mkReplica (desc r) (stats r) (maxBytes r) (lastIndex r) (appliedIndex r)
    (configHashes r) (systemDBHash r) (lease r) (cmdQ r) t
    (pendingCmds r) (engine r) (env r).
Definition set_pendingCmds (r : Replica) (p : gmap cmdIDKey unit) : Replica :=
  mkReplica (desc r) (stats r) (maxBytes r) (lastIndex r) (appliedIndex r)
    (configHashes r) (systemDBHash r) (lease r) (cmdQ r) (tsCache r)
    p (engine r) (env r).
Definition set_engine (r : Replica) (e : Engine) : Replica :=
  mkReplica (desc r) (stats r) (maxBytes r) (lastIndex r) (appliedIndex r)
    (configHashes r) (systemDBHash r) (lease r) (cmdQ r) (tsCache r)
    (pendingCmds r) e (env r).

(** *** Running the replica

    A call runs on the replica and on the list of events handed out so far.
    It returns ([Done]), or it ends the process ([Fatal], for
    [log.Fatalc]). *)
Record State := mkState {
  rep : Replica;
  trace : list Event
}.

Definition M (A : Type) : Type := State -> outcome (A * State).

#[global] Instance M_ret : MRet M := fun A a s => Done (a, s).
#[global] Instance M_bind : MBind M := fun A B k c s =>
  match c s with
  | Done (a, s') => k a s'
  | Fatal msg => Fatal msg
  end.

Definition getReplica : M Replica := fun s => Done (rep s, s).
Definition setReplica (r : Replica) : M unit :=
  fun s => Done (tt, mkState r (trace s)).
Definition emit (e : Event) : M unit :=
  fun s => Done (tt, mkState (rep s) (trace s ++ [e])).
Definition fatal {A} (msg : string) : M A := fun _ => Fatal msg.
(** A call of a service of the range manager. *)
Definition callEnv {A} (f : Env -> Env * A) : M A :=
  fun s => let '(e, a) := f (env (rep s)) in
           Done (a, mkState (set_env (rep s) e) (trace s)).
Definition updEnv (f : Env -> Env) : M unit :=
  fun s => Done (tt, mkState (set_env (rep s) (f (env (rep s)))) (trace s)).

(** *** [usesTimestampCache] *)

(** The sparse array [tsCacheMethods]; an index outside it gives [false]
    in [usesTimestampCache]. *)
Definition tsCacheMethods (m : Method) : bool :=
  match m with
  | Get | Put | ConditionalPut | Increment | Scan | ReverseScan | Delete
  | DeleteRange | ResolveIntent | ResolveIntentRange => true
  | _ => false
  end.

Definition isINCONSISTENT (c : ReadConsistencyType) : bool :=
  match c with INCONSISTENT => true | _ => false end.
Definition isCONSENSUS (c : ReadConsistencyType) : bool :=
  match c with CONSENSUS => true | _ => false end.

Definition usesTimestampCache (r : Request) : bool :=
  let m := req_Method r in
  if IsReadOnly m && isINCONSISTENT (h_ReadConsistency (req_Header r)) then false
  else tsCacheMethods m.

(** Generated getters of [proto]. *)
Definition GetUserPriority (h : RequestHeader) : Z :=
  match h_UserPriority h with
  | Some p => p
  | None => Default_RequestHeader_UserPriority
  end.

Definition txn_GetID (t : option Transaction) : list Z :=
  match t with
  | Some t => txn_ID t
  | None => []
  end.

(** *** Leader lease *)

Definition newNotLeaderError (r : Replica) (l : option Lease) (originNode : Z)
  : Error :=
  match l with
  | Some l =>
      if negb (lease_RaftNodeID l =? 0) then
        let d := desc r in
        let '(_, originStoreID) := DecodeRaftNodeID originNode in
        let '(_, storeID) := DecodeRaftNodeID (lease_RaftNodeID l) in
        NotLeaderError (RangeID d) (FindReplica d originStoreID) (FindReplica d storeID)
      else NotLeaderError 0 None None
  | None => NotLeaderError 0 None None
  end.

(** [DefaultLeaderLeaseDuration = time.Second], in nanoseconds. *)
Definition DefaultLeaderLeaseDuration : Z := 1000000000.

Definition proposeRaftCommand (bArgs : BatchRequest) : M cmdIDKey :=
  r ← getReplica;
  let raftCmd :=
    Proto.mkRaftCommand (RangeID (desc r)) (rm_RaftNodeID (env r)) bArgs in
  cmdID ← callEnv (fun e =>
             GetOrCreateCmdID e (b_Header bArgs) (Clock_PhysicalNow e));
  let idKey := makeCmdIDKey cmdID in
  r ← getReplica;
  setReplica (set_pendingCmds r (<[idKey := tt]> (pendingCmds r)));;
  emit (EvPropose idKey raftCmd);;
  mret idKey.

(** Receiving from the channels of a proposal. *)
Definition recv_errChan (idKey : cmdIDKey) : M (option Error) :=
  fun s => let '(r, e) := wait_errChan (rep s) idKey in
           Done (e, mkState r (trace s)).
Definition recv_done (idKey : cmdIDKey) : M ResponseWithError :=
  fun s => let '(r, rwe) := wait_done (rep s) idKey in
           Done (rwe, mkState r (trace s)).

Definition requestLeaderLease (timestamp : Timestamp) : M (option Error) :=
  let duration := DefaultLeaderLeaseDuration in
  let expiration := ts_Add timestamp duration 0 in
  r ← getReplica;
  let d := desc r in
  now ← callEnv Clock_Now;
  random ← callEnv rand_Int63;
  r ← getReplica;
  let args :=
    mkRequest LeaderLease
      (mkRequestHeader timestamp (mkClientCmdID (WallTime now) random)
         (StartKey d) [] None None CONSISTENT (RangeID d))
      (LeaseBody (mkLease timestamp expiration (rm_RaftNodeID (env r)))) in
  let bArgs := batch_Add (mkBatchRequest zeroHeader []) args in
  idKey ← proposeRaftCommand bArgs;
  err ← recv_errChan idKey;
  match err with
  | Some e => mret (Some e)
  | None => rwe ← recv_done idKey; mret (Err rwe)
  end.

Definition isLeaseRejectedError (e : option Error) : bool :=
  match e with Some LeaseRejectedError => true | _ => false end.

Definition redirectOnOrAcquireLeaderLease (timestamp : Timestamp)
  : M (option Error) :=
  r ← getReplica;
  let raftNodeID := rm_RaftNodeID (env r) in
  let l := lease r in
  if lease_Covers l timestamp then
    if lease_OwnedBy l raftNodeID then mret None
    else mret (Some (newNotLeaderError r (Some l) raftNodeID))
  else
    err ← requestLeaderLease timestamp;
    r ← getReplica;
    let l := lease r in
    if isLeaseRejectedError err && lease_Covers l timestamp
    then mret (Some (newNotLeaderError r (Some l) raftNodeID))
    else mret err.

(** *** Admission *)

Definition checkCmdHeader (r : Replica) (header : RequestHeader) : option Error :=
  if negb (desc_ContainsKeyRange (desc r)
             (KeyAddress (h_Key header)) (KeyAddress (h_EndKey header)))
  then Some (RangeKeyMismatchError (h_Key header) (h_EndKey header) (desc r))
  else None.

Definition isSome {A} (o : option A) : bool :=
  match o with Some _ => true | None => false end.

(** The loop of [checkBatchRequest]; [i] is the index of the head of
    [reqs] and [isReadOnly] the variable of that name. *)
Fixpoint checkBatchRequest_loop (bArgs : BatchRequest) (reqs : list Request)
    (i : nat) (isReadOnly : bool) : option Error :=
  match reqs with
  | [] => None
  | args :: rest =>
      let header := req_Header args in
      if Method_eqb (req_Method args) EndTransaction
         && negb (length (Requests bArgs) =? 1)%nat
      then Some (Errorf "cannot mix EndTransaction with other operations in a batch")
      else if negb (WallTime (h_Timestamp header) =? WallTime (b_Timestamp bArgs))
      then Some (Errorf "conflicting timestamp %s on call in batch at %s")
      else if negb (GetUserPriority header =? GetUserPriority (b_Header bArgs))
      then Some (Errorf "conflicting user priority on call in batch")
      else if negb (txn_Equal (h_Txn header) (h_Txn (b_Header bArgs)))
      then Some (Errorf "conflicting transaction on call in transactional batch")
      else
        let consistency :=
          if IsReadOnly (req_Method args)
             && isINCONSISTENT (h_ReadConsistency header)
          then
            if isSome (h_Txn header)
            then Some (Errorf "cannot allow inconsistent reads within a transaction")
            else None
          else if IsReadOnly (req_Method args)
                  && isCONSENSUS (h_ReadConsistency header)
          then Some (Errorf "consensus reads not implemented")
          else None in
        match consistency with
        | Some e => Some e
        | None =>
            if (i =? 0)%nat
            then checkBatchRequest_loop bArgs rest (S i)
                   (IsReadOnly (req_Method args))
            else if negb (eqb (IsReadOnly (req_Method args)) isReadOnly)
            then Some (Errorf "batch mixes read-only and write requests")
            else checkBatchRequest_loop bArgs rest (S i) isReadOnly
        end
  end.

Definition checkBatchRequest (bArgs : BatchRequest) : option Error :=
  checkBatchRequest_loop bArgs (Requests bArgs) 0 false.

(** What [checkBatchRequest] rejects in a request on its own. *)
Definition badRequest (bArgs : BatchRequest) (a : Request) : bool :=
  (Method_eqb (req_Method a) EndTransaction
   && negb (length (Requests bArgs) =? 1)%nat)
  || negb (WallTime (h_Timestamp (req_Header a)) =? WallTime (b_Timestamp bArgs))
  || negb (GetUserPriority (req_Header a) =? GetUserPriority (b_Header bArgs))
  || negb (txn_Equal (h_Txn (req_Header a)) (h_Txn (b_Header bArgs)))
  || (IsReadOnly (req_Method a)
      && isINCONSISTENT (h_ReadConsistency (req_Header a))
      && isSome (h_Txn (req_Header a)))
  || (IsReadOnly (req_Method a) && isCONSENSUS (h_ReadConsistency (req_Header a))).

(** The batches the specification has rejected, in its words: an
    [EndTransaction] together with another request; a request whose wall
    time, user priority or transaction differs from the batch's; read-only
    requests mixed with others; an inconsistent read inside a transaction;
    a read at [CONSENSUS] consistency. *)
Definition rejectedBatch (bArgs : BatchRequest) : bool :=
  let reqs := Requests bArgs in
  let some (f : Request -> bool) := existsb f reqs in
  (some (fun a => Method_eqb (req_Method a) EndTransaction)
   && negb (length reqs =? 1)%nat)
  || some (fun a => negb (WallTime (h_Timestamp (req_Header a))
                          =? WallTime (b_Timestamp bArgs)))
  || some (fun a => negb (GetUserPriority (req_Header a)
                          =? GetUserPriority (b_Header bArgs)))
  || some (fun a => negb (txn_Equal (h_Txn (req_Header a)) (h_Txn (b_Header bArgs))))
  || (some (fun a => IsReadOnly (req_Method a))
      && some (fun a => negb (IsReadOnly (req_Method a))))
  || some (fun a => IsReadOnly (req_Method a)
                    && isINCONSISTENT (h_ReadConsistency (req_Header a))
                    && isSome (h_Txn (req_Header a)))
  || some (fun a => IsReadOnly (req_Method a)
                    && isCONSENSUS (h_ReadConsistency (req_Header a))).

(** [wg.Wait()] on the wait group filled by the command queue. *)
Definition waitGroup_Wait (wg : WaitGroup) : M unit :=
  fun s => Done (tt, mkState (wait_cmdQ (rep s) wg) (trace s)).

Definition beginCmds (bArgs : BatchRequest)
  : M (list CmdKey * BatchRequest) :=
  cmdKeys ←
    (if negb (isINCONSISTENT (h_ReadConsistency (b_Header bArgs))) then
       r ← getReplica;
       let readOnly := batch_IsReadOnly bArgs in
       let spans :=
         map (fun a => mkSpan (h_Key (req_Header a)) (h_EndKey (req_Header a)))
             (Requests bArgs) in
       let wg := cmdQ_GetWait (cmdQ r) readOnly spans in
       let '(q, keys) := cmdQ_Add (cmdQ r) readOnly spans in
       setReplica (set_cmdQ r q);;
       waitGroup_Wait wg;;
       mret keys
     else mret []);
  bArgs ←
    (if ts_Equal (b_Timestamp bArgs) ZeroTimestamp
     then now ← callEnv Clock_Now; mret (b_setTimestamp bArgs now)
     else mret bArgs);
  let reqs :=
    map (fun a =>
           if ts_Equal (h_Timestamp (req_Header a)) ZeroTimestamp
           then req_setTimestamp a (b_Timestamp bArgs) else a)
        (Requests bArgs) in
  mret (cmdKeys, mkBatchRequest (b_Header bArgs) reqs).

(** The loop of [endCmds] over the requests. *)
Definition endCmds_tsCache (tc : TimestampCache) (reqs : list Request)
  : TimestampCache :=
  fold_left
    (fun tc args =>
       if usesTimestampCache args then
         let header := req_Header args in
         tsCache_Add tc (h_Key header) (h_EndKey header) (h_Timestamp header)
           (txn_GetID (h_Txn header)) (IsReadOnly (req_Method args))
       else tc)
    reqs tc.

Definition endCmds (cmdKeys : list CmdKey) (bArgs : BatchRequest)
    (err : option Error) : M unit :=
  r ← getReplica;
  let tc :=
    match err with
    | None => endCmds_tsCache (tsCache r) (Requests bArgs)
    | Some _ => tsCache r
    end in
  let q := fold_left cmdQ_Remove cmdKeys (cmdQ r) in
  setReplica (set_cmdQ (set_tsCache r tc) q).

(** The body of the first loop of [addWriteCmd] under the lock; [bTS] is
    [bArgs.Timestamp].  [forwardRead] is
    [if !rTS.Less(bArgs.Timestamp) { bArgs.Timestamp = rTS.Next() }] and
    [forwardWrite] is
    [if !wTS.Less(bArgs.Timestamp) { if header.Txn == nil {
       bArgs.Timestamp = wTS.Next() } }]. *)
Definition forwardRead (rTS bTS : Timestamp) : Timestamp :=
  if negb (ts_Less rTS bTS) then ts_Next rTS else bTS.

Definition forwardWrite (header : RequestHeader) (wTS bTS : Timestamp)
  : Timestamp :=
  if negb (ts_Less wTS bTS) then
    if negb (isSome (h_Txn header)) then ts_Next wTS else bTS
  else bTS.

Definition forwardStep (header : RequestHeader) (rTS wTS bTS : Timestamp)
  : Timestamp :=
  forwardWrite header wTS (forwardRead rTS bTS).

Fixpoint addWriteCmd_tsLoop (tc : TimestampCache) (reqs : list Request)
    (bTS : Timestamp) : Timestamp :=
  match reqs with
  | [] => bTS
  | args :: rest =>
      let header := req_Header args in
      if usesTimestampCache args then
        let '(rTS, wTS) :=
          tsCache_GetMax tc (h_Key header) (h_EndKey header)
            (txn_GetID (h_Txn header)) in
        addWriteCmd_tsLoop tc rest (forwardStep header rTS wTS bTS)
      else addWriteCmd_tsLoop tc rest bTS
  end.

(** The two loops of [addWriteCmd] between [r.Lock()] and [r.Unlock()]:
    the batch timestamp is moved past the timestamp cache, then every
    request is forwarded to it. *)
Definition addWriteCmd_locked (tc : TimestampCache) (bArgs : BatchRequest)
  : BatchRequest :=
  let bTS := addWriteCmd_tsLoop tc (Requests bArgs) (b_Timestamp bArgs) in
  let bArgs := b_setTimestamp bArgs bTS in
  mkBatchRequest (b_Header bArgs)
    (map (fun a =>
            req_setTimestamp a
              (ts_Forward (h_Timestamp (req_Header a)) (b_Timestamp bArgs)))
         (Requests bArgs)).

(** [addWriteCmd]; the batch is returned as the call leaves it behind the
    pointer [bArgs].  The wait group of the caller is not modelled. *)
Definition addWriteCmd (bArgs : BatchRequest)
  : M (BatchRequest * option BatchResponse * option Error) :=
  r ← getReplica;
  match checkCmdHeader r (b_Header bArgs) with
  | Some e => mret (bArgs, None, Some e)
  | None =>
  match checkBatchRequest bArgs with
  | Some e => mret (bArgs, None, Some e)
  | None =>
      '(cmdKeys, bArgs) ← beginCmds bArgs;
      err ← redirectOnOrAcquireLeaderLease (b_Timestamp bArgs);
      match err with
      | Some e => endCmds cmdKeys bArgs (Some e);; mret (bArgs, None, Some e)
      | None =>
          r ← getReplica;
          let bArgs := addWriteCmd_locked (tsCache r) bArgs in
          idKey ← proposeRaftCommand bArgs;
          err ← recv_errChan idKey;
          '(bReply, err) ←
            match err with
            | None => rwe ← recv_done idKey; mret (Reply rwe, Err rwe)
            | Some e => mret (None, Some e)
            end;
          endCmds cmdKeys bArgs err;;
          mret (bArgs, bReply, err)
      end
  end
  end.

(** *** Gossip and split triggers *)

Definition isInitialized (r : Replica) : bool :=
  (0 <? length (EndKey (desc r)))%nat.

Definition ContainsKey (r : Replica) (key : Key) : bool :=
  desc_ContainsKey (desc r) (KeyAddress key).

(** [bytes.HasPrefix] and [bytes.Equal]. *)
Fixpoint HasPrefix (s prefix : list Z) : bool :=
  match prefix, s with
  | [], _ => true
  | p :: prefix', x :: s' => (x =? p) && HasPrefix s' prefix'
  | _ :: _, [] => false
  end.

Fixpoint bytes_Equal (a b : list Z) : bool :=
  match a, b with
  | [], [] => true
  | x :: a', y :: b' => (x =? y) && bytes_Equal a' b'
  | _, _ => false
  end.

(** The array [configDescriptors]: key prefix and gossip key. *)
Definition configDescriptors : list (Key * string) :=
  [(ConfigZonePrefix, KeyConfigZone)].

(** The body of the loop of [maybeGossipConfigsLocked] for the descriptor
    of index [i]. *)
Definition gossipConfig (match_ : Key -> bool) (i : nat) (cd : Key * string)
  : M unit :=
  let '(keyPrefix, gossipKey) := cd in
  if match_ keyPrefix then
    r ← getReplica;
    if negb (ContainsKey r (key_PrefixEnd keyPrefix))
    then fatal "range splits configuration values for %s"
    else
      let '(configMap, hash, err) := loadConfigMap (engine r) keyPrefix in
      match err with
      | Some _ => mret tt
      | None =>
          let hashes := default ∅ (configHashes r) in
          let changed :=
            match hashes !! i with
            | Some prevHash => negb (bytes_Equal prevHash hash)
            | None => true
            end in
          if changed then
            setReplica (set_configHashes r (Some (<[i := hash]> hashes)));;
            updEnv (fun e => gossip_AddInfoProto e gossipKey configMap)
          else setReplica (set_configHashes r (Some hashes))
      end
  else mret tt.

Fixpoint gossipConfigs_loop (match_ : Key -> bool) (i : nat)
    (cds : list (Key * string)) : M unit :=
  match cds with
  | [] => mret tt
  | cd :: rest => gossipConfig match_ i cd;; gossipConfigs_loop match_ (S i) rest
  end.

Definition maybeGossipConfigsLocked (match_ : Key -> bool) : M unit :=
  r ← getReplica;
  if negb (rm_hasGossip (env r)) || negb (isInitialized r) then mret tt
  else if negb (lease_OwnedBy (lease r) (rm_RaftNodeID (env r))) then mret tt
  else
    now ← callEnv Clock_Now;
    r ← getReplica;
    if negb (lease_Covers (lease r) now) then mret tt
    else gossipConfigs_loop match_ 0 configDescriptors.

Definition maybeGossipConfigs (match_ : Key -> bool) : M unit :=
  maybeGossipConfigsLocked match_.

Definition maybeAddToSplitQueue : M unit :=
  r ← getReplica;
  let maxBytes := maxBytes r in
  if (0 <? maxBytes)
     && (maxBytes <? int64 (stats_KeyBytes (stats r) + stats_ValBytes (stats r)))
  then now ← callEnv Clock_Now; updEnv (fun e => splitQueue_MaybeAdd e now)
  else mret tt.

Definition handleSkippedIntents (args : Request) (intents : list Intent)
  : M unit :=
  match intents with
  | [] => mret tt
  | _ :: _ => updEnv (fun e => RunAsyncTask_resolve e args intents)
  end.

(** *** Apply *)

(** How the loop of [applyRaftCommandInBatch] over the requests ends:
    with the [return] of the lease check, or after the last request or a
    [break], with [bReply] and [rErr]. *)
Inductive loopEnd :=
| LoopReturn (batch : Engine) (ms : MVCCStats) (err : Error)
| LoopDone (batch : Engine) (ms : MVCCStats) (bReply : BatchResponse)
    (rErr : option Error).

Definition leaseMismatch (l : Lease) (originNode : Z) (args : Request) : bool :=
  negb (Method_eqb (req_Method args) LeaderLease)
  && (negb (lease_OwnedBy l originNode)
      || negb (lease_Covers l (h_Timestamp (req_Header args)))).

(** [r.executeCmd(batch, ms, args)]. *)
Definition runExecuteCmd (batch : Engine) (ms : MVCCStats) (args : Request)
  : M (Engine * MVCCStats * Response * list Intent * option Error) :=
  emit (EvExecute args);;
  r ← getReplica;
  let x := executeCmd r batch ms args in
  setReplica (ex_replica x);;
  mret (ex_batch x, ex_ms x, ex_reply x, ex_intents x, ex_err x).

Fixpoint applyLoop (originNode : Z) (reqs : list Request) (batch : Engine)
    (ms : MVCCStats) (bReply : BatchResponse) : M loopEnd :=
  match reqs with
  | [] => mret (LoopDone batch ms bReply None)
  | args :: rest =>
      r ← getReplica;
      let l := lease r in
      if leaseMismatch l originNode args
      then mret (LoopReturn batch ms (newNotLeaderError r (Some l) originNode))
      else
        '(batch, ms, reply, intents, err) ← runExecuteCmd batch ms args;
        r ← getReplica;
        (if originNode =? rm_RaftNodeID (env r)
         then handleSkippedIntents args intents else mret tt);;
        match err with
        | None =>
            let reply :=
              mkResponse (h_Timestamp (req_Header args)) (resp_Body reply) in
            applyLoop originNode rest batch ms (br_Add bReply reply)
        | Some e =>
            mret (LoopDone batch ms (mkBatchResponse ZeroTimestamp []) (Some e))
        end
  end.

(** [r.rm.Engine().NewBatch()]. *)
Definition NewBatch : M Engine := r ← getReplica; mret (engine r).

Definition applyRaftCommandInBatch (index : Z) (originNode : Z)
    (bArgs : BatchRequest) (ms : MVCCStats)
  : M (Engine * MVCCStats * option BatchResponse * option Error) :=
  batch ← NewBatch;
  let cached :=
    if batch_IsWrite bArgs
    then Some (respCache_GetResponse batch (h_CmdID (b_Header bArgs)))
    else None in
  match cached with
  | Some (_, Some readErr) =>
      mret (batch, ms, None,
            Some (newReplicaCorruptionError
                    [Some (Errorf "could not read from response cache");
                     Some readErr]))
  | Some (mkResponseWithError (Some reply) err, None) =>
      mret (batch, ms, Some reply, err)
  | _ =>
      let bReply := mkBatchResponse (b_Timestamp bArgs) [] in
      e ← applyLoop originNode (Requests bArgs) batch ms bReply;
      match e with
      | LoopReturn batch ms err => mret (batch, ms, None, Some err)
      | LoopDone batch ms bReply rErr =>
          if batch_IsWrite bArgs then
            batch ←
              match rErr with
              | None =>
                  r ← getReplica;
                  let '(st, batch, err) :=
                    MergeMVCCStats (stats r) batch ms
                      (WallTime (b_Timestamp bArgs)) in
                  match err with
                  | Some _ => fatal "setting mvcc stats in a batch should never fail: %s"
                  | None => setReplica (set_stats r st);; mret batch
                  end
              | Some _ => NewBatch
              end;
            let rwe := mkResponseWithError (Some bReply) rErr in
            emit (EvPutResponse (h_CmdID (b_Header bArgs)) rwe);;
            let '(batch, err) :=
              respCache_PutResponse batch (h_CmdID (b_Header bArgs)) rwe in
            match err with
            | Some _ =>
                fatal "putting a response cache entry in a batch should never fail: %s"
            | None => mret (batch, ms, Some bReply, rErr)
            end
          else mret (batch, ms, Some bReply, rErr)
      end
  end.

Definition applyRaftCommand (index : Z) (originNode : Z) (bArgs : BatchRequest)
  : M (option BatchResponse * option Error) :=
  if index <=? 0 then fatal "raft command index is <= 0"
  else
    r ← getReplica;
    let oldIndex := appliedIndex r in
    if index <=? oldIndex then
      mret (None,
            Some (newReplicaCorruptionError
                    [Some (Errorf "applied index moved backwards: %d >= %d")]))
    else
      '(batch, ms, bReply, rErr) ←
        applyRaftCommandInBatch index originNode bArgs zeroMVCCStats;
      r ← getReplica;
      let '(batch, err) := setAppliedIndex batch (RangeID (desc r)) index in
      match err with
      | Some _ => fatal "setting applied index in a batch should never fail: %s"
      | None =>
          rErr ←
            match batch_Commit batch with
            | Some err =>
                mret (Some (newReplicaCorruptionError
                              [Some (Errorf "could not commit batch"); Some err; rErr]))
            | None =>
                setReplica (set_appliedIndex (set_engine r batch) index);;
                mret rErr
            end;
          (if negb (isSome rErr) && batch_IsWrite bArgs then
             updEnv (fun e => eventFeed_updateRange e (batch_Method bArgs) ms);;
             maybeAddToSplitQueue;;
             let key := h_Key (b_Header bArgs) in
             if key_Less key SystemMax && negb (isSome (h_Txn (b_Header bArgs)))
             then maybeGossipConfigs (fun configPrefix => HasPrefix key configPrefix)
             else mret tt
           else mret tt);;
          mret (bReply, rErr)
      end.

Definition maybeSetCorrupt (err : option Error) : option Error :=
  match err with
  | Some (replicaCorruptionError _ cause) => Some (replicaCorruptionError true cause)
  | _ => err
  end.

Definition processRaftCommand (idKey : cmdIDKey) (index : Z)
    (raftCmd : Proto.RaftCommand BatchRequest) : M (option Error) :=
  if index =? 0 then fatal "processRaftCommand requires a non-zero index"
  else
    r ← getReplica;
    let cmd := pendingCmds r !! idKey in
    setReplica (set_pendingCmds r (delete idKey (pendingCmds r)));;
    '(bReply, err) ←
      applyRaftCommand index (Proto.OriginNodeID raftCmd) (Proto.Cmd raftCmd);
    let err := maybeSetCorrupt err in
    (if isSome cmd then emit (EvDone idKey (mkResponseWithError bReply err))
     else mret tt);;
    mret err.

(** What a call leaves alone: applied index, engine, lease and the list of
    events. *)
Definition keeps (s s' : State) : Prop :=
  appliedIndex (rep s') = appliedIndex (rep s) /\
  engine (rep s') = engine (rep s) /\
  lease (rep s') = lease (rep s) /\
  trace s' = trace s.

(** A sequence of entries handed to [applyRaftCommand] one after the
    other; a fatal error ends the process and the sequence. *)
Fixpoint applyAll (cmds : list (Z * Z * BatchRequest)) : M unit :=
  match cmds with
  | [] => mret tt
  | (index, originNode, bArgs) :: rest =>
      applyRaftCommand index originNode bArgs;; applyAll rest
  end.

End replica.
End Storage.

(** ** A small store

    One instance of the collaborators, on which the model runs: a key-value
    list with the response cache beside it, a clock that ticks, a command
    queue of numbered entries and a timestamp cache that remembers every
    access. *)
Module Toy.
Import Storage.

Record toyEngine := mkToyEngine {
  kv : list (Key * list Z);
  cache : list (ClientCmdID * ResponseWithError);
  applied : Z
}.

Record toyEnv := mkToyEnv {
  clock : Z;
  node : Z;
  gossiped : list string;
  tasks : nat
}.

Definition toyQueue : Type := nat * list nat.  (* next key, live keys *)
Definition toyCache : Type := list (Key * Timestamp * list Z * bool).

Definition toyReplica : Type := Replica_ toyEngine toyQueue toyCache (Z * Z) toyEnv.

Definition less (a b : Timestamp) : bool :=
  (WallTime a <? WallTime b)
  || ((WallTime a =? WallTime b) && (Logical a <? Logical b)).

Definition tsmax (a b : Timestamp) : Timestamp := if less a b then b else a.

Definition bytes_eqb (a b : list Z) : bool := bool_decide (a = b).

Definition cmdID_eqb (a b : ClientCmdID) : bool :=
  (cmd_WallTime a =? cmd_WallTime b) && (cmd_Random a =? cmd_Random b).

Definition isRead (m : Method) : bool :=
  match m with Get | Scan | ReverseScan => true | _ => false end.

Definition lookupCache (e : toyEngine) (id : ClientCmdID) : ResponseWithError :=
  match List.find (fun p => cmdID_eqb (fst p) id) (cache e) with
  | Some (_, rwe) => rwe
  | None => mkResponseWithError None None
  end.

Definition getMax (tc : toyCache) (key : Key) (txnID : list Z) (readOnly : bool)
  : Timestamp :=
  fold_left
    (fun acc '(k, ts, id, ro) =>
       if bytes_eqb k key && negb (bytes_eqb id txnID && negb (bytes_eqb id []))
          && eqb ro readOnly
       then tsmax acc ts else acc)
    tc ZeroTimestamp.

Definition execute (r : toyReplica) (batch : toyEngine) (ms : Z * Z)
    (args : Request) : Executed toyReplica toyEngine (Z * Z) :=
  let key := h_Key (req_Header args) in
  match req_Method args, req_Body args with
  | Put, OpaqueBody v =>
      mkExecuted r (mkToyEngine ((key, v) :: kv batch) (cache batch) (applied batch))
        (fst ms + Z.of_nat (length key), snd ms + Z.of_nat (length v))
        (mkResponse ZeroTimestamp []) [] None
  | Get, _ =>
      let v := match List.find (fun p => bytes_eqb (fst p) key) (kv batch) with
               | Some (_, v) => v
               | None => []
               end in
      mkExecuted r batch ms (mkResponse ZeroTimestamp v) [] None
  | LeaderLease, LeaseBody l =>
      if less (Start l) (Expiration (lease r))
         && negb (lease_RaftNodeID (lease r) =? lease_RaftNodeID l)
      then mkExecuted r batch ms (mkResponse ZeroTimestamp []) []
             (Some LeaseRejectedError)
      else
        mkExecuted
          (mkReplica (desc r) (stats r) (maxBytes r) (lastIndex r) (appliedIndex r)
             (configHashes r) (systemDBHash r) l (cmdQ r) (tsCache r)
             (pendingCmds r) (engine r) (env r))
          batch ms (mkResponse ZeroTimestamp []) [] None
  | _, _ =>
      mkExecuted r batch ms (mkResponse ZeroTimestamp []) []
        (Some (OtherError "unsupported"))
  end.

#[global] Instance toy : Collaborators := {|
  Engine := toyEngine;
  CommandQueue := toyQueue;
  CmdKey := nat;
  WaitGroup := nat;
  TimestampCache := toyCache;
  RangeStats := Z * Z;
  MVCCStats := Z * Z;
  ConfigMap := list Z;
  Env := toyEnv;
  ts_Less := less;
  ts_Equal := fun a b => (WallTime a =? WallTime b) && (Logical a =? Logical b);
  ts_Next := fun t => mkTimestamp (WallTime t) (Logical t + 1);
  ts_Add := fun t w l => mkTimestamp (WallTime t + w) (Logical t + l);
  ts_Forward := tsmax;
  lease_Covers := fun l t => less t (Expiration l);
  lease_OwnedBy := fun l id => lease_RaftNodeID l =? id;
  txn_Equal := fun a b =>
    match a, b with
    | None, None => true
    | Some x, Some y => bytes_eqb (txn_ID x) (txn_ID y)
    | _, _ => false
    end;
  IsReadOnly := isRead;
  IsWrite := fun m => negb (isRead m);
  batch_IsReadOnly := fun b =>
    existsb (fun a => isRead (req_Method a)) (Requests b)
    && forallb (fun a => isRead (req_Method a)) (Requests b);
  batch_IsWrite := fun b => existsb (fun a => negb (isRead (req_Method a))) (Requests b);
  batch_Add := fun b a => mkBatchRequest (b_Header b) (Requests b ++ [a]);
  batch_Method := fun _ => OtherMethod 0;
  br_Add := fun br r => mkBatchResponse (br_Timestamp br) (Responses br ++ [r]);
  Default_RequestHeader_UserPriority := 1;
  GetOrCreateCmdID := fun e h wall =>
    if cmdID_eqb (h_CmdID h) (mkClientCmdID 0 0)
    then (e, mkClientCmdID wall 7) else (e, h_CmdID h);
  DecodeRaftNodeID := fun id => (id / 2 ^ 32, id mod 2 ^ 32);
  FindReplica := fun d store => List.find (fun x => StoreID x =? store) (Replicas d);
  desc_ContainsKey := fun _ _ => true;
  desc_ContainsKeyRange := fun _ _ _ => true;
  key_Less := fun _ _ => false;
  key_PrefixEnd := fun k => k;
  KeyAddress := fun k => k;
  SystemMax := [];
  ConfigZonePrefix := [];
  KeyConfigZone := "zones";
  makeCmdIDKey := fun id =>
    String (Ascii.ascii_of_N (Z.to_N (cmd_WallTime id)))
      (String (Ascii.ascii_of_N (Z.to_N (cmd_Random id))) EmptyString);
  cmdQ_GetWait := fun q _ _ => length (snd q);
  cmdQ_Add := fun q _ spans =>
    let keys := seq (fst q) (length spans) in
    ((fst q + length spans, snd q ++ keys)%nat, keys);
  cmdQ_Remove := fun q k => (fst q, List.filter (fun x => negb (x =? k)%nat) (snd q));
  tsCache_GetMax := fun tc key _ txnID =>
    (getMax tc key txnID true, getMax tc key txnID false);
  tsCache_Add := fun tc key _ ts txnID ro => tc ++ [(key, ts, txnID, ro)];
  respCache_GetResponse := fun e id => (lookupCache e id, None);
  respCache_PutResponse := fun e id rwe =>
    (mkToyEngine (kv e) ((id, rwe) :: cache e) (applied e), None);
  setAppliedIndex := fun e _ i => (mkToyEngine (kv e) (cache e) i, None);
  MergeMVCCStats := fun st e ms _ => ((fst st + fst ms, snd st + snd ms), e, None);
  stats_KeyBytes := fst;
  stats_ValBytes := snd;
  zeroMVCCStats := (0, 0);
  executeCmd := execute;
  loadConfigMap := fun _ _ => ([], [], None);
  batch_Commit := fun _ => None;
  rm_RaftNodeID := node;
  rm_hasGossip := fun _ => false;
  Clock_Now := fun e =>
    (mkToyEnv (clock e + 1) (node e) (gossiped e) (tasks e),
     mkTimestamp (clock e + 1) 0);
  Clock_PhysicalNow := clock;
  rand_Int63 := fun e => (e, 42);
  gossip_AddInfoProto := fun e k _ =>
    mkToyEnv (clock e) (node e) (k :: gossiped e) (tasks e);
  eventFeed_updateRange := fun e _ _ => e;
  splitQueue_MaybeAdd := fun e _ => e;
  RunAsyncTask_resolve := fun e _ _ =>
    mkToyEnv (clock e) (node e) (gossiped e) (S (tasks e));
  wait_cmdQ := fun r _ => r;
  wait_errChan := fun r _ => (r, None);
  wait_done := fun r _ => (r, mkResponseWithError None None)
|}.

(** Node 1 holds the lease until wall time 1000; key [107] ("k") was read
    at wall time 50 by a transaction. *)
Definition lease1 : Lease := mkLease ZeroTimestamp (mkTimestamp 1000 0) 1.

Definition replica0 (nodeID applied : Z) : Replica :=
  mkReplica (mkRangeDescriptor 1 [] [255] [mkReplicaDescriptor 1 1; mkReplicaDescriptor 2 2])
    (0, 0) 0 0 applied None [] lease1 (0%nat, []) [([107], mkTimestamp 50 0, [9], true)]
    ∅ (mkToyEngine [] [] applied) (mkToyEnv 10 nodeID [] 0).

Definition state0 (nodeID applied : Z) : State := mkState (replica0 nodeID applied) [].

(** The answer to command 42, a [Put] at wall time 100, and a replica that
    has applied it at index 1. *)
Definition reply42 : BatchResponse :=
  mkBatchResponse (mkTimestamp 100 0) [mkResponse (mkTimestamp 100 0) []].

Definition state1 : State :=
  mkState
    (set_engine (replica0 1 1)
       (mkToyEngine [([107], [118])]
          [(mkClientCmdID 42 1, mkResponseWithError (Some reply42) None)] 1))
    [].

Definition header (ts : Z) (cmd : Z) : RequestHeader :=
  mkRequestHeader (mkTimestamp ts 0) (mkClientCmdID cmd 1) [107] [] None None
    CONSISTENT 1.

Definition put (ts cmd : Z) (v : list Z) : Request :=
  mkRequest Put (header ts cmd) (OpaqueBody v).

Definition putBatch (ts cmd : Z) (v : list Z) : BatchRequest :=
  mkBatchRequest (header ts cmd) [put ts cmd v].

End Toy.
Module PrivilegeAudit.
Import Privilege.

Record UserPrivilegeString := mkUserPrivilegeString {
  ups_User : string;
  ups_Privileges : string
}.

Section audit.
Variable ALL : Kind.
Variable RootUser : string.
(** [privilege.ListFromBitField(bits).SortedString()], of package
    [privilege]. *)
Variable SortedString : Z -> string.

(** [Validate]; the receiver may be [nil].  The result is the text of the
    error, [None] for [nil]. *)
Definition Validate (p : option PrivilegeDescriptor) : option string :=
  match p with
  | None => Some "missing privilege descriptor"
  | Some p =>
      match findUser p RootUser with
      | None => Some (RootUser +:+ " user does not have privileges")
      | Some userPriv =>
          if Z.land (Privileges userPriv) (bit ALL) =? 0
          then Some (RootUser +:+ " user does not have ALL privileges")
          else None
      end
  end.

Definition Show (p : PrivilegeDescriptor) : list UserPrivilegeString :=
  fold_left
    (fun ret userPriv =>
       ret ++ [mkUserPrivilegeString (User userPriv)
                 (SortedString (Privileges userPriv))])
    (Users p) [].
End audit.
End PrivilegeAudit.

(** ** The other messages of [proto/internal.pb.go] *)
Module Internal.
Import Proto.

(** [encodeFixed64Internal] and [encodeFixed32Internal]: the bytes written
    from [offset] on, least significant first. *)
Definition encodeFixed64Internal (v : Z) : bytes :=
  [uint8 v; uint8 (Z.shiftr v 8); uint8 (Z.shiftr v 16); uint8 (Z.shiftr v 24);
   uint8 (Z.shiftr v 32); uint8 (Z.shiftr v 40); uint8 (Z.shiftr v 48);
   uint8 (Z.shiftr v 56)].

Definition encodeFixed32Internal (v : Z) : bytes :=
  [uint8 v; uint8 (Z.shiftr v 8); uint8 (Z.shiftr v 16); uint8 (Z.shiftr v 24)].

(** [data[i]], which panics outside [0, len(data)). *)
Definition byteAt (data : bytes) (i : Z) : result Z :=
  if (0 <=? i) && (i <? Z.of_nat (length data))
  then match data !! Z.to_nat i with
       | Some b => Ok b
       | None => Panic
       end
  else Panic.

(** The fixed 64-bit read of the decoders:
    [if (iNdEx + 8) > l { return io.ErrUnexpectedEOF }; iNdEx += 8;
     v = uint64(data[iNdEx-8]); v |= uint64(data[iNdEx-7]) << 8; ...]. *)
Definition readFixed64At (data : bytes) (iNdEx : Z) : result (Z * Z) :=
  let l := Z.of_nat (length data) in
  if l <? int (iNdEx + 8) then Err ErrUnexpectedEOF
  else
    let iNdEx := int (iNdEx + 8) in
    b0 ← byteAt data (int (iNdEx - 8));
    b1 ← byteAt data (int (iNdEx - 7));
    b2 ← byteAt data (int (iNdEx - 6));
    b3 ← byteAt data (int (iNdEx - 5));
    b4 ← byteAt data (int (iNdEx - 4));
    b5 ← byteAt data (int (iNdEx - 3));
    b6 ← byteAt data (int (iNdEx - 2));
    b7 ← byteAt data (int (iNdEx - 1));
    let v := uint64 b0 in
    let v := Z.lor v (uint64 (Z.shiftl (uint64 b1) 8)) in
    let v := Z.lor v (uint64 (Z.shiftl (uint64 b2) 16)) in
    let v := Z.lor v (uint64 (Z.shiftl (uint64 b3) 24)) in
    let v := Z.lor v (uint64 (Z.shiftl (uint64 b4) 32)) in
    let v := Z.lor v (uint64 (Z.shiftl (uint64 b5) 40)) in
    let v := Z.lor v (uint64 (Z.shiftl (uint64 b6) 48)) in
    let v := Z.lor v (uint64 (Z.shiftl (uint64 b7) 56)) in
    Ok (v, iNdEx).

(** The header of an embedded message or byte string in the decoders:
    [msglen] is read, then
    [if msglen < 0 { return ErrInvalidLengthInternal };
     postIndex := iNdEx + msglen;
     if postIndex > l { return io.ErrUnexpectedEOF }]
    and [data[iNdEx:postIndex]] is taken. *)
Definition readBytesAt (data : bytes) (iNdEx : Z) : result (bytes * Z) :=
  let l := Z.of_nat (length data) in
  '(msglen, iNdEx) ← readVarintAt int data iNdEx 0;
  if msglen <? 0 then Err ErrInvalidLengthInternal
  else
    let postIndex := int (iNdEx + msglen) in
    if l <? postIndex then Err ErrUnexpectedEOF
    else
      sub ← slice data iNdEx postIndex;
      Ok (sub, postIndex).

(** *** [InternalTimeSeriesSample]

    A [float64] is kept as its bit pattern, the [uint64] that
    [math.Float64bits] gives and [math.Float64frombits] takes. *)
Record InternalTimeSeriesSample := mkInternalTimeSeriesSample {
  Offset : Z;        (* int32 *)
  Count : Z;         (* uint32 *)
  Sum : Z;           (* float64 *)
  Max : option Z;    (* *float64 *)
  Min : option Z     (* *float64 *)
}.

Definition InternalTimeSeriesSample_Size (m : InternalTimeSeriesSample) : Z :=
  let n := 1 + sovInternal (uint64 (Offset m)) in
  let n := n + (1 + sovInternal (uint64 (Count m))) in
  let n := n + 9 in
  let n := if Max m is Some _ then n + 9 else n in
  let n := if Min m is Some _ then n + 9 else n in
  n.

Definition InternalTimeSeriesSample_MarshalTo (m : InternalTimeSeriesSample)
  : bytes :=
  [8] ++ encodeVarintInternal (uint64 (Offset m)) ++
  [48] ++ encodeVarintInternal (uint64 (Count m)) ++
  [57] ++ encodeFixed64Internal (uint64 (Sum m)) ++
  (if Max m is Some x then [65] ++ encodeFixed64Internal (uint64 x) else []) ++
  (if Min m is Some x then [73] ++ encodeFixed64Internal (uint64 x) else []).

Definition InternalTimeSeriesSample_Marshal (m : InternalTimeSeriesSample)
  : result bytes :=
  let size := InternalTimeSeriesSample_Size m in
  let out := InternalTimeSeriesSample_MarshalTo m in
  if Z.of_nat (length out) <=? size then Ok out else Panic.

Definition InternalTimeSeriesSample_field (m : InternalTimeSeriesSample)
    (fieldNum wireType : Z) (data : bytes) (iNdEx : Z)
  : option (result (InternalTimeSeriesSample * Z)) :=
  if fieldNum =? 1 then Some (
    if negb (wireType =? 0) then Err (ErrWrongWireType wireType "Offset")
    else
      '(x, iNdEx) ← readVarintAt int32 data iNdEx 0;
      Ok (mkInternalTimeSeriesSample x (Count m) (Sum m) (Max m) (Min m), iNdEx))
  else if fieldNum =? 6 then Some (
    if negb (wireType =? 0) then Err (ErrWrongWireType wireType "Count")
    else
      '(x, iNdEx) ← readVarintAt uint32 data iNdEx 0;
      Ok (mkInternalTimeSeriesSample (Offset m) x (Sum m) (Max m) (Min m), iNdEx))
  else if fieldNum =? 7 then Some (
    if negb (wireType =? 1) then Err (ErrWrongWireType wireType "Sum")
    else
      '(v, iNdEx) ← readFixed64At data iNdEx;
      Ok (mkInternalTimeSeriesSample (Offset m) (Count m) v (Max m) (Min m), iNdEx))
  else if fieldNum =? 8 then Some (
    if negb (wireType =? 1) then Err (ErrWrongWireType wireType "Max")
    else
      '(v, iNdEx) ← readFixed64At data iNdEx;
      Ok (mkInternalTimeSeriesSample (Offset m) (Count m) (Sum m) (Some v) (Min m),
          iNdEx))
  else if fieldNum =? 9 then Some (
    if negb (wireType =? 1) then Err (ErrWrongWireType wireType "Min")
    else
      '(v, iNdEx) ← readFixed64At data iNdEx;
      Ok (mkInternalTimeSeriesSample (Offset m) (Count m) (Sum m) (Max m) (Some v),
          iNdEx))
  else None.

Definition InternalTimeSeriesSample_Unmarshal (m : InternalTimeSeriesSample)
    (data : bytes) : result InternalTimeSeriesSample :=
  unmarshalLoop InternalTimeSeriesSample_field (length data) m data 0.

(** The fields are in the range of their Go types. *)
Definition InternalTimeSeriesSample_valid (m : InternalTimeSeriesSample) : Prop :=
  - 2 ^ 31 <= Offset m < 2 ^ 31 /\
  0 <= Count m < 2 ^ 32 /\
  0 <= Sum m < 2 ^ 64 /\
  (forall x, Max m = Some x -> 0 <= x < 2 ^ 64) /\
  (forall x, Min m = Some x -> 0 <= x < 2 ^ 64).

(** What decoding the bytes of [m] leaves in a receiver that held [m0]:
    a field that is not on the wire keeps the value of the receiver. *)
Definition InternalTimeSeriesSample_merge (m0 m : InternalTimeSeriesSample)
  : InternalTimeSeriesSample :=
  mkInternalTimeSeriesSample (Offset m) (Count m) (Sum m)
    (if Max m is Some x then Some x else Max m0)
    (if Min m is Some x then Some x else Min m0).

(** [&InternalTimeSeriesSample{}]. *)
Definition zeroSample : InternalTimeSeriesSample :=
  mkInternalTimeSeriesSample 0 0 0 None None.

(** *** [InternalTimeSeriesData]

    The elements of [Samples] are messages: [Size] and [MarshalTo]
    dereference every element. *)
Record InternalTimeSeriesData := mkInternalTimeSeriesData {
  StartTimestampNanos : Z;   (* int64 *)
  SampleDurationNanos : Z;   (* int64 *)
  Samples : list InternalTimeSeriesSample
}.

Definition InternalTimeSeriesData_Size (m : InternalTimeSeriesData) : Z :=
  let n := 1 + sovInternal (uint64 (StartTimestampNanos m)) in
  let n := n + (1 + sovInternal (uint64 (SampleDurationNanos m))) in
  fold_left
    (fun n e =>
       let l := InternalTimeSeriesSample_Size e in
       n + (1 + l + sovInternal (uint64 l)))
    (Samples m) n.

Definition InternalTimeSeriesData_MarshalTo (m : InternalTimeSeriesData) : bytes :=
  fold_left
    (fun out msg =>
       out ++ [26] ++
       encodeVarintInternal (uint64 (InternalTimeSeriesSample_Size msg)) ++
       InternalTimeSeriesSample_MarshalTo msg)
    (Samples m)
    ([8] ++ encodeVarintInternal (uint64 (StartTimestampNanos m)) ++
     [16] ++ encodeVarintInternal (uint64 (SampleDurationNanos m))).

Definition InternalTimeSeriesData_Marshal (m : InternalTimeSeriesData)
  : result bytes :=
  let size := InternalTimeSeriesData_Size m in
  let out := InternalTimeSeriesData_MarshalTo m in
  if Z.of_nat (length out) <=? size then Ok out else Panic.

Definition InternalTimeSeriesData_field (m : InternalTimeSeriesData)
    (fieldNum wireType : Z) (data : bytes) (iNdEx : Z)
  : option (result (InternalTimeSeriesData * Z)) :=
  if fieldNum =? 1 then Some (
    if negb (wireType =? 0)
    then Err (ErrWrongWireType wireType "StartTimestampNanos")
    else
      '(x, iNdEx) ← readVarintAt int64 data iNdEx 0;
      Ok (mkInternalTimeSeriesData x (SampleDurationNanos m) (Samples m), iNdEx))
  else if fieldNum =? 2 then Some (
    if negb (wireType =? 0)
    then Err (ErrWrongWireType wireType "SampleDurationNanos")
    else
      '(x, iNdEx) ← readVarintAt int64 data iNdEx 0;
      Ok (mkInternalTimeSeriesData (StartTimestampNanos m) x (Samples m), iNdEx))
  else if fieldNum =? 3 then Some (
    if negb (wireType =? 2) then Err (ErrWrongWireType wireType "Samples")
    else
      '(sub, postIndex) ← readBytesAt data iNdEx;
      e ← InternalTimeSeriesSample_Unmarshal zeroSample sub;
      Ok (mkInternalTimeSeriesData (StartTimestampNanos m) (SampleDurationNanos m)
            (Samples m ++ [e]),
          postIndex))
  else None.

Definition InternalTimeSeriesData_Unmarshal (m : InternalTimeSeriesData)
    (data : bytes) : result InternalTimeSeriesData :=
  unmarshalLoop InternalTimeSeriesData_field (length data) m data 0.

Definition InternalTimeSeriesData_valid (m : InternalTimeSeriesData) : Prop :=
  - 2 ^ 63 <= StartTimestampNanos m < 2 ^ 63 /\
  - 2 ^ 63 <= SampleDurationNanos m < 2 ^ 63 /\
  Forall InternalTimeSeriesSample_valid (Samples m).

(** *** [RaftSnapshotData_KeyValue]

    A byte slice field is [nil] or a slice, which may be empty. *)
Record RaftSnapshotData_KeyValue := mkKeyValue {
  kv_Key : option bytes;
  kv_Value : option bytes
}.

Definition RaftSnapshotData_KeyValue_Size (m : RaftSnapshotData_KeyValue) : Z :=
  let n := 0 in
  let n := if kv_Key m is Some k
           then let l := Z.of_nat (length k) in n + (1 + l + sovInternal (uint64 l))
           else n in
  let n := if kv_Value m is Some v
           then let l := Z.of_nat (length v) in n + (1 + l + sovInternal (uint64 l))
           else n in
  n.

Definition RaftSnapshotData_KeyValue_MarshalTo (m : RaftSnapshotData_KeyValue)
  : bytes :=
  (if kv_Key m is Some k
   then [10] ++ encodeVarintInternal (uint64 (Z.of_nat (length k))) ++ k else []) ++
  (if kv_Value m is Some v
   then [18] ++ encodeVarintInternal (uint64 (Z.of_nat (length v))) ++ v else []).

Definition RaftSnapshotData_KeyValue_Marshal (m : RaftSnapshotData_KeyValue)
  : result bytes :=
  let size := RaftSnapshotData_KeyValue_Size m in
  let out := RaftSnapshotData_KeyValue_MarshalTo m in
  if Z.of_nat (length out) <=? size then Ok out else Panic.

Definition RaftSnapshotData_KeyValue_field (m : RaftSnapshotData_KeyValue)
    (fieldNum wireType : Z) (data : bytes) (iNdEx : Z)
  : option (result (RaftSnapshotData_KeyValue * Z)) :=
  if fieldNum =? 1 then Some (
    if negb (wireType =? 2) then Err (ErrWrongWireType wireType "Key")
    else
      '(sub, postIndex) ← readBytesAt data iNdEx;
      Ok (mkKeyValue (Some sub) (kv_Value m), postIndex))
  else if fieldNum =? 2 then Some (
    if negb (wireType =? 2) then Err (ErrWrongWireType wireType "Value")
    else
      '(sub, postIndex) ← readBytesAt data iNdEx;
      Ok (mkKeyValue (kv_Key m) (Some sub), postIndex))
  else None.

Definition RaftSnapshotData_KeyValue_Unmarshal (m : RaftSnapshotData_KeyValue)
    (data : bytes) : result RaftSnapshotData_KeyValue :=
  unmarshalLoop RaftSnapshotData_KeyValue_field (length data) m data 0.

Definition RaftSnapshotData_KeyValue_merge (m0 m : RaftSnapshotData_KeyValue)
  : RaftSnapshotData_KeyValue :=
  mkKeyValue (if kv_Key m is Some k then Some k else kv_Key m0)
             (if kv_Value m is Some v then Some v else kv_Value m0).

(** [&RaftSnapshotData_KeyValue{}]. *)
Definition zeroKeyValue : RaftSnapshotData_KeyValue := mkKeyValue None None.

(** *** [RaftSnapshotData] *)
Section RaftSnapshotData.

(** [RangeDescriptor] and its codec are generated into [proto/data.pb.go],
    which is not among the sources. *)
Variable RangeDescriptor : Type.
Variable RangeDescriptor_Size : RangeDescriptor -> Z.
Variable RangeDescriptor_MarshalTo : RangeDescriptor -> result bytes.
Variable RangeDescriptor_Unmarshal :
  RangeDescriptor -> bytes -> result RangeDescriptor.

Record RaftSnapshotData := mkRaftSnapshotData {
  snap_RangeDescriptor : RangeDescriptor;
  KV : list RaftSnapshotData_KeyValue
}.

Definition RaftSnapshotData_Size (m : RaftSnapshotData) : Z :=
  let l := RangeDescriptor_Size (snap_RangeDescriptor m) in
  let n := 1 + l + sovInternal (uint64 l) in
  fold_left
    (fun n e =>
       let l := RaftSnapshotData_KeyValue_Size e in
       n + (1 + l + sovInternal (uint64 l)))
    (KV m) n.

Definition RaftSnapshotData_MarshalTo (m : RaftSnapshotData) : result bytes :=
  let head :=
    [10] ++ encodeVarintInternal
              (uint64 (RangeDescriptor_Size (snap_RangeDescriptor m))) in
  body ← RangeDescriptor_MarshalTo (snap_RangeDescriptor m);
  Ok (fold_left
        (fun out msg =>
           out ++ [18] ++
           encodeVarintInternal (uint64 (RaftSnapshotData_KeyValue_Size msg)) ++
           RaftSnapshotData_KeyValue_MarshalTo msg)
        (KV m) (head ++ body)).

Definition RaftSnapshotData_Marshal (m : RaftSnapshotData) : result bytes :=
  let size := RaftSnapshotData_Size m in
  out ← RaftSnapshotData_MarshalTo m;
  if Z.of_nat (length out) <=? size then Ok out else Panic.

Definition RaftSnapshotData_field (m : RaftSnapshotData)
    (fieldNum wireType : Z) (data : bytes) (iNdEx : Z)
  : option (result (RaftSnapshotData * Z)) :=
  if fieldNum =? 1 then Some (
    if negb (wireType =? 2) then Err (ErrWrongWireType wireType "RangeDescriptor")
    else
      '(sub, postIndex) ← readBytesAt data iNdEx;
      d ← RangeDescriptor_Unmarshal (snap_RangeDescriptor m) sub;
      Ok (mkRaftSnapshotData d (KV m), postIndex))
  else if fieldNum =? 2 then Some (
    if negb (wireType =? 2) then Err (ErrWrongWireType wireType "KV")
    else
      '(sub, postIndex) ← readBytesAt data iNdEx;
      e ← RaftSnapshotData_KeyValue_Unmarshal zeroKeyValue sub;
      Ok (mkRaftSnapshotData (snap_RangeDescriptor m) (KV m ++ [e]), postIndex))
  else None.

Definition RaftSnapshotData_Unmarshal (m : RaftSnapshotData) (data : bytes)
  : result RaftSnapshotData :=
  unmarshalLoop RaftSnapshotData_field (length data) m data 0.

End RaftSnapshotData.

Arguments mkRaftSnapshotData {RangeDescriptor} _ _.
Arguments snap_RangeDescriptor {RangeDescriptor} _.
Arguments KV {RangeDescriptor} _.

End Internal.

(** ** The replica: dispatch and the read-only path *)
Module Dispatch.
Import Storage.

Section dispatch.
Context {C : Collaborators}.

(** The loop of [setBatchTimestamps]; [i] is the index of the head of
    [reqs], [bTS] is [bArgs.Timestamp]. *)
Fixpoint setBatchTimestamps_loop (bTS : Timestamp) (i : nat) (reqs : list Request)
  : list Request :=
  match reqs with
  | [] => []
  | args :: rest =>
      (if negb (Method_eqb (req_Method args) PushTxn)
       then req_setTimestamp args
              (ts_Forward (h_Timestamp (req_Header args))
                 (ts_Add bTS 0 (int32 (Z.of_nat i))))
       else args)
      :: setBatchTimestamps_loop bTS (S i) rest
  end.

(** [setBatchTimestamps]; the batch is returned as the call leaves it behind
    the pointer [bArgs]. *)
Definition setBatchTimestamps (bArgs : BatchRequest) : BatchRequest :=
  if isSome (h_Txn (b_Header bArgs))
     || ts_Equal (b_Timestamp bArgs) ZeroTimestamp
     || negb (batch_IsWrite bArgs)
  then bArgs
  else mkBatchRequest (b_Header bArgs)
         (setBatchTimestamps_loop (b_Timestamp bArgs) 0 (Requests bArgs)).

(** [r.executeCmd(r.rm.Engine(), nil, args)]: the command runs on the engine
    of the replica itself and without statistics.  The result is the replica
    as the call leaves it, and the three results of [executeCmd]. *)
Variable executeCmd_onEngine :
  Replica -> Request -> Replica * Response * list Intent * option Error.

(** The loop of [addReadOnlyCmd] over the requests, with [bReply] and
    [rErr] as it leaves them. *)
Fixpoint addReadOnlyCmd_loop (reqs : list Request) (bReply : BatchResponse)
  : M (BatchResponse * option Error) :=
  match reqs with
  | [] => mret (bReply, None)
  | args :: rest =>
      emit (EvExecute args);;
      r ← getReplica;
      let '(r', reply, intents, err) := executeCmd_onEngine r args in
      setReplica r';;
      handleSkippedIntents args intents;;
      match err with
      | None => addReadOnlyCmd_loop rest (br_Add bReply reply)
      | Some e => mret (mkBatchResponse ZeroTimestamp [], Some e)
      end
  end.

(** [addReadOnlyCmd]; the batch is returned as the call leaves it behind the
    pointer [bArgs]. *)
Definition addReadOnlyCmd (bArgs : BatchRequest)
  : M (BatchRequest * option BatchResponse * option Error) :=
  r ← getReplica;
  match checkCmdHeader r (b_Header bArgs) with
  | Some e => mret (bArgs, None, Some e)
  | None =>
  match checkBatchRequest bArgs with
  | Some e => mret (bArgs, None, Some e)
  | None =>
      '(cmdKeys, bArgs) ← beginCmds bArgs;
      err ←
        (if (0 <? length cmdKeys)%nat
         then redirectOnOrAcquireLeaderLease (b_Timestamp bArgs)
         else mret None);
      match err with
      | Some e => endCmds cmdKeys bArgs (Some e);; mret (bArgs, None, Some e)
      | None =>
          '(bReply, rErr) ←
            addReadOnlyCmd_loop (Requests bArgs)
              (mkBatchResponse (b_Timestamp bArgs) []);
          endCmds cmdKeys bArgs rErr;;
          mret (bArgs, Some bReply, rErr)
      end
  end
  end.

End dispatch.
End Dispatch.

(** ** A store whose commits fail

    The collaborators of [C] with another [batch.Commit()]. *)
Module Faulty.
Import Storage.

Definition withCommit (C : Collaborators)
    (commit : @Engine C -> option Error) : Collaborators := {|
  Engine := @Engine C;
  CommandQueue := @CommandQueue C;
  CmdKey := @CmdKey C;
  WaitGroup := @WaitGroup C;
  TimestampCache := @TimestampCache C;
  RangeStats := @RangeStats C;
  MVCCStats := @MVCCStats C;
  ConfigMap := @ConfigMap C;
  Env := @Env C;
  ts_Less := @ts_Less C;
  ts_Equal := @ts_Equal C;
  ts_Next := @ts_Next C;
  ts_Add := @ts_Add C;
  ts_Forward := @ts_Forward C;
  lease_Covers := @lease_Covers C;
  lease_OwnedBy := @lease_OwnedBy C;
  txn_Equal := @txn_Equal C;
  IsReadOnly := @IsReadOnly C;
  IsWrite := @IsWrite C;
  batch_IsReadOnly := @batch_IsReadOnly C;
  batch_IsWrite := @batch_IsWrite C;
  batch_Add := @batch_Add C;
  batch_Method := @batch_Method C;
  br_Add := @br_Add C;
  Default_RequestHeader_UserPriority := @Default_RequestHeader_UserPriority C;
  GetOrCreateCmdID := @GetOrCreateCmdID C;
  DecodeRaftNodeID := @DecodeRaftNodeID C;
  FindReplica := @FindReplica C;
  desc_ContainsKey := @desc_ContainsKey C;
  desc_ContainsKeyRange := @desc_ContainsKeyRange C;
  key_Less := @key_Less C;
  key_PrefixEnd := @key_PrefixEnd C;
  KeyAddress := @KeyAddress C;
  SystemMax := @SystemMax C;
  ConfigZonePrefix := @ConfigZonePrefix C;
  KeyConfigZone := @KeyConfigZone C;
  makeCmdIDKey := @makeCmdIDKey C;
  cmdQ_GetWait := @cmdQ_GetWait C;
  cmdQ_Add := @cmdQ_Add C;
  cmdQ_Remove := @cmdQ_Remove C;
  tsCache_GetMax := @tsCache_GetMax C;
  tsCache_Add := @tsCache_Add C;
  respCache_GetResponse := @respCache_GetResponse C;
  respCache_PutResponse := @respCache_PutResponse C;
  setAppliedIndex := @setAppliedIndex C;
  MergeMVCCStats := @MergeMVCCStats C;
  stats_KeyBytes := @stats_KeyBytes C;
  stats_ValBytes := @stats_ValBytes C;
  zeroMVCCStats := @zeroMVCCStats C;
  executeCmd := @executeCmd C;
  loadConfigMap := @loadConfigMap C;
  batch_Commit := commit;
  rm_RaftNodeID := @rm_RaftNodeID C;
  rm_hasGossip := @rm_hasGossip C;
  Clock_Now := @Clock_Now C;
  Clock_PhysicalNow := @Clock_PhysicalNow C;
  rand_Int63 := @rand_Int63 C;
  gossip_AddInfoProto := @gossip_AddInfoProto C;
  eventFeed_updateRange := @eventFeed_updateRange C;
  splitQueue_MaybeAdd := @splitQueue_MaybeAdd C;
  RunAsyncTask_resolve := @RunAsyncTask_resolve C;
  wait_cmdQ := @wait_cmdQ C;
  wait_errChan := @wait_errChan C;
  wait_done := @wait_done C
|}.

(** The small store with a disk that is full. *)
Definition fullDisk : Collaborators :=
  withCommit Toy.toy (fun _ => Some (OtherError "disk full")).

(** [executeCmd] of the small store, on the engine of the replica. *)
Definition executeRead (r : Toy.toyReplica) (args : Request)
  : Toy.toyReplica * Response * list Intent * option Error :=
  let x := Toy.execute r (engine r) (0, 0) args in
  (set_engine (C := Toy.toy) (ex_replica x) (ex_batch x),
   ex_reply x, ex_intents x, ex_err x).

(** Reads of key [107]. *)
Definition get (ts cmd : Z) (c : ReadConsistencyType) : Request :=
  mkRequest Get
    (mkRequestHeader (mkTimestamp ts 0) (mkClientCmdID cmd 1) [107] [] None None c 1)
    (OpaqueBody []).

Definition getBatch (ts cmd : Z) (c : ReadConsistencyType) : BatchRequest :=
  mkBatchRequest
    (mkRequestHeader (mkTimestamp ts 0) (mkClientCmdID cmd 1) [107] [] None None c 1)
    [get ts cmd c].

End Faulty.

(** * Theorems *)

(** ** Privilege descriptors *)
Section privilege_facts.
Import Privilege.

Lemma testbit_1 (m : Z) : Z.testbit 1 m = (m =? 0).
Proof.
  destruct (Z.eqb_spec m 0) as [->|Hne]; [reflexivity|].
  destruct (Z_lt_le_dec m 0) as [Hneg|Hpos].
  - apply Z.testbit_neg_r; lia.
  - apply Z.bits_above_log2; simpl; lia.
Qed.

Lemma bit_testbit (k n : Z) :
  0 <= n -> Z.testbit (bit k) n = (n =? k) && (n <? 32).
Proof.
  intros Hn. unfold bit, uint32.
  rewrite Z.testbit_mod_pow2 by lia.
  rewrite Z.shiftl_spec by lia. rewrite testbit_1.
  destruct (Z.ltb_spec n 32), (Z.eqb_spec (n - k) 0), (Z.eqb_spec n k);
    simpl; try reflexivity; lia.
Qed.

Lemma bit_disjoint (v w : Z) : v <> w -> Z.land (bit v) (bit w) = 0.
Proof.
  intros Hvw. apply Z.bits_inj'. intros n Hn.
  rewrite Z.land_spec, !bit_testbit, Z.bits_0 by lia.
  destruct (Z.eqb_spec n v), (Z.eqb_spec n w); simpl; try reflexivity; lia.
Qed.

Section privilege_invariant.
Variable ALL : Kind.
Variable ByValue : list Kind.

Lemma allOtherBits_no_ALL : Z.land (allOtherBits ALL ByValue) (bit ALL) = 0.
Proof.
  unfold allOtherBits.
  assert (H : forall l acc, Z.land acc (bit ALL) = 0 ->
    Z.land (fold_left (fun acc v => if v =? ALL then acc else Z.lor acc (bit v)) l acc)
           (bit ALL) = 0).
  { induction l as [|v l IH]; intros acc Hacc; simpl; [exact Hacc|].
    apply IH. destruct (Z.eqb_spec v ALL); [exact Hacc|].
    rewrite Z.land_lor_distr_l, Hacc, bit_disjoint by assumption. reflexivity. }
  apply H. reflexivity.
Qed.

Lemma ldiff_no_ALL (a b : Z) :
  Z.land a (bit ALL) = 0 -> Z.land (Z.ldiff a b) (bit ALL) = 0.
Proof.
  intros Ha. apply Z.bits_inj'. intros n Hn.
  rewrite Z.land_spec, Z.ldiff_spec, Z.bits_0.
  assert (Hb : Z.testbit (Z.land a (bit ALL)) n = false) by (rewrite Ha; apply Z.bits_0).
  rewrite Z.land_spec in Hb.
  destruct (Z.testbit a n), (Z.testbit (bit ALL) n), (Z.testbit b n); simpl in *; congruence.
Qed.

Lemma all_singleton_setPrivileges p idx v :
  all_singleton ALL p ->
  (Z.land v (bit ALL) <> 0 -> v = bit ALL) ->
  all_singleton ALL (setPrivileges p idx v).
Proof.
  unfold all_singleton, setPrivileges. simpl. intros Hp Hv.
  apply Forall_alter; [exact Hp|]. intros x _ _. exact Hv.
Qed.

Lemma all_singleton_removeUser p user :
  all_singleton ALL p -> all_singleton ALL (removeUser p user).
Proof.
  unfold all_singleton, removeUser. intros Hp.
  destruct (findUserIndex p user); simpl; [|exact Hp].
  apply Forall_delete, Hp.
Qed.

Lemma all_singleton_findOrCreateUser p user :
  all_singleton ALL p -> all_singleton ALL (findOrCreateUser p user).1.
Proof.
  unfold all_singleton, findOrCreateUser. intros Hp.
  assert (Hnew : all_alone ALL (mkUserPrivileges user 0)).
  { intros H. simpl in H. rewrite Z.land_0_l in H. congruence. }
  destruct (Users p !! _) as [u|] eqn:E; simpl.
  - destruct (String.eqb (User u) user); simpl; [exact Hp|].
    apply Forall_app. split; [apply Forall_take, Hp|].
    constructor; [exact Hnew|apply Forall_drop, Hp].
  - apply Forall_app. split; [exact Hp|]. constructor; [exact Hnew|constructor].
Qed.

Lemma Grant_all_singleton p user privList :
  all_singleton ALL p -> all_singleton ALL (Grant ALL p user privList).
Proof.
  intros Hp. unfold Grant.
  pose proof (all_singleton_findOrCreateUser p user Hp) as H1.
  destruct (findOrCreateUser p user) as [p1 idx]. simpl in H1.
  destruct (Users p1 !! idx) as [up|] eqn:E; [|exact H1].
  destruct (Z.eqb_spec (Z.land (Privileges up) (bit ALL)) 0) as [Hno|Hyes];
    simpl; [|exact H1].
  destruct (Z.eqb_spec (Z.land (ToBitField privList) (bit ALL)) 0) as [Hb|Hb]; simpl.
  - apply all_singleton_setPrivileges; [exact H1|].
    intros H. exfalso. apply H.
    rewrite Z.land_lor_distr_l, Hno, Hb. reflexivity.
  - apply all_singleton_setPrivileges; [exact H1|]. reflexivity.
Qed.

Lemma Revoke_all_singleton p user privList :
  all_singleton ALL p -> all_singleton ALL (Revoke ALL ByValue p user privList).
Proof.
  intros Hp. unfold Revoke.
  destruct (findUserIndex p user) as [idx|]; [|exact Hp].
  destruct (Users p !! idx) as [up|] eqn:E; [|exact Hp].
  destruct (Privileges up =? 0); [exact Hp|].
  destruct (negb (Z.land (ToBitField privList) (bit ALL) =? 0)).
  { apply all_singleton_removeUser, Hp. }
  set (expanded := if negb _ then _ else _).
  assert (Hexp : Z.land expanded (bit ALL) = 0).
  { subst expanded.
    destruct (Z.eqb_spec (Z.land (Privileges up) (bit ALL)) 0) as [Hno|Hyes]; simpl.
    - exact Hno.
    - apply allOtherBits_no_ALL. }
  assert (Hset : all_singleton ALL (setPrivileges p idx (Z.ldiff expanded (ToBitField privList)))).
  { apply all_singleton_setPrivileges; [exact Hp|].
    intros H. exfalso. apply H. apply ldiff_no_ALL, Hexp. }
  destruct (Z.ldiff expanded _ =? 0); [apply all_singleton_removeUser|]; exact Hset.
Qed.

(** C8: every sequence of [Grant] and [Revoke] operations keeps the
    invariant that an entry whose bit field has the ALL bit consists of the
    ALL bit alone. *)
Theorem run_all_singleton ops p :
  all_singleton ALL p -> all_singleton ALL (run ALL ByValue ops p).
Proof.
  revert p. induction ops as [|o ops IH]; intros p Hp; simpl; [exact Hp|].
  apply IH. destruct o; simpl.
  - apply Grant_all_singleton, Hp.
  - apply Revoke_all_singleton, Hp.
Qed.
End privilege_invariant.

Lemma sort_Search_loop_threshold (f : nat -> bool) (k : nat) :
  forall fuel i j,
    (i <= k <= j)%nat -> (j - i <= fuel)%nat ->
    (forall x, (i <= x < k)%nat -> f x = false) ->
    (forall x, (k <= x < j)%nat -> f x = true) ->
    sort_Search_loop fuel f i j = k.
Proof.
  induction fuel as [|fuel IH]; intros i j Hk Hfuel Hlo Hhi;
    cbn [sort_Search_loop].
  - lia.
  - destruct (Nat.ltb_spec i j) as [Hij|Hij]; [|lia].
    assert (Hh : (i <= (i + j) / 2 < j)%nat).
    { split.
      - apply Nat.div_le_lower_bound; lia.
      - apply Nat.Div0.div_lt_upper_bound; lia. }
    destruct (f ((i + j) / 2)%nat) eqn:Hf; cbn [negb].
    + apply IH; try lia.
      * destruct (Nat.le_gt_cases k ((i + j) / 2)%nat); [lia|].
        rewrite Hlo in Hf by lia. discriminate.
      * intros x Hx. apply Hlo. lia.
      * intros x Hx. apply Hhi. lia.
    + apply IH; try lia.
      * destruct (Nat.le_gt_cases k ((i + j) / 2)%nat) as [Hle|]; [|lia].
        rewrite Hhi in Hf by lia. discriminate.
      * intros x Hx. apply Hlo. lia.
      * intros x Hx. apply Hhi. lia.
Qed.

Lemma sort_Search_threshold (n : nat) (f : nat -> bool) (k : nat) :
  (k <= n)%nat ->
  (forall x, (x < k)%nat -> f x = false) ->
  (forall x, (k <= x < n)%nat -> f x = true) ->
  sort_Search n f = k.
Proof.
  intros Hk Hlo Hhi. unfold sort_Search.
  apply sort_Search_loop_threshold; try lia.
  - intros x Hx. apply Hlo. lia.
  - exact Hhi.
Qed.

Lemma string_leb_refl (s : string) : String.leb s s = true.
Proof. destruct (String.leb_total s s); assumption. Qed.

Lemma string_ltb_leb (a b : string) : String.ltb a b = true -> String.leb a b = true.
Proof. unfold String.ltb, String.leb. destruct (String.compare a b); congruence. Qed.

Lemma string_ltb_not_leb (a b : string) : String.ltb a b = true -> String.leb b a = false.
Proof.
  unfold String.ltb, String.leb. rewrite (String.compare_antisym b a).
  destruct (String.compare a b); simpl; congruence.
Qed.

Lemma findUserIndex_sorted p k up :
  sorted_users p -> Users p !! k = Some up ->
  findUserIndex p (User up) = Some k.
Proof.
  intros Hs Hk. unfold findUserIndex.
  assert (Hlen : (k < length (Users p))%nat) by (eapply lookup_lt_Some; eauto).
  rewrite (sort_Search_threshold _ _ k).
  - rewrite Hk, String.eqb_refl. reflexivity.
  - lia.
  - intros x Hx. unfold user_ge.
    destruct (Users p !! x) as [ux|] eqn:Ex.
    + apply string_ltb_not_leb. eapply Hs; eauto.
    + apply lookup_ge_None in Ex. lia.
  - intros x Hx. unfold user_ge.
    destruct (Users p !! x) as [ux|] eqn:Ex; [|reflexivity].
    unfold string_ge. destruct (decide (x = k)) as [->|Hne].
    + rewrite Hk in Ex. inversion Ex; subst. apply string_leb_refl.
    + apply string_ltb_leb. eapply (Hs k x); eauto. lia.
Qed.

Lemma findUser_sorted p up :
  sorted_users p -> up ∈ Users p -> findUser p (User up) = Some up.
Proof.
  intros Hs Hin. apply list_elem_of_lookup in Hin as [k Hk].
  unfold findUser. rewrite (findUserIndex_sorted p k up Hs Hk). exact Hk.
Qed.

Lemma findUser_Some p user up :
  findUser p user = Some up -> up ∈ Users p /\ User up = user.
Proof.
  unfold findUser, findUserIndex.
  destruct (Users p !! sort_Search _ _) as [u|] eqn:E; [|discriminate].
  destruct (String.eqb (User u) user) eqn:Eq; [|discriminate].
  rewrite E. intros H. inversion H; subst. split.
  - eapply list_elem_of_lookup_2; eauto.
  - apply String.eqb_eq. exact Eq.
Qed.

(** C10: [CheckPrivilege] is false for a user without an entry, true for
    every kind when the entry of the user has the ALL bit, and otherwise
    true exactly when the bit of the kind is set in the entry.  The entry
    of the user is the one [findUser] returns; in a descriptor sorted by
    user name that is the entry with the name of the user. *)
Theorem CheckPrivilege_spec (ALL : Kind) p user priv :
  ((forall u, u ∈ Users p -> User u <> user) ->
     CheckPrivilege ALL p user priv = false) /\
  (forall up, findUser p user = Some up ->
     CheckPrivilege ALL p user priv = (hasALL ALL up || hasBit up priv)) /\
  (sorted_users p ->
     forall up, up ∈ Users p -> User up = user ->
       CheckPrivilege ALL p user priv = (hasALL ALL up || hasBit up priv)).
Proof.
  assert (Hfound : forall up, findUser p user = Some up ->
     CheckPrivilege ALL p user priv = (hasALL ALL up || hasBit up priv)).
  { intros up Hf. unfold CheckPrivilege, hasALL, hasBit. rewrite Hf.
    destruct (negb _); reflexivity. }
  split; [|split].
  - intros Hno. unfold CheckPrivilege.
    destruct (findUser p user) as [up|] eqn:Hf; [|reflexivity].
    apply findUser_Some in Hf as [Hin Hu]. exfalso. eapply Hno; eauto.
  - exact Hfound.
  - intros Hs up Hin <-. apply Hfound. apply findUser_sorted; assumption.
Qed.

Lemma descriptor0_sorted : sorted_users descriptor0.
Proof.
  intros i j ui uj Hlt Hi Hj.
  destruct i as [|[|i]], j as [|[|j]]; cbn in Hi, Hj; try lia; try discriminate.
  inversion Hi; inversion Hj; subst. reflexivity.
Defined.

Lemma descriptor0_all_singleton : all_singleton 1 descriptor0.
Proof.
  repeat constructor.
  - intros H. exfalso. apply H. reflexivity.
Defined.

Lemma run_all_singleton_witness :
  all_singleton 1 descriptor0 /\
  all_singleton 1
    (run 1 [1; 2; 3]
       [OpGrant "bob" [1]; OpRevoke "bob" [2]; OpGrant "alice" [3]; OpRevoke "root" [1]]
       descriptor0).
Proof.
  split; [exact descriptor0_all_singleton|].
  apply (run_all_singleton 1 [1; 2; 3]). exact descriptor0_all_singleton.
Defined.

Lemma CheckPrivilege_spec_witness :
  sorted_users descriptor0 /\
  CheckPrivilege 1 descriptor0 "root" 3 = true /\
  CheckPrivilege 1 descriptor0 "alice" 3 = false /\
  CheckPrivilege 1 descriptor0 "bob" 2 = false.
Proof.
  split; [exact descriptor0_sorted|]. split; [|split].
  - apply (proj2 (proj2 (CheckPrivilege_spec 1 descriptor0 "root" 3))
             descriptor0_sorted (mkUserPrivileges "root" 2)).
    + apply list_elem_of_In. right. left. reflexivity.
    + reflexivity.
  - apply (proj2 (proj2 (CheckPrivilege_spec 1 descriptor0 "alice" 3))
             descriptor0_sorted (mkUserPrivileges "alice" 4)).
    + apply list_elem_of_In. left. reflexivity.
    + reflexivity.
  - apply (proj1 (CheckPrivilege_spec 1 descriptor0 "bob" 2)).
    intros u Hu. apply list_elem_of_In in Hu.
    destruct Hu as [<-|[<-|[]]]; discriminate.
Defined.

End privilege_facts.
Section privilege_more.
Import Privilege PrivilegeAudit.

Lemma ascii_compare_refl a : Ascii.compare a a = Eq.
Proof. unfold Ascii.compare. apply N.compare_refl. Qed.

Lemma ascii_compare_lt_trans a b c :
  Ascii.compare a b = Lt -> Ascii.compare b c = Lt -> Ascii.compare a c = Lt.
Proof.
  unfold Ascii.compare. rewrite !N.compare_lt_iff. lia.
Qed.

Lemma string_compare_lt_trans :
  forall a b c, String.compare a b = Lt -> String.compare b c = Lt ->
    String.compare a c = Lt.
Proof.
  induction a as [|x a IH]; intros [|y b] [|z c]; cbn; try congruence.
  destruct (Ascii.compare x y) eqn:Exy; try discriminate;
    destruct (Ascii.compare y z) eqn:Eyz; try discriminate.
  - apply Ascii.compare_eq_iff in Exy, Eyz. subst.
    rewrite ascii_compare_refl. apply IH.
  - apply Ascii.compare_eq_iff in Exy. subst. rewrite Eyz. reflexivity.
  - apply Ascii.compare_eq_iff in Eyz. subst. rewrite Exy. reflexivity.
  - rewrite (ascii_compare_lt_trans _ _ _ Exy Eyz). reflexivity.
Qed.

Lemma string_ltb_trans a b c :
  String.ltb a b = true -> String.ltb b c = true -> String.ltb a c = true.
Proof.
  unfold String.ltb. intros H1 H2.
  destruct (String.compare a b) eqn:E1; try discriminate.
  destruct (String.compare b c) eqn:E2; try discriminate.
  rewrite (string_compare_lt_trans _ _ _ E1 E2). reflexivity.
Qed.

Lemma string_leb_ltb_trans a b c :
  String.leb a b = true -> String.ltb b c = true -> String.ltb a c = true.
Proof.
  unfold String.leb, String.ltb. intros H1 H2.
  destruct (String.compare b c) eqn:E2; try discriminate.
  destruct (String.compare a b) eqn:E1; try discriminate.
  - apply String.compare_eq_iff in E1. subst. rewrite E2. reflexivity.
  - rewrite (string_compare_lt_trans _ _ _ E1 E2). reflexivity.
Qed.

Lemma string_not_leb_ltb a b : String.leb a b = false -> String.ltb b a = true.
Proof.
  unfold String.leb, String.ltb. rewrite (String.compare_antisym a b).
  destruct (String.compare b a); cbn; congruence.
Qed.

Lemma string_leb_neq_ltb a b :
  String.leb a b = true -> String.eqb b a = false -> String.ltb a b = true.
Proof.
  unfold String.leb, String.ltb. intros H Hne.
  destruct (String.compare a b) eqn:E; try discriminate; [|reflexivity].
  apply String.compare_eq_iff in E. subst. rewrite String.eqb_refl in Hne.
  discriminate.
Qed.

Lemma string_ltb_irrefl a : String.ltb a a = false.
Proof.
  unfold String.ltb.
  assert (String.compare a a = Eq) as ->; [|reflexivity].
  induction a as [|x a IH]; cbn; [reflexivity|].
  rewrite ascii_compare_refl. exact IH.
Qed.

(** [sort.Search] on a monotone predicate returns the least index at which
    the predicate holds, or [n]. *)
Lemma sort_Search_least (n : nat) (f : nat -> bool) :
  (forall x y, (x <= y < n)%nat -> f x = true -> f y = true) ->
  (sort_Search n f <= n)%nat /\
  (forall x, (x < sort_Search n f)%nat -> f x = false) /\
  (forall x, (sort_Search n f <= x < n)%nat -> f x = true).
Proof.
  intros Hmono.
  assert (Hex : exists k, (k <= n)%nat /\
            (forall x, (x < k)%nat -> f x = false) /\
            (forall x, (k <= x < n)%nat -> f x = true)).
  { clear - Hmono. induction n as [|n IH].
    - exists 0%nat. repeat split; intros; lia.
    - destruct IH as (k & Hk & Hlo & Hhi).
      { intros x y Hxy. apply Hmono. lia. }
      destruct (decide (k = n)) as [->|Hne].
      + destruct (f n) eqn:Hf.
        * exists n. repeat split; [lia|exact Hlo|].
          intros x Hx. replace x with n by lia. exact Hf.
        * exists (S n). repeat split; [lia| |intros; lia].
          intros x Hx. destruct (decide (x = n)) as [->|]; [exact Hf|].
          apply Hlo. lia.
      + exists k. repeat split; [lia|exact Hlo|].
        intros x Hx. destruct (decide (x = n)) as [->|]; [|apply Hhi; lia].
        apply (Hmono k n); [lia|]. apply Hhi. lia. }
  destruct Hex as (k & Hk & Hlo & Hhi).
  rewrite (sort_Search_threshold n f k Hk Hlo Hhi). auto.
Qed.

Lemma user_ge_mono p user :
  sorted_users p ->
  forall x y, (x <= y < length (Users p))%nat ->
    user_ge p user x = true -> user_ge p user y = true.
Proof.
  intros Hs x y Hxy. unfold user_ge.
  destruct (Users p !! x) as [ux|] eqn:Ex;
    [|apply lookup_ge_None in Ex; lia].
  destruct (Users p !! y) as [uy|] eqn:Ey; [|reflexivity].
  destruct (decide (x = y)) as [->|Hne].
  { rewrite Ex in Ey. inversion Ey; subst. auto. }
  unfold string_ge. intros H.
  apply string_ltb_leb. eapply string_leb_ltb_trans; [exact H|].
  eapply (Hs x y); eauto. lia.
Qed.

(** The place [sort.Search] finds in a sorted descriptor: the entries
    before it are before [user], the others are not. *)
Lemma search_place p user :
  sorted_users p ->
  let idx := sort_Search (length (Users p)) (user_ge p user) in
  (idx <= length (Users p))%nat /\
  (forall i u, (i < idx)%nat -> Users p !! i = Some u ->
     String.ltb (User u) user = true) /\
  (forall i u, (idx <= i)%nat -> Users p !! i = Some u ->
     String.leb user (User u) = true).
Proof.
  intros Hs idx.
  destruct (sort_Search_least (length (Users p)) (user_ge p user)
              (user_ge_mono p user Hs)) as (Hk & Hlo & Hhi).
  fold idx in Hk, Hlo, Hhi. split; [exact Hk|]. split.
  - intros i u Hi Hu. specialize (Hlo i Hi). unfold user_ge in Hlo.
    rewrite Hu in Hlo. apply string_not_leb_ltb. exact Hlo.
  - intros i u Hi Hu.
    assert (Hlt : (i < length (Users p))%nat) by (eapply lookup_lt_Some; eauto).
    specialize (Hhi i ltac:(lia)). unfold user_ge in Hhi.
    rewrite Hu in Hhi. exact Hhi.
Qed.

Lemma sorted_users_insert l idx user :
  sorted_users (mkPrivilegeDescriptor l) ->
  (idx <= length l)%nat ->
  (forall i u, (i < idx)%nat -> l !! i = Some u -> String.ltb (User u) user = true) ->
  (forall i u, (idx <= i)%nat -> l !! i = Some u -> String.ltb user (User u) = true) ->
  sorted_users
    (mkPrivilegeDescriptor (take idx l ++ mkUserPrivileges user 0 :: drop idx l)).
Proof.
  intros Hs Hidx Hlo Hhi i j ui uj Hij. cbn [Users].
  assert (Hlen : length (take idx l) = idx) by (rewrite length_take; lia).
  assert (Hat : forall k u,
    (take idx l ++ mkUserPrivileges user 0 :: drop idx l) !! k = Some u ->
    ((k < idx)%nat /\ l !! k = Some u) \/
    (k = idx /\ u = mkUserPrivileges user 0) \/
    ((idx < k)%nat /\ l !! (k - 1)%nat = Some u)).
  { intros k u Hk. destruct (Nat.lt_ge_cases k idx) as [Hlt|Hge].
    - left. split; [exact Hlt|].
      rewrite lookup_app_l in Hk by lia. rewrite lookup_take_lt in Hk by lia.
      exact Hk.
    - rewrite lookup_app_r in Hk by lia. rewrite Hlen in Hk.
      destruct (k - idx)%nat as [|d] eqn:Ed.
      + right. left. split; [lia|]. cbn in Hk. congruence.
      + right. right. split; [lia|].
        change (drop idx l !! d = Some u) in Hk. rewrite lookup_drop in Hk.
        replace (k - 1)%nat with (idx + d)%nat by lia. exact Hk. }
  intros Hi Hj.
  destruct (Hat i ui Hi) as [[Hi1 Hi2]|[[-> ->]|[Hi1 Hi2]]];
    destruct (Hat j uj Hj) as [[Hj1 Hj2]|[[-> ->]|[Hj1 Hj2]]]; try lia; cbn [User].
  - eapply (Hs i j); eauto.
  - eapply Hlo; eauto.
  - eapply (Hs i (j - 1)%nat); eauto. lia.
  - eapply Hhi; [|exact Hj2]. lia.
  - eapply (Hs (i - 1)%nat (j - 1)%nat); eauto. lia.
Qed.

(** [findOrCreateUser] on a sorted descriptor: the result is sorted, the
    index it returns is that of an entry for [user], and the other entries
    are those of the descriptor. *)
Lemma findOrCreateUser_sorted p user :
  sorted_users p ->
  let '(p1, idx) := findOrCreateUser p user in
  sorted_users p1 /\
  (exists up, Users p1 !! idx = Some up /\ User up = user /\
     (findUser p user = Some up \/ (findUser p user = None /\ Privileges up = 0))) /\
  (forall u, User u <> user -> (u ∈ Users p1 <-> u ∈ Users p)).
Proof.
  intros Hs. unfold findOrCreateUser.
  destruct (search_place p user Hs) as (Hk & Hlo & Hhi).
  set (idx := sort_Search (length (Users p)) (user_ge p user)) in *.
  assert (Hfind : findUser p user =
            match Users p !! idx with
            | Some u => if String.eqb (User u) user then Some u else None
            | None => None
            end).
  { unfold findUser, findUserIndex. fold idx.
    destruct (Users p !! idx) as [u|] eqn:E; [|reflexivity].
    destruct (String.eqb (User u) user); [exact E|reflexivity]. }
  destruct (Users p !! idx) as [u|] eqn:E.
  - destruct (String.eqb (User u) user) eqn:Eq.
    + split; [exact Hs|]. split; [|tauto].
      exists u. split; [exact E|]. split; [apply String.eqb_eq, Eq|].
      left. exact Hfind.
    + assert (Hlt : (idx < length (Users p))%nat) by (eapply lookup_lt_Some; eauto).
      split; [|split].
      * destruct p as [l]. cbn [Users] in *.
        apply sorted_users_insert; [exact Hs|lia|exact Hlo|].
        intros i ui Hi Hui. destruct (decide (i = idx)) as [->|Hne].
        -- rewrite E in Hui. inversion Hui; subst.
           apply string_leb_neq_ltb; [|exact Eq]. eapply Hhi; eauto.
        -- eapply string_leb_ltb_trans; [eapply (Hhi idx); eauto|].
           eapply (Hs idx i); eauto. lia.
      * exists (mkUserPrivileges user 0). cbn [Users User Privileges].
        split; [|split; [reflexivity|right; split; [exact Hfind|reflexivity]]].
        rewrite lookup_app_r by (rewrite length_take; lia).
        rewrite length_take. replace (idx - idx `min` length (Users p))%nat with 0%nat by lia.
        reflexivity.
      * intros v Hv. cbn [Users].
        rewrite elem_of_app, elem_of_cons.
        assert (Hel : v ∈ Users p <->
                      v ∈ take idx (Users p) \/ v ∈ drop idx (Users p)).
        { rewrite <- elem_of_app, take_drop. reflexivity. }
        rewrite Hel.
        split; [intros [H|[->|H]]|intros [H|H]]; auto.
        cbn in Hv. congruence.
  - apply lookup_ge_None in E.
    split; [|split].
    + destruct p as [l]. cbn [Users] in *.
      pose proof (sorted_users_insert l idx user Hs ltac:(lia) Hlo) as H.
      rewrite take_ge, drop_ge in H by lia. apply H.
      intros i ui Hi Hui. apply lookup_lt_Some in Hui. lia.
    + exists (mkUserPrivileges user 0). cbn [Users User Privileges].
      split; [|split; [reflexivity|right; split; [exact Hfind|reflexivity]]].
      rewrite lookup_app_r by lia.
      replace (idx - length (Users p))%nat with 0%nat by lia. reflexivity.
    + intros v Hv. cbn [Users]. rewrite elem_of_app, list_elem_of_singleton.
      split; [intros [H| ->]|intros H]; auto. cbn in Hv. congruence.
Qed.

Lemma sorted_users_setPrivileges p idx v :
  sorted_users p -> sorted_users (setPrivileges p idx v).
Proof.
  intros Hs i j ui uj Hij. unfold setPrivileges. cbn [Users].
  rewrite !list_lookup_alter.
  intros Hi Hj.
  assert (Hname : forall k u,
    (if decide (idx = k)
     then (fun u => mkUserPrivileges (User u) v) <$> Users p !! idx
     else Users p !! k) = Some u ->
    exists u0, Users p !! k = Some u0 /\ User u = User u0).
  { intros k u. destruct (decide (idx = k)) as [->|]; intros H.
    - destruct (Users p !! k) as [u0|]; [|discriminate].
      inversion H; subst. eauto.
    - eauto. }
  destruct (Hname i ui Hi) as (ui0 & Hi0 & ->).
  destruct (Hname j uj Hj) as (uj0 & Hj0 & ->).
  eapply Hs; eauto.
Qed.

Lemma sorted_users_delete p idx :
  sorted_users p -> sorted_users (mkPrivilegeDescriptor (delete idx (Users p))).
Proof.
  intros Hs i j ui uj Hij. cbn [Users]. intros Hi Hj.
  destruct (Nat.lt_ge_cases i idx) as [Hi1|Hi1];
    destruct (Nat.lt_ge_cases j idx) as [Hj1|Hj1]; try lia.
  - rewrite list_lookup_delete_lt in Hi, Hj by lia. eapply (Hs i j); eauto.
  - rewrite list_lookup_delete_lt in Hi by lia.
    rewrite list_lookup_delete_ge in Hj by lia. eapply (Hs i (S j)); eauto; lia.
  - rewrite list_lookup_delete_ge in Hi, Hj by lia.
    eapply (Hs (S i) (S j)); eauto; lia.
Qed.

Lemma sorted_users_removeUser p user :
  sorted_users p -> sorted_users (removeUser p user).
Proof.
  intros Hs. unfold removeUser.
  destruct (findUserIndex p user); [apply sorted_users_delete, Hs|exact Hs].
Qed.

Lemma sorted_users_inj p i j a b :
  sorted_users p -> Users p !! i = Some a -> Users p !! j = Some b ->
  User a = User b -> i = j.
Proof.
  intros Hs Hi Hj Hab.
  destruct (Nat.lt_trichotomy i j) as [Hlt|[->|Hgt]]; [|reflexivity|].
  - pose proof (Hs i j a b Hlt Hi Hj) as H. rewrite Hab, string_ltb_irrefl in H.
    discriminate.
  - pose proof (Hs j i b a Hgt Hj Hi) as H. rewrite Hab, string_ltb_irrefl in H.
    discriminate.
Qed.

Lemma findUserIndex_Some p user idx :
  findUserIndex p user = Some idx ->
  exists up, Users p !! idx = Some up /\ User up = user.
Proof.
  unfold findUserIndex.
  destruct (Users p !! sort_Search _ _) as [u|] eqn:E; [|discriminate].
  destruct (String.eqb (User u) user) eqn:Eq; [|discriminate].
  intros H. inversion H; subst. exists u. split; [exact E|].
  apply String.eqb_eq, Eq.
Qed.

(** In a sorted descriptor [findUser] is decided by the entries that carry
    the name. *)
Lemma findUser_ext p q user :
  sorted_users p -> sorted_users q ->
  (forall u, User u = user -> (u ∈ Users p <-> u ∈ Users q)) ->
  findUser p user = findUser q user.
Proof.
  intros Hp Hq Hpq.
  destruct (findUser p user) as [up|] eqn:Ep.
  - apply findUser_Some in Ep as [Hin Hu]. subst user.
    symmetry. apply findUser_sorted; [exact Hq|]. apply Hpq; auto.
  - destruct (findUser q user) as [uq|] eqn:Eq; [|reflexivity].
    apply findUser_Some in Eq as [Hin Hu]. subst user.
    rewrite findUser_sorted in Ep; [discriminate|exact Hp|].
    apply Hpq; auto.
Qed.

Lemma elem_of_setPrivileges p idx v up u :
  Users p !! idx = Some up -> User u <> User up ->
  (u ∈ Users (setPrivileges p idx v) <-> u ∈ Users p).
Proof.
  intros Hidx Hne. unfold setPrivileges. cbn [Users].
  rewrite !list_elem_of_lookup. split; intros [i Hi]; exists i.
  - rewrite list_lookup_alter in Hi. destruct (decide (idx = i)) as [->|]; [|exact Hi].
    rewrite Hidx in Hi. cbn in Hi. inversion Hi; subst. cbn in Hne. congruence.
  - rewrite list_lookup_alter. destruct (decide (idx = i)) as [->|]; [|exact Hi].
    rewrite Hidx in Hi. inversion Hi; subst. congruence.
Qed.

Lemma elem_of_removeUser p user u :
  User u <> user -> (u ∈ Users (removeUser p user) <-> u ∈ Users p).
Proof.
  intros Hne. unfold removeUser.
  destruct (findUserIndex p user) as [idx|] eqn:E; [|reflexivity].
  apply findUserIndex_Some in E as (up & Hidx & Hup). cbn [Users].
  pose proof (elem_of_Permutation_proper u _ _ (delete_Permutation _ _ _ Hidx)) as Hp.
  rewrite Hp, elem_of_cons. split; [auto|]. intros [->|H]; [congruence|exact H].
Qed.

Lemma findUser_removeUser p user :
  sorted_users p -> findUser (removeUser p user) user = None.
Proof.
  intros Hs. destruct (findUser (removeUser p user) user) as [u|] eqn:E; [|reflexivity].
  exfalso. apply findUser_Some in E as [Hin Hu].
  unfold removeUser in Hin.
  destruct (findUserIndex p user) as [idx|] eqn:Ei.
  - destruct (findUserIndex_Some _ _ _ Ei) as (up & Hidx & Hup). cbn [Users] in Hin.
    apply list_elem_of_lookup in Hin as [i Hi].
    destruct (Nat.lt_ge_cases i idx) as [Hlt|Hge].
    + rewrite list_lookup_delete_lt in Hi by lia.
      pose proof (sorted_users_inj p i idx u up Hs Hi Hidx ltac:(congruence)). lia.
    + rewrite list_lookup_delete_ge in Hi by lia.
      pose proof (sorted_users_inj p (S i) idx u up Hs Hi Hidx ltac:(congruence)). lia.
  - apply list_elem_of_lookup in Hin as [i Hi]. subst user.
    rewrite (findUserIndex_sorted p i u Hs Hi) in Ei. discriminate.
Qed.

Section grant_revoke.
Variable ALL : Kind.
Variable ByValue : list Kind.
Variable RootUser : string.

Lemma findUser_at p idx up :
  sorted_users p -> Users p !! idx = Some up -> findUser p (User up) = Some up.
Proof.
  intros Hs Hidx. apply findUser_sorted; [exact Hs|].
  eapply list_elem_of_lookup_2; eauto.
Qed.

(** What [Grant] does, as [findUser] sees it. *)
Lemma Grant_findUser p user privList :
  sorted_users p ->
  sorted_users (Grant ALL p user privList) /\
  (forall v, v <> user ->
     findUser (Grant ALL p user privList) v = findUser p v) /\
  findUser (Grant ALL p user privList) user =
    Some (mkUserPrivileges user
            (let old := match findUser p user with
                        | Some u => Privileges u
                        | None => 0
                        end in
             if negb (Z.land old (bit ALL) =? 0) then old
             else if negb (Z.land (ToBitField privList) (bit ALL) =? 0) then bit ALL
             else Z.lor old (ToBitField privList))).
Proof.
  intros Hs. unfold Grant.
  pose proof (findOrCreateUser_sorted p user Hs) as H.
  destruct (findOrCreateUser p user) as [p1 idx].
  destruct H as (Hs1 & (up & Hidx & Hname & Hold) & Hothers).
  rewrite Hidx.
  assert (Hpriv : Privileges up =
            match findUser p user with Some u => Privileges u | None => 0 end).
  { destruct Hold as [->|[-> ->]]; reflexivity. }
  rewrite <- Hpriv. cbn zeta.
  assert (Hext : forall v, v <> user -> findUser p1 v = findUser p v).
  { intros v Hv. apply findUser_ext; [exact Hs1|exact Hs|].
    intros u Hu. apply Hothers. congruence. }
  assert (Hset : forall val,
    sorted_users (setPrivileges p1 idx val) /\
    (forall v, v <> user -> findUser (setPrivileges p1 idx val) v = findUser p v) /\
    findUser (setPrivileges p1 idx val) user = Some (mkUserPrivileges user val)).
  { intros val.
    pose proof (sorted_users_setPrivileges p1 idx val Hs1) as Hs2.
    split; [exact Hs2|]. split.
    - intros v Hv. rewrite <- (Hext v Hv).
      apply findUser_ext; [exact Hs2|exact Hs1|].
      intros u Hu. apply (elem_of_setPrivileges p1 idx val up); [exact Hidx|congruence].
    - rewrite <- Hname.
      apply (findUser_at (setPrivileges p1 idx val) idx
               (mkUserPrivileges (User up) val) Hs2).
      unfold setPrivileges. cbn [Users]. rewrite list_lookup_alter.
      destruct (decide (idx = idx)); [|congruence]. rewrite Hidx. reflexivity. }
  destruct (negb (Z.land (Privileges up) (bit ALL) =? 0)).
  - split; [exact Hs1|]. split; [exact Hext|].
    rewrite <- Hname at 1. rewrite (findUser_at p1 idx up Hs1 Hidx).
    destruct up; cbn in *; congruence.
  - destruct (negb (Z.land (ToBitField privList) (bit ALL) =? 0)); apply Hset.
Qed.

(** What [Revoke] does, as [findUser] sees it. *)
Lemma Revoke_findUser p user privList :
  sorted_users p ->
  sorted_users (Revoke ALL ByValue p user privList) /\
  (forall v, v <> user ->
     findUser (Revoke ALL ByValue p user privList) v = findUser p v) /\
  findUser (Revoke ALL ByValue p user privList) user =
    match findUser p user with
    | None => None
    | Some u =>
        if Privileges u =? 0 then Some u
        else if negb (Z.land (ToBitField privList) (bit ALL) =? 0) then None
        else
          let expanded :=
            if negb (Z.land (Privileges u) (bit ALL) =? 0)
            then allOtherBits ALL ByValue else Privileges u in
          let v := Z.ldiff expanded (ToBitField privList) in
          if v =? 0 then None else Some (mkUserPrivileges user v)
    end.
Proof.
  intros Hs.
  destruct (findUserIndex p user) as [idx|] eqn:Ei.
  2:{ assert (Hn : findUser p user = None) by (unfold findUser; rewrite Ei; reflexivity).
      rewrite Hn. unfold Revoke. rewrite Ei.
      split; [exact Hs|]. split; [reflexivity|exact Hn]. }
  destruct (findUserIndex_Some _ _ _ Ei) as (up & Hidx & Hname).
  assert (Hown : findUser p user = Some up).
  { unfold findUser. rewrite Ei. exact Hidx. }
  rewrite Hown. unfold Revoke. rewrite Ei, Hidx.
  assert (Hrem : forall q, sorted_users q ->
    (forall v, v <> user -> findUser q v = findUser p v) ->
    sorted_users (removeUser q user) /\
    (forall v, v <> user -> findUser (removeUser q user) v = findUser p v) /\
    findUser (removeUser q user) user = None).
  { intros q Hq Hqp. pose proof (sorted_users_removeUser q user Hq) as Hq'.
    split; [exact Hq'|]. split; [|apply findUser_removeUser, Hq].
    intros v Hv. rewrite <- (Hqp v Hv).
    apply findUser_ext; [exact Hq'|exact Hq|].
    intros u Hu. apply elem_of_removeUser. congruence. }
  destruct (Privileges up =? 0).
  { split; [exact Hs|]. split; [reflexivity|exact Hown]. }
  destruct (negb (Z.land (ToBitField privList) (bit ALL) =? 0)).
  { apply Hrem; [exact Hs|reflexivity]. }
  cbn zeta.
  set (v := Z.ldiff _ _).
  pose proof (sorted_users_setPrivileges p idx v Hs) as Hs2.
  assert (Hother : forall w, w <> user ->
            findUser (setPrivileges p idx v) w = findUser p w).
  { intros w Hw. apply findUser_ext; [exact Hs2|exact Hs|].
    intros u Hu. apply (elem_of_setPrivileges p idx v up); [exact Hidx|congruence]. }
  destruct (v =? 0).
  - apply Hrem; assumption.
  - split; [exact Hs2|]. split; [exact Hother|].
    rewrite <- Hname.
    apply (findUser_at (setPrivileges p idx v) idx (mkUserPrivileges (User up) v) Hs2).
    unfold setPrivileges. cbn [Users]. rewrite list_lookup_alter.
    destruct (decide (idx = idx)); [|congruence]. rewrite Hidx. reflexivity.
Qed.

Lemma NewDefault_sorted :
  sorted_users (NewDefaultDatabasePrivilegeDescriptor ALL RootUser).
Proof.
  intros i j ui uj Hij Hi Hj. cbn in Hi, Hj.
  destruct i as [|i]; [|destruct i; discriminate].
  destruct j as [|j]; [lia|]. destruct j; discriminate.
Qed.

Lemma step_sorted p o :
  sorted_users p -> sorted_users (step ALL ByValue p o).
Proof.
  intros Hs. destruct o as [u l|u l]; cbn [step].
  - apply Grant_findUser, Hs.
  - apply Revoke_findUser, Hs.
Qed.

Lemma run_sorted ops :
  forall p, sorted_users p -> sorted_users (run ALL ByValue ops p).
Proof.
  induction ops as [|o ops IH]; intros p Hs; cbn; [exact Hs|].
  apply IH, step_sorted, Hs.
Qed.

(** X1: every sequence of [Grant] and [Revoke] operations keeps the
    entries of a descriptor in strictly increasing order of user name, the
    order the binary search of [findUserIndex] relies on; so no user has two
    entries.  The default descriptor is in that order, and so is every
    descriptor made from it. *)
Theorem run_sorted_users ops :
  (forall p, sorted_users p -> sorted_users (run ALL ByValue ops p)) /\
  sorted_users
    (run ALL ByValue ops (NewDefaultDatabasePrivilegeDescriptor ALL RootUser)).
Proof.
  split; [apply run_sorted|]. apply run_sorted, NewDefault_sorted.
Qed.

Lemma ToBitField_testbit privList n :
  0 <= n ->
  Z.testbit (ToBitField privList) n = bool_decide (n ∈ privList) && (n <? 32).
Proof.
  intros Hn. unfold ToBitField.
  assert (H : forall l acc,
    Z.testbit (fold_left (fun ret p => Z.lor ret (bit p)) l acc) n =
      Z.testbit acc n || (bool_decide (n ∈ l) && (n <? 32))).
  { induction l as [|k l IH]; intros acc; cbn [fold_left].
    - rewrite bool_decide_false by apply not_elem_of_nil. cbn. rewrite orb_false_r.
      reflexivity.
    - rewrite IH, Z.lor_spec, bit_testbit by lia.
      destruct (Z.eqb_spec n k) as [->|Hne].
      + rewrite (bool_decide_true (k ∈ k :: l)) by (apply elem_of_cons; left; reflexivity).
        destruct (k <? 32);
          rewrite ?andb_false_r, ?andb_true_r, ?orb_false_r, ?orb_true_r;
          reflexivity.
      + assert (bool_decide (n ∈ k :: l) = bool_decide (n ∈ l)) as ->.
        { apply bool_decide_ext. rewrite elem_of_cons. tauto. }
        cbn. rewrite orb_false_r. reflexivity. }
  rewrite H, Z.bits_0. reflexivity.
Qed.

Lemma land_bit_testbit (x k : Z) :
  0 <= k < 32 -> (Z.land x (bit k) =? 0) = negb (Z.testbit x k).
Proof.
  intros Hk. destruct (Z.testbit x k) eqn:E; cbn.
  - apply Z.eqb_neq. intros H.
    assert (Hb : Z.testbit (Z.land x (bit k)) k = false) by (rewrite H; apply Z.bits_0).
    rewrite Z.land_spec, E, bit_testbit in Hb by lia.
    destruct (Z.eqb_spec k k); [|congruence]. destruct (Z.ltb_spec k 32); [|lia].
    discriminate.
  - apply Z.eqb_eq. apply Z.bits_inj'. intros n Hn.
    rewrite Z.land_spec, bit_testbit, Z.bits_0 by lia.
    destruct (Z.eqb_spec n k) as [->|]; [rewrite E|]; cbn;
      [reflexivity|apply andb_false_r].
Qed.

(** X2: after [Grant(user, privList)] on a sorted descriptor,
    [CheckPrivilege(user, k)] is true for every kind [k] of [privList]
    (a kind is a bit position, 0 to 31). *)
Theorem Grant_CheckPrivilege p user privList k :
  sorted_users p -> 0 <= k < 32 -> k ∈ privList ->
  CheckPrivilege ALL (Grant ALL p user privList) user k = true.
Proof.
  intros Hs Hk Hin. unfold CheckPrivilege.
  destruct (Grant_findUser p user privList Hs) as (_ & _ & ->).
  set (old := match findUser p user with Some u => Privileges u | None => 0 end).
  cbn [Privileges]. cbv zeta.
  destruct (negb (Z.land old (bit ALL) =? 0)) eqn:Eall; [rewrite Eall; reflexivity|].
  destruct (negb (Z.land (ToBitField privList) (bit ALL) =? 0)) eqn:Ebits.
  - assert (Hnz : (Z.land (bit ALL) (bit ALL) =? 0) = false).
    { rewrite Z.land_diag. apply Z.eqb_neq. intros H0.
      rewrite H0, Z.land_0_r in Ebits. discriminate. }
    rewrite Hnz. reflexivity.
  - destruct (negb (Z.land (Z.lor old (ToBitField privList)) (bit ALL) =? 0));
      [reflexivity|].
    rewrite land_bit_testbit, Z.lor_spec, ToBitField_testbit by lia.
    rewrite bool_decide_true by exact Hin.
    destruct (Z.ltb_spec k 32); [|lia]. cbn. rewrite orb_true_r. reflexivity.
Qed.

(** X3: [Grant] and [Revoke] for one user leave the answer of
    [CheckPrivilege] for every other user as it was. *)
Theorem CheckPrivilege_other_user p user privList v k :
  sorted_users p -> v <> user ->
  CheckPrivilege ALL (Grant ALL p user privList) v k = CheckPrivilege ALL p v k /\
  CheckPrivilege ALL (Revoke ALL ByValue p user privList) v k =
    CheckPrivilege ALL p v k.
Proof.
  intros Hs Hv. unfold CheckPrivilege.
  destruct (Grant_findUser p user privList Hs) as (_ & HG & _).
  destruct (Revoke_findUser p user privList Hs) as (_ & HR & _).
  rewrite (HG v Hv), (HR v Hv). split; reflexivity.
Qed.

(** X4: after [Revoke(user, privList)] on a sorted descriptor,
    [CheckPrivilege(user, k)] is false for every kind [k] of [privList]
    (bit positions 0 to 31), also when the user held ALL before. *)
Theorem Revoke_CheckPrivilege p user privList k :
  sorted_users p -> 0 <= k < 32 -> k ∈ privList ->
  CheckPrivilege ALL (Revoke ALL ByValue p user privList) user k = false.
Proof.
  intros Hs Hk Hin. unfold CheckPrivilege.
  destruct (Revoke_findUser p user privList Hs) as (_ & _ & ->).
  destruct (findUser p user) as [u|]; [|reflexivity].
  destruct (Z.eqb_spec (Privileges u) 0) as [H0|Hnz].
  { rewrite H0, !Z.land_0_l. reflexivity. }
  destruct (negb (Z.land (ToBitField privList) (bit ALL) =? 0)); [reflexivity|].
  cbn zeta. set (expanded := if negb _ then _ else _).
  assert (Hexp : Z.land expanded (bit ALL) = 0).
  { subst expanded.
    destruct (Z.eqb_spec (Z.land (Privileges u) (bit ALL)) 0) as [Hno|Hyes]; cbn.
    - exact Hno.
    - apply allOtherBits_no_ALL. }
  destruct (Z.ldiff expanded (ToBitField privList) =? 0); [reflexivity|].
  cbn [Privileges]. rewrite (ldiff_no_ALL ALL _ _ Hexp). cbn.
  rewrite land_bit_testbit, Z.ldiff_spec, ToBitField_testbit by lia.
  rewrite bool_decide_true by exact Hin.
  destruct (Z.ltb_spec k 32); [|lia]. cbn. rewrite andb_false_r. reflexivity.
Qed.


(** X5: in a sorted descriptor that [Validate] accepts, [CheckPrivilege]
    is true for the root user and every kind.  Such a descriptor is still
    accepted after any [Grant], and after any [Revoke] for a user other than
    root; after a [Revoke] for root, whatever the list, even the empty one,
    [Validate] rejects it: the ALL bit of root is replaced by the other
    kinds. *)
Theorem Validate_Grant_Revoke p user privList :
  sorted_users p -> Validate ALL RootUser (Some p) = None ->
  (forall k, CheckPrivilege ALL p RootUser k = true) /\
  Validate ALL RootUser (Some (Grant ALL p user privList)) = None /\
  (user <> RootUser ->
   Validate ALL RootUser (Some (Revoke ALL ByValue p user privList)) = None) /\
  Validate ALL RootUser (Some (Revoke ALL ByValue p RootUser privList)) <> None.
Proof.
  intros Hs Hv. unfold Validate in Hv.
  destruct (findUser p RootUser) as [up|] eqn:Hroot; [|discriminate].
  destruct (Z.eqb_spec (Z.land (Privileges up) (bit ALL)) 0) as [|Hall]; [discriminate|].
  assert (Hallb : (Z.land (Privileges up) (bit ALL) =? 0) = false)
    by (apply Z.eqb_neq, Hall).
  split; [|split; [|split]].
  - intros k. unfold CheckPrivilege. rewrite Hroot, Hallb. reflexivity.
  - unfold Validate.
    destruct (Grant_findUser p user privList Hs) as (_ & Hother & Hown).
    destruct (String.eqb_spec RootUser user) as [<-|Hne].
    + rewrite Hown, Hroot. cbn [Privileges]. cbv zeta. rewrite Hallb. cbn [negb].
      rewrite Hallb. reflexivity.
    + rewrite (Hother RootUser Hne), Hroot, Hallb. reflexivity.
  - intros Hne. unfold Validate.
    destruct (Revoke_findUser p user privList Hs) as (_ & Hother & _).
    rewrite (Hother RootUser ltac:(congruence)), Hroot, Hallb. reflexivity.
  - unfold Validate.
    destruct (Revoke_findUser p RootUser privList Hs) as (_ & _ & ->).
    rewrite Hroot.
    destruct (Z.eqb_spec (Privileges up) 0) as [H0|_].
    { rewrite H0, Z.land_0_l in Hall. congruence. }
    destruct (negb (Z.land (ToBitField privList) (bit ALL) =? 0)); [discriminate|].
    cbv zeta. rewrite Hallb. cbn [negb].
    destruct (Z.ldiff (allOtherBits ALL ByValue) (ToBitField privList) =? 0);
      [discriminate|].
    cbn [Privileges].
    rewrite (ldiff_no_ALL ALL _ _ (allOtherBits_no_ALL ALL ByValue)). discriminate.
Qed.

Section show.
Variable SortedString : Z -> string.

Lemma Show_map p :
  Show SortedString p =
    (fun u => mkUserPrivilegeString (User u) (SortedString (Privileges u)))
      <$> Users p.
Proof.
  unfold Show.
  assert (H : forall l acc,
    fold_left
      (fun ret userPriv =>
         ret ++ [mkUserPrivilegeString (User userPriv)
                   (SortedString (Privileges userPriv))]) l acc =
    acc ++ ((fun u => mkUserPrivilegeString (User u) (SortedString (Privileges u)))
              <$> l)).
  { induction l as [|u l IH]; intros acc; cbn [fold_left fmap list_fmap].
    - rewrite app_nil_r. reflexivity.
    - rewrite IH, <- app_assoc. reflexivity. }
  rewrite H. reflexivity.
Qed.

(** X6: [Show] on a descriptor made from the default one by [Grant] and
    [Revoke] returns one row for each entry, and the rows are in strictly
    increasing order of user name. *)
Theorem Show_sorted ops :
  let p := run ALL ByValue ops (NewDefaultDatabasePrivilegeDescriptor ALL RootUser) in
  let rows := Show SortedString p in
  length rows = length (Users p) /\
  forall i j ri rj, (i < j)%nat -> rows !! i = Some ri -> rows !! j = Some rj ->
    String.ltb (ups_User ri) (ups_User rj) = true.
Proof.
  intros p rows. subst rows. rewrite Show_map. split; [apply length_fmap|].
  intros i j ri rj Hij. rewrite !list_lookup_fmap. intros Hi Hj.
  destruct (Users p !! i) as [ui|] eqn:Ei; [|discriminate].
  destruct (Users p !! j) as [uj|] eqn:Ej; [|discriminate].
  cbn in Hi, Hj. inversion Hi; inversion Hj; subst ri rj. cbn [ups_User].
  eapply (run_sorted ops _ NewDefault_sorted i j); eauto.
Qed.
End show.

(** X7: [Grant] with an empty list for a user without an entry
    creates an entry without any privilege, and no [Revoke] for that user
    removes it again: [Revoke] returns at once for an entry whose bit field
    is zero. *)
Theorem Grant_empty_entry p user privList :
  sorted_users p -> findUser p user = None ->
  findUser (Grant ALL p user []) user = Some (mkUserPrivileges user 0) /\
  Revoke ALL ByValue (Grant ALL p user []) user privList = Grant ALL p user [].
Proof.
  intros Hs Hno.
  destruct (Grant_findUser p user [] Hs) as (_ & _ & Hown).
  rewrite Hno in Hown. cbv zeta in Hown.
  change (ToBitField []) with 0 in Hown.
  rewrite !Z.land_0_l in Hown. cbn in Hown.
  split; [exact Hown|].
  unfold Revoke. unfold findUser in Hown.
  destruct (findUserIndex (Grant ALL p user []) user) as [idx|]; [|reflexivity].
  rewrite Hown. reflexivity.
Qed.

End grant_revoke.

Lemma run_sorted_users_witness :
  sorted_users descriptor0 /\
  sorted_users
    (run 1 [1; 2; 3] [OpGrant "bob" [1]; OpRevoke "alice" [2]] descriptor0).
Proof.
  split; [exact descriptor0_sorted|].
  apply (proj1 (run_sorted_users 1 [1; 2; 3] "root"
                  [OpGrant "bob" [1]; OpRevoke "alice" [2]])).
  exact descriptor0_sorted.
Defined.

Lemma Grant_CheckPrivilege_witness :
  sorted_users descriptor0 /\
  CheckPrivilege 1 (Grant 1 descriptor0 "bob" [3]) "bob" 3 = true.
Proof.
  split; [exact descriptor0_sorted|].
  apply (Grant_CheckPrivilege 1 descriptor0 "bob" [3] 3 descriptor0_sorted);
    [lia|apply elem_of_cons; left; reflexivity].
Defined.

Lemma CheckPrivilege_other_user_witness :
  CheckPrivilege 1 (Grant 1 descriptor0 "bob" [3]) "alice" 2
    = CheckPrivilege 1 descriptor0 "alice" 2 /\
  CheckPrivilege 1 (Revoke 1 [1; 2; 3] descriptor0 "root" [1]) "alice" 2
    = CheckPrivilege 1 descriptor0 "alice" 2.
Proof.
  split.
  - apply (CheckPrivilege_other_user 1 [1; 2; 3] descriptor0 "bob" [3] "alice" 2
             descriptor0_sorted). discriminate.
  - apply (CheckPrivilege_other_user 1 [1; 2; 3] descriptor0 "root" [1] "alice" 2
             descriptor0_sorted). discriminate.
Defined.

Lemma Revoke_CheckPrivilege_witness :
  CheckPrivilege 1 descriptor0 "root" 3 = true /\
  CheckPrivilege 1 (Revoke 1 [1; 2; 3] descriptor0 "root" [3]) "root" 3 = false.
Proof.
  split; [reflexivity|].
  apply (Revoke_CheckPrivilege 1 [1; 2; 3] descriptor0 "root" [3] 3 descriptor0_sorted);
    [lia|apply elem_of_cons; left; reflexivity].
Defined.

Lemma Validate_Grant_Revoke_witness :
  Validate 1 "root" (Some descriptor0) = None /\
  Validate 1 "root" (Some (Grant 1 descriptor0 "bob" [2])) = None /\
  Validate 1 "root" (Some (Revoke 1 [1; 2; 3] descriptor0 "root" [])) <> None.
Proof.
  split; [reflexivity|].
  pose proof (Validate_Grant_Revoke 1 [1; 2; 3] "root" descriptor0 "bob" [2]
                descriptor0_sorted eq_refl) as (_ & HG & _ & _).
  pose proof (Validate_Grant_Revoke 1 [1; 2; 3] "root" descriptor0 "bob" []
                descriptor0_sorted eq_refl) as (_ & _ & _ & HR).
  split; assumption.
Defined.

Lemma Grant_empty_entry_witness :
  findUser descriptor0 "bob" = None /\
  findUser (Grant 1 descriptor0 "bob" []) "bob" = Some (mkUserPrivileges "bob" 0) /\
  Revoke 1 [1; 2; 3] (Grant 1 descriptor0 "bob" []) "bob" [1; 2; 3]
    = Grant 1 descriptor0 "bob" [].
Proof.
  split; [reflexivity|].
  apply (Grant_empty_entry 1 [1; 2; 3] descriptor0 "bob" [1; 2; 3] descriptor0_sorted).
  reflexivity.
Defined.
End privilege_more.

(** ** Wire formats *)
Section proto_facts.
Import Proto.

(** Bits of the machine integers *)
Lemma uint64_testbit (x n : Z) :
  Z.testbit (uint64 x) n = (n <? 64) && Z.testbit x n.
Proof. unfold uint64. apply Z.testbit_mod_pow2. lia. Qed.

Lemma uint8_testbit (x n : Z) :
  Z.testbit (uint8 x) n = (n <? 8) && Z.testbit x n.
Proof. unfold uint8. apply Z.testbit_mod_pow2. lia. Qed.

Lemma int64_cases (x : Z) :
  (uint64 x < 2 ^ 63 /\ int64 x = uint64 x) \/
  (2 ^ 63 <= uint64 x /\ int64 x = uint64 x - 2 ^ 64).
Proof.
  unfold int64, sint, uint64.
  change (2 ^ (64 - 1)) with 9223372036854775808.
  change (2 ^ 63) with 9223372036854775808.
  change (2 ^ 64) with 18446744073709551616.
  pose proof (Z.mod_pos_bound x 18446744073709551616 ltac:(lia)).
  pose proof (Z.mod_pos_bound (x + 9223372036854775808) 18446744073709551616 ltac:(lia)).
  pose proof (Z.div_mod x 18446744073709551616 ltac:(lia)).
  pose proof (Z.div_mod (x + 9223372036854775808) 18446744073709551616 ltac:(lia)).
  lia.
Qed.

Lemma int64_testbit (x n : Z) :
  0 <= n -> Z.testbit (int64 x) n = Z.testbit x (Z.min n 63).
Proof.
  intros Hn.
  assert (Hu : 0 <= uint64 x < 2 ^ 64) by (apply Z.mod_pos_bound; lia).
  assert (H63 : Z.testbit x 63 = negb (uint64 x <? 2 ^ 63)).
  { transitivity (Z.testbit (uint64 x) 63).
    - rewrite uint64_testbit. reflexivity.
    - rewrite Z.testbit_eqb by lia.
      destruct (Z.ltb_spec (uint64 x) (2 ^ 63)) as [Hlt|Hge]; simpl.
      + rewrite Z.div_small by lia. reflexivity.
      + assert (uint64 x / 2 ^ 63 = 1) as ->; [|reflexivity].
        symmetry. apply (Z.div_unique _ _ 1 (uint64 x - 2 ^ 63)); lia. }
  destruct (Z.ltb_spec n 63) as [Hlow|Hhigh].
  - rewrite Z.min_l by lia.
    transitivity (Z.testbit (uint64 (int64 x)) n).
    { rewrite uint64_testbit. destruct (Z.ltb_spec n 64); [reflexivity|lia]. }
    assert (uint64 (int64 x) = uint64 x) as ->.
    { destruct (int64_cases x) as [[_ ->]|[_ ->]]; unfold uint64.
      - apply Z.mod_mod. lia.
      - rewrite Zminus_mod, Z.mod_same, Z.sub_0_r, !Z.mod_mod by lia. reflexivity. }
    rewrite uint64_testbit. destruct (Z.ltb_spec n 64); [reflexivity|lia].
  - rewrite Z.min_r by lia. rewrite H63.
    destruct (int64_cases x) as [[Hlt ->]|[Hge ->]].
    + destruct (Z.ltb_spec (uint64 x) (2 ^ 63)); [|lia]. simpl.
      destruct (Z.eq_dec (uint64 x) 0) as [->|Hnz]; [apply Z.bits_0|].
      apply Z.bits_above_log2; [lia|].
      apply Z.log2_lt_pow2; [lia|].
      eapply Z.lt_le_trans; [exact Hlt|]. apply Z.pow_le_mono_r; lia.
    + destruct (Z.ltb_spec (uint64 x) (2 ^ 63)); [lia|]. simpl.
      apply Z.bits_above_log2_neg; [lia|].
      destruct (Z.eq_dec (Z.pred (- (uint64 x - 2 ^ 64))) 0) as [->|Hnz]; [simpl; lia|].
      apply Z.log2_lt_pow2; [lia|].
      eapply Z.lt_le_trans with (m := 2 ^ 63); [lia|]. apply Z.pow_le_mono_r; lia.
Qed.

(** Varints *)
Lemma land_127 (x : Z) : Z.land x 127 = x mod 128.
Proof. change 127 with (Z.ones 7). rewrite Z.land_ones by lia. reflexivity. Qed.

Lemma lor_128 (x : Z) : 0 <= x < 128 -> Z.lor x 128 = x + 128.
Proof.
  intros Hx.
  assert (Hd : Z.land x 128 = 0).
  { apply Z.bits_inj'. intros n Hn. rewrite Z.land_spec, Z.bits_0.
    change 128 with (2 ^ 7). rewrite Z.pow2_bits_eqb by lia.
    destruct (Z.eqb_spec 7 n) as [<-|Hne]; [|apply andb_false_r].
    rewrite andb_true_r. rewrite Z.testbit_eqb by lia.
    rewrite Z.div_small; [reflexivity|]. change (2 ^ 7) with 128. lia. }
  pose proof (Z.add_lor_land x 128) as H. rewrite Hd in H. lia.
Qed.

Lemma continuation_byte (v : Z) :
  uint8 (Z.lor (Z.land v 127) 128) = v mod 128 + 128.
Proof.
  rewrite land_127.
  pose proof (Z.mod_pos_bound v 128 ltac:(lia)) as Hb.
  rewrite lor_128 by exact Hb.
  unfold uint8. apply Z.mod_small. change (2 ^ 8) with 256. lia.
Qed.

Lemma shiftr_7_zero (v : Z) : 0 <= v -> (Z.shiftr v 7 =? 0) = negb (128 <=? v).
Proof.
  intros Hv. rewrite Z.shiftr_div_pow2 by lia. change (2 ^ 7) with 128.
  destruct (Z.leb_spec 128 v) as [Hge|Hlt]; simpl.
  - apply Z.eqb_neq. pose proof (Z.div_le_lower_bound v 128 1 ltac:(lia) ltac:(lia)). lia.
  - apply Z.eqb_eq. apply Z.div_small. lia.
Qed.

Lemma sov_loop_length (fuel : nat) :
  forall n v, 0 <= v ->
    sov_loop fuel n v = n + Z.of_nat (length (encodeVarint_loop fuel v)).
Proof.
  induction fuel as [|fuel IH]; intros n v Hv; cbn [sov_loop encodeVarint_loop].
  - simpl. lia.
  - rewrite shiftr_7_zero by exact Hv.
    destruct (128 <=? v); cbn [negb].
    + rewrite IH by (apply Z.shiftr_nonneg; exact Hv). cbn [length]. lia.
    + simpl. lia.
Qed.

Lemma sovInternal_length (v : Z) :
  0 <= v -> sovInternal v = Z.of_nat (length (encodeVarintInternal v)).
Proof. intros Hv. unfold sovInternal. rewrite sov_loop_length by exact Hv. reflexivity. Qed.

Lemma encodeVarint_loop_length (fuel : nat) (v : Z) :
  (1 <= length (encodeVarint_loop fuel v) <= S fuel)%nat.
Proof.
  revert v. induction fuel as [|fuel IH]; intros v; cbn [encodeVarint_loop].
  - simpl. lia.
  - destruct (128 <=? v); cbn [length]; [specialize (IH (Z.shiftr v 7))|]; lia.
Qed.

(** Decoding what [encodeVarint_loop] wrote gives the value back, shifted
    into place. *)
Lemma readVarint_encode (fuel : nat) :
  forall v shift acc rest,
    0 <= shift -> shift + 7 * Z.of_nat fuel < 2 ^ 64 ->
    0 <= v < 2 ^ (7 * (Z.of_nat fuel + 1)) ->
    readVarint uint64 (encodeVarint_loop fuel v ++ rest) shift acc =
      Some (Z.lor acc (uint64 (Z.shiftl v shift)),
            Z.of_nat (length (encodeVarint_loop fuel v))).
Proof.
  assert (Hlast : forall v shift acc rest, 0 <= shift -> 0 <= v < 128 ->
    readVarint uint64 (uint8 v :: rest) shift acc =
      Some (Z.lor acc (uint64 (Z.shiftl v shift)), 1)).
  { intros v shift acc rest Hs Hv. cbn [readVarint].
    assert (uint8 v = v) as -> by (apply Z.mod_small; change (2 ^ 8) with 256; lia).
    destruct (Z.ltb_spec v 128); [|lia].
    assert (uint64 v = v) as ->.
    { apply Z.mod_small. change (2 ^ 64) with 18446744073709551616. lia. }
    rewrite land_127, Z.mod_small by lia. reflexivity. }
  induction fuel as [|fuel IH]; intros v shift acc rest Hs Hfuel Hv;
    cbn [encodeVarint_loop].
  - apply Hlast; [lia|]. change (2 ^ (7 * (Z.of_nat 0 + 1))) with 128 in Hv. lia.
  - destruct (Z.leb_spec 128 v) as [Hge|Hlt]; [|apply Hlast; lia].
    rewrite continuation_byte.
    pose proof (Z.mod_pos_bound v 128 ltac:(lia)) as Hb.
    cbn [app readVarint].
    destruct (Z.ltb_spec (v mod 128 + 128) 128); [lia|].
    assert (Hs7 : uint64 (shift + 7) = shift + 7).
    { apply Z.mod_small. lia. }
    rewrite Hs7.
    assert (Hshr : 0 <= Z.shiftr v 7 < 2 ^ (7 * (Z.of_nat fuel + 1))).
    { rewrite Z.shiftr_div_pow2 by lia. split; [apply Z.div_pos; lia|].
      apply Z.div_lt_upper_bound; [lia|].
      rewrite <- Z.pow_add_r by lia.
      replace (7 + 7 * (Z.of_nat fuel + 1)) with (7 * (Z.of_nat (S fuel) + 1)) by lia.
      lia. }
    rewrite IH by (try exact Hshr; lia).
    f_equal. f_equal; [|cbn [length]; lia].
    rewrite <- Z.lor_assoc. f_equal.
    apply Z.bits_inj'. intros n Hn.
    rewrite Z.lor_spec, !uint64_testbit, !Z.shiftl_spec by lia.
    assert (uint64 (v mod 128 + 128) = v mod 128 + 128) as ->.
    { apply Z.mod_small. change (2 ^ 64) with 18446744073709551616. lia. }
    rewrite land_127.
    replace ((v mod 128 + 128) mod 128) with (v mod 128).
    2:{ rewrite Z.add_mod, Z.mod_same, Z.add_0_r, !Z.mod_mod by lia. reflexivity. }
    change 128 with (2 ^ 7).
    rewrite Z.testbit_mod_pow2 by lia.
    destruct (Z.ltb_spec n 64); simpl; [|reflexivity].
    destruct (Z.ltb_spec (n - shift) 7) as [Hlo|Hhi]; simpl.
    + rewrite (Z.testbit_neg_r _ (n - (shift + 7))) by lia. apply orb_false_r.
    + rewrite Z.shiftr_spec by lia. f_equal. lia.
Qed.

Lemma readVarint_encodeVarintInternal (v : Z) (rest : bytes) :
  0 <= v < 2 ^ 64 ->
  readVarint uint64 (encodeVarintInternal v ++ rest) 0 0 =
    Some (v, Z.of_nat (length (encodeVarintInternal v))).
Proof.
  intros Hv. unfold encodeVarintInternal.
  rewrite readVarint_encode.
  - rewrite Z.lor_0_l, Z.shiftl_0_r. unfold uint64. rewrite Z.mod_small by lia.
    reflexivity.
  - lia.
  - change (2 ^ 64) with 18446744073709551616. lia.
  - change (2 ^ (7 * (Z.of_nat 9 + 1))) with (2 ^ 70).
    assert (2 ^ 64 < 2 ^ 70) by (apply Z.pow_lt_mono_r; lia). lia.
Qed.

(** The signed reading of a varint is the signed conversion of the
    unsigned one. *)
Lemma int64_lor (x y : Z) : int64 (Z.lor x y) = Z.lor (int64 x) (int64 y).
Proof.
  apply Z.bits_inj'. intros n Hn.
  rewrite Z.lor_spec, !int64_testbit, Z.lor_spec by lia. reflexivity.
Qed.

Lemma int64_uint64 (x : Z) : int64 (uint64 x) = int64 x.
Proof.
  apply Z.bits_inj'. intros n Hn.
  rewrite !int64_testbit, uint64_testbit by lia.
  destruct (Z.ltb_spec (Z.min n 63) 64); [reflexivity|lia].
Qed.

Lemma int64_int64 (x : Z) : int64 (int64 x) = int64 x.
Proof.
  apply Z.bits_inj'. intros n Hn.
  rewrite !int64_testbit by lia. f_equal. lia.
Qed.

Lemma land_127_conv (b : Z) : Z.land (int64 b) 127 = Z.land (uint64 b) 127.
Proof.
  apply Z.bits_inj'. intros n Hn.
  rewrite !Z.land_spec, int64_testbit, uint64_testbit by lia.
  change 127 with (Z.ones 7). rewrite Z.testbit_ones_nonneg by lia.
  destruct (Z.ltb_spec n 7); [|rewrite !andb_false_r; reflexivity].
  rewrite Z.min_l by lia. destruct (Z.ltb_spec n 64); [reflexivity|lia].
Qed.

Lemma readVarint_int64 (rest : bytes) :
  forall shift acc v n,
    readVarint uint64 rest shift acc = Some (v, n) ->
    readVarint int64 rest shift (int64 acc) = Some (int64 v, n).
Proof.
  induction rest as [|b rest IH]; intros shift acc v n; cbn [readVarint];
    [discriminate|].
  assert (Hacc : Z.lor (int64 acc) (int64 (Z.shiftl (Z.land (int64 b) 127) shift)) =
                 int64 (Z.lor acc (uint64 (Z.shiftl (Z.land (uint64 b) 127) shift)))).
  { rewrite int64_lor, int64_uint64, land_127_conv. reflexivity. }
  rewrite Hacc.
  destruct (b <? 128).
  - intros H. inversion H; subst. reflexivity.
  - destruct (readVarint uint64 rest _ _) as [[x k]|] eqn:E; [|discriminate].
    intros H. inversion H; subst.
    rewrite (IH _ _ _ _ E). reflexivity.
Qed.

(** The decoding loop *)
Lemma int64_small (x : Z) : - 2 ^ 63 <= x < 2 ^ 63 -> int64 x = x.
Proof.
  intros Hx. unfold int64, sint. change (2 ^ (64 - 1)) with (2 ^ 63).
  rewrite Z.mod_small; [lia|].
  change (2 ^ 64) with (2 * 2 ^ 63). lia.
Qed.

Lemma readVarintAt_app (conv : Z -> Z) (pre enc post : bytes) (acc x n : Z) :
  readVarint conv (enc ++ post) 0 acc = Some (x, n) ->
  Z.of_nat (length pre) + n < 2 ^ 63 -> 0 <= n ->
  readVarintAt conv (pre ++ enc ++ post) (Z.of_nat (length pre)) acc =
    Ok (x, Z.of_nat (length pre) + n).
Proof.
  intros Hr Hlen Hn. unfold readVarintAt.
  destruct (Z.ltb_spec (Z.of_nat (length pre)) 0); [lia|].
  rewrite Nat2Z.id, drop_app_length, Hr.
  unfold int. rewrite int64_small by lia. reflexivity.
Qed.

Lemma unmarshalLoop_done {M} field fuel (m : M) (data : bytes) (iNdEx : Z) :
  Z.of_nat (length data) <= iNdEx ->
  unmarshalLoop field fuel m data iNdEx = Ok m.
Proof.
  intros H. destruct fuel; cbn [unmarshalLoop];
    destruct (Z.ltb_spec iNdEx (Z.of_nat (length data))); try lia; reflexivity.
Qed.

Lemma unmarshalLoop_step {M} field fuel (m m' : M) (data : bytes)
    (iNdEx wire i1 i2 : Z) :
  iNdEx < Z.of_nat (length data) ->
  readVarintAt uint64 data iNdEx 0 = Ok (wire, i1) ->
  field m (int32 (Z.shiftr wire 3)) (int (Z.land wire 7)) data i1 = Some (Ok (m', i2)) ->
  unmarshalLoop field (S fuel) m data iNdEx = unmarshalLoop field fuel m' data i2.
Proof.
  intros Hlt Htag Hfield. cbn [unmarshalLoop].
  destruct (Z.ltb_spec iNdEx (Z.of_nat (length data))); [|lia].
  rewrite Htag. cbn [mbind result_bind]. rewrite Hfield. reflexivity.
Qed.

Lemma readTag (tag : Z) (pre post : bytes) :
  0 <= tag < 128 -> Z.of_nat (length pre) + 1 < 2 ^ 63 ->
  readVarintAt uint64 (pre ++ tag :: post) (Z.of_nat (length pre)) 0 =
    Ok (tag, Z.of_nat (length pre) + 1).
Proof.
  intros Ht Hlen.
  apply (readVarintAt_app uint64 pre [tag] post); [|lia|lia].
  cbn [app readVarint]. destruct (Z.ltb_spec tag 128); [|lia].
  rewrite Z.lor_0_l, Z.shiftl_0_r.
  assert (uint64 tag = tag) as ->.
  { apply Z.mod_small. change (2 ^ 64) with 18446744073709551616. lia. }
  rewrite land_127, Z.mod_small by lia.
  assert (uint64 tag = tag) as ->.
  { apply Z.mod_small. change (2 ^ 64) with 18446744073709551616. lia. }
  reflexivity.
Qed.

Lemma encodeVarintInternal_length (v : Z) :
  (1 <= length (encodeVarintInternal v) <= 10)%nat.
Proof. apply encodeVarint_loop_length. Qed.

Lemma readVarintAt_at (conv : Z -> Z) (data pre enc post : bytes) (i acc x n : Z) :
  data = pre ++ enc ++ post -> i = Z.of_nat (length pre) ->
  readVarint conv (enc ++ post) 0 acc = Some (x, n) ->
  i + n < 2 ^ 63 -> 0 <= n ->
  readVarintAt conv data i acc = Ok (x, i + n).
Proof. intros -> ->. apply readVarintAt_app. Qed.

Lemma readTag_at (tag : Z) (data pre post : bytes) (i : Z) :
  data = pre ++ tag :: post -> i = Z.of_nat (length pre) ->
  0 <= tag < 128 -> i + 1 < 2 ^ 63 ->
  readVarintAt uint64 data i 0 = Ok (tag, i + 1).
Proof. intros -> ->. apply readTag. Qed.

Lemma RaftTruncatedState_roundtrip (m m0 : RaftTruncatedState) :
  0 <= Index m < 2 ^ 64 -> 0 <= Term m < 2 ^ 64 ->
  RaftTruncatedState_Marshal m = Ok (RaftTruncatedState_MarshalTo m) /\
  RaftTruncatedState_Unmarshal m0 (RaftTruncatedState_MarshalTo m) = Ok m.
Proof.
  intros HI HT. destruct m as [idx term]. cbn [Index Term] in *.
  assert (Hui : uint64 idx = idx) by (apply Z.mod_small; lia).
  assert (Hut : uint64 term = term) by (apply Z.mod_small; lia).
  pose proof (encodeVarintInternal_length idx) as L1.
  pose proof (encodeVarintInternal_length term) as L2.
  assert (H63 : 2 ^ 63 = 9223372036854775808) by reflexivity.
  split.
  - unfold RaftTruncatedState_Marshal, RaftTruncatedState_Size, RaftTruncatedState_MarshalTo.
    cbn [Index Term]. rewrite Hui, Hut, !sovInternal_length by lia.
    rewrite !length_app. cbn [length].
    destruct (Z.leb_spec
      (Z.of_nat (1 + (length (encodeVarintInternal idx) + (1 + length (encodeVarintInternal term)))))
      (1 + Z.of_nat (length (encodeVarintInternal idx)) + (1 + Z.of_nat (length (encodeVarintInternal term)))));
      [reflexivity|lia].
  - unfold RaftTruncatedState_Unmarshal, RaftTruncatedState_MarshalTo.
    cbn [Index Term]. rewrite Hui, Hut.
    set (e1 := encodeVarintInternal idx) in *.
    set (e2 := encodeVarintInternal term) in *.
    set (data := [8] ++ e1 ++ [16] ++ e2).
    assert (Hlen : length data = (2 + length e1 + length e2)%nat).
    { subst data. rewrite !length_app. cbn [length]. lia. }
    rewrite Hlen. change (2 + length e1 + length e2)%nat with (S (S (length e1 + length e2))).
    (* field 1 *)
    rewrite (unmarshalLoop_step _ _ m0 (mkRaftTruncatedState idx (Term m0)) data
               0 8 (0 + 1) (0 + 1 + Z.of_nat (length e1))).
    2:{ lia. }
    2:{ apply (readTag_at 8 data [] (e1 ++ [16] ++ e2)); [reflexivity|reflexivity|lia|lia]. }
    2:{ change (int32 (Z.shiftr 8 3)) with 1. change (int (Z.land 8 7)) with 0.
        unfold RaftTruncatedState_field. cbn [Z.eqb negb].
        rewrite (readVarintAt_at uint64 data [8] e1 ([16] ++ e2) (0 + 1) 0 idx (Z.of_nat (length e1)));
          [reflexivity|reflexivity|reflexivity| |lia|lia].
        apply readVarint_encodeVarintInternal. lia. }
    (* field 2 *)
    rewrite (unmarshalLoop_step _ _ _ (mkRaftTruncatedState idx term) data
               _ 16 (0 + 1 + Z.of_nat (length e1) + 1)
               (0 + 1 + Z.of_nat (length e1) + 1 + Z.of_nat (length e2))).
    2:{ lia. }
    2:{ apply (readTag_at 16 data ([8] ++ e1) e2).
        - subst data. rewrite <- !app_assoc. reflexivity.
        - rewrite length_app. cbn [length]. lia.
        - lia.
        - lia. }
    2:{ change (int32 (Z.shiftr 16 3)) with 2. change (int (Z.land 16 7)) with 0.
        unfold RaftTruncatedState_field. cbn [Z.eqb negb Index].
        rewrite (readVarintAt_at uint64 data ([8] ++ e1 ++ [16]) e2 [] _ 0 term (Z.of_nat (length e2))).
        - reflexivity.
        - subst data. rewrite app_nil_r, <- !app_assoc. reflexivity.
        - rewrite !length_app. cbn [length]. lia.
        - apply readVarint_encodeVarintInternal. lia.
        - lia.
        - lia. }
    apply unmarshalLoop_done. lia.
Qed.

Section RaftCommand_roundtrip.
Variable BatchRequest : Type.
Variable BatchRequest_Size : BatchRequest -> Z.
Variable BatchRequest_MarshalTo : BatchRequest -> result bytes.
Variable BatchRequest_Unmarshal : BatchRequest -> bytes -> result BatchRequest.


Lemma slice_suffix (pre body : bytes) (i l : Z) :
  i = Z.of_nat (length pre) -> l = Z.of_nat (length (pre ++ body)) ->
  slice (pre ++ body) i l = Ok body.
Proof.
  intros -> ->. unfold slice. rewrite length_app.
  destruct (Z.leb_spec 0 (Z.of_nat (length pre))); [|lia].
  destruct (Z.leb_spec (Z.of_nat (length pre)) (Z.of_nat (length pre + length body))); [|lia].
  destruct (Z.leb_spec (Z.of_nat (length pre + length body)) (Z.of_nat (length pre + length body))); [|lia].
  cbn [andb]. rewrite Nat2Z.id, drop_app_length.
  replace (Z.to_nat _) with (length body) by lia.
  rewrite firstn_all. reflexivity.
Qed.

Lemma RaftCommand_roundtrip (m m0 : RaftCommand BatchRequest) (body : bytes) :
  - 2 ^ 63 <= RangeID m < 2 ^ 63 ->
  0 <= OriginNodeID m < 2 ^ 64 ->
  BatchRequest_MarshalTo (Cmd m) = Ok body ->
  BatchRequest_Size (Cmd m) = Z.of_nat (length body) ->
  Z.of_nat (length body) < 2 ^ 62 ->
  BatchRequest_Unmarshal (Cmd m0) body = Ok (Cmd m) ->
  exists data,
    RaftCommand_Marshal BatchRequest BatchRequest_Size BatchRequest_MarshalTo m = Ok data /\
    RaftCommand_Unmarshal BatchRequest BatchRequest_Unmarshal m0 data = Ok m.
Proof.
  intros HR HO Hmar Hsize Hbody Hun. destruct m as [rid oid cmd]. cbn [RangeID OriginNodeID Cmd] in *.
  assert (H62 : 2 ^ 62 = 4611686018427387904) by reflexivity.
  assert (H63 : 2 ^ 63 = 9223372036854775808) by reflexivity.
  assert (H64 : 2 ^ 64 = 18446744073709551616) by reflexivity.
  assert (Huo : uint64 oid = oid) by (apply Z.mod_small; lia).
  assert (Hus : uint64 (Z.of_nat (length body)) = Z.of_nat (length body)) by (apply Z.mod_small; lia).
  assert (Hur : 0 <= uint64 rid < 2 ^ 64) by (apply Z.mod_pos_bound; lia).
  set (e1 := encodeVarintInternal (uint64 rid)).
  set (e2 := encodeVarintInternal oid).
  set (e3 := encodeVarintInternal (Z.of_nat (length body))).
  pose proof (encodeVarintInternal_length (uint64 rid)) as L1. fold e1 in L1.
  pose proof (encodeVarintInternal_length oid) as L2. fold e2 in L2.
  pose proof (encodeVarintInternal_length (Z.of_nat (length body))) as L3. fold e3 in L3.
  set (data := ([8] ++ e1 ++ [16] ++ e2 ++ [26] ++ e3) ++ body).
  assert (Hlen : length data = (3 + length e1 + length e2 + length e3 + length body)%nat).
  { subst data. rewrite !length_app. cbn [length]. lia. }
  exists data. split.
  - unfold RaftCommand_Marshal, RaftCommand_MarshalTo, RaftCommand_Size.
    cbn [RangeID OriginNodeID Cmd]. rewrite Hmar, Hsize, Huo, Hus. cbn [mbind result_bind].
    fold e1 e2 e3. fold data.
    rewrite !sovInternal_length by lia. fold e1 e2 e3. rewrite Hlen.
    match goal with |- (if ?a <=? ?b then _ else _) = _ =>
      destruct (Z.leb_spec a b); [reflexivity|lia] end.
  - unfold RaftCommand_Unmarshal. rewrite Hlen.
    change (3 + length e1 + length e2 + length e3 + length body)%nat
      with (S (S (S (length e1 + length e2 + length e3 + length body)))).
    (* field 1: RangeID *)
    rewrite (unmarshalLoop_step _ _ m0 (mkRaftCommand rid (OriginNodeID m0) (Cmd m0)) data
               0 8 (0 + 1) (0 + 1 + Z.of_nat (length e1))).
    2:{ lia. }
    2:{ apply (readTag_at 8 data [] (e1 ++ [16] ++ e2 ++ [26] ++ e3 ++ body));
          [|reflexivity|lia|lia].
        subst data. rewrite <- !app_assoc. reflexivity. }
    2:{ change (int32 (Z.shiftr 8 3)) with 1. change (int (Z.land 8 7)) with 0.
        unfold RaftCommand_field. cbn [Z.eqb negb].
        rewrite (readVarintAt_at int64 data [8] e1 ([16] ++ e2 ++ [26] ++ e3 ++ body)
                   (0 + 1) 0 rid (Z.of_nat (length e1))).
        - reflexivity.
        - subst data. rewrite <- !app_assoc. reflexivity.
        - reflexivity.
        - pose proof (readVarint_int64 _ _ _ _ _
            (readVarint_encodeVarintInternal (uint64 rid)
               ([16] ++ e2 ++ [26] ++ e3 ++ body) Hur)) as H.
          rewrite int64_uint64, (int64_small rid) in H by lia. exact H.
        - lia.
        - lia. }
    (* field 2: OriginNodeID *)
    rewrite (unmarshalLoop_step _ _ _ (mkRaftCommand rid oid (Cmd m0)) data
               _ 16 (0 + 1 + Z.of_nat (length e1) + 1)
               (0 + 1 + Z.of_nat (length e1) + 1 + Z.of_nat (length e2))).
    2:{ lia. }
    2:{ apply (readTag_at 16 data ([8] ++ e1) (e2 ++ [26] ++ e3 ++ body)).
        - subst data. rewrite <- !app_assoc. reflexivity.
        - rewrite length_app. cbn [length]. lia.
        - lia.
        - lia. }
    2:{ change (int32 (Z.shiftr 16 3)) with 2. change (int (Z.land 16 7)) with 0.
        unfold RaftCommand_field. cbn [Z.eqb negb RangeID Cmd].
        rewrite (readVarintAt_at uint64 data ([8] ++ e1 ++ [16]) e2 ([26] ++ e3 ++ body)
                   _ 0 oid (Z.of_nat (length e2))).
        - reflexivity.
        - subst data. rewrite <- !app_assoc. reflexivity.
        - rewrite !length_app. cbn [length]. lia.
        - apply readVarint_encodeVarintInternal. lia.
        - lia.
        - lia. }
    (* field 3: Cmd *)
    rewrite (unmarshalLoop_step _ _ _ (mkRaftCommand rid oid cmd) data
               _ 26 (0 + 1 + Z.of_nat (length e1) + 1 + Z.of_nat (length e2) + 1)
               (Z.of_nat (length data))).
    2:{ lia. }
    2:{ apply (readTag_at 26 data ([8] ++ e1 ++ [16] ++ e2) (e3 ++ body)).
        - subst data. rewrite <- !app_assoc. reflexivity.
        - rewrite !length_app. cbn [length]. lia.
        - lia.
        - lia. }
    2:{ change (int32 (Z.shiftr 26 3)) with 3. change (int (Z.land 26 7)) with 2.
        unfold RaftCommand_field. cbn [Z.eqb negb RangeID OriginNodeID Cmd].
        rewrite (readVarintAt_at int data ([8] ++ e1 ++ [16] ++ e2 ++ [26]) e3 body
                   _ 0 (Z.of_nat (length body)) (Z.of_nat (length e3))).
        - cbn [mbind result_bind].
          destruct (Z.ltb_spec (Z.of_nat (length body)) 0); [lia|].
          set (i := 0 + 1 + Z.of_nat (length e1) + 1 + Z.of_nat (length e2) + 1 + Z.of_nat (length e3)).
          assert (Hpost : int (i + Z.of_nat (length body)) = Z.of_nat (length data)).
          { unfold int. rewrite int64_small by (subst i; lia). subst i. lia. }
          rewrite Hpost.
          destruct (Z.ltb_spec (Z.of_nat (length data)) (Z.of_nat (length data))); [lia|].
          rewrite (slice_suffix ([8] ++ e1 ++ [16] ++ e2 ++ [26] ++ e3) body);
            [|subst i; rewrite !length_app; cbn [length]; lia|reflexivity].
          cbn [mbind result_bind]. rewrite Hun. reflexivity.
        - subst data. rewrite <- !app_assoc. reflexivity.
        - rewrite !length_app. cbn [length]. lia.
        - pose proof (readVarint_int64 _ _ _ _ _
            (readVarint_encodeVarintInternal (Z.of_nat (length body)) body
               ltac:(lia))) as H.
          rewrite (int64_small (Z.of_nat (length body))) in H by lia. exact H.
        - lia.
        - lia. }
    apply unmarshalLoop_done. lia.
Qed.
End RaftCommand_roundtrip.

(** C9: for every [RaftTruncatedState] and every [RaftCommand], [Unmarshal]
    applied to the bytes [Marshal] produces gives the value back.  The
    fields are in the range of their Go types; the codec of the embedded
    [BatchRequest] is assumed to give the request back from its own bytes,
    which [Size] counts. *)
Theorem wire_roundtrip :
  (forall m m0 : RaftTruncatedState,
     0 <= Index m < 2 ^ 64 -> 0 <= Term m < 2 ^ 64 ->
     exists data,
       RaftTruncatedState_Marshal m = Ok data /\
       RaftTruncatedState_Unmarshal m0 data = Ok m) /\
  (forall (BatchRequest : Type)
          (BatchRequest_Size : BatchRequest -> Z)
          (BatchRequest_MarshalTo : BatchRequest -> result bytes)
          (BatchRequest_Unmarshal : BatchRequest -> bytes -> result BatchRequest)
          (m m0 : RaftCommand BatchRequest) (body : bytes),
     - 2 ^ 63 <= RangeID m < 2 ^ 63 ->
     0 <= OriginNodeID m < 2 ^ 64 ->
     BatchRequest_MarshalTo (Cmd m) = Ok body ->
     BatchRequest_Size (Cmd m) = Z.of_nat (length body) ->
     Z.of_nat (length body) < 2 ^ 62 ->
     BatchRequest_Unmarshal (Cmd m0) body = Ok (Cmd m) ->
     exists data,
       RaftCommand_Marshal BatchRequest BatchRequest_Size BatchRequest_MarshalTo m
         = Ok data /\
       RaftCommand_Unmarshal BatchRequest BatchRequest_Unmarshal m0 data = Ok m).
Proof.
  split.
  - intros m m0 HI HT. exists (RaftTruncatedState_MarshalTo m).
    apply RaftTruncatedState_roundtrip; assumption.
  - intros. eapply RaftCommand_roundtrip; eassumption.
Qed.

Lemma wire_roundtrip_witness :
  (exists data,
     RaftTruncatedState_Marshal (mkRaftTruncatedState 300 5) = Ok data /\
     RaftTruncatedState_Unmarshal (mkRaftTruncatedState 0 0) data
       = Ok (mkRaftTruncatedState 300 5)) /\
  (exists data,
     RaftCommand_Marshal (list Z) (fun c => Z.of_nat (length c)) Ok
       (mkRaftCommand (-7) 3 [1; 2]) = Ok data /\
     RaftCommand_Unmarshal (list Z) (fun _ d => Ok d) (mkRaftCommand 0 0 []) data
       = Ok (mkRaftCommand (-7) 3 [1; 2])).
Proof.
  split.
  - apply (proj1 wire_roundtrip (mkRaftTruncatedState 300 5) (mkRaftTruncatedState 0 0));
      cbn; lia.
  - apply (proj2 wire_roundtrip (list Z) (fun c => Z.of_nat (length c)) Ok
             (fun _ d => Ok d) (mkRaftCommand (-7) 3 [1; 2]) (mkRaftCommand 0 0 [])
             [1; 2]); cbn; try reflexivity; lia.
Defined.

End proto_facts.

(** ** Wire formats: the other messages *)
Section internal_facts.
Import Proto Internal.

Lemma uint32_testbit (x n : Z) :
  Z.testbit (uint32 x) n = (n <? 32) && Z.testbit x n.
Proof. unfold uint32. apply Z.testbit_mod_pow2. lia. Qed.

Lemma int32_cases (x : Z) :
  (uint32 x < 2 ^ 31 /\ int32 x = uint32 x) \/
  (2 ^ 31 <= uint32 x /\ int32 x = uint32 x - 2 ^ 32).
Proof.
  unfold int32, sint, uint32.
  change (2 ^ (32 - 1)) with 2147483648.
  change (2 ^ 31) with 2147483648.
  change (2 ^ 32) with 4294967296.
  pose proof (Z.mod_pos_bound x 4294967296 ltac:(lia)).
  pose proof (Z.mod_pos_bound (x + 2147483648) 4294967296 ltac:(lia)).
  pose proof (Z.div_mod x 4294967296 ltac:(lia)).
  pose proof (Z.div_mod (x + 2147483648) 4294967296 ltac:(lia)).
  lia.
Qed.

Lemma int32_testbit (x n : Z) :
  0 <= n -> Z.testbit (int32 x) n = Z.testbit x (Z.min n 31).
Proof.
  intros Hn.
  assert (Hu : 0 <= uint32 x < 2 ^ 32) by (apply Z.mod_pos_bound; lia).
  assert (H31 : Z.testbit x 31 = negb (uint32 x <? 2 ^ 31)).
  { transitivity (Z.testbit (uint32 x) 31).
    - rewrite uint32_testbit. reflexivity.
    - rewrite Z.testbit_eqb by lia.
      destruct (Z.ltb_spec (uint32 x) (2 ^ 31)) as [Hlt|Hge]; simpl.
      + rewrite Z.div_small by lia. reflexivity.
      + assert (uint32 x / 2 ^ 31 = 1) as ->; [|reflexivity].
        symmetry. apply (Z.div_unique _ _ 1 (uint32 x - 2 ^ 31)); lia. }
  destruct (Z.ltb_spec n 31) as [Hlow|Hhigh].
  - rewrite Z.min_l by lia.
    transitivity (Z.testbit (uint32 (int32 x)) n).
    { rewrite uint32_testbit. destruct (Z.ltb_spec n 32); [reflexivity|lia]. }
    assert (uint32 (int32 x) = uint32 x) as ->.
    { destruct (int32_cases x) as [[_ ->]|[_ ->]]; unfold uint32.
      - apply Z.mod_mod. lia.
      - rewrite Zminus_mod, Z.mod_same, Z.sub_0_r, !Z.mod_mod by lia. reflexivity. }
    rewrite uint32_testbit. destruct (Z.ltb_spec n 32); [reflexivity|lia].
  - rewrite Z.min_r by lia. rewrite H31.
    destruct (int32_cases x) as [[Hlt ->]|[Hge ->]].
    + destruct (Z.ltb_spec (uint32 x) (2 ^ 31)); [|lia]. simpl.
      destruct (Z.eq_dec (uint32 x) 0) as [->|Hnz]; [apply Z.bits_0|].
      apply Z.bits_above_log2; [lia|].
      apply Z.log2_lt_pow2; [lia|].
      eapply Z.lt_le_trans; [exact Hlt|]. apply Z.pow_le_mono_r; lia.
    + destruct (Z.ltb_spec (uint32 x) (2 ^ 31)); [lia|]. simpl.
      apply Z.bits_above_log2_neg; [lia|].
      destruct (Z.eq_dec (Z.pred (- (uint32 x - 2 ^ 32))) 0) as [->|Hnz]; [simpl; lia|].
      apply Z.log2_lt_pow2; [lia|].
      eapply Z.lt_le_trans with (m := 2 ^ 31); [lia|]. apply Z.pow_le_mono_r; lia.
Qed.

(** A conversion to a narrower integer type commutes with the varint
    loop. *)
Lemma readVarint_conv (conv : Z -> Z) :
  (forall x y, conv (Z.lor x y) = Z.lor (conv x) (conv y)) ->
  (forall x, conv (uint64 x) = conv x) ->
  (forall b, Z.land (conv b) 127 = Z.land (uint64 b) 127) ->
  forall rest shift acc v n,
    readVarint uint64 rest shift acc = Some (v, n) ->
    readVarint conv rest shift (conv acc) = Some (conv v, n).
Proof.
  intros Hlor Hu Hland.
  induction rest as [|b rest IH]; intros shift acc v n; cbn [readVarint];
    [discriminate|].
  assert (Hacc : Z.lor (conv acc) (conv (Z.shiftl (Z.land (conv b) 127) shift)) =
                 conv (Z.lor acc (uint64 (Z.shiftl (Z.land (uint64 b) 127) shift)))).
  { rewrite Hlor, Hu, Hland. reflexivity. }
  rewrite Hacc.
  destruct (b <? 128).
  - intros H. inversion H; subst. reflexivity.
  - destruct (readVarint uint64 rest _ _) as [[x k]|] eqn:E; [|discriminate].
    intros H. inversion H; subst.
    rewrite (IH _ _ _ _ E). reflexivity.
Qed.

Lemma readVarint_int32 rest shift acc v n :
  readVarint uint64 rest shift acc = Some (v, n) ->
  readVarint int32 rest shift (int32 acc) = Some (int32 v, n).
Proof.
  apply readVarint_conv.
  - intros x y. apply Z.bits_inj'. intros k Hk.
    rewrite Z.lor_spec, !int32_testbit, Z.lor_spec by lia. reflexivity.
  - intros x. apply Z.bits_inj'. intros k Hk.
    rewrite !int32_testbit, uint64_testbit by lia.
    destruct (Z.ltb_spec (Z.min k 31) 64); [reflexivity|lia].
  - intros b. apply Z.bits_inj'. intros k Hk.
    rewrite !Z.land_spec, int32_testbit, uint64_testbit by lia.
    change 127 with (Z.ones 7). rewrite Z.testbit_ones_nonneg by lia.
    destruct (Z.ltb_spec k 7); [|rewrite !andb_false_r; reflexivity].
    rewrite Z.min_l by lia. destruct (Z.ltb_spec k 64); [reflexivity|lia].
Qed.

Lemma readVarint_uint32 rest shift acc v n :
  readVarint uint64 rest shift acc = Some (v, n) ->
  readVarint uint32 rest shift (uint32 acc) = Some (uint32 v, n).
Proof.
  apply readVarint_conv.
  - intros x y. apply Z.bits_inj'. intros k Hk.
    rewrite Z.lor_spec, !uint32_testbit, Z.lor_spec by lia.
    destruct (k <? 32); reflexivity.
  - intros x. apply Z.bits_inj'. intros k Hk.
    rewrite !uint32_testbit, uint64_testbit by lia.
    destruct (Z.ltb_spec k 32), (Z.ltb_spec k 64); try reflexivity; lia.
  - intros b. apply Z.bits_inj'. intros k Hk.
    rewrite !Z.land_spec, uint32_testbit, uint64_testbit by lia.
    change 127 with (Z.ones 7). rewrite Z.testbit_ones_nonneg by lia.
    destruct (Z.ltb_spec k 7); [|rewrite !andb_false_r; reflexivity].
    destruct (Z.ltb_spec k 32), (Z.ltb_spec k 64); try reflexivity; lia.
Qed.

Lemma int32_small (x : Z) : - 2 ^ 31 <= x < 2 ^ 31 -> int32 (uint64 x) = x.
Proof.
  intros Hx.
  assert (H : int32 (uint64 x) = int32 x).
  { apply Z.bits_inj'. intros k Hk.
    rewrite !int32_testbit, uint64_testbit by lia.
    destruct (Z.ltb_spec (Z.min k 31) 64); [reflexivity|lia]. }
  rewrite H. unfold int32, sint. change (2 ^ (32 - 1)) with (2 ^ 31).
  rewrite Z.mod_small; [lia|]. change (2 ^ 32) with (2 * 2 ^ 31). lia.
Qed.

Lemma uint64_small (x : Z) : 0 <= x < 2 ^ 64 -> uint64 x = x.
Proof. intros H. apply Z.mod_small. exact H. Qed.

Lemma uint32_small (x : Z) : 0 <= x < 2 ^ 32 -> uint32 x = x.
Proof. intros H. apply Z.mod_small. exact H. Qed.

(** A byte of a fixed-width integer, read back in its place. *)
Lemma fixed_byte_testbit (v s n : Z) :
  0 <= s -> s + 8 <= 64 -> 0 <= n ->
  Z.testbit (uint64 (Z.shiftl (uint64 (uint8 (Z.shiftr v s))) s)) n =
    (s <=? n) && (n <? s + 8) && Z.testbit v n.
Proof.
  intros Hs Hs8 Hn.
  rewrite uint64_testbit.
  destruct (Z.leb_spec s n) as [Hle|Hgt]; cbn [andb].
  - rewrite Z.shiftl_spec, uint64_testbit, uint8_testbit, Z.shiftr_spec by lia.
    replace (n - s + s) with n by lia.
    destruct (Z.ltb_spec n 64), (Z.ltb_spec (n - s) 64), (Z.ltb_spec (n - s) 8),
      (Z.ltb_spec n (s + 8)); cbn; try reflexivity; lia.
  - rewrite Z.shiftl_spec by lia. rewrite (Z.testbit_neg_r _ (n - s)) by lia.
    apply andb_false_r.
Qed.

Lemma decodeFixed64 (v : Z) :
  0 <= v < 2 ^ 64 ->
  Z.lor (Z.lor (Z.lor (Z.lor (Z.lor (Z.lor (Z.lor
    (uint64 (uint8 v))
    (uint64 (Z.shiftl (uint64 (uint8 (Z.shiftr v 8))) 8)))
    (uint64 (Z.shiftl (uint64 (uint8 (Z.shiftr v 16))) 16)))
    (uint64 (Z.shiftl (uint64 (uint8 (Z.shiftr v 24))) 24)))
    (uint64 (Z.shiftl (uint64 (uint8 (Z.shiftr v 32))) 32)))
    (uint64 (Z.shiftl (uint64 (uint8 (Z.shiftr v 40))) 40)))
    (uint64 (Z.shiftl (uint64 (uint8 (Z.shiftr v 48))) 48)))
    (uint64 (Z.shiftl (uint64 (uint8 (Z.shiftr v 56))) 56)) = v.
Proof.
  intros Hv.
  assert (H0 : uint64 (uint8 v) = uint64 (Z.shiftl (uint64 (uint8 (Z.shiftr v 0))) 0)).
  { rewrite Z.shiftr_0_r, Z.shiftl_0_r.
    unfold uint64. rewrite Z.mod_mod by lia. reflexivity. }
  rewrite H0.
  apply Z.bits_inj'. intros n Hn.
  rewrite !Z.lor_spec, !fixed_byte_testbit by lia.
  destruct (Z.ltb_spec n 64) as [Hlt|Hge].
  - destruct (Z.testbit v n); [|rewrite !andb_false_r; reflexivity].
    rewrite !andb_true_r.
    assert (Hc : 0 <= n < 8 \/ 8 <= n < 16 \/ 16 <= n < 24 \/ 24 <= n < 32 \/
                 32 <= n < 40 \/ 40 <= n < 48 \/ 48 <= n < 56 \/ 56 <= n < 64) by lia.
    decompose [or] Hc;
      repeat match goal with
             | |- context [?a <=? ?b] =>
                 first [rewrite (proj2 (Z.leb_le a b)) by lia
                       |rewrite (proj2 (Z.leb_gt a b)) by lia]
             | |- context [?a <? ?b] =>
                 first [rewrite (proj2 (Z.ltb_lt a b)) by lia
                       |rewrite (proj2 (Z.ltb_ge a b)) by lia]
             end; reflexivity.
  - assert (Z.testbit v n = false) as ->.
    { destruct (Z.eq_dec v 0) as [->|Hnz]; [apply Z.bits_0|].
      apply Z.bits_above_log2; [lia|].
      apply Z.log2_lt_pow2; [lia|].
      eapply Z.lt_le_trans; [apply Hv|]. apply Z.pow_le_mono_r; lia. }
    rewrite !andb_false_r. reflexivity.
Qed.

(** *** Reading at an index *)

Lemma int_small (x : Z) : - 2 ^ 63 <= x < 2 ^ 63 -> int x = x.
Proof. apply int64_small. Qed.

Lemma byteAt_at (data pre mid post : bytes) (j : Z) (k : nat) (b : Z) :
  data = pre ++ mid ++ post -> mid !! k = Some b ->
  j = Z.of_nat (length pre) + Z.of_nat k ->
  byteAt data j = Ok b.
Proof.
  intros -> Hk ->. unfold byteAt.
  pose proof (lookup_lt_Some _ _ _ Hk) as Hlt.
  rewrite !length_app.
  destruct (Z.leb_spec 0 (Z.of_nat (length pre) + Z.of_nat k)); [|lia].
  destruct (Z.ltb_spec (Z.of_nat (length pre) + Z.of_nat k)
              (Z.of_nat (length pre + (length mid + length post)))); [|lia].
  cbn [andb].
  replace (Z.to_nat (Z.of_nat (length pre) + Z.of_nat k)) with (length pre + k)%nat by lia.
  unfold bytes in *.
  rewrite lookup_app_r by lia.
  replace (length pre + k - length pre)%nat with k by lia.
  rewrite lookup_app_l by lia. rewrite Hk. reflexivity.
Qed.

Lemma readFixed64At_at (data pre post : bytes) (i v : Z) :
  data = pre ++ encodeFixed64Internal v ++ post -> i = Z.of_nat (length pre) ->
  i + 8 < 2 ^ 63 -> 0 <= v < 2 ^ 64 ->
  readFixed64At data i = Ok (v, i + 8).
Proof.
  intros Hdata Hi Hlen Hv. unfold readFixed64At. cbv zeta.
  assert (H63 : 2 ^ 63 = 9223372036854775808) by reflexivity.
  rewrite !(int_small (i + 8)) by lia.
  assert (Hl : Z.of_nat (length data) =
               Z.of_nat (length pre) + 8 + Z.of_nat (length post)).
  { rewrite Hdata, !length_app. cbn [length encodeFixed64Internal]. lia. }
  destruct (Z.ltb_spec (Z.of_nat (length data)) (i + 8)); [lia|].
  rewrite !int_small by lia.
  rewrite (byteAt_at data pre _ post (i + 8 - 8) 0 _ Hdata eq_refl) by lia.
  rewrite (byteAt_at data pre _ post (i + 8 - 7) 1 _ Hdata eq_refl) by lia.
  rewrite (byteAt_at data pre _ post (i + 8 - 6) 2 _ Hdata eq_refl) by lia.
  rewrite (byteAt_at data pre _ post (i + 8 - 5) 3 _ Hdata eq_refl) by lia.
  rewrite (byteAt_at data pre _ post (i + 8 - 4) 4 _ Hdata eq_refl) by lia.
  rewrite (byteAt_at data pre _ post (i + 8 - 3) 5 _ Hdata eq_refl) by lia.
  rewrite (byteAt_at data pre _ post (i + 8 - 2) 6 _ Hdata eq_refl) by lia.
  rewrite (byteAt_at data pre _ post (i + 8 - 1) 7 _ Hdata eq_refl) by lia.
  cbn [mbind result_bind]. cbv zeta.
  rewrite decodeFixed64 by exact Hv. reflexivity.
Qed.

Lemma readVarint_int (v : Z) (rest : bytes) :
  0 <= v < 2 ^ 63 ->
  readVarint int (encodeVarintInternal v ++ rest) 0 0 =
    Some (v, Z.of_nat (length (encodeVarintInternal v))).
Proof.
  intros Hv.
  assert (H63 : 2 ^ 63 = 9223372036854775808) by reflexivity.
  assert (H64 : 2 ^ 64 = 18446744073709551616) by reflexivity.
  pose proof (readVarint_int64 _ _ _ _ _
                (readVarint_encodeVarintInternal v rest ltac:(lia))) as H.
  rewrite (int64_small v) in H by lia. exact H.
Qed.

Lemma slice_middle (pre body post : bytes) (i j : Z) :
  i = Z.of_nat (length pre) -> j = Z.of_nat (length pre) + Z.of_nat (length body) ->
  slice (pre ++ body ++ post) i j = Ok body.
Proof.
  intros -> ->. unfold slice. rewrite !length_app.
  destruct (Z.leb_spec 0 (Z.of_nat (length pre))); [|lia].
  destruct (Z.leb_spec (Z.of_nat (length pre))
              (Z.of_nat (length pre) + Z.of_nat (length body))); [|lia].
  destruct (Z.leb_spec (Z.of_nat (length pre) + Z.of_nat (length body))
              (Z.of_nat (length pre + (length body + length post)))); [|lia].
  cbn [andb]. rewrite Nat2Z.id, drop_app_length.
  replace (Z.to_nat _) with (length body) by lia.
  rewrite take_app_length. reflexivity.
Qed.

Lemma readBytesAt_at (data pre body post : bytes) (i : Z) :
  data = pre ++ (encodeVarintInternal (Z.of_nat (length body)) ++ body) ++ post ->
  i = Z.of_nat (length pre) ->
  Z.of_nat (length data) < 2 ^ 62 ->
  readBytesAt data i =
    Ok (body,
        i + Z.of_nat (length (encodeVarintInternal (Z.of_nat (length body))))
          + Z.of_nat (length body)).
Proof.
  intros Hdata Hi Hlen. unfold readBytesAt.
  assert (H62 : 2 ^ 62 = 4611686018427387904) by reflexivity.
  assert (H63 : 2 ^ 63 = 9223372036854775808) by reflexivity.
  set (e := encodeVarintInternal (Z.of_nat (length body))) in *.
  assert (Hl : Z.of_nat (length data) =
               Z.of_nat (length pre) + Z.of_nat (length e) + Z.of_nat (length body)
               + Z.of_nat (length post)).
  { rewrite Hdata, !length_app. lia. }
  rewrite (readVarintAt_at int data pre e (body ++ post) i 0
             (Z.of_nat (length body)) (Z.of_nat (length e))).
  - cbn [mbind result_bind].
    destruct (Z.ltb_spec (Z.of_nat (length body)) 0); [lia|].
    rewrite int_small by lia.
    destruct (Z.ltb_spec (Z.of_nat (length data))
                (i + Z.of_nat (length e) + Z.of_nat (length body))); [lia|].
    rewrite Hdata.
    replace (pre ++ (e ++ body) ++ post) with ((pre ++ e) ++ body ++ post)
      by (rewrite <- !app_assoc; reflexivity).
    rewrite (slice_middle (pre ++ e) body post) by (rewrite ?length_app; lia).
    reflexivity.
  - rewrite Hdata, <- !app_assoc. reflexivity.
  - exact Hi.
  - apply readVarint_int. lia.
  - lia.
  - lia.
Qed.

(** *** Running the decoding loop over the fields of a message

    A chunk is the encoding of one field; [upd] is what the decoder does
    to the message when it meets the chunk. *)
Lemma unmarshalLoop_chunks {M : Type}
    (field : M -> Z -> Z -> bytes -> Z -> option (result (M * Z)))
    (chunks : list (bytes * (M -> M))) :
  Forall (fun cu : bytes * (M -> M) =>
            forall m data pre post fuel,
              data = pre ++ cu.1 ++ post -> Z.of_nat (length data) < 2 ^ 62 ->
              unmarshalLoop field (S fuel) m data (Z.of_nat (length pre)) =
              unmarshalLoop field fuel (cu.2 m) data
                (Z.of_nat (length (pre ++ cu.1)))) chunks ->
  forall m data pre fuel,
    data = pre ++ concat (map fst chunks) ->
    Z.of_nat (length data) < 2 ^ 62 ->
    (length chunks <= fuel)%nat ->
    unmarshalLoop field fuel m data (Z.of_nat (length pre)) =
      Ok (fold_left (fun m cu => cu.2 m) chunks m).
Proof.
  induction 1 as [|[c upd] chunks Hc _ IH]; intros m data pre fuel Hdata Hlen Hfuel.
  - cbn in Hdata. rewrite app_nil_r in Hdata. subst data.
    apply unmarshalLoop_done. lia.
  - cbn [map concat fst] in Hdata. cbn [length] in Hfuel.
    destruct fuel as [|fuel]; [lia|].
    cbn [fst snd] in Hc.
    rewrite (Hc m data pre (concat (map fst chunks)) fuel Hdata Hlen).
    cbn [fold_left snd].
    apply IH; [|exact Hlen|lia].
    rewrite Hdata, <- app_assoc. reflexivity.
Qed.

Lemma length_concat_chunks {A} (l : list (bytes * A)) :
  Forall (fun cu => cu.1 <> []) l ->
  (length l <= length (concat (map fst l)))%nat.
Proof.
  induction 1 as [|[c u] l Hc _ IH]; cbn [map concat length fst] in *; [lia|].
  rewrite length_app. destruct c; [congruence|]. cbn [length]. lia.
Qed.

(** The three shapes of a field with a one-byte tag. *)
Lemma varint_chunk {M : Type}
    (field : M -> Z -> Z -> bytes -> Z -> option (result (M * Z)))
    (conv : Z -> Z) (tag u cu : Z) (upd : M -> Z -> M) :
  0 <= tag < 128 -> 0 <= u < 2 ^ 64 ->
  (forall rest, readVarint conv (encodeVarintInternal u ++ rest) 0 0 =
                  Some (cu, Z.of_nat (length (encodeVarintInternal u)))) ->
  (forall m data i,
     field m (int32 (Z.shiftr tag 3)) (int (Z.land tag 7)) data i =
       Some ('(x, j) ← readVarintAt conv data i 0; Ok (upd m x, j))) ->
  forall m data pre post fuel,
    data = pre ++ ([tag] ++ encodeVarintInternal u) ++ post ->
    Z.of_nat (length data) < 2 ^ 62 ->
    unmarshalLoop field (S fuel) m data (Z.of_nat (length pre)) =
    unmarshalLoop field fuel (upd m cu) data
      (Z.of_nat (length (pre ++ [tag] ++ encodeVarintInternal u))).
Proof.
  intros Htag Hu Hread Hfield m data pre post fuel Hdata Hlen.
  assert (H62 : 2 ^ 62 = 4611686018427387904) by reflexivity.
  assert (H63 : 2 ^ 63 = 9223372036854775808) by reflexivity.
  set (e := encodeVarintInternal u) in *.
  assert (Hl : Z.of_nat (length data) =
               Z.of_nat (length pre) + 1 + Z.of_nat (length e)
               + Z.of_nat (length post)).
  { rewrite Hdata, !length_app. cbn [length]. lia. }
  apply (unmarshalLoop_step field fuel m (upd m cu) data _ tag
           (Z.of_nat (length pre) + 1)).
  - lia.
  - apply (readTag_at tag data pre (e ++ post)); [|reflexivity|lia|lia].
    rewrite Hdata, <- !app_assoc. reflexivity.
  - rewrite Hfield.
    rewrite (readVarintAt_at conv data (pre ++ [tag]) e post _ 0 cu
               (Z.of_nat (length e))).
    + cbn [mbind result_bind]. do 3 f_equal.
      rewrite !length_app. cbn [length]. lia.
    + rewrite Hdata, <- !app_assoc. reflexivity.
    + rewrite length_app. cbn [length]. lia.
    + apply Hread.
    + lia.
    + lia.
Qed.

Lemma fixed64_chunk {M : Type}
    (field : M -> Z -> Z -> bytes -> Z -> option (result (M * Z)))
    (tag v : Z) (upd : M -> Z -> M) :
  0 <= tag < 128 -> 0 <= v < 2 ^ 64 ->
  (forall m data i,
     field m (int32 (Z.shiftr tag 3)) (int (Z.land tag 7)) data i =
       Some ('(x, j) ← readFixed64At data i; Ok (upd m x, j))) ->
  forall m data pre post fuel,
    data = pre ++ ([tag] ++ encodeFixed64Internal v) ++ post ->
    Z.of_nat (length data) < 2 ^ 62 ->
    unmarshalLoop field (S fuel) m data (Z.of_nat (length pre)) =
    unmarshalLoop field fuel (upd m v) data
      (Z.of_nat (length (pre ++ [tag] ++ encodeFixed64Internal v))).
Proof.
  intros Htag Hv Hfield m data pre post fuel Hdata Hlen.
  assert (H62 : 2 ^ 62 = 4611686018427387904) by reflexivity.
  assert (H63 : 2 ^ 63 = 9223372036854775808) by reflexivity.
  assert (Hl : Z.of_nat (length data) =
               Z.of_nat (length pre) + 1 + 8 + Z.of_nat (length post)).
  { rewrite Hdata, !length_app. cbn [length encodeFixed64Internal]. lia. }
  apply (unmarshalLoop_step field fuel m (upd m v) data _ tag
           (Z.of_nat (length pre) + 1)).
  - lia.
  - apply (readTag_at tag data pre (encodeFixed64Internal v ++ post));
      [|reflexivity|lia|lia].
    rewrite Hdata, <- !app_assoc. reflexivity.
  - rewrite Hfield.
    rewrite (readFixed64At_at data (pre ++ [tag]) post _ v).
    + cbn [mbind result_bind]. do 3 f_equal.
      rewrite !length_app. cbn [length encodeFixed64Internal]. lia.
    + rewrite Hdata, <- !app_assoc. reflexivity.
    + rewrite length_app. cbn [length]. lia.
    + lia.
    + exact Hv.
Qed.

Lemma bytes_chunk {M : Type}
    (field : M -> Z -> Z -> bytes -> Z -> option (result (M * Z)))
    (tag : Z) (body : bytes) (k : M -> bytes -> result M) (m m1 : M) :
  0 <= tag < 128 ->
  k m body = Ok m1 ->
  (forall data i,
     field m (int32 (Z.shiftr tag 3)) (int (Z.land tag 7)) data i =
       Some ('(sub, j) ← readBytesAt data i; x ← k m sub; Ok (x, j))) ->
  forall data pre post fuel,
    data = pre ++ ([tag] ++ encodeVarintInternal (Z.of_nat (length body)) ++ body)
               ++ post ->
    Z.of_nat (length data) < 2 ^ 62 ->
    unmarshalLoop field (S fuel) m data (Z.of_nat (length pre)) =
    unmarshalLoop field fuel m1 data
      (Z.of_nat (length (pre ++ [tag]
                           ++ encodeVarintInternal (Z.of_nat (length body)) ++ body))).
Proof.
  intros Htag Hk Hfield data pre post fuel Hdata Hlen.
  assert (H62 : 2 ^ 62 = 4611686018427387904) by reflexivity.
  assert (H63 : 2 ^ 63 = 9223372036854775808) by reflexivity.
  set (e := encodeVarintInternal (Z.of_nat (length body))) in *.
  assert (Hl : Z.of_nat (length data) =
               Z.of_nat (length pre) + 1 + Z.of_nat (length e)
               + Z.of_nat (length body) + Z.of_nat (length post)).
  { rewrite Hdata, !length_app. cbn [length]. lia. }
  apply (unmarshalLoop_step field fuel m m1 data _ tag
           (Z.of_nat (length pre) + 1)).
  - lia.
  - apply (readTag_at tag data pre (e ++ body ++ post)); [|reflexivity|lia|lia].
    rewrite Hdata, <- !app_assoc. reflexivity.
  - rewrite Hfield.
    rewrite (readBytesAt_at data (pre ++ [tag]) body post).
    + cbn [mbind result_bind]. rewrite Hk. cbn [mbind result_bind]. do 3 f_equal.
      rewrite !length_app. cbn [length]. fold e. lia.
    + rewrite Hdata, <- !app_assoc. reflexivity.
    + rewrite length_app. cbn [length]. lia.
    + exact Hlen.
Qed.

Lemma fold_left_app_concat {A} (enc : A -> bytes) (l : list A) (head : bytes) :
  fold_left (fun out a => out ++ enc a) l head = head ++ concat (map enc l).
Proof.
  revert head. induction l as [|a l IH]; intros head; cbn [fold_left map concat].
  - rewrite app_nil_r. reflexivity.
  - rewrite IH, <- app_assoc. reflexivity.
Qed.

Lemma sov_encode (v : Z) :
  0 <= v -> sovInternal v = Z.of_nat (length (encodeVarintInternal v)).
Proof. apply sovInternal_length. Qed.

(** *** [InternalTimeSeriesSample] *)

Lemma InternalTimeSeriesSample_length (m : InternalTimeSeriesSample) :
  Z.of_nat (length (InternalTimeSeriesSample_MarshalTo m)) =
    InternalTimeSeriesSample_Size m /\
  0 <= InternalTimeSeriesSample_Size m <= 49.
Proof.
  unfold InternalTimeSeriesSample_MarshalTo, InternalTimeSeriesSample_Size.
  assert (Huo : 0 <= uint64 (Offset m) < 2 ^ 64) by (apply Z.mod_pos_bound; lia).
  assert (Huc : 0 <= uint64 (Count m) < 2 ^ 64) by (apply Z.mod_pos_bound; lia).
  rewrite !sov_encode by lia.
  pose proof (encodeVarintInternal_length (uint64 (Offset m))) as L1.
  pose proof (encodeVarintInternal_length (uint64 (Count m))) as L2.
  rewrite !length_app.
  destruct (Max m), (Min m); cbn [length encodeFixed64Internal app]; lia.
Qed.

Lemma sample_chunks (m : InternalTimeSeriesSample) :
  InternalTimeSeriesSample_valid m ->
  exists chunks : list (bytes * (InternalTimeSeriesSample -> InternalTimeSeriesSample)),
    concat (map fst chunks) = InternalTimeSeriesSample_MarshalTo m /\
    (forall m0, fold_left (fun m cu => cu.2 m) chunks m0 =
                  InternalTimeSeriesSample_merge m0 m) /\
    Forall (fun cu => cu.1 <> []) chunks /\
    Forall (fun cu : bytes * (InternalTimeSeriesSample -> InternalTimeSeriesSample) =>
              forall m data pre post fuel,
                data = pre ++ cu.1 ++ post -> Z.of_nat (length data) < 2 ^ 62 ->
                unmarshalLoop InternalTimeSeriesSample_field (S fuel) m data
                  (Z.of_nat (length pre)) =
                unmarshalLoop InternalTimeSeriesSample_field fuel (cu.2 m) data
                  (Z.of_nat (length (pre ++ cu.1)))) chunks.
Proof.
  intros (HO & HC & HS & HM & Hm).
  assert (H31 : 2 ^ 31 = 2147483648) by reflexivity.
  assert (H32 : 2 ^ 32 = 4294967296) by reflexivity.
  assert (H64 : 2 ^ 64 = 18446744073709551616) by reflexivity.
  assert (Huo : 0 <= uint64 (Offset m) < 2 ^ 64) by (apply Z.mod_pos_bound; lia).
  assert (Huc : uint64 (Count m) = Count m) by (apply uint64_small; lia).
  assert (Hus : uint64 (Sum m) = Sum m) by (apply uint64_small; lia).
  exists ([([8] ++ encodeVarintInternal (uint64 (Offset m)),
            fun r => mkInternalTimeSeriesSample (Offset m) (Count r) (Sum r) (Max r) (Min r));
           ([48] ++ encodeVarintInternal (uint64 (Count m)),
            fun r => mkInternalTimeSeriesSample (Offset r) (Count m) (Sum r) (Max r) (Min r));
           ([57] ++ encodeFixed64Internal (uint64 (Sum m)),
            fun r => mkInternalTimeSeriesSample (Offset r) (Count r) (Sum m) (Max r) (Min r))]
          ++ (if Max m is Some x
              then [([65] ++ encodeFixed64Internal (uint64 x),
                     fun r => mkInternalTimeSeriesSample (Offset r) (Count r) (Sum r)
                                (Some x) (Min r))]
              else [])
          ++ (if Min m is Some x
              then [([73] ++ encodeFixed64Internal (uint64 x),
                     fun r => mkInternalTimeSeriesSample (Offset r) (Count r) (Sum r)
                                (Max r) (Some x))]
              else [])).
  split; [|split; [|split]].
  - unfold InternalTimeSeriesSample_MarshalTo.
    destruct (Max m), (Min m); cbn [map concat fst app]; rewrite ?app_nil_r;
      rewrite <- ?app_assoc; reflexivity.
  - intros m0. unfold InternalTimeSeriesSample_merge.
    destruct (Max m), (Min m); reflexivity.
  - destruct (Max m), (Min m); repeat constructor; discriminate.
  - assert (Hfix : forall tag x (upd : InternalTimeSeriesSample -> Z -> InternalTimeSeriesSample),
      0 <= tag < 128 -> 0 <= x < 2 ^ 64 ->
      (forall m data i,
         InternalTimeSeriesSample_field m (int32 (Z.shiftr tag 3)) (int (Z.land tag 7))
           data i = Some ('(x, j) ← readFixed64At data i; Ok (upd m x, j))) ->
      forall m data pre post fuel,
        data = pre ++ ([tag] ++ encodeFixed64Internal (uint64 x)) ++ post ->
        Z.of_nat (length data) < 2 ^ 62 ->
        unmarshalLoop InternalTimeSeriesSample_field (S fuel) m data
          (Z.of_nat (length pre)) =
        unmarshalLoop InternalTimeSeriesSample_field fuel (upd m x) data
          (Z.of_nat (length (pre ++ [tag] ++ encodeFixed64Internal (uint64 x))))).
    { intros tag x upd Htag Hx Hf. rewrite (uint64_small x Hx).
      apply fixed64_chunk; assumption. }
    repeat apply Forall_app_2; repeat apply Forall_cons_2; try apply Forall_nil_2;
      cbn [fst snd].
    + apply (varint_chunk InternalTimeSeriesSample_field int32 8 (uint64 (Offset m))
               (Offset m)
               (fun r x => mkInternalTimeSeriesSample x (Count r) (Sum r) (Max r) (Min r)));
        [lia|exact Huo| |reflexivity].
      intros rest.
      pose proof (readVarint_int32 _ _ _ _ _
                    (readVarint_encodeVarintInternal (uint64 (Offset m)) rest Huo)) as H.
      rewrite int32_small in H by lia. exact H.
    + rewrite Huc.
      apply (varint_chunk InternalTimeSeriesSample_field uint32 48 (Count m) (Count m)
               (fun r x => mkInternalTimeSeriesSample (Offset r) x (Sum r) (Max r) (Min r)));
        [lia|lia| |reflexivity].
      intros rest.
      pose proof (readVarint_uint32 _ _ _ _ _
                    (readVarint_encodeVarintInternal (Count m) rest ltac:(lia))) as H.
      rewrite (uint32_small (Count m)) in H by lia. exact H.
    + apply (Hfix 57 (Sum m)
               (fun r x => mkInternalTimeSeriesSample (Offset r) (Count r) x (Max r) (Min r)));
        [lia|lia|reflexivity].
    + destruct (Max m) as [x|] eqn:E; [|apply Forall_nil_2].
      apply Forall_cons_2; [|apply Forall_nil_2]. cbn [fst snd].
      apply (Hfix 65 x
               (fun r x => mkInternalTimeSeriesSample (Offset r) (Count r) (Sum r)
                             (Some x) (Min r)));
        [lia|apply HM; reflexivity|reflexivity].
    + destruct (Min m) as [x|] eqn:E; [|apply Forall_nil_2].
      apply Forall_cons_2; [|apply Forall_nil_2]. cbn [fst snd].
      apply (Hfix 73 x
               (fun r x => mkInternalTimeSeriesSample (Offset r) (Count r) (Sum r)
                             (Max r) (Some x)));
        [lia|apply Hm; reflexivity|reflexivity].
Qed.

Lemma InternalTimeSeriesSample_decode (m m0 : InternalTimeSeriesSample) :
  InternalTimeSeriesSample_valid m ->
  InternalTimeSeriesSample_Unmarshal m0 (InternalTimeSeriesSample_MarshalTo m) =
    Ok (InternalTimeSeriesSample_merge m0 m).
Proof.
  intros Hv. destruct (sample_chunks m Hv) as (chunks & Hcat & Hfold & Hne & Hch).
  unfold InternalTimeSeriesSample_Unmarshal.
  rewrite <- Hfold.
  apply (unmarshalLoop_chunks _ chunks Hch m0 _ []).
  - rewrite Hcat. reflexivity.
  - pose proof (InternalTimeSeriesSample_length m).
    assert (2 ^ 62 = 4611686018427387904) by reflexivity. lia.
  - rewrite <- Hcat. apply length_concat_chunks, Hne.
Qed.

(** X8: [Marshal] of an [InternalTimeSeriesSample] whose fields are in
    the range of their Go types succeeds, and [Unmarshal] of the bytes into a
    receiver [m0] gives the fields of the message, with [Max] and [Min] of
    [m0] where the message has none (the decoder does not reset the
    receiver); into an empty receiver it gives the message back. *)
Theorem InternalTimeSeriesSample_roundtrip (m m0 : InternalTimeSeriesSample) :
  InternalTimeSeriesSample_valid m ->
  exists data,
    InternalTimeSeriesSample_Marshal m = Ok data /\
    InternalTimeSeriesSample_Unmarshal m0 data =
      Ok (InternalTimeSeriesSample_merge m0 m) /\
    InternalTimeSeriesSample_Unmarshal zeroSample data = Ok m.
Proof.
  intros Hv. exists (InternalTimeSeriesSample_MarshalTo m). split; [|split].
  - unfold InternalTimeSeriesSample_Marshal.
    destruct (InternalTimeSeriesSample_length m) as [-> _].
    rewrite Z.leb_refl. reflexivity.
  - apply InternalTimeSeriesSample_decode, Hv.
  - rewrite (InternalTimeSeriesSample_decode m zeroSample Hv).
    unfold InternalTimeSeriesSample_merge. destruct m as [o c s [x|] [y|]]; reflexivity.
Qed.

(** *** [RaftSnapshotData_KeyValue] *)

Lemma RaftSnapshotData_KeyValue_length (m : RaftSnapshotData_KeyValue) :
  Z.of_nat (length (RaftSnapshotData_KeyValue_MarshalTo m)) =
    RaftSnapshotData_KeyValue_Size m.
Proof.
  unfold RaftSnapshotData_KeyValue_MarshalTo, RaftSnapshotData_KeyValue_Size.
  assert (Hu : forall x, 0 <= uint64 x) by (intros x; apply Z.mod_pos_bound; lia).
  destruct (kv_Key m) as [k|], (kv_Value m) as [v|]; cbv zeta;
    rewrite ?sov_encode by apply Hu; rewrite ?length_app; cbn [length]; lia.
Qed.

Lemma bytes_field_length (tag : Z) (b : bytes) :
  (length b <= length ([tag] ++ encodeVarintInternal (uint64 (Z.of_nat (length b))) ++ b))%nat.
Proof. rewrite !length_app. lia. Qed.

Lemma keyValue_chunks (m : RaftSnapshotData_KeyValue) :
  Z.of_nat (length (RaftSnapshotData_KeyValue_MarshalTo m)) < 2 ^ 62 ->
  exists chunks : list (bytes * (RaftSnapshotData_KeyValue -> RaftSnapshotData_KeyValue)),
    concat (map fst chunks) = RaftSnapshotData_KeyValue_MarshalTo m /\
    (forall m0, fold_left (fun m cu => cu.2 m) chunks m0 =
                  RaftSnapshotData_KeyValue_merge m0 m) /\
    Forall (fun cu => cu.1 <> []) chunks /\
    Forall (fun cu : bytes * (RaftSnapshotData_KeyValue -> RaftSnapshotData_KeyValue) =>
              forall m data pre post fuel,
                data = pre ++ cu.1 ++ post -> Z.of_nat (length data) < 2 ^ 62 ->
                unmarshalLoop RaftSnapshotData_KeyValue_field (S fuel) m data
                  (Z.of_nat (length pre)) =
                unmarshalLoop RaftSnapshotData_KeyValue_field fuel (cu.2 m) data
                  (Z.of_nat (length (pre ++ cu.1)))) chunks.
Proof.
  intros Hlen.
  assert (H62 : 2 ^ 62 = 4611686018427387904) by reflexivity.
  assert (H64 : 2 ^ 64 = 18446744073709551616) by reflexivity.
  exists ((if kv_Key m is Some k
           then [([10] ++ encodeVarintInternal (uint64 (Z.of_nat (length k))) ++ k,
                  fun r => mkKeyValue (Some k) (kv_Value r))]
           else [])
          ++ (if kv_Value m is Some v
              then [([18] ++ encodeVarintInternal (uint64 (Z.of_nat (length v))) ++ v,
                     fun r => mkKeyValue (kv_Key r) (Some v))]
              else [])).
  split; [|split; [|split]].
  - unfold RaftSnapshotData_KeyValue_MarshalTo.
    destruct (kv_Key m), (kv_Value m); cbn [map concat fst app]; rewrite ?app_nil_r;
      rewrite <- ?app_assoc; reflexivity.
  - intros [k0 v0]. unfold RaftSnapshotData_KeyValue_merge.
    destruct (kv_Key m), (kv_Value m); reflexivity.
  - destruct (kv_Key m), (kv_Value m); repeat constructor; discriminate.
  - unfold RaftSnapshotData_KeyValue_MarshalTo in Hlen.
    apply Forall_app_2.
    + destruct (kv_Key m) as [k|]; [|apply Forall_nil_2].
      apply Forall_cons_2; [|apply Forall_nil_2]. cbn [fst snd].
      pose proof (bytes_field_length 10 k) as Hk.
      rewrite length_app in Hlen.
      rewrite uint64_small by lia.
      intros r. apply (bytes_chunk RaftSnapshotData_KeyValue_field 10 k
                         (fun r sub => Ok (mkKeyValue (Some sub) (kv_Value r))));
        [lia|reflexivity|].
      intros data i. unfold RaftSnapshotData_KeyValue_field. cbn.
      destruct (readBytesAt data i) as [[sub j]| | |]; reflexivity.
    + destruct (kv_Value m) as [v|]; [|apply Forall_nil_2].
      apply Forall_cons_2; [|apply Forall_nil_2]. cbn [fst snd].
      pose proof (bytes_field_length 18 v) as Hk.
      rewrite length_app in Hlen.
      rewrite uint64_small by lia.
      intros r. apply (bytes_chunk RaftSnapshotData_KeyValue_field 18 v
                         (fun r sub => Ok (mkKeyValue (kv_Key r) (Some sub))));
        [lia|reflexivity|].
      intros data i. unfold RaftSnapshotData_KeyValue_field. cbn.
      destruct (readBytesAt data i) as [[sub j]| | |]; reflexivity.
Qed.

Lemma RaftSnapshotData_KeyValue_decode (m m0 : RaftSnapshotData_KeyValue) :
  Z.of_nat (length (RaftSnapshotData_KeyValue_MarshalTo m)) < 2 ^ 62 ->
  RaftSnapshotData_KeyValue_Unmarshal m0 (RaftSnapshotData_KeyValue_MarshalTo m) =
    Ok (RaftSnapshotData_KeyValue_merge m0 m).
Proof.
  intros Hlen. destruct (keyValue_chunks m Hlen) as (chunks & Hcat & Hfold & Hne & Hch).
  unfold RaftSnapshotData_KeyValue_Unmarshal.
  rewrite <- Hfold.
  apply (unmarshalLoop_chunks _ chunks Hch m0 _ []).
  - rewrite Hcat. reflexivity.
  - exact Hlen.
  - rewrite <- Hcat. apply length_concat_chunks, Hne.
Qed.

(** X9: [Marshal] of a [RaftSnapshotData_KeyValue] of a size below
    [2^62] succeeds, and [Unmarshal] of the bytes into a receiver [m0] gives
    [Key] and [Value] of the message, those of [m0] where the message has
    [nil]; into an empty receiver it gives the message back, an empty slice
    that is not [nil] included. *)
Theorem RaftSnapshotData_KeyValue_roundtrip (m m0 : RaftSnapshotData_KeyValue) :
  RaftSnapshotData_KeyValue_Size m < 2 ^ 62 ->
  exists data,
    RaftSnapshotData_KeyValue_Marshal m = Ok data /\
    RaftSnapshotData_KeyValue_Unmarshal m0 data =
      Ok (RaftSnapshotData_KeyValue_merge m0 m) /\
    RaftSnapshotData_KeyValue_Unmarshal zeroKeyValue data = Ok m.
Proof.
  intros Hsize. rewrite <- RaftSnapshotData_KeyValue_length in Hsize.
  exists (RaftSnapshotData_KeyValue_MarshalTo m). split; [|split].
  - unfold RaftSnapshotData_KeyValue_Marshal.
    rewrite RaftSnapshotData_KeyValue_length, Z.leb_refl. reflexivity.
  - apply RaftSnapshotData_KeyValue_decode, Hsize.
  - rewrite (RaftSnapshotData_KeyValue_decode m zeroKeyValue Hsize).
    unfold RaftSnapshotData_KeyValue_merge. destruct m as [[k|] [v|]]; reflexivity.
Qed.

(** *** [InternalTimeSeriesData] *)

Lemma InternalTimeSeriesSample_zero (m : InternalTimeSeriesSample) :
  InternalTimeSeriesSample_valid m ->
  InternalTimeSeriesSample_Unmarshal zeroSample (InternalTimeSeriesSample_MarshalTo m)
    = Ok m.
Proof.
  intros Hv. rewrite (InternalTimeSeriesSample_decode m zeroSample Hv).
  unfold InternalTimeSeriesSample_merge. destruct m as [o c s [x|] [y|]]; reflexivity.
Qed.

(** The bytes of one element of a repeated field. *)
Lemma repeated_length {A} (size : A -> Z) (enc : A -> bytes) (tag : Z) (l : list A) :
  (forall a, Z.of_nat (length (enc a)) = size a) ->
  forall n,
    fold_left (fun n e => let l := size e in n + (1 + l + sovInternal (uint64 l))) l n =
    n + Z.of_nat (length (concat (map (fun a =>
          [tag] ++ encodeVarintInternal (uint64 (size a)) ++ enc a) l))).
Proof.
  intros Hsize. induction l as [|a l IH]; intros n; cbn [fold_left map concat].
  - cbn. lia.
  - rewrite IH. cbv zeta.
    rewrite sov_encode by (apply Z.mod_pos_bound; lia).
    rewrite !length_app, <- Hsize. cbn [length]. lia.
Qed.

Lemma InternalTimeSeriesData_MarshalTo_chunks (m : InternalTimeSeriesData) :
  InternalTimeSeriesData_MarshalTo m =
    ([8] ++ encodeVarintInternal (uint64 (StartTimestampNanos m)) ++
     [16] ++ encodeVarintInternal (uint64 (SampleDurationNanos m))) ++
    concat (map (fun s =>
                   [26] ++ encodeVarintInternal (uint64 (InternalTimeSeriesSample_Size s))
                   ++ InternalTimeSeriesSample_MarshalTo s) (Samples m)).
Proof.
  unfold InternalTimeSeriesData_MarshalTo.
  rewrite <- (fold_left_app_concat
                (fun s => [26] ++ encodeVarintInternal
                                    (uint64 (InternalTimeSeriesSample_Size s))
                          ++ InternalTimeSeriesSample_MarshalTo s)).
  reflexivity.
Qed.

Lemma InternalTimeSeriesData_length (m : InternalTimeSeriesData) :
  Z.of_nat (length (InternalTimeSeriesData_MarshalTo m)) =
    InternalTimeSeriesData_Size m.
Proof.
  rewrite InternalTimeSeriesData_MarshalTo_chunks.
  unfold InternalTimeSeriesData_Size. cbv zeta.
  rewrite (repeated_length InternalTimeSeriesSample_Size
             InternalTimeSeriesSample_MarshalTo 26)
    by (intros a; apply InternalTimeSeriesSample_length).
  rewrite !sov_encode by (apply Z.mod_pos_bound; lia).
  rewrite !length_app. cbn [length]. lia.
Qed.

Lemma fold_samples (enc : InternalTimeSeriesSample -> bytes)
    (l : list InternalTimeSeriesSample) (a b : Z) :
  forall acc,
    fold_left (fun (m : InternalTimeSeriesData)
                   (cu : bytes * (InternalTimeSeriesData -> InternalTimeSeriesData)) =>
                 cu.2 m)
      (map (fun s =>
              (enc s,
               fun r => mkInternalTimeSeriesData (StartTimestampNanos r)
                          (SampleDurationNanos r) (Samples r ++ [s]))) l)
      (mkInternalTimeSeriesData a b acc) =
    mkInternalTimeSeriesData a b (acc ++ l).
Proof.
  induction l as [|s l IH]; intros acc.
  - cbn. rewrite app_nil_r. reflexivity.
  - cbn [map fold_left snd StartTimestampNanos SampleDurationNanos Samples].
    rewrite IH, <- app_assoc. reflexivity.
Qed.

Lemma InternalTimeSeriesData_decode (m m0 : InternalTimeSeriesData) :
  InternalTimeSeriesData_valid m ->
  Z.of_nat (length (InternalTimeSeriesData_MarshalTo m)) < 2 ^ 62 ->
  InternalTimeSeriesData_Unmarshal m0 (InternalTimeSeriesData_MarshalTo m) =
    Ok (mkInternalTimeSeriesData (StartTimestampNanos m) (SampleDurationNanos m)
          (Samples m0 ++ Samples m)).
Proof.
  intros (HS & HD & Hsamples) Hlen.
  assert (H62 : 2 ^ 62 = 4611686018427387904) by reflexivity.
  assert (H63 : 2 ^ 63 = 9223372036854775808) by reflexivity.
  assert (H64 : 2 ^ 64 = 18446744073709551616) by reflexivity.
  assert (Hus : 0 <= uint64 (StartTimestampNanos m) < 2 ^ 64)
    by (apply Z.mod_pos_bound; lia).
  assert (Hud : 0 <= uint64 (SampleDurationNanos m) < 2 ^ 64)
    by (apply Z.mod_pos_bound; lia).
  set (chunk := fun s : InternalTimeSeriesSample =>
         ([26] ++ encodeVarintInternal (uint64 (InternalTimeSeriesSample_Size s))
               ++ InternalTimeSeriesSample_MarshalTo s,
          fun r => mkInternalTimeSeriesData (StartTimestampNanos r)
                     (SampleDurationNanos r) (Samples r ++ [s]))).
  set (chunks :=
         [([8] ++ encodeVarintInternal (uint64 (StartTimestampNanos m)),
           fun r => mkInternalTimeSeriesData (StartTimestampNanos m)
                      (SampleDurationNanos r) (Samples r));
          ([16] ++ encodeVarintInternal (uint64 (SampleDurationNanos m)),
           fun r => mkInternalTimeSeriesData (StartTimestampNanos r)
                      (SampleDurationNanos m) (Samples r))]
         ++ map chunk (Samples m)).
  assert (Hcat : concat (map fst chunks) = InternalTimeSeriesData_MarshalTo m).
  { rewrite InternalTimeSeriesData_MarshalTo_chunks. subst chunks.
    rewrite map_app, concat_app, map_map. cbn [map concat fst app].
    rewrite app_nil_r, <- !app_assoc. reflexivity. }
  assert (Hfold : fold_left (fun m cu => cu.2 m) chunks m0 =
            mkInternalTimeSeriesData (StartTimestampNanos m) (SampleDurationNanos m)
              (Samples m0 ++ Samples m)).
  { subst chunks chunk. rewrite fold_left_app. cbn [fold_left snd].
    cbn [StartTimestampNanos SampleDurationNanos Samples].
    apply fold_samples. }
  unfold InternalTimeSeriesData_Unmarshal. rewrite <- Hfold.
  apply (unmarshalLoop_chunks InternalTimeSeriesData_field chunks) with (pre := []).
  - subst chunks. apply Forall_app_2.
    + apply Forall_cons_2; [|apply Forall_cons_2; [|apply Forall_nil_2]]; cbn [fst snd].
      * apply (varint_chunk InternalTimeSeriesData_field int64 8
                 (uint64 (StartTimestampNanos m)) (StartTimestampNanos m)
                 (fun r x => mkInternalTimeSeriesData x (SampleDurationNanos r) (Samples r)));
          [lia|exact Hus| |reflexivity].
        intros rest.
        pose proof (readVarint_int64 _ _ _ _ _
                      (readVarint_encodeVarintInternal _ rest Hus)) as H.
        rewrite int64_uint64, (int64_small (StartTimestampNanos m)) in H by lia.
        exact H.
      * apply (varint_chunk InternalTimeSeriesData_field int64 16
                 (uint64 (SampleDurationNanos m)) (SampleDurationNanos m)
                 (fun r x => mkInternalTimeSeriesData (StartTimestampNanos r) x (Samples r)));
          [lia|exact Hud| |reflexivity].
        intros rest.
        pose proof (readVarint_int64 _ _ _ _ _
                      (readVarint_encodeVarintInternal _ rest Hud)) as H.
        rewrite int64_uint64, (int64_small (SampleDurationNanos m)) in H by lia.
        exact H.
    + apply Forall_fmap. eapply Forall_impl; [exact Hsamples|].
      intros s Hs r. subst chunk. cbn [fst snd].
      destruct (InternalTimeSeriesSample_length s) as [Hl Hb].
      rewrite <- Hl, uint64_small by lia.
      apply (bytes_chunk InternalTimeSeriesData_field 26
               (InternalTimeSeriesSample_MarshalTo s)
               (fun r sub =>
                  e ← InternalTimeSeriesSample_Unmarshal zeroSample sub;
                  Ok (mkInternalTimeSeriesData (StartTimestampNanos r)
                        (SampleDurationNanos r) (Samples r ++ [e]))));
        [lia| |].
      * rewrite (InternalTimeSeriesSample_zero s Hs). reflexivity.
      * intros data i. unfold InternalTimeSeriesData_field. cbn.
        destruct (readBytesAt data i) as [[sub j]| | |]; cbn; [|reflexivity..].
        destruct (InternalTimeSeriesSample_Unmarshal zeroSample sub); reflexivity.
  - symmetry. exact Hcat.
  - exact Hlen.
  - rewrite <- Hcat. apply length_concat_chunks.
    subst chunks. apply Forall_app_2; [repeat constructor; discriminate|].
    apply Forall_fmap, Forall_forall. intros s _. subst chunk. discriminate.
Qed.

(** X10: [Marshal] of an [InternalTimeSeriesData] with fields in the
    range of their Go types and a size below [2^62] succeeds, and
    [Unmarshal] of the bytes into a receiver [m0] gives the two timestamps of
    the message and the samples of [m0] followed by the samples of the
    message: decoding appends to the repeated field. *)
Theorem InternalTimeSeriesData_roundtrip (m m0 : InternalTimeSeriesData) :
  InternalTimeSeriesData_valid m ->
  InternalTimeSeriesData_Size m < 2 ^ 62 ->
  exists data,
    InternalTimeSeriesData_Marshal m = Ok data /\
    InternalTimeSeriesData_Unmarshal m0 data =
      Ok (mkInternalTimeSeriesData (StartTimestampNanos m) (SampleDurationNanos m)
            (Samples m0 ++ Samples m)).
Proof.
  intros Hv Hsize. rewrite <- InternalTimeSeriesData_length in Hsize.
  exists (InternalTimeSeriesData_MarshalTo m). split.
  - unfold InternalTimeSeriesData_Marshal.
    rewrite InternalTimeSeriesData_length, Z.leb_refl. reflexivity.
  - apply InternalTimeSeriesData_decode; assumption.
Qed.

(** *** [RaftSnapshotData] *)

Lemma RaftSnapshotData_KeyValue_zero (m : RaftSnapshotData_KeyValue) :
  Z.of_nat (length (RaftSnapshotData_KeyValue_MarshalTo m)) < 2 ^ 62 ->
  RaftSnapshotData_KeyValue_Unmarshal zeroKeyValue
    (RaftSnapshotData_KeyValue_MarshalTo m) = Ok m.
Proof.
  intros Hlen. rewrite (RaftSnapshotData_KeyValue_decode m zeroKeyValue Hlen).
  unfold RaftSnapshotData_KeyValue_merge. destruct m as [[k|] [v|]]; reflexivity.
Qed.

Section snapshot_facts.
Variable RangeDescriptor : Type.
Variable RangeDescriptor_Size : RangeDescriptor -> Z.
Variable RangeDescriptor_MarshalTo : RangeDescriptor -> result bytes.
Variable RangeDescriptor_Unmarshal :
  RangeDescriptor -> bytes -> result RangeDescriptor.

Lemma fold_keyValues (enc : RaftSnapshotData_KeyValue -> bytes)
    (l : list RaftSnapshotData_KeyValue) (d : RangeDescriptor) :
  forall acc,
    fold_left (fun (m : RaftSnapshotData RangeDescriptor)
                   (cu : bytes * (RaftSnapshotData RangeDescriptor ->
                                  RaftSnapshotData RangeDescriptor)) => cu.2 m)
      (map (fun e =>
              (enc e,
               fun r => mkRaftSnapshotData (snap_RangeDescriptor r) (KV r ++ [e]))) l)
      (mkRaftSnapshotData d acc) =
    mkRaftSnapshotData d (acc ++ l).
Proof.
  induction l as [|e l IH]; intros acc.
  - cbn. rewrite app_nil_r. reflexivity.
  - cbn [map fold_left snd snap_RangeDescriptor KV].
    rewrite IH, <- app_assoc. reflexivity.
Qed.

Lemma length_concat_le {A} (f : A -> bytes) (l : list A) (a : A) :
  a ∈ l -> (length (f a) <= length (concat (map f l)))%nat.
Proof.
  induction l as [|b l IH]; intros Hin; [inversion Hin|].
  cbn [map concat]. rewrite length_app.
  apply elem_of_cons in Hin as [->|Hin]; [lia|]. specialize (IH Hin). lia.
Qed.

Lemma length_concat_nonempty {A} (f : A -> bytes) (l : list A) :
  (forall a, (1 <= length (f a))%nat) ->
  (length l <= length (concat (map f l)))%nat.
Proof.
  intros Hf. induction l as [|a l IH]; cbn [map concat length]; [lia|].
  rewrite length_app. specialize (Hf a). lia.
Qed.

(** X11: when the codec of [RangeDescriptor] (another file) writes
    [Size()] bytes for the descriptor of the message and reads them back into
    the descriptor of the receiver, [Marshal] of a [RaftSnapshotData]
    succeeds, and [Unmarshal] of the bytes into a receiver [m0] gives the
    descriptor of the message and the key-value pairs of [m0] followed by
    those of the message. *)
Theorem RaftSnapshotData_roundtrip
    (m m0 : RaftSnapshotData RangeDescriptor) (body : bytes) :
  RangeDescriptor_MarshalTo (snap_RangeDescriptor m) = Ok body ->
  RangeDescriptor_Size (snap_RangeDescriptor m) = Z.of_nat (length body) ->
  RangeDescriptor_Unmarshal (snap_RangeDescriptor m0) body
    = Ok (snap_RangeDescriptor m) ->
  RaftSnapshotData_Size RangeDescriptor RangeDescriptor_Size m < 2 ^ 62 ->
  exists data,
    RaftSnapshotData_Marshal RangeDescriptor RangeDescriptor_Size
      RangeDescriptor_MarshalTo m = Ok data /\
    RaftSnapshotData_Unmarshal RangeDescriptor RangeDescriptor_Unmarshal m0 data =
      Ok (mkRaftSnapshotData (snap_RangeDescriptor m) (KV m0 ++ KV m)).
Proof.
  intros Hmar Hsize Hun Hbound.
  assert (H62 : 2 ^ 62 = 4611686018427387904) by reflexivity.
  assert (H64 : 2 ^ 64 = 18446744073709551616) by reflexivity.
  set (enc := fun e : RaftSnapshotData_KeyValue =>
         [18] ++ encodeVarintInternal (uint64 (RaftSnapshotData_KeyValue_Size e))
              ++ RaftSnapshotData_KeyValue_MarshalTo e).
  set (head := [10] ++ encodeVarintInternal (uint64 (Z.of_nat (length body))) ++ body).
  set (data := head ++ concat (map enc (KV m))).
  assert (Hmarshal : RaftSnapshotData_MarshalTo RangeDescriptor RangeDescriptor_Size
                       RangeDescriptor_MarshalTo m = Ok data).
  { unfold RaftSnapshotData_MarshalTo. rewrite Hmar, Hsize. cbn [mbind result_bind].
    rewrite (fold_left_app_concat enc). subst data head.
    rewrite <- !app_assoc. reflexivity. }
  assert (Hlen : Z.of_nat (length data) =
                 RaftSnapshotData_Size RangeDescriptor RangeDescriptor_Size m).
  { unfold RaftSnapshotData_Size. cbv zeta. rewrite Hsize.
    rewrite (repeated_length RaftSnapshotData_KeyValue_Size
               RaftSnapshotData_KeyValue_MarshalTo 18)
      by (intros a; apply RaftSnapshotData_KeyValue_length).
    rewrite sov_encode by (apply Z.mod_pos_bound; lia).
    subst data head. fold enc. rewrite !length_app. cbn [length]. lia. }
  exists data. split.
  - unfold RaftSnapshotData_Marshal. rewrite Hmarshal. cbn [mbind result_bind].
    rewrite Hlen, Z.leb_refl. reflexivity.
  - unfold RaftSnapshotData_Unmarshal.
    assert (Hhead : (1 <= length head)%nat) by (subst head; cbn [length app]; lia).
    assert (Hbody : Z.of_nat (length body) < 2 ^ 62).
    { subst data head. rewrite !length_app in Hlen. lia. }
    destruct (length data) as [|fuel] eqn:Efuel.
    { subst data. rewrite length_app in Efuel. lia. }
    transitivity
      (unmarshalLoop (RaftSnapshotData_field RangeDescriptor RangeDescriptor_Unmarshal)
         fuel (mkRaftSnapshotData (snap_RangeDescriptor m) (KV m0)) data
         (Z.of_nat (length ([] ++ [10]
                              ++ encodeVarintInternal (Z.of_nat (length body)) ++ body)))).
    { apply (bytes_chunk (RaftSnapshotData_field RangeDescriptor RangeDescriptor_Unmarshal)
               10 body
               (fun r sub =>
                  d ← RangeDescriptor_Unmarshal (snap_RangeDescriptor r) sub;
                  Ok (mkRaftSnapshotData d (KV r)))
               m0 (mkRaftSnapshotData (snap_RangeDescriptor m) (KV m0)))
        with (pre := []) (post := concat (map enc (KV m))).
      - lia.
      - cbn beta. rewrite Hun. reflexivity.
      - intros d i. unfold RaftSnapshotData_field. cbn.
        destruct (readBytesAt d i) as [[sub j]| | |]; cbn; [|reflexivity..].
        destruct (RangeDescriptor_Unmarshal _ sub); reflexivity.
      - subst data head. rewrite uint64_small by lia. reflexivity.
      - rewrite Efuel. lia. }
    rewrite <- (fold_keyValues enc (KV m) (snap_RangeDescriptor m) (KV m0)).
    rewrite <- (uint64_small (Z.of_nat (length body))) by lia.
    cbn [app]. fold head.
    apply (unmarshalLoop_chunks
             (RaftSnapshotData_field RangeDescriptor RangeDescriptor_Unmarshal)
             (map (fun e =>
                     (enc e,
                      fun r : RaftSnapshotData RangeDescriptor =>
                        mkRaftSnapshotData (snap_RangeDescriptor r) (KV r ++ [e])))
                  (KV m))).
    + apply Forall_fmap, Forall_forall. intros e He r. cbn [fst snd].
      assert (Hle : Z.of_nat (length (RaftSnapshotData_KeyValue_MarshalTo e)) < 2 ^ 62).
      { pose proof (length_concat_le enc (KV m) e He) as Hc.
        assert (Hd : (length (concat (map enc (KV m))) <= length data)%nat)
          by (subst data; rewrite length_app; lia).
        subst enc. cbn beta in Hc. rewrite !length_app in Hc. rewrite Efuel in Hd.
        pose proof (Nat.le_trans _ _ _ Hc Hd) as Hcd. clear Hc Hd.
        lia. }
      subst enc. cbn beta.
      rewrite <- RaftSnapshotData_KeyValue_length, uint64_small by lia.
      apply (bytes_chunk (RaftSnapshotData_field RangeDescriptor RangeDescriptor_Unmarshal)
               18 (RaftSnapshotData_KeyValue_MarshalTo e)
               (fun r sub =>
                  x ← RaftSnapshotData_KeyValue_Unmarshal zeroKeyValue sub;
                  Ok (mkRaftSnapshotData (snap_RangeDescriptor r) (KV r ++ [x]))));
        [lia| |].
      * rewrite (RaftSnapshotData_KeyValue_zero e Hle). reflexivity.
      * intros d i. unfold RaftSnapshotData_field. cbn.
        destruct (readBytesAt d i) as [[sub j]| | |]; cbn; [|reflexivity..].
        destruct (RaftSnapshotData_KeyValue_Unmarshal zeroKeyValue sub); reflexivity.
    + subst data. rewrite map_map. cbn [fst]. reflexivity.
    + rewrite Efuel. lia.
    + rewrite length_map.
      assert (Hc : (length (KV m) <= length (concat (map enc (KV m))))%nat).
      { apply length_concat_nonempty. intros a. subst enc. cbn [length app]. lia. }
      assert (Hd : (length head + length (concat (map enc (KV m))) = S fuel)%nat).
      { rewrite <- Efuel. subst data. symmetry. apply length_app. }
      lia.
Qed.
End snapshot_facts.

(** *** Integers on the wire *)

(** X12: for every [v] below [2^64], [encodeVarintInternal] writes
    between one and ten bytes, their number is [sovInternal v], and the loop
    that reads a varint reads [v] back from them, whatever follows,
    converted as the type of the variable it fills says ([uint64], [int64],
    [int32], [uint32]), and stops after the last of them. *)
Theorem varint_roundtrip (v : Z) (rest : bytes) :
  0 <= v < 2 ^ 64 ->
  (1 <= length (encodeVarintInternal v) <= 10)%nat /\
  sovInternal v = Z.of_nat (length (encodeVarintInternal v)) /\
  readVarint uint64 (encodeVarintInternal v ++ rest) 0 0 =
    Some (v, Z.of_nat (length (encodeVarintInternal v))) /\
  readVarint int64 (encodeVarintInternal v ++ rest) 0 0 =
    Some (int64 v, Z.of_nat (length (encodeVarintInternal v))) /\
  readVarint int32 (encodeVarintInternal v ++ rest) 0 0 =
    Some (int32 v, Z.of_nat (length (encodeVarintInternal v))) /\
  readVarint uint32 (encodeVarintInternal v ++ rest) 0 0 =
    Some (uint32 v, Z.of_nat (length (encodeVarintInternal v))).
Proof.
  intros Hv.
  pose proof (readVarint_encodeVarintInternal v rest Hv) as H.
  split; [apply encodeVarintInternal_length|].
  split; [apply sovInternal_length; lia|].
  split; [exact H|]. split; [|split].
  - exact (readVarint_int64 _ _ _ _ _ H).
  - exact (readVarint_int32 _ _ _ _ _ H).
  - exact (readVarint_uint32 _ _ _ _ _ H).
Qed.

(** X13: the eight bytes [encodeFixed64Internal] writes are read back as
    the same value by the decoder of a fixed 64-bit field, at any place in
    the data; with fewer than eight bytes left the decoder returns
    [io.ErrUnexpectedEOF]. *)
Theorem fixed64_roundtrip (v : Z) (pre post : bytes) :
  0 <= v < 2 ^ 64 -> Z.of_nat (length pre) + 8 < 2 ^ 63 ->
  readFixed64At (pre ++ encodeFixed64Internal v ++ post) (Z.of_nat (length pre)) =
    Ok (v, Z.of_nat (length pre) + 8) /\
  (forall short, (length short < 8)%nat ->
     readFixed64At (pre ++ short) (Z.of_nat (length pre)) = Err ErrUnexpectedEOF).
Proof.
  intros Hv Hlen. split.
  - apply (readFixed64At_at _ pre post); [reflexivity|reflexivity|lia|exact Hv].
  - intros short Hshort. unfold readFixed64At.
    assert (H63 : 2 ^ 63 = 9223372036854775808) by reflexivity.
    rewrite int_small by lia. rewrite length_app.
    destruct (Z.ltb_spec (Z.of_nat (length pre + length short))
                (Z.of_nat (length pre) + 8)); [reflexivity|lia].
Qed.

(** X14: [Marshal] of a [RaftTruncatedState], an
    [InternalTimeSeriesSample], an [InternalTimeSeriesData] and a
    [RaftSnapshotData_KeyValue] always succeeds and returns exactly [Size()]
    bytes: [MarshalTo] fills the buffer [Marshal] has made, whatever the
    values of the fields. *)
Theorem Marshal_Size :
  (forall m, exists data,
     RaftTruncatedState_Marshal m = Ok data /\
     Z.of_nat (length data) = RaftTruncatedState_Size m) /\
  (forall m, exists data,
     InternalTimeSeriesSample_Marshal m = Ok data /\
     Z.of_nat (length data) = InternalTimeSeriesSample_Size m) /\
  (forall m, exists data,
     InternalTimeSeriesData_Marshal m = Ok data /\
     Z.of_nat (length data) = InternalTimeSeriesData_Size m) /\
  (forall m, exists data,
     RaftSnapshotData_KeyValue_Marshal m = Ok data /\
     Z.of_nat (length data) = RaftSnapshotData_KeyValue_Size m).
Proof.
  split; [|split; [|split]]; intros m.
  - exists (RaftTruncatedState_MarshalTo m).
    assert (Hl : Z.of_nat (length (RaftTruncatedState_MarshalTo m)) =
                 RaftTruncatedState_Size m).
    { unfold RaftTruncatedState_MarshalTo, RaftTruncatedState_Size.
      rewrite !sov_encode by (apply Z.mod_pos_bound; lia).
      rewrite !length_app. cbn [length]. lia. }
    unfold RaftTruncatedState_Marshal. rewrite Hl, Z.leb_refl. auto.
  - exists (InternalTimeSeriesSample_MarshalTo m).
    destruct (InternalTimeSeriesSample_length m) as [Hl _].
    unfold InternalTimeSeriesSample_Marshal. rewrite Hl, Z.leb_refl. auto.
  - exists (InternalTimeSeriesData_MarshalTo m).
    unfold InternalTimeSeriesData_Marshal.
    rewrite InternalTimeSeriesData_length, Z.leb_refl.
    split; reflexivity.
  - exists (RaftSnapshotData_KeyValue_MarshalTo m).
    unfold RaftSnapshotData_KeyValue_Marshal.
    rewrite RaftSnapshotData_KeyValue_length, Z.leb_refl.
    split; reflexivity.
Qed.

(** *** Fields the decoder does not know *)

Lemma skipVarint_encode (fuel : nat) :
  forall v rest, 0 <= v < 2 ^ (7 * (Z.of_nat fuel + 1)) ->
    skipVarint (encodeVarint_loop fuel v ++ rest) =
      Some (Z.of_nat (length (encodeVarint_loop fuel v))).
Proof.
  assert (Hlast : forall v rest, 0 <= v < 128 ->
            skipVarint (uint8 v :: rest) = Some 1).
  { intros v rest Hv. cbn [skipVarint].
    assert (uint8 v = v) as -> by (apply Z.mod_small; change (2 ^ 8) with 256; lia).
    destruct (Z.ltb_spec v 128); [reflexivity|lia]. }
  induction fuel as [|fuel IH]; intros v rest Hv; cbn [encodeVarint_loop].
  - apply Hlast. change (2 ^ (7 * (Z.of_nat 0 + 1))) with 128 in Hv. lia.
  - destruct (Z.leb_spec 128 v) as [Hge|Hlt]; [|apply Hlast; lia].
    rewrite continuation_byte. cbn [app skipVarint].
    pose proof (Z.mod_pos_bound v 128 ltac:(lia)) as Hb.
    destruct (Z.ltb_spec (v mod 128 + 128) 128); [lia|].
    rewrite IH.
    + cbn [length]. f_equal. lia.
    + rewrite Z.shiftr_div_pow2 by lia. split; [apply Z.div_pos; lia|].
      apply Z.div_lt_upper_bound; [lia|].
      rewrite <- Z.pow_add_r by lia.
      replace (7 + 7 * (Z.of_nat fuel + 1)) with (7 * (Z.of_nat (S fuel) + 1)) by lia.
      lia.
Qed.

Lemma skipVarint_encodeVarintInternal (v : Z) (rest : bytes) :
  0 <= v < 2 ^ 64 ->
  skipVarint (encodeVarintInternal v ++ rest) =
    Some (Z.of_nat (length (encodeVarintInternal v))).
Proof.
  intros Hv. apply skipVarint_encode.
  change (2 ^ (7 * (Z.of_nat 9 + 1))) with (2 ^ 70).
  assert (2 ^ 64 < 2 ^ 70) by (apply Z.pow_lt_mono_r; lia). lia.
Qed.

(** [skipInternal] on a field of each of the wire types that stand for a
    value. *)
Lemma skipInternal_field (tag : Z) (payload post : bytes) (fuel : nat) :
  0 <= tag < 128 ->
  Z.of_nat (length (tag :: payload ++ post)) < 2 ^ 62 ->
  (Z.land tag 7 = 0 /\
   exists v, 0 <= v < 2 ^ 64 /\ payload = encodeVarintInternal v) \/
  (Z.land tag 7 = 1 /\ length payload = 8%nat) \/
  (Z.land tag 7 = 2 /\
   exists body, payload = encodeVarintInternal (Z.of_nat (length body)) ++ body) \/
  (Z.land tag 7 = 5 /\ length payload = 4%nat) ->
  skipInternal (S fuel) (tag :: payload ++ post) =
    Ok (Z.of_nat (length (tag :: payload))).
Proof.
  intros Htag Hlen Hshape.
  assert (H62 : 2 ^ 62 = 4611686018427387904) by reflexivity.
  assert (H63 : 2 ^ 63 = 9223372036854775808) by reflexivity.
  cbn [skipInternal].
  destruct (Z.ltb_spec 0 (Z.of_nat (length (tag :: payload ++ post))));
    [|cbn [length] in *; lia].
  rewrite (readTag_at tag (tag :: payload ++ post) [] (payload ++ post) 0)
    by (try reflexivity; lia).
  cbn [mbind result_bind]. cbn [length] in *. rewrite length_app in Hlen.
  destruct Hshape as [[Hw (v & Hv & ->)]|[[Hw Hp]|[[Hw (body & ->)]|[Hw Hp]]]];
    rewrite Hw.
  - change (int 0 =? 0) with true. cbv iota.
    change (Z.to_nat (0 + 1)) with 1%nat. cbn [drop]. rewrite drop_0.
    rewrite skipVarint_encodeVarintInternal by exact Hv.
    rewrite int_small by lia. f_equal. lia.
  - change (int 1 =? 0) with false. change (int 1 =? 1) with true. cbv iota.
    rewrite int_small by lia. f_equal. lia.
  - change (int 2 =? 0) with false. change (int 2 =? 1) with false.
    change (int 2 =? 2) with true. cbv iota.
    rewrite !length_app in Hlen.
    rewrite (readVarintAt_at int _ [tag] (encodeVarintInternal (Z.of_nat (length body)))
               (body ++ post) (0 + 1) 0 (Z.of_nat (length body))
               (Z.of_nat (length (encodeVarintInternal (Z.of_nat (length body)))))).
    + cbn [mbind result_bind].
      destruct (Z.ltb_spec (Z.of_nat (length body)) 0); [lia|].
      rewrite int_small by lia. f_equal. rewrite length_app. lia.
    + rewrite <- app_assoc. reflexivity.
    + reflexivity.
    + apply readVarint_int. lia.
    + lia.
    + lia.
  - change (int 5 =? 0) with false. change (int 5 =? 1) with false.
    change (int 5 =? 2) with false. change (int 5 =? 3) with false.
    change (int 5 =? 4) with false. change (int 5 =? 5) with true. cbv iota.
    rewrite int_small by lia. f_equal. lia.
Qed.

Lemma sovInternal_small (tag : Z) : 0 <= tag < 128 -> sovInternal tag = 1.
Proof.
  intros Ht. unfold sovInternal. cbn [sov_loop].
  rewrite shiftr_7_zero by lia.
  destruct (Z.leb_spec 128 tag); [lia|]. reflexivity.
Qed.

Lemma sliceFrom_app (pre rest : bytes) (i : Z) :
  i = Z.of_nat (length pre) -> sliceFrom (pre ++ rest) i = Ok rest.
Proof.
  intros ->. unfold sliceFrom. apply slice_suffix; reflexivity.
Qed.

(** The chunk of a field the decoder has no case for. *)
Lemma unknown_chunk {M : Type}
    (field : M -> Z -> Z -> bytes -> Z -> option (result (M * Z)))
    (tag : Z) (payload : bytes) :
  0 <= tag < 128 ->
  (forall m data i,
     field m (int32 (Z.shiftr tag 3)) (int (Z.land tag 7)) data i = None) ->
  (Z.land tag 7 = 0 /\
   exists v, 0 <= v < 2 ^ 64 /\ payload = encodeVarintInternal v) \/
  (Z.land tag 7 = 1 /\ length payload = 8%nat) \/
  (Z.land tag 7 = 2 /\
   exists body, payload = encodeVarintInternal (Z.of_nat (length body)) ++ body) \/
  (Z.land tag 7 = 5 /\ length payload = 4%nat) ->
  forall m data pre post fuel,
    data = pre ++ (tag :: payload) ++ post ->
    Z.of_nat (length data) < 2 ^ 62 ->
    unmarshalLoop field (S fuel) m data (Z.of_nat (length pre)) =
    unmarshalLoop field fuel m data (Z.of_nat (length (pre ++ tag :: payload))).
Proof.
  intros Htag Hfield Hshape m data pre post fuel Hdata Hlen.
  assert (H62 : 2 ^ 62 = 4611686018427387904) by reflexivity.
  assert (H63 : 2 ^ 63 = 9223372036854775808) by reflexivity.
  assert (Hl : Z.of_nat (length data) =
               Z.of_nat (length pre) + 1 + Z.of_nat (length payload)
               + Z.of_nat (length post)).
  { rewrite Hdata, !length_app. cbn [length]. lia. }
  cbn [unmarshalLoop].
  destruct (Z.ltb_spec (Z.of_nat (length pre)) (Z.of_nat (length data))); [|lia].
  rewrite (readTag_at tag data pre (payload ++ post) (Z.of_nat (length pre)))
    by (try reflexivity; try lia; rewrite Hdata; reflexivity).
  cbn [mbind result_bind]. rewrite Hfield.
  unfold skipUnknown. rewrite sovInternal_small by exact Htag.
  replace (Z.of_nat (length pre) + 1 - 1) with (Z.of_nat (length pre)) by lia.
  rewrite int_small by lia.
  rewrite Hdata at 1. rewrite (sliceFrom_app pre) by reflexivity.
  cbn [mbind result_bind].
  change ((tag :: payload) ++ post) with (tag :: payload ++ post).
  rewrite skipInternal_field; [|exact Htag| |exact Hshape].
  2:{ cbn [length]. rewrite length_app. lia. }
  cbn [mbind result_bind].
  destruct (Z.ltb_spec (Z.of_nat (length (tag :: payload))) 0); [lia|].
  cbn [length] in *. rewrite int_small by lia.
  destruct (Z.ltb_spec (Z.of_nat (length data))
              (Z.of_nat (length pre) + Z.of_nat (S (length payload)))); [lia|].
  cbn [mbind result_bind]. f_equal. rewrite length_app. cbn [length]. lia.
Qed.

Lemma truncatedState_chunks (m : RaftTruncatedState) :
  0 <= Index m < 2 ^ 64 -> 0 <= Term m < 2 ^ 64 ->
  Forall (fun cu : bytes * (RaftTruncatedState -> RaftTruncatedState) =>
            forall m data pre post fuel,
              data = pre ++ cu.1 ++ post -> Z.of_nat (length data) < 2 ^ 62 ->
              unmarshalLoop RaftTruncatedState_field (S fuel) m data
                (Z.of_nat (length pre)) =
              unmarshalLoop RaftTruncatedState_field fuel (cu.2 m) data
                (Z.of_nat (length (pre ++ cu.1))))
    [([8] ++ encodeVarintInternal (uint64 (Index m)),
      fun r => mkRaftTruncatedState (Index m) (Term r));
     ([16] ++ encodeVarintInternal (uint64 (Term m)),
      fun r => mkRaftTruncatedState (Index r) (Term m))].
Proof.
  intros HI HT.
  rewrite (uint64_small (Index m)), (uint64_small (Term m)) by lia.
  repeat apply Forall_cons_2; try apply Forall_nil_2; cbn [fst snd].
  - apply (varint_chunk RaftTruncatedState_field uint64 8 (Index m) (Index m)
             (fun r x => mkRaftTruncatedState x (Term r)));
      [lia|lia| |reflexivity].
    intros rest. apply readVarint_encodeVarintInternal. lia.
  - apply (varint_chunk RaftTruncatedState_field uint64 16 (Term m) (Term m)
             (fun r x => mkRaftTruncatedState (Index r) x));
      [lia|lia| |reflexivity].
    intros rest. apply readVarint_encodeVarintInternal. lia.
Qed.

Lemma RaftTruncatedState_field_unknown (tag : Z) :
  0 <= tag < 128 -> Z.shiftr tag 3 <> 1 -> Z.shiftr tag 3 <> 2 ->
  forall m data i,
    RaftTruncatedState_field m (int32 (Z.shiftr tag 3)) (int (Z.land tag 7)) data i
      = None.
Proof.
  intros Htag H1 H2 m data i.
  assert (Hs : 0 <= Z.shiftr tag 3 < 16).
  { rewrite Z.shiftr_div_pow2 by lia. change (2 ^ 3) with 8.
    split; [apply Z.div_pos; lia|apply Z.div_lt_upper_bound; lia]. }
  assert (Hi : int32 (Z.shiftr tag 3) = Z.shiftr tag 3).
  { unfold int32, sint. change (2 ^ (32 - 1)) with 2147483648.
    change (2 ^ 32) with 4294967296. rewrite Z.mod_small; lia. }
  unfold RaftTruncatedState_field. rewrite Hi.
  destruct (Z.eqb_spec (Z.shiftr tag 3) 1); [congruence|].
  destruct (Z.eqb_spec (Z.shiftr tag 3) 2); [congruence|]. reflexivity.
Qed.

(** X15: [RaftTruncatedState.Unmarshal] skips a field it does not know,
    before or after the fields of the message: a field with a one-byte tag
    whose number is neither 1 nor 2, of wire type varint, fixed 64-bit,
    length-delimited or fixed 32-bit, with a well-formed payload.  The result
    is the message that was encoded. *)
Theorem RaftTruncatedState_skips_unknown
    (m m0 : RaftTruncatedState) (tag : Z) (payload : bytes) :
  0 <= Index m < 2 ^ 64 -> 0 <= Term m < 2 ^ 64 ->
  0 <= tag < 128 -> Z.shiftr tag 3 <> 1 -> Z.shiftr tag 3 <> 2 ->
  Z.of_nat (length payload) < 2 ^ 61 ->
  (Z.land tag 7 = 0 /\
   exists v, 0 <= v < 2 ^ 64 /\ payload = encodeVarintInternal v) \/
  (Z.land tag 7 = 1 /\ length payload = 8%nat) \/
  (Z.land tag 7 = 2 /\
   exists body, payload = encodeVarintInternal (Z.of_nat (length body)) ++ body) \/
  (Z.land tag 7 = 5 /\ length payload = 4%nat) ->
  RaftTruncatedState_Unmarshal m0 (RaftTruncatedState_MarshalTo m ++ tag :: payload)
    = Ok m /\
  RaftTruncatedState_Unmarshal m0 (tag :: payload ++ RaftTruncatedState_MarshalTo m)
    = Ok m.
Proof.
  intros HI HT Htag H1 H2 Hpay Hshape.
  assert (H61 : 2 ^ 61 = 2305843009213693952) by reflexivity.
  assert (H62 : 2 ^ 62 = 4611686018427387904) by reflexivity.
  pose proof (truncatedState_chunks m HI HT) as Hch.
  pose proof (unknown_chunk RaftTruncatedState_field tag payload Htag
                (RaftTruncatedState_field_unknown tag Htag H1 H2) Hshape) as Hun.
  pose proof (encodeVarintInternal_length (uint64 (Index m))) as L1.
  pose proof (encodeVarintInternal_length (uint64 (Term m))) as L2.
  assert (Hlen : length (RaftTruncatedState_MarshalTo m) =
                 (2 + length (encodeVarintInternal (uint64 (Index m)))
                  + length (encodeVarintInternal (uint64 (Term m))))%nat).
  { unfold RaftTruncatedState_MarshalTo. rewrite !length_app. cbn [length]. lia. }
  assert (Hm : mkRaftTruncatedState (Index m) (Term m) = m)
    by (destruct m; reflexivity).
  set (known :=
         [([8] ++ encodeVarintInternal (uint64 (Index m)),
           fun r => mkRaftTruncatedState (Index m) (Term r));
          ([16] ++ encodeVarintInternal (uint64 (Term m)),
           fun r => mkRaftTruncatedState (Index r) (Term m))]) in *.
  set (unknown := (tag :: payload, fun r : RaftTruncatedState => r)).
  unfold RaftTruncatedState_Unmarshal. split.
  - replace (Ok m) with (Ok (fold_left (fun m cu => cu.2 m) (known ++ [unknown]) m0))
      by (cbn; rewrite Hm; reflexivity).
    apply (unmarshalLoop_chunks RaftTruncatedState_field (known ++ [unknown]))
      with (pre := []).
    + apply Forall_app_2; [exact Hch|].
      apply Forall_cons_2; [|apply Forall_nil_2]. exact Hun.
    + unfold RaftTruncatedState_MarshalTo. cbn [map concat fst app known unknown].
      rewrite ?app_nil_r, <- ?app_assoc. reflexivity.
    + rewrite !length_app, Hlen. cbn [length]. lia.
    + subst known unknown. rewrite !length_app, Hlen. cbn [length]. lia.
  - replace (Ok m) with (Ok (fold_left (fun m cu => cu.2 m) (unknown :: known) m0))
      by (cbn; rewrite Hm; reflexivity).
    apply (unmarshalLoop_chunks RaftTruncatedState_field (unknown :: known))
      with (pre := []).
    + apply Forall_cons_2; [exact Hun|exact Hch].
    + unfold RaftTruncatedState_MarshalTo. cbn [map concat fst app known unknown].
      rewrite ?app_nil_r, <- ?app_assoc. reflexivity.
    + cbn [length]. rewrite !length_app, Hlen. lia.
    + subst known unknown. cbn [length]. rewrite !length_app, Hlen. lia.
Qed.

(** *** Lengths that overflow *)

Lemma readVarint_prefix (conv : Z -> Z) (bs rest : bytes) :
  forall shift acc r,
    readVarint conv bs shift acc = Some r ->
    readVarint conv (bs ++ rest) shift acc = Some r.
Proof.
  induction bs as [|b bs IH]; intros shift acc r; cbn [readVarint app];
    [discriminate|].
  destruct (b <? 128); [auto|].
  destruct (readVarint conv bs _ _) as [[x n]|] eqn:E; [|discriminate].
  rewrite (IH _ _ _ E). auto.
Qed.

Lemma readVarintAt_prefix (conv : Z -> Z) (data pre bs rest : bytes) (i x n : Z) :
  data = pre ++ bs ++ rest -> i = Z.of_nat (length pre) ->
  readVarint conv bs 0 0 = Some (x, n) ->
  i + n < 2 ^ 63 -> 0 <= n ->
  readVarintAt conv data i 0 = Ok (x, i + n).
Proof.
  intros Hdata Hi Hr Hlen Hn.
  apply (readVarintAt_at conv data pre bs rest); try assumption.
  apply readVarint_prefix, Hr.
Qed.

(** X16: a length that overflows [int] makes the decoders panic instead
    of returning an error.  In [RaftCommand.Unmarshal], a [Cmd] field whose
    length is [2^63 - 1] gives a negative [postIndex], which passes the check
    against the length of the data, and slicing panics.  In
    [RaftTruncatedState.Unmarshal], an unknown group that holds such a field
    leaves [skipInternal] with a negative index into the data.  This is so
    for every receiver and whatever follows the bytes. *)
Theorem Unmarshal_overflow_panics :
  (forall (BatchRequest : Type)
          (BatchRequest_Unmarshal : BatchRequest -> bytes -> result BatchRequest)
          (m : RaftCommand BatchRequest) (rest : bytes),
     RaftCommand_Unmarshal BatchRequest BatchRequest_Unmarshal m
       ([26; 255; 255; 255; 255; 255; 255; 255; 255; 127] ++ rest) = Panic) /\
  (forall (m : RaftTruncatedState) (rest : bytes),
     RaftTruncatedState_Unmarshal m
       ([27; 10; 255; 255; 255; 255; 255; 255; 255; 255; 127] ++ rest) = Panic).
Proof.
  assert (H63 : 2 ^ 63 = 9223372036854775808) by reflexivity.
  assert (Hbig : readVarint int [255; 255; 255; 255; 255; 255; 255; 255; 127] 0 0 =
                 Some (9223372036854775807, 9)) by (vm_compute; reflexivity).
  assert (Hwrap : int (1 + 9 + 9223372036854775807) = -9223372036854775799)
    by (vm_compute; reflexivity).
  split.
  - intros BatchRequest BatchRequest_Unmarshal m rest.
    unfold RaftCommand_Unmarshal.
    set (data := [26; 255; 255; 255; 255; 255; 255; 255; 255; 127] ++ rest).
    assert (Hl : length data = S (9 + length rest)) by reflexivity.
    rewrite Hl. cbn [unmarshalLoop]. rewrite Hl.
    destruct (Z.ltb_spec 0 (Z.of_nat (S (9 + length rest)))); [|lia].
    rewrite (readTag_at 26 data [] ([255; 255; 255; 255; 255; 255; 255; 255; 127] ++ rest) 0)
      by (try reflexivity; lia).
    cbn [mbind result_bind].
    change (int32 (Z.shiftr 26 3)) with 3. change (int (Z.land 26 7)) with 2.
    unfold RaftCommand_field. cbn [Z.eqb negb Pos.eqb].
    rewrite (readVarintAt_prefix int data [26] [255; 255; 255; 255; 255; 255; 255; 255; 127]
               rest (0 + 1) _ _ eq_refl eq_refl Hbig)
      by lia.
    cbn [mbind result_bind].
    change (9223372036854775807 <? 0) with false. cbv iota.
    change (0 + 1 + 9) with (1 + 9). rewrite Hwrap, Hl.
    destruct (Z.ltb_spec (Z.of_nat (S (9 + length rest))) (-9223372036854775799)); [lia|].
    unfold slice.
    change (1 + 9 <=? -9223372036854775799) with false.
    rewrite andb_false_r. reflexivity.
  - intros m rest.
    unfold RaftTruncatedState_Unmarshal.
    set (tail := [10; 255; 255; 255; 255; 255; 255; 255; 255; 127] ++ rest).
    set (data := [27; 10; 255; 255; 255; 255; 255; 255; 255; 255; 127] ++ rest).
    assert (Hdata : data = [27] ++ tail) by reflexivity.
    assert (Hlt : length tail = S (9 + length rest)) by reflexivity.
    assert (Hl : length data = S (S (9 + length rest))) by reflexivity.
    rewrite Hl. cbn [unmarshalLoop]. rewrite Hl.
    destruct (Z.ltb_spec 0 (Z.of_nat (S (S (9 + length rest))))); [|lia].
    rewrite (readTag_at 27 data [] tail 0) by (try reflexivity; lia).
    cbn [mbind result_bind].
    change (int32 (Z.shiftr 27 3)) with 3. change (int (Z.land 27 7)) with 3.
    unfold RaftTruncatedState_field. cbn [Z.eqb Pos.eqb].
    unfold skipUnknown. rewrite (sovInternal_small 27) by lia.
    change (int (0 + 1 - 1)) with 0.
    rewrite (sliceFrom_app [] data 0 eq_refl : sliceFrom data 0 = Ok data).
    cbn [mbind result_bind]. rewrite Hl.
    (* the group *)
    cbn [skipInternal]. rewrite Hl.
    destruct (Z.ltb_spec 0 (Z.of_nat (S (S (9 + length rest))))); [|lia].
    rewrite (readTag_at 27 data [] tail 0) by (try reflexivity; lia).
    cbn [mbind result_bind].
    change (int (Z.land 27 7)) with 3. cbn [Z.eqb Pos.eqb].
    cbn [skipGroup].
    rewrite (readTag_at 10 data [27] ([255; 255; 255; 255; 255; 255; 255; 255; 127] ++ rest)
               (0 + 1)) by (try reflexivity; lia).
    cbn [mbind result_bind].
    change (int (Z.land 10 7)) with 2. cbn [Z.eqb Pos.eqb].
    rewrite Hdata at 1. rewrite (sliceFrom_app [27] tail (0 + 1)) by reflexivity.
    cbn [mbind result_bind].
    (* the member of the group *)
    cbn [skipInternal]. rewrite Hlt.
    destruct (Z.ltb_spec 0 (Z.of_nat (S (9 + length rest)))); [|lia].
    rewrite (readTag_at 10 tail [] ([255; 255; 255; 255; 255; 255; 255; 255; 127] ++ rest) 0)
      by (try reflexivity; lia).
    cbn [mbind result_bind].
    change (int (Z.land 10 7)) with 2. cbn [Z.eqb Pos.eqb].
    rewrite (readVarintAt_prefix int tail [10] [255; 255; 255; 255; 255; 255; 255; 255; 127]
               rest (0 + 1) _ _ eq_refl eq_refl Hbig)
      by lia.
    cbn [mbind result_bind].
    change (9223372036854775807 <? 0) with false. cbv iota.
    change (0 + 1 + 9) with (1 + 9). rewrite Hwrap.
    cbn [mbind result_bind].
    (* back in the group, at a negative index *)
    change (int (0 + 1 + -9223372036854775799)) with (-9223372036854775798).
    unfold readVarintAt.
    change (-9223372036854775798 <? 0) with true. reflexivity.
Qed.

Lemma varint_roundtrip_witness :
  0 <= 300 < 2 ^ 64 /\
  readVarint uint64 (encodeVarintInternal 300 ++ [7]) 0 0 = Some (300, 2) /\
  readVarint int32 (encodeVarintInternal (uint64 (-1)) ++ []) 0 0 = Some (-1, 10).
Proof.
  split; [lia|]. split.
  - exact (proj1 (proj2 (proj2 (varint_roundtrip 300 [7] ltac:(lia))))).
  - exact (proj1 (proj2 (proj2 (proj2 (proj2
             (varint_roundtrip (uint64 (-1)) []
                ltac:(apply Z.mod_pos_bound; lia))))))).
Defined.

Lemma fixed64_roundtrip_witness :
  readFixed64At ([57] ++ encodeFixed64Internal 4607182418800017408 ++ [65]) 1 =
    Ok (4607182418800017408, 9) /\
  readFixed64At ([57] ++ [0; 0; 0]) 1 = Err ErrUnexpectedEOF.
Proof.
  destruct (fixed64_roundtrip 4607182418800017408 [57] [65] ltac:(lia) ltac:(cbn; lia))
    as [H1 H2].
  split; [exact H1|]. apply (H2 [0; 0; 0]). cbn. lia.
Defined.

Lemma sample1_valid :
  InternalTimeSeriesSample_valid
    (mkInternalTimeSeriesSample (-3) 5 4607182418800017408 (Some 2) None).
Proof.
  unfold InternalTimeSeriesSample_valid. cbn.
  split; [lia|]. split; [lia|]. split; [lia|].
  split; intros y Hy; inversion Hy; lia.
Defined.

Lemma InternalTimeSeriesSample_roundtrip_witness :
  exists data,
    InternalTimeSeriesSample_Marshal
      (mkInternalTimeSeriesSample (-3) 5 4607182418800017408 (Some 2) None) = Ok data /\
    InternalTimeSeriesSample_Unmarshal
      (mkInternalTimeSeriesSample 1 1 1 (Some 7) (Some 9)) data =
      Ok (mkInternalTimeSeriesSample (-3) 5 4607182418800017408 (Some 2) (Some 9)) /\
    InternalTimeSeriesSample_Unmarshal zeroSample data =
      Ok (mkInternalTimeSeriesSample (-3) 5 4607182418800017408 (Some 2) None).
Proof.
  exact (InternalTimeSeriesSample_roundtrip
           (mkInternalTimeSeriesSample (-3) 5 4607182418800017408 (Some 2) None)
           (mkInternalTimeSeriesSample 1 1 1 (Some 7) (Some 9)) sample1_valid).
Defined.

Lemma RaftSnapshotData_KeyValue_roundtrip_witness :
  exists data,
    RaftSnapshotData_KeyValue_Marshal (mkKeyValue (Some [107]) (Some [])) = Ok data /\
    RaftSnapshotData_KeyValue_Unmarshal (mkKeyValue None (Some [1])) data =
      Ok (mkKeyValue (Some [107]) (Some [])) /\
    RaftSnapshotData_KeyValue_Unmarshal zeroKeyValue data =
      Ok (mkKeyValue (Some [107]) (Some [])).
Proof.
  exact (RaftSnapshotData_KeyValue_roundtrip (mkKeyValue (Some [107]) (Some []))
           (mkKeyValue None (Some [1])) ltac:(vm_compute; reflexivity)).
Defined.

Lemma InternalTimeSeriesData_roundtrip_witness :
  exists data,
    InternalTimeSeriesData_Marshal
      (mkInternalTimeSeriesData 1000 (-1)
         [mkInternalTimeSeriesSample (-3) 5 4607182418800017408 (Some 2) None]) = Ok data /\
    InternalTimeSeriesData_Unmarshal (mkInternalTimeSeriesData 0 0 [zeroSample]) data =
      Ok (mkInternalTimeSeriesData 1000 (-1)
            [zeroSample;
             mkInternalTimeSeriesSample (-3) 5 4607182418800017408 (Some 2) None]).
Proof.
  apply (InternalTimeSeriesData_roundtrip
           (mkInternalTimeSeriesData 1000 (-1)
              [mkInternalTimeSeriesSample (-3) 5 4607182418800017408 (Some 2) None])
           (mkInternalTimeSeriesData 0 0 [zeroSample])).
  - split; [cbn; lia|]. split; [cbn; lia|].
    constructor; [exact sample1_valid|constructor].
  - vm_compute. reflexivity.
Defined.

Lemma RaftSnapshotData_roundtrip_witness :
  exists data,
    RaftSnapshotData_Marshal (list Z) (fun d => Z.of_nat (length d)) Ok
      (mkRaftSnapshotData [1; 2] [mkKeyValue (Some [107]) None]) = Ok data /\
    RaftSnapshotData_Unmarshal (list Z) (fun _ d => Ok d)
      (mkRaftSnapshotData [] [zeroKeyValue]) data =
      Ok (mkRaftSnapshotData [1; 2] [zeroKeyValue; mkKeyValue (Some [107]) None]).
Proof.
  apply (RaftSnapshotData_roundtrip (list Z) (fun d => Z.of_nat (length d)) Ok
           (fun _ d => Ok d)
           (mkRaftSnapshotData [1; 2] [mkKeyValue (Some [107]) None])
           (mkRaftSnapshotData [] [zeroKeyValue]) [1; 2]);
    try reflexivity.
Defined.

Lemma RaftTruncatedState_skips_unknown_witness :
  RaftTruncatedState_Unmarshal (mkRaftTruncatedState 0 0)
    (RaftTruncatedState_MarshalTo (mkRaftTruncatedState 300 5) ++ 26 :: [2; 7; 7])
    = Ok (mkRaftTruncatedState 300 5) /\
  RaftTruncatedState_Unmarshal (mkRaftTruncatedState 0 0)
    (24 :: encodeVarintInternal 1000 ++
     RaftTruncatedState_MarshalTo (mkRaftTruncatedState 300 5))
    = Ok (mkRaftTruncatedState 300 5).
Proof.
  split.
  - apply (RaftTruncatedState_skips_unknown (mkRaftTruncatedState 300 5)
             (mkRaftTruncatedState 0 0) 26 [2; 7; 7]).
    + cbn; lia.
    + cbn; lia.
    + lia.
    + vm_compute. discriminate.
    + vm_compute. discriminate.
    + vm_compute. reflexivity.
    + right. right. left. split; [reflexivity|]. exists [7; 7]. reflexivity.
  - apply (RaftTruncatedState_skips_unknown (mkRaftTruncatedState 300 5)
             (mkRaftTruncatedState 0 0) 24 (encodeVarintInternal 1000)).
    + cbn; lia.
    + cbn; lia.
    + lia.
    + vm_compute. discriminate.
    + vm_compute. discriminate.
    + vm_compute. reflexivity.
    + left. split; [reflexivity|]. exists 1000. split; [lia|reflexivity].
Defined.
End internal_facts.

(** ** The replica *)
Section storage_facts.
Import Storage.

Ltac unfoldM :=
  unfold mbind, M_bind, mret, M_ret, getReplica, setReplica, emit, callEnv,
    updEnv, fatal in *.

Ltac inv_Done :=
  repeat match goal with
  | H : Done _ = Done _ |- _ => inversion H; subst; clear H
  | H : Fatal _ = Done _ |- _ => discriminate H
  | H : (_, _) = (_, _) |- _ => inversion H; subst; clear H
  end.

Section apply_facts.
Context {C : Collaborators}.

Lemma keeps_refl s : keeps s s.
Proof. repeat split. Qed.

Lemma keeps_trans s1 s2 s3 : keeps s1 s2 -> keeps s2 s3 -> keeps s1 s3.
Proof. unfold keeps. intros (?&?&?&?) (?&?&?&?). repeat split; congruence. Qed.

Lemma maybeAddToSplitQueue_keeps s s' :
  maybeAddToSplitQueue s = Done (tt, s') -> keeps s s'.
Proof.
  unfold maybeAddToSplitQueue. unfoldM. cbn.
  destruct (_ && _).
  - destruct (Clock_Now _) as [e now]. cbn. intros H. inv_Done. repeat split.
  - intros H. inv_Done. apply keeps_refl.
Qed.

Lemma gossipConfig_keeps match_ i cd s s' :
  gossipConfig match_ i cd s = Done (tt, s') -> keeps s s'.
Proof.
  unfold gossipConfig. destruct cd as [keyPrefix gossipKey]. unfoldM. cbn.
  destruct (match_ keyPrefix); [|intros H; inv_Done; apply keeps_refl].
  destruct (negb _); [discriminate|].
  destruct (loadConfigMap _ _) as [[configMap hash] err].
  destruct err; [intros H; inv_Done; apply keeps_refl|].
  destruct (match _ !! i with Some _ => _ | None => _ end); cbn;
    intros H; inv_Done; repeat split.
Qed.

Lemma gossipConfigs_loop_keeps match_ cds :
  forall i s s', gossipConfigs_loop match_ i cds s = Done (tt, s') -> keeps s s'.
Proof.
  induction cds as [|cd cds IH]; intros i s s'; cbn [gossipConfigs_loop].
  - unfoldM. intros H. inv_Done. apply keeps_refl.
  - unfold mbind, M_bind.
    destruct (gossipConfig match_ i cd s) as [[[] s1]|] eqn:E; [|discriminate].
    intros H. eapply keeps_trans; [eapply gossipConfig_keeps; exact E|].
    eapply IH; exact H.
Qed.

Lemma maybeGossipConfigs_keeps match_ s s' :
  maybeGossipConfigs match_ s = Done (tt, s') -> keeps s s'.
Proof.
  unfold maybeGossipConfigs, maybeGossipConfigsLocked.
  unfold mbind at 1, M_bind at 1, getReplica at 1.
  destruct (_ || _); [unfoldM; intros H; inv_Done; apply keeps_refl|].
  destruct (negb (lease_OwnedBy _ _)); [unfoldM; intros H; inv_Done; apply keeps_refl|].
  unfold mbind at 1, M_bind at 1, callEnv.
  destruct (Clock_Now _) as [e now].
  unfold mbind at 1, M_bind at 1, getReplica at 1. cbn [rep lease set_env].
  destruct (negb _); [unfoldM; intros H; inv_Done; repeat split|].
  intros H. apply gossipConfigs_loop_keeps in H.
  eapply keeps_trans; [|exact H]. repeat split.
Qed.

Lemma handleSkippedIntents_keeps args intents s s' :
  handleSkippedIntents args intents s = Done (tt, s') -> keeps s s'.
Proof.
  unfold handleSkippedIntents. destruct intents; unfoldM; intros H; inv_Done;
    repeat split.
Qed.
End apply_facts.

Section apply_loop_facts.
Context {C : Collaborators}.

Lemma runExecuteCmd_Done batch ms args s :
  runExecuteCmd batch ms args s =
    let x := executeCmd (rep s) batch ms args in
    Done ((ex_batch x, ex_ms x, ex_reply x, ex_intents x, ex_err x),
          mkState (ex_replica x) (trace s ++ [EvExecute args])).
Proof. reflexivity. Qed.

(** One round of the loop of [applyRaftCommandInBatch]. *)
Lemma applyLoop_cons originNode args rest batch ms bReply s :
  applyLoop originNode (args :: rest) batch ms bReply s =
    if leaseMismatch (lease (rep s)) originNode args
    then Done (LoopReturn batch ms
                 (newNotLeaderError (rep s) (Some (lease (rep s))) originNode), s)
    else
      let x := executeCmd (rep s) batch ms args in
      let s1 := mkState (ex_replica x) (trace s ++ [EvExecute args]) in
      match (if originNode =? rm_RaftNodeID (env (rep s1))
             then handleSkippedIntents args (ex_intents x) else mret tt) s1 with
      | Done (_, s2) =>
          match ex_err x with
          | None =>
              applyLoop originNode rest (ex_batch x) (ex_ms x)
                (br_Add bReply
                   (mkResponse (h_Timestamp (req_Header args)) (resp_Body (ex_reply x))))
                s2
          | Some e =>
              Done (LoopDone (ex_batch x) (ex_ms x) (mkBatchResponse ZeroTimestamp [])
                      (Some e), s2)
          end
      | Fatal msg => Fatal msg
      end.
Proof.
  cbn [applyLoop]. unfold mbind at 1, M_bind at 1, getReplica at 1.
  destruct (leaseMismatch _ _ _); [reflexivity|].
  unfold mbind at 1, M_bind at 1. rewrite runExecuteCmd_Done. cbn zeta.
  unfold mbind at 1, M_bind at 1, getReplica at 1. cbn [rep].
  unfold mbind at 1, M_bind at 1.
  match goal with
  | |- context [match ?c ?st with Done _ => _ | Fatal _ => _ end] =>
      destruct (c st) as [[[] s2]|]; [|reflexivity]
  end.
  destruct (ex_err _); reflexivity.
Qed.

Lemma skipped_keeps originNode args intents s u s' :
  (if originNode =? rm_RaftNodeID (env (rep s))
   then handleSkippedIntents args intents else mret tt) s = Done (u, s') ->
  keeps s s'.
Proof.
  destruct (_ =? _).
  - destruct u. apply handleSkippedIntents_keeps.
  - unfoldM. intros H. inv_Done. apply keeps_refl.
Qed.

(** A prefix of requests that pass the lease check and are executed
    without error adds their executions to the events, and nothing else. *)
Lemma applyLoop_prefix_trace originNode pre :
  forall batch ms bReply s batch1 ms1 bReply1 s1,
    applyLoop originNode pre batch ms bReply s =
      Done (LoopDone batch1 ms1 bReply1 None, s1) ->
    trace s1 = trace s ++ map EvExecute pre.
Proof.
  induction pre as [|args pre IH]; intros batch ms bReply s batch1 ms1 bReply1 s1.
  - cbn. unfoldM. intros H. inv_Done. rewrite app_nil_r. reflexivity.
  - rewrite applyLoop_cons. destruct (leaseMismatch _ _ _); [discriminate|].
    cbn zeta.
    match goal with
    | |- context [match ?c ?st with Done _ => _ | Fatal _ => _ end] =>
        destruct (c st) as [[u s2]|] eqn:E; [|discriminate]
    end.
    apply skipped_keeps in E. destruct E as (_ & _ & _ & Htr). cbn [trace] in Htr.
    destruct (ex_err _); [discriminate|].
    intros H. apply IH in H. rewrite H, Htr, <- app_assoc. reflexivity.
Qed.

Lemma applyLoop_app originNode pre rest :
  forall batch ms bReply s batch1 ms1 bReply1 s1,
    applyLoop originNode pre batch ms bReply s =
      Done (LoopDone batch1 ms1 bReply1 None, s1) ->
    applyLoop originNode (pre ++ rest) batch ms bReply s =
      applyLoop originNode rest batch1 ms1 bReply1 s1.
Proof.
  induction pre as [|args pre IH]; intros batch ms bReply s batch1 ms1 bReply1 s1.
  - cbn. unfoldM. intros H. inv_Done. reflexivity.
  - cbn [app]. rewrite !applyLoop_cons.
    destruct (leaseMismatch _ _ _); [discriminate|]. cbn zeta.
    match goal with
    | |- context [match ?c ?st with Done _ => _ | Fatal _ => _ end] =>
        destruct (c st) as [[u s2]|]; [|discriminate]
    end.
    destruct (ex_err _); [discriminate|].
    apply IH.
Qed.

(** The loop leaves the applied index alone when [executeCmd] does. *)
Lemma applyLoop_appliedIndex originNode reqs :
  (forall r b ms a, appliedIndex (ex_replica (executeCmd r b ms a)) = appliedIndex r) ->
  forall batch ms bReply s e s',
    applyLoop originNode reqs batch ms bReply s = Done (e, s') ->
    appliedIndex (rep s') = appliedIndex (rep s).
Proof.
  intros Hexec.
  induction reqs as [|args reqs IH]; intros batch ms bReply s e s'.
  - cbn. unfoldM. intros H. inv_Done. reflexivity.
  - rewrite applyLoop_cons. destruct (leaseMismatch _ _ _).
    { intros H. inv_Done. reflexivity. }
    cbn zeta.
    match goal with
    | |- context [match ?c ?st with Done _ => _ | Fatal _ => _ end] =>
        destruct (c st) as [[u s2]|] eqn:E; [|discriminate]
    end.
    apply skipped_keeps in E. destruct E as (Hidx & _). cbn [rep] in Hidx.
    rewrite Hexec in Hidx.
    destruct (ex_err _).
    + intros H. inv_Done. exact Hidx.
    + intros H. apply IH in H. congruence.
Qed.
End apply_loop_facts.

Section admission_facts.
Context {C : Collaborators}.

(** C4: when the current lease covers the timestamp,
    [redirectOnOrAcquireLeaderLease] returns [nil] if the lease is owned by
    the node of this replica, and otherwise a [NotLeaderError] that names
    the replica of the holder; in both cases the replica and the events are
    as before, so no lease request has been proposed. *)
Theorem redirectOnOrAcquireLeaderLease_covered (s : State) (timestamp : Timestamp) :
  let r := rep s in
  let l := lease r in
  let raftNodeID := rm_RaftNodeID (env r) in
  lease_Covers l timestamp = true ->
  (lease_OwnedBy l raftNodeID = true ->
     redirectOnOrAcquireLeaderLease timestamp s = Done (None, s)) /\
  (lease_OwnedBy l raftNodeID = false ->
     redirectOnOrAcquireLeaderLease timestamp s =
       Done (Some (newNotLeaderError r (Some l) raftNodeID), s) /\
     isNotLeaderError (Some (newNotLeaderError r (Some l) raftNodeID)) = true /\
     (lease_RaftNodeID l <> 0 ->
        newNotLeaderError r (Some l) raftNodeID =
          NotLeaderError (RangeID (desc r))
            (FindReplica (desc r) (DecodeRaftNodeID raftNodeID).2)
            (FindReplica (desc r) (DecodeRaftNodeID (lease_RaftNodeID l)).2))).
Proof.
  intros r l raftNodeID Hcov. subst r l raftNodeID.
  unfold redirectOnOrAcquireLeaderLease, mbind, M_bind, getReplica, mret, M_ret.
  rewrite Hcov. split.
  - intros Hown. rewrite Hown. reflexivity.
  - intros Hown. rewrite Hown. split; [reflexivity|].
    unfold newNotLeaderError. split.
    + destruct (negb _); [|reflexivity].
      destruct (DecodeRaftNodeID _), (DecodeRaftNodeID _). reflexivity.
    + intros Hne. destruct (Z.eqb_spec (lease_RaftNodeID (lease (rep s))) 0); [contradiction|].
      cbn [negb].
      destruct (DecodeRaftNodeID (rm_RaftNodeID _)), (DecodeRaftNodeID (lease_RaftNodeID _)).
      reflexivity.
Qed.


(** C6: [endCmds] updates the timestamp cache with the requests of the
    command, at their final timestamps, only when the error is [nil] and
    leaves it as it is otherwise; in both cases it removes every command
    queue key of the command, and no key it was given is left in the
    queue. *)
Theorem endCmds_effect (s : State) (cmdKeys : list CmdKey) (bArgs : BatchRequest)
    (err : option Error) :
  exists s',
    endCmds cmdKeys bArgs err s = Done (tt, s') /\
    tsCache (rep s') =
      (match err with
       | None => endCmds_tsCache (tsCache (rep s)) (Requests bArgs)
       | Some _ => tsCache (rep s)
       end) /\
    cmdQ (rep s') = fold_left cmdQ_Remove cmdKeys (cmdQ (rep s)) /\
    trace s' = trace s /\
    (forall holds : CommandQueue -> CmdKey -> Prop,
       (forall q k, ~ holds (cmdQ_Remove q k) k) ->
       (forall q k k', ~ holds q k' -> ~ holds (cmdQ_Remove q k) k') ->
       forall k, In k cmdKeys -> ~ holds (cmdQ (rep s')) k).
Proof.
  unfold endCmds, mbind, M_bind, getReplica, setReplica.
  eexists. split; [reflexivity|]. cbn [rep tsCache cmdQ set_cmdQ set_tsCache].
  split; [reflexivity|]. split; [reflexivity|]. split; [reflexivity|].
  intros holds Hrem Hmono.
  generalize (cmdQ (rep s)). induction cmdKeys as [|k0 ks IH]; intros q k Hin.
  - destruct Hin.
  - cbn [fold_left]. destruct Hin as [->|Hin].
    + assert (Hkeep : forall ks q, ~ holds q k -> ~ holds (fold_left cmdQ_Remove ks q) k).
      { clear -Hmono. induction ks as [|k1 ks IH]; intros q Hq; cbn [fold_left]; [exact Hq|].
        apply IH, Hmono, Hq. }
      apply Hkeep, Hrem.
    + apply IH, Hin.
Qed.

Lemma checkBatchRequest_loop_cons bArgs a rest i ro :
  isSome (checkBatchRequest_loop bArgs (a :: rest) i ro) =
    badRequest bArgs a
    || (if (i =? 0)%nat
        then isSome (checkBatchRequest_loop bArgs rest (S i) (IsReadOnly (req_Method a)))
        else negb (eqb (IsReadOnly (req_Method a)) ro)
             || isSome (checkBatchRequest_loop bArgs rest (S i) ro)).
Proof.
  cbn [checkBatchRequest_loop]. unfold badRequest.
  destruct (Method_eqb (req_Method a) EndTransaction && negb (length (Requests bArgs) =? 1)%nat);
    [reflexivity|].
  destruct (WallTime (h_Timestamp (req_Header a)) =? WallTime (b_Timestamp bArgs));
    [|reflexivity].
  destruct (GetUserPriority (req_Header a) =? GetUserPriority (b_Header bArgs));
    [|reflexivity].
  destruct (txn_Equal (h_Txn (req_Header a)) (h_Txn (b_Header bArgs)));
    [|reflexivity].
  cbn [negb orb].
  destruct (IsReadOnly (req_Method a)); cbn [andb orb];
    [destruct (h_ReadConsistency (req_Header a)); cbn [isINCONSISTENT isCONSENSUS andb orb]|].
  - destruct (i =? 0)%nat; [reflexivity|].
    destruct (negb (eqb true ro)); reflexivity.
  - reflexivity.
  - destruct (isSome (h_Txn (req_Header a))); cbn [orb]; [reflexivity|].
    destruct (i =? 0)%nat; [reflexivity|].
    destruct (negb (eqb true ro)); reflexivity.
  - destruct (i =? 0)%nat; [reflexivity|].
    destruct (negb (eqb false ro)); reflexivity.
Qed.

Lemma checkBatchRequest_loop_later bArgs reqs i ro :
  isSome (checkBatchRequest_loop bArgs reqs (S i) ro) =
    existsb (fun a => badRequest bArgs a || negb (eqb (IsReadOnly (req_Method a)) ro)) reqs.
Proof.
  revert i. induction reqs as [|a rest IH]; intros i; [reflexivity|].
  rewrite checkBatchRequest_loop_cons. cbn [existsb Nat.eqb].
  rewrite IH, orb_assoc. reflexivity.
Qed.

Lemma existsb_orb {A} (f g : A -> bool) (l : list A) :
  existsb (fun a => f a || g a) l = existsb f l || existsb g l.
Proof.
  induction l as [|a l IH]; [reflexivity|]. cbn [existsb]. rewrite IH.
  destruct (f a), (g a), (existsb f l), (existsb g l); reflexivity.
Qed.

Lemma existsb_andb_r {A} (f : A -> bool) (c : bool) (l : list A) :
  existsb (fun a => f a && c) l = existsb f l && c.
Proof.
  induction l as [|a l IH]; [reflexivity|]. cbn [existsb]. rewrite IH.
  destruct (f a), c, (existsb f l); reflexivity.
Qed.

Lemma mixed_with_head (f : Request -> bool) (a0 : Request) (rest : list Request) :
  existsb (fun a => negb (eqb (f a) (f a0))) rest =
    existsb f (a0 :: rest) && existsb (fun a => negb (f a)) (a0 :: rest).
Proof.
  cbn [existsb]. induction rest as [|a rest IH]; cbn [existsb].
  - destruct (f a0); reflexivity.
  - rewrite IH. destruct (f a0), (f a), (existsb f rest),
      (existsb (fun a => negb (f a)) rest); reflexivity.
Qed.

(** C7: [checkBatchRequest] returns an error exactly for the batches in
    which an [EndTransaction] comes with another request, or a request
    differs from the batch in wall time, user priority or transaction, or
    read-only requests are mixed with others, or an inconsistent read is
    inside a transaction, or a read asks for [CONSENSUS]; for every other
    batch it returns [nil]. *)
Theorem checkBatchRequest_rejects (bArgs : BatchRequest) :
  isSome (checkBatchRequest bArgs) = rejectedBatch bArgs.
Proof.
  assert (Hbad : forall l, existsb (badRequest bArgs) l =
    (existsb (fun a => Method_eqb (req_Method a) EndTransaction) l
       && negb (length (Requests bArgs) =? 1)%nat)
    || existsb (fun a => negb (WallTime (h_Timestamp (req_Header a))
                               =? WallTime (b_Timestamp bArgs))) l
    || existsb (fun a => negb (GetUserPriority (req_Header a)
                               =? GetUserPriority (b_Header bArgs))) l
    || existsb (fun a => negb (txn_Equal (h_Txn (req_Header a)) (h_Txn (b_Header bArgs)))) l
    || existsb (fun a => IsReadOnly (req_Method a)
                         && isINCONSISTENT (h_ReadConsistency (req_Header a))
                         && isSome (h_Txn (req_Header a))) l
    || existsb (fun a => IsReadOnly (req_Method a)
                         && isCONSENSUS (h_ReadConsistency (req_Header a))) l).
  { intros l. unfold badRequest. rewrite !existsb_orb, existsb_andb_r. reflexivity. }
  unfold checkBatchRequest, rejectedBatch.
  destruct (Requests bArgs) as [|a0 rest] eqn:E; [reflexivity|].
  rewrite checkBatchRequest_loop_cons. cbn [Nat.eqb].
  rewrite checkBatchRequest_loop_later, existsb_orb.
  rewrite (mixed_with_head (fun a => IsReadOnly (req_Method a)) a0 rest).
  rewrite orb_assoc.
  change (badRequest bArgs a0 || existsb (badRequest bArgs) rest)
    with (existsb (badRequest bArgs) (a0 :: rest)).
  rewrite Hbad.
  set (e1 := existsb _ (a0 :: rest) && negb _).
  set (e2 := existsb (fun a => negb (WallTime _ =? _)) (a0 :: rest)).
  set (e3 := existsb (fun a => negb (GetUserPriority _ =? _)) (a0 :: rest)).
  set (e4 := existsb (fun a => negb (txn_Equal _ _)) (a0 :: rest)).
  set (e5 := existsb (fun a => _ && _ && isSome _) (a0 :: rest)).
  set (e6 := existsb (fun a => IsReadOnly _ && isCONSENSUS _) (a0 :: rest)).
  set (m := existsb _ (a0 :: rest) && existsb _ (a0 :: rest)).
  destruct e1, e2, e3, e4, e5, e6, m; reflexivity.
Qed.
End admission_facts.

Lemma redirectOnOrAcquireLeaderLease_covered_witness :
  lease_Covers (lease (rep (Toy.state0 1 0))) (mkTimestamp 500 0) = true /\
  redirectOnOrAcquireLeaderLease (mkTimestamp 500 0) (Toy.state0 1 0)
    = Done (None, Toy.state0 1 0) /\
  redirectOnOrAcquireLeaderLease (mkTimestamp 500 0) (Toy.state0 2 0)
    = Done (Some (NotLeaderError 1 (Some (mkReplicaDescriptor 2 2))
                    (Some (mkReplicaDescriptor 1 1))),
            Toy.state0 2 0).
Proof.
  split; [reflexivity|]. split.
  - apply (proj1 (@redirectOnOrAcquireLeaderLease_covered Toy.toy (Toy.state0 1 0)
                    (mkTimestamp 500 0) eq_refl)).
    reflexivity.
  - apply (proj1 (proj2 (@redirectOnOrAcquireLeaderLease_covered Toy.toy
                           (Toy.state0 2 0) (mkTimestamp 500 0) eq_refl) eq_refl)).
Defined.

Lemma endCmds_effect_witness :
  exists s',
    endCmds (C := Toy.toy) [0%nat; 1%nat] (Toy.putBatch 50 42 [118]) None
      (mkState (set_cmdQ (Toy.replica0 1 0) (2%nat, [0%nat; 1%nat])) [])
      = Done (tt, s') /\
    tsCache (rep s')
      = [([107], mkTimestamp 50 0, [9], true); ([107], mkTimestamp 50 0, [], false)] /\
    ~ In 0%nat (snd (cmdQ (rep s'))) /\ ~ In 1%nat (snd (cmdQ (rep s'))).
Proof.
  destruct (@endCmds_effect Toy.toy
              (mkState (set_cmdQ (Toy.replica0 1 0) (2%nat, [0%nat; 1%nat])) [])
              [0%nat; 1%nat] (Toy.putBatch 50 42 [118]) None)
    as (s' & Hrun & Hts & Hq & Htr & Hholds).
  exists s'. split; [exact Hrun|]. split; [rewrite Hts; reflexivity|].
  assert (Hnone : forall k, In k [0%nat; 1%nat] -> ~ In k (snd (cmdQ (rep s')))).
  { apply (Hholds (fun q k => In k (snd q))).
    - intros q k Hin. cbn in Hin. apply filter_In in Hin as [_ Hk].
      rewrite Nat.eqb_refl in Hk. discriminate.
    - intros q k k' Hk' Hin. cbn in Hin. apply filter_In in Hin as [Hin _].
      exact (Hk' Hin). }
  split; apply Hnone; cbn; auto.
Defined.

Section apply_command_facts.
Context {C : Collaborators}.

Lemma NewBatch_Done s : NewBatch s = Done (engine (rep s), s).
Proof. reflexivity. Qed.

(** The part of [applyRaftCommandInBatch] after the loop. *)
Lemma applyRaftCommandInBatch_unfold index originNode bArgs ms s :
  applyRaftCommandInBatch index originNode bArgs ms s =
    let batch := engine (rep s) in
    let cached :=
      if batch_IsWrite bArgs
      then Some (respCache_GetResponse batch (h_CmdID (b_Header bArgs)))
      else None in
    match cached with
    | Some (_, Some readErr) =>
        Done ((batch, ms, None,
               Some (newReplicaCorruptionError
                       [Some (Errorf "could not read from response cache");
                        Some readErr])), s)
    | Some (mkResponseWithError (Some reply) err, None) =>
        Done ((batch, ms, Some reply, err), s)
    | _ =>
        match applyLoop originNode (Requests bArgs) batch ms
                (mkBatchResponse (b_Timestamp bArgs) []) s with
        | Fatal msg => Fatal msg
        | Done (LoopReturn batch ms err, s1) => Done ((batch, ms, None, Some err), s1)
        | Done (LoopDone batch ms bReply rErr, s1) =>
            if batch_IsWrite bArgs then
              let rwe := mkResponseWithError (Some bReply) rErr in
              let put (batch : Engine) (s2 : State) :=
                let s3 := mkState (rep s2)
                            (trace s2 ++ [EvPutResponse (h_CmdID (b_Header bArgs)) rwe]) in
                match respCache_PutResponse batch (h_CmdID (b_Header bArgs)) rwe with
                | (_, Some _) =>
                    Fatal "putting a response cache entry in a batch should never fail: %s"
                | (batch, None) => Done ((batch, ms, Some bReply, rErr), s3)
                end in
              match rErr with
              | None =>
                  match MergeMVCCStats (stats (rep s1)) batch ms
                          (WallTime (b_Timestamp bArgs)) with
                  | (_, _, Some _) =>
                      Fatal "setting mvcc stats in a batch should never fail: %s"
                  | (st, batch, None) =>
                      put batch (mkState (set_stats (rep s1) st) (trace s1))
                  end
              | Some _ => put (engine (rep s1)) s1
              end
            else Done ((batch, ms, Some bReply, rErr), s1)
        end
    end.
Proof.
  unfold applyRaftCommandInBatch. unfold mbind at 1, M_bind at 1.
  rewrite NewBatch_Done. cbn zeta.
  destruct (batch_IsWrite bArgs) eqn:HW.
  - destruct (respCache_GetResponse _ _) as [[[reply|] err] [readErr|]];
      try reflexivity.
    all: unfold mbind at 1, M_bind at 1;
      destruct (applyLoop _ _ _ _ _ _) as [[[b1 m1 e1|b1 m1 br1 [e1|]] s1]|];
      try reflexivity.
    all: unfold NewBatch; unfoldM; cbn;
      try (destruct (MergeMVCCStats _ _ _ _) as [[st b2] [e2|]]; try reflexivity; cbn);
      destruct (respCache_PutResponse _ _ _) as [b3 [e3|]]; reflexivity.
  - unfold mbind at 1, M_bind at 1.
    destruct (applyLoop _ _ _ _ _ _) as [[[b1 m1 e1|b1 m1 br1 rErr] s1]|];
      reflexivity.
Qed.

(** The triggers that follow a successful write. *)
Lemma writeTriggers_keeps (bArgs : BatchRequest) (ms : MVCCStats) (cond : bool) s u s' :
  (if cond then
     updEnv (fun e => eventFeed_updateRange e (batch_Method bArgs) ms);;
     maybeAddToSplitQueue;;
     let key := h_Key (b_Header bArgs) in
     if key_Less key SystemMax && negb (isSome (h_Txn (b_Header bArgs)))
     then maybeGossipConfigs (fun configPrefix => HasPrefix key configPrefix)
     else mret tt
   else mret tt) s = Done (u, s') ->
  keeps s s'.
Proof.
  destruct cond; [|unfoldM; intros H; inv_Done; apply keeps_refl].
  unfold mbind at 1, M_bind at 1, updEnv at 1.
  unfold mbind at 1, M_bind at 1.
  destruct (maybeAddToSplitQueue _) as [[[] s1]|] eqn:E1; [|discriminate].
  apply maybeAddToSplitQueue_keeps in E1. cbn zeta.
  destruct (_ && _).
  - destruct u. intros H. apply maybeGossipConfigs_keeps in H.
    eapply keeps_trans; [|exact H]. eapply keeps_trans; [|exact E1]. repeat split.
  - unfoldM. intros H. inv_Done. eapply keeps_trans; [|exact E1]. repeat split.
Qed.

(** The ways [applyRaftCommand] returns. *)
Lemma applyRaftCommand_cases index originNode bArgs s bReply rErr s' :
  applyRaftCommand index originNode bArgs s = Done ((bReply, rErr), s') ->
  0 < index /\
  ((index <= appliedIndex (rep s) /\ s' = s /\ bReply = None /\
    rErr = Some (newReplicaCorruptionError
                   [Some (Errorf "applied index moved backwards: %d >= %d")])) \/
   (appliedIndex (rep s) < index /\
    exists batch ms rErr0 s1 batch' s2,
      applyRaftCommandInBatch index originNode bArgs zeroMVCCStats s =
        Done ((batch, ms, bReply, rErr0), s1) /\
      setAppliedIndex batch (RangeID (desc (rep s1))) index = (batch', None) /\
      ((batch_Commit batch' = None /\ rErr = rErr0 /\
        s2 = mkState (set_appliedIndex (set_engine (rep s1) batch') index) (trace s1)) \/
       (exists err, batch_Commit batch' = Some err /\
          rErr = Some (newReplicaCorruptionError
                         [Some (Errorf "could not commit batch"); Some err; rErr0]) /\
          s2 = s1)) /\
      keeps s2 s')).
Proof.
  unfold applyRaftCommand.
  destruct (Z.leb_spec index 0) as [|Hpos]; [discriminate|].
  unfold mbind at 1, M_bind at 1, getReplica at 1.
  destruct (Z.leb_spec index (appliedIndex (rep s))) as [Hle|Hgt].
  - unfoldM. intros H. inv_Done. split; [exact Hpos|]. left. repeat split. exact Hle.
  - unfold mbind at 1, M_bind at 1.
    destruct (applyRaftCommandInBatch _ _ _ _ _) as [[[[[batch ms] bReply0] rErr0] s1]|] eqn:EB;
      [|discriminate].
    unfold mbind at 1, M_bind at 1, getReplica at 1.
    destruct (setAppliedIndex _ _ _) as [batch' [e|]] eqn:ES; [discriminate|].
    unfold mbind at 1, M_bind at 1.
    destruct (batch_Commit batch') as [err|] eqn:EC.
    + unfold mret at 1, M_ret at 1.
      unfold mbind at 1, M_bind at 1.
      match goal with
      | |- context [match ?c ?st with Done _ => _ | Fatal _ => _ end] =>
          destruct (c st) as [[u s3]|] eqn:ET; [|discriminate]
      end.
      apply writeTriggers_keeps in ET.
      unfoldM. intros H. inv_Done. split; [exact Hpos|]. right. split; [exact Hgt|].
      exists batch, ms, rErr0, s1, batch', s1. split; [reflexivity|]. split; [exact ES|].
      split; [|exact ET]. right. exists err. repeat split. exact EC.
    + unfold mbind at 1, M_bind at 1, setReplica at 1.
      unfold mret at 1, M_ret at 1.
      unfold mbind at 1, M_bind at 1.
      match goal with
      | |- context [match ?c ?st with Done _ => _ | Fatal _ => _ end] =>
          destruct (c st) as [[u s3]|] eqn:ET; [|discriminate]
      end.
      apply writeTriggers_keeps in ET.
      unfoldM. intros H. inv_Done. split; [exact Hpos|]. right. split; [exact Hgt|].
      exists batch, ms, rErr, s1, batch',
        (mkState (set_appliedIndex (set_engine (rep s1) batch') index) (trace s1)).
      split; [reflexivity|]. split; [exact ES|].
      split; [|exact ET]. left. repeat split. exact EC.
Qed.


Lemma applyRaftCommandInBatch_appliedIndex index originNode bArgs ms s x s' :
  (forall r b ms a, appliedIndex (ex_replica (executeCmd r b ms a)) = appliedIndex r) ->
  applyRaftCommandInBatch index originNode bArgs ms s = Done (x, s') ->
  appliedIndex (rep s') = appliedIndex (rep s).
Proof.
  intros Hexec. rewrite applyRaftCommandInBatch_unfold. cbn zeta.
  assert (Hloop : forall e s1,
    applyLoop originNode (Requests bArgs) (engine (rep s)) ms
      (mkBatchResponse (b_Timestamp bArgs) []) s = Done (e, s1) ->
    appliedIndex (rep s1) = appliedIndex (rep s)).
  { intros e s1. apply applyLoop_appliedIndex, Hexec. }
  destruct (batch_IsWrite bArgs).
  - destruct (respCache_GetResponse _ _) as [[[reply|] err] [readErr|]];
      try (intros H; inv_Done; reflexivity).
    destruct (applyLoop _ _ _ _ _ _) as [[[b1 m1 e1|b1 m1 br1 [e1|]] s1]|] eqn:EL;
      try discriminate.
    + intros H. inv_Done. eapply Hloop; reflexivity.
    + destruct (respCache_PutResponse _ _ _) as [b3 [e3|]]; [discriminate|].
      intros H. inv_Done. cbn [rep]. eapply Hloop; reflexivity.
    + destruct (MergeMVCCStats _ _ _ _) as [[st b2] [e2|]]; [discriminate|].
      destruct (respCache_PutResponse _ _ _) as [b3 [e3|]]; [discriminate|].
      intros H. inv_Done. cbn [rep set_stats appliedIndex]. eapply Hloop; reflexivity.
  - destruct (applyLoop _ _ _ _ _ _) as [[[b1 m1 e1|b1 m1 br1 rErr] s1]|] eqn:EL;
      try discriminate; intros H; inv_Done; eapply Hloop; reflexivity.
Qed.

(** A write batch that comes back with a reply has its entry in the
    response cache of the batch it comes back with. *)
Lemma applyRaftCommandInBatch_entry index originNode bArgs ms s batch ms' reply rErr s' :
  (forall e id rwe e',
     respCache_PutResponse e id rwe = (e', None) ->
     respCache_GetResponse e' id = (rwe, None)) ->
  batch_IsWrite bArgs = true ->
  applyRaftCommandInBatch index originNode bArgs ms s =
    Done ((batch, ms', Some reply, rErr), s') ->
  respCache_GetResponse batch (h_CmdID (b_Header bArgs)) =
    (mkResponseWithError (Some reply) rErr, None).
Proof.
  intros Hput HW. rewrite applyRaftCommandInBatch_unfold. cbn zeta. rewrite HW.
  destruct (respCache_GetResponse _ _) as [[[reply0|] err] [readErr|]] eqn:EG;
    try (intros H; inv_Done; assumption); try discriminate.
  destruct (applyLoop _ _ _ _ _ _) as [[[b1 m1 e1|b1 m1 br1 [e1|]] s1]|] eqn:EL;
    try discriminate.
  - destruct (respCache_PutResponse _ _ _) as [b3 [e3|]] eqn:EP; [discriminate|].
    intros H. inv_Done. eapply Hput. exact EP.
  - destruct (MergeMVCCStats _ _ _ _) as [[st b2] [e2|]]; [discriminate|].
    destruct (respCache_PutResponse _ _ _) as [b3 [e3|]] eqn:EP; [discriminate|].
    intros H. inv_Done. eapply Hput. exact EP.
Qed.

(** C1: for a write batch whose command id has an entry in the response
    cache, [applyRaftCommandInBatch] returns the cached reply and the
    cached error and leaves the replica, the batch and the events as they
    are: no request is executed.  Hence a proposal that has been applied
    once, and is applied again, leaves the storage as the first apply left
    it and gets the first answer. *)
Theorem applyRaftCommandInBatch_cached :
  (forall s index originNode bArgs ms reply err,
     batch_IsWrite bArgs = true ->
     respCache_GetResponse (engine (rep s)) (h_CmdID (b_Header bArgs)) =
       (mkResponseWithError (Some reply) err, None) ->
     applyRaftCommandInBatch index originNode bArgs ms s =
       Done ((engine (rep s), ms, Some reply, err), s)) /\
  ((forall e id rwe e',
      respCache_PutResponse e id rwe = (e', None) ->
      respCache_GetResponse e' id = (rwe, None)) ->
   (forall e rangeID i e' id,
      setAppliedIndex e rangeID i = (e', None) ->
      respCache_GetResponse e' id = respCache_GetResponse e id) ->
   forall s index1 originNode1 bArgs reply1 rErr1 s1,
     batch_IsWrite bArgs = true ->
     applyRaftCommand index1 originNode1 bArgs s = Done ((Some reply1, rErr1), s1) ->
     isReplicaCorruptionError rErr1 = false ->
     forall index2 originNode2 ms,
       applyRaftCommandInBatch index2 originNode2 bArgs ms s1 =
         Done ((engine (rep s1), ms, Some reply1, rErr1), s1)).
Proof.
  assert (Hhit : forall s index originNode bArgs ms reply err,
     batch_IsWrite bArgs = true ->
     respCache_GetResponse (engine (rep s)) (h_CmdID (b_Header bArgs)) =
       (mkResponseWithError (Some reply) err, None) ->
     applyRaftCommandInBatch index originNode bArgs ms s =
       Done ((engine (rep s), ms, Some reply, err), s)).
  { intros s index originNode bArgs ms reply err HW HG.
    rewrite applyRaftCommandInBatch_unfold. cbn zeta. rewrite HW, HG. reflexivity. }
  split; [exact Hhit|].
  intros Hput Hidx s index1 originNode1 bArgs reply1 rErr1 s1 HW Happly Hnc
    index2 originNode2 ms.
  apply Hhit; [exact HW|].
  apply applyRaftCommand_cases in Happly as [_ [(_ & _ & Hnone & _)|Hrun]];
    [discriminate|].
  destruct Hrun as (_ & batch & ms1 & rErr0 & sB & batch' & s2 & HB & HS & HC & Hk).
  destruct HC as [(HC & -> & ->)|(err & _ & -> & _)]; [|discriminate].
  destruct Hk as (_ & Heng & _). rewrite Heng. cbn [rep engine set_appliedIndex set_engine].
  rewrite (Hidx _ _ _ _ _ HS).
  eapply applyRaftCommandInBatch_entry; eassumption.
Qed.

(** C2, as the code has it: for every log index [0 < i <= appliedIndex],
    [applyRaftCommand] returns a [replicaCorruptionError] and leaves the
    replica as it is; and over every sequence of applies that return, the
    applied index does not decrease ([executeCmd] does not write it). *)
Theorem applyRaftCommand_stale_index :
  (forall s index originNode bArgs,
     0 < index <= appliedIndex (rep s) ->
     exists e,
       applyRaftCommand index originNode bArgs s = Done ((None, Some e), s) /\
       isReplicaCorruptionError (Some e) = true) /\
  ((forall r b ms a, appliedIndex (ex_replica (executeCmd r b ms a)) = appliedIndex r) ->
   forall cmds s s',
     applyAll cmds s = Done (tt, s') ->
     appliedIndex (rep s) <= appliedIndex (rep s')).
Proof.
  split.
  - intros s index originNode bArgs [Hpos Hle].
    eexists. unfold applyRaftCommand.
    destruct (Z.leb_spec index 0); [lia|].
    unfold mbind, M_bind, getReplica.
    destruct (Z.leb_spec index (appliedIndex (rep s))); [|lia].
    split; reflexivity.
  - intros Hexec cmds. induction cmds as [|[[index originNode] bArgs] cmds IH];
      intros s s'; cbn [applyAll].
    + unfoldM. intros H. inv_Done. lia.
    + unfold mbind at 1, M_bind at 1.
      destruct (applyRaftCommand index originNode bArgs s) as [[[bReply rErr] s1]|] eqn:E;
        [|discriminate].
      intros H. apply IH in H.
      enough (appliedIndex (rep s) <= appliedIndex (rep s1)) by lia.
      apply applyRaftCommand_cases in E as [_ [(_ & -> & _)|Hrun]]; [lia|].
      destruct Hrun as (Hgt & batch & ms1 & rErr0 & sB & batch' & s2 & HB & _ & HC & Hk).
      apply (applyRaftCommandInBatch_appliedIndex _ _ _ _ _ _ _ Hexec) in HB.
      destruct Hk as (Hidx & _). rewrite Hidx.
      destruct HC as [(_ & _ & ->)|(err & _ & _ & ->)]; cbn [rep appliedIndex set_appliedIndex]; lia.
Qed.

(** C3, as the code has it: during the apply of a batch for which the
    response cache has no entry, when the requests before a request have
    passed the lease check and have been executed without error, and the
    lease then is not owned by the origin node or does not cover the
    timestamp of the request (which is no [LeaderLease] request),
    [applyRaftCommandInBatch] returns a [NotLeaderError]; the events it has
    added are the executions of the earlier requests, so that no response
    cache entry has been written. *)
Theorem applyRaftCommandInBatch_NotLeader
    (s : State) (index originNode : Z) (bArgs : BatchRequest) (ms : MVCCStats)
    (pre post : list Request) (args : Request)
    (batch1 : Engine) (ms1 : MVCCStats) (bReply1 : BatchResponse) (s1 : State) :
  Requests bArgs = pre ++ args :: post ->
  (batch_IsWrite bArgs = true ->
   exists err0,
     respCache_GetResponse (engine (rep s)) (h_CmdID (b_Header bArgs)) =
       (mkResponseWithError None err0, None)) ->
  applyLoop originNode pre (engine (rep s)) ms
    (mkBatchResponse (b_Timestamp bArgs) []) s =
    Done (LoopDone batch1 ms1 bReply1 None, s1) ->
  leaseMismatch (lease (rep s1)) originNode args = true ->
  exists e,
    applyRaftCommandInBatch index originNode bArgs ms s =
      Done ((batch1, ms1, None, Some e), s1) /\
    isNotLeaderError (Some e) = true /\
    trace s1 = trace s ++ map EvExecute pre /\
    (forall cmdID rwe,
       In (EvPutResponse cmdID rwe) (trace s1) -> In (EvPutResponse cmdID rwe) (trace s)).
Proof.
  intros Hreqs Hmiss Hpre Hmis.
  exists (newNotLeaderError (rep s1) (Some (lease (rep s1))) originNode).
  pose proof (applyLoop_prefix_trace _ _ _ _ _ _ _ _ _ _ Hpre) as Htr.
  split; [|split; [|split]].
  - rewrite applyRaftCommandInBatch_unfold. cbn zeta.
    assert (Hloop : applyLoop originNode (Requests bArgs) (engine (rep s)) ms
              (mkBatchResponse (b_Timestamp bArgs) []) s =
            Done (LoopReturn batch1 ms1
                    (newNotLeaderError (rep s1) (Some (lease (rep s1))) originNode), s1)).
    { rewrite Hreqs, (applyLoop_app _ _ _ _ _ _ _ _ _ _ _ Hpre), applyLoop_cons, Hmis.
      reflexivity. }
    destruct (batch_IsWrite bArgs).
    + destruct (Hmiss eq_refl) as [err0 ->]. rewrite Hloop. reflexivity.
    + rewrite Hloop. reflexivity.
  - unfold newNotLeaderError. destruct (negb _); [|reflexivity].
    destruct (DecodeRaftNodeID _), (DecodeRaftNodeID _). reflexivity.
  - exact Htr.
  - intros cmdID rwe Hin. rewrite Htr in Hin. apply in_app_or in Hin as [Hin|Hin];
      [exact Hin|].
    apply in_map_iff in Hin as (a & Ha & _). discriminate.
Qed.

End apply_command_facts.

Section write_facts.
Context {C : Collaborators}.

(** The order of timestamps is a strict total order, and [Next] gives a
    later timestamp. *)
Hypothesis Less_irrefl : forall t, ts_Less t t = false.
Hypothesis Less_trans :
  forall a b c, ts_Less a b = true -> ts_Less b c = true -> ts_Less a c = true.
Hypothesis Less_total :
  forall a b, ts_Less a b = false -> ts_Less b a = false -> a = b.
Hypothesis Less_Next : forall t, ts_Less t (ts_Next t) = true.

Lemma Less_le_trans a b c :
  ts_Less a b = true -> ts_Less c b = false -> ts_Less a c = true.
Proof.
  intros Hab Hcb. destruct (ts_Less a c) eqn:Hac; [reflexivity|].
  destruct (ts_Less c a) eqn:Hca.
  - rewrite (Less_trans c a b Hca Hab) in Hcb. discriminate.
  - rewrite (Less_total a c Hac Hca) in Hab. congruence.
Qed.

Lemma Less_ge_trans a b c :
  ts_Less c b = false -> ts_Less b a = false -> ts_Less c a = false.
Proof.
  intros Hcb Hba. destruct (ts_Less c a) eqn:Hca; [|reflexivity].
  destruct (ts_Less a b) eqn:Hab.
  - rewrite (Less_trans c a b Hca Hab) in Hcb. discriminate.
  - rewrite (Less_total a b Hab Hba) in Hca. congruence.
Qed.

Lemma Less_Next_ge a b : ts_Less a b = false -> ts_Less (ts_Next a) b = false.
Proof.
  intros Hab. destruct (ts_Less (ts_Next a) b) eqn:H; [|reflexivity].
  rewrite (Less_trans a (ts_Next a) b (Less_Next a) H) in Hab. discriminate.
Qed.

Lemma forwardRead_above rTS bTS : ts_Less rTS (forwardRead rTS bTS) = true.
Proof.
  unfold forwardRead. destruct (ts_Less rTS bTS) eqn:E; cbn [negb];
    [exact E|apply Less_Next].
Qed.

Lemma forwardRead_ge rTS bTS : ts_Less (forwardRead rTS bTS) bTS = false.
Proof.
  unfold forwardRead. destruct (ts_Less rTS bTS) eqn:E; cbn [negb].
  - apply Less_irrefl.
  - apply Less_Next_ge, E.
Qed.

Lemma forwardWrite_ge header wTS bTS :
  ts_Less (forwardWrite header wTS bTS) bTS = false.
Proof.
  unfold forwardWrite. destruct (ts_Less wTS bTS) eqn:E; cbn [negb].
  - apply Less_irrefl.
  - destruct (negb (isSome (h_Txn header))); [apply Less_Next_ge, E|apply Less_irrefl].
Qed.

Lemma forwardStep_ge header rTS wTS bTS :
  ts_Less (forwardStep header rTS wTS bTS) bTS = false.
Proof.
  unfold forwardStep.
  eapply Less_ge_trans; [apply forwardWrite_ge|apply forwardRead_ge].
Qed.

Lemma addWriteCmd_tsLoop_ge tc reqs :
  forall bTS, ts_Less (addWriteCmd_tsLoop tc reqs bTS) bTS = false.
Proof.
  induction reqs as [|a reqs IH]; intros bTS; cbn [addWriteCmd_tsLoop].
  - apply Less_irrefl.
  - destruct (usesTimestampCache a); [|apply IH].
    destruct (tsCache_GetMax _ _ _ _) as [rTS wTS].
    eapply Less_ge_trans; [apply IH|apply forwardStep_ge].
Qed.

Lemma addWriteCmd_tsLoop_app tc pre rest bTS :
  addWriteCmd_tsLoop tc (pre ++ rest) bTS =
    addWriteCmd_tsLoop tc rest (addWriteCmd_tsLoop tc pre bTS).
Proof.
  revert bTS. induction pre as [|a pre IH]; intros bTS; [reflexivity|].
  cbn [app addWriteCmd_tsLoop]. destruct (usesTimestampCache a); [|apply IH].
  destruct (tsCache_GetMax _ _ _ _) as [rTS wTS]. apply IH.
Qed.

(** After the round of a request that uses the timestamp cache, and to the
    end of the loop, the batch timestamp is after the read timestamp of
    the request, and not before its successor when the round has moved
    it. *)
Lemma addWriteCmd_tsLoop_request tc a post bTS rTS wTS :
  usesTimestampCache a = true ->
  tsCache_GetMax tc (h_Key (req_Header a)) (h_EndKey (req_Header a))
    (txn_GetID (h_Txn (req_Header a))) = (rTS, wTS) ->
  ts_Less rTS (addWriteCmd_tsLoop tc (a :: post) bTS) = true /\
  (ts_Less rTS bTS = false ->
   ts_Less (addWriteCmd_tsLoop tc (a :: post) bTS) (ts_Next rTS) = false).
Proof.
  intros Huses HG. cbn [addWriteCmd_tsLoop]. rewrite Huses, HG.
  pose proof (addWriteCmd_tsLoop_ge tc post (forwardStep (req_Header a) rTS wTS bTS))
    as Hloop.
  pose proof (forwardWrite_ge (req_Header a) wTS (forwardRead rTS bTS)) as Hw.
  fold (forwardStep (req_Header a) rTS wTS bTS) in Hw.
  split.
  - eapply Less_le_trans; [|exact Hloop].
    eapply Less_le_trans; [apply forwardRead_above|exact Hw].
  - intros Hr. eapply Less_ge_trans; [exact Hloop|].
    unfold forwardRead in Hw. rewrite Hr in Hw. exact Hw.
Qed.

Lemma b_Timestamp_locked tc bArgs :
  b_Timestamp (addWriteCmd_locked tc bArgs) =
    addWriteCmd_tsLoop tc (Requests bArgs) (b_Timestamp bArgs).
Proof. reflexivity. Qed.

(** What [addWriteCmd] does once the checks, the command queue and the
    lease have let the batch through. *)
Lemma addWriteCmd_proposes s bArgs cmdKeys b1 sA s1 :
  checkCmdHeader (rep s) (b_Header bArgs) = None ->
  checkBatchRequest bArgs = None ->
  beginCmds bArgs s = Done ((cmdKeys, b1), sA) ->
  redirectOnOrAcquireLeaderLease (b_Timestamp b1) sA = Done (None, s1) ->
  exists idKey bReply err s',
    addWriteCmd bArgs s =
      Done ((addWriteCmd_locked (tsCache (rep s1)) b1, bReply, err), s') /\
    trace s' =
      trace s1 ++
      [EvPropose idKey
         (Proto.mkRaftCommand (RangeID (desc (rep s1))) (rm_RaftNodeID (env (rep s1)))
            (addWriteCmd_locked (tsCache (rep s1)) b1))].
Proof.
  intros Hhdr Hchk Hbegin Hlease.
  unfold addWriteCmd. unfold mbind at 1, M_bind at 1, getReplica at 1.
  rewrite Hhdr, Hchk.
  unfold mbind at 1, M_bind at 1. rewrite Hbegin.
  unfold mbind at 1, M_bind at 1. rewrite Hlease.
  unfold mbind at 1, M_bind at 1, getReplica at 1. cbn zeta.
  set (proposed := addWriteCmd_locked (tsCache (rep s1)) b1).
  unfold mbind at 1, M_bind at 1.
  unfold proposeRaftCommand. unfoldM. cbn [rep trace].
  destruct (GetOrCreateCmdID _ _ _) as [e cmdID]. cbn [rep trace set_env pendingCmds env].
  unfold recv_errChan. cbn [rep trace].
  destruct (wait_errChan _ _) as [r1 [e1|]]; cbn [rep trace].
  - unfold endCmds. unfoldM. cbn [rep trace].
    do 4 eexists. split; reflexivity.
  - unfold recv_done. cbn [rep trace].
    destruct (wait_done _ _) as [r2 rwe]. cbn [rep trace].
    unfold endCmds. unfoldM. cbn [rep trace].
    do 4 eexists. split; reflexivity.
Qed.

(** C5: in [addWriteCmd], for every request of a write batch that uses the
    timestamp cache: when the maximum read timestamp of the cache for the
    span of the request is not before the batch timestamp, the batch
    timestamp is advanced to the successor of that read timestamp; the
    command then handed to Raft carries a batch timestamp that is after
    the read timestamp and not before that successor (a later round or a
    write timestamp may have moved it further), and exactly the successor
    for a single request that no write pushes further. *)
Theorem addWriteCmd_forwards_timestamp :
  (forall rTS bTS,
     ts_Less rTS bTS = false -> forwardRead rTS bTS = ts_Next rTS) /\
  (forall s bArgs cmdKeys b1 sA s1,
     checkCmdHeader (rep s) (b_Header bArgs) = None ->
     checkBatchRequest bArgs = None ->
     beginCmds bArgs s = Done ((cmdKeys, b1), sA) ->
     redirectOnOrAcquireLeaderLease (b_Timestamp b1) sA = Done (None, s1) ->
     exists idKey proposed bReply err s',
       addWriteCmd bArgs s = Done ((proposed, bReply, err), s') /\
       trace s' =
         trace s1 ++
         [EvPropose idKey
            (Proto.mkRaftCommand (RangeID (desc (rep s1)))
               (rm_RaftNodeID (env (rep s1))) proposed)] /\
       (forall pre a post rTS wTS,
          Requests b1 = pre ++ a :: post ->
          usesTimestampCache a = true ->
          tsCache_GetMax (tsCache (rep s1)) (h_Key (req_Header a))
            (h_EndKey (req_Header a)) (txn_GetID (h_Txn (req_Header a))) = (rTS, wTS) ->
          ts_Less rTS (b_Timestamp proposed) = true /\
          (ts_Less rTS
             (addWriteCmd_tsLoop (tsCache (rep s1)) pre (b_Timestamp b1)) = false ->
           ts_Less (b_Timestamp proposed) (ts_Next rTS) = false)) /\
       (forall a rTS wTS,
          Requests b1 = [a] ->
          usesTimestampCache a = true ->
          tsCache_GetMax (tsCache (rep s1)) (h_Key (req_Header a))
            (h_EndKey (req_Header a)) (txn_GetID (h_Txn (req_Header a))) = (rTS, wTS) ->
          ts_Less rTS (b_Timestamp b1) = false ->
          ts_Less wTS (ts_Next rTS) = true \/ isSome (h_Txn (req_Header a)) = true ->
          b_Timestamp proposed = ts_Next rTS)).
Proof.
  split.
  { intros rTS bTS Hr. unfold forwardRead. rewrite Hr. reflexivity. }
  intros s bArgs cmdKeys b1 sA s1 Hhdr Hchk Hbegin Hlease.
  destruct (addWriteCmd_proposes s bArgs cmdKeys b1 sA s1 Hhdr Hchk Hbegin Hlease)
    as (idKey & bReply & err & s' & Hrun & Htr).
  exists idKey, (addWriteCmd_locked (tsCache (rep s1)) b1), bReply, err, s'.
  split; [exact Hrun|]. split; [exact Htr|]. split.
  - intros pre a post rTS wTS Hreqs Huses HG.
    rewrite b_Timestamp_locked, Hreqs, addWriteCmd_tsLoop_app.
    apply (addWriteCmd_tsLoop_request _ a post _ rTS wTS Huses HG).
  - intros a rTS wTS Hreqs Huses HG Hr Hw.
    rewrite b_Timestamp_locked, Hreqs.
    cbn [addWriteCmd_tsLoop]. rewrite Huses, HG.
    unfold forwardStep, forwardRead, forwardWrite. rewrite Hr. cbn [negb].
    destruct Hw as [-> | ->]; cbn [negb]; [reflexivity|].
    destruct (negb (ts_Less wTS (ts_Next rTS))); reflexivity.
Qed.
End write_facts.

(** *** Chained errors *)
Section chained_facts.

Lemma newChainedError_fold rest :
  forall ce,
    (exists e, ce = mkChainedError e None) ->
    exists e,
      fold_left
        (fun ce err =>
           match err with
           | None => ce
           | Some e => mkChainedError (Some e) None
           end)
        rest ce = mkChainedError e None.
Proof.
  induction rest as [|[e1|] rest IH]; intros ce Hce; cbn [fold_left].
  - exact Hce.
  - apply IH. eexists. reflexivity.
  - apply IH, Hce.
Qed.

Lemma newChainedError_cons e0 rest :
  rest <> [] ->
  newChainedError (e0 :: rest) =
    Some (fold_left
            (fun ce err =>
               match err with
               | None => ce
               | Some e => mkChainedError (Some e) None
               end)
            rest (mkChainedError e0 None)).
Proof. destruct rest; [congruence|]. destruct e0; reflexivity. Qed.

(** X17: [newChainedError] returns the node it made last, so the chain it
    built is lost: the result never has a cause, and when the last error is
    not [nil] the result holds that error alone.  The result is [nil] only
    for no argument and for one [nil]; two or more [nil]s give a node
    without an error. *)
Theorem newChainedError_last (errs : list (option Error)) :
  (forall ce, newChainedError errs = Some ce -> exists e, ce = mkChainedError e None) /\
  (forall pre e,
     errs = pre ++ [Some e] ->
     newChainedError errs = Some (mkChainedError (Some e) None)) /\
  (newChainedError errs = None <-> errs = [] \/ errs = [None]) /\
  (forall e0 rest,
     errs = e0 :: rest -> rest <> [] -> Forall (fun e => e = None) rest ->
     newChainedError errs = Some (mkChainedError e0 None)).
Proof.
  split; [|split; [|split]].
  - intros ce. destruct errs as [|e0 rest]; [discriminate|].
    destruct rest as [|e1 rest].
    + destruct e0; [|discriminate]. intros H. inversion H. eexists. reflexivity.
    + rewrite newChainedError_cons by discriminate.
      destruct (newChainedError_fold (e1 :: rest) (mkChainedError e0 None)
                  (ex_intro _ e0 eq_refl)) as [e He].
      rewrite He. intros H. inversion H. exists e. reflexivity.
  - intros pre e ->. destruct pre as [|e0 pre]; [reflexivity|].
    cbn [app]. rewrite newChainedError_cons by (destruct pre; discriminate).
    rewrite fold_left_app. reflexivity.
  - split.
    + destruct errs as [|[e0|] [|e1 rest]]; try discriminate; auto.
    + intros [->| ->]; reflexivity.
  - intros e0 rest -> Hne Hall. rewrite newChainedError_cons by exact Hne.
    f_equal. clear Hne. induction Hall as [|x rest -> _ IH]; [reflexivity|].
    exact IH.
Qed.

End chained_facts.

(** *** Timestamps of the requests of a batch *)
Section setBatchTimestamps_facts.
Import Dispatch.
Context {C : Collaborators}.

Lemma setTimestamp_same h : setTimestamp h (h_Timestamp h) = h.
Proof. destruct h. reflexivity. Qed.

Lemma setBatchTimestamps_loop_length bTS reqs :
  forall i, length (setBatchTimestamps_loop bTS i reqs) = length reqs.
Proof.
  induction reqs as [|a reqs IH]; intros i; cbn [setBatchTimestamps_loop length];
    [reflexivity|]. rewrite IH. reflexivity.
Qed.

Lemma setBatchTimestamps_loop_lookup bTS reqs :
  forall i k a,
    reqs !! k = Some a ->
    setBatchTimestamps_loop bTS i reqs !! k =
      Some (if negb (Method_eqb (req_Method a) PushTxn)
            then req_setTimestamp a
                   (ts_Forward (h_Timestamp (req_Header a))
                      (ts_Add bTS 0 (int32 (Z.of_nat (i + k)))))
            else a).
Proof.
  induction reqs as [|a0 reqs IH]; intros i k a; [discriminate|].
  destruct k as [|k]; cbn [setBatchTimestamps_loop].
  - intros H. inversion H; subst. rewrite Nat.add_0_r. reflexivity.
  - intros H. rewrite lookup_cons. cbn in H. rewrite (IH (S i) k a H).
    rewrite Nat.add_succ_r. reflexivity.
Qed.

Lemma Method_eqb_eq a b : Method_eqb a b = true <-> a = b.
Proof.
  split.
  - destruct a, b; cbn; try discriminate; try reflexivity.
    intros H. apply Z.eqb_eq in H. congruence.
  - intros ->. destruct b; cbn; try reflexivity. apply Z.eqb_refl.
Qed.

(** A request that [checkBatchRequest] accepts on its own is accepted when
    its timestamp has been forwarded to one with the wall time of the
    batch. *)
Lemma badRequest_forward bArgs b' a t :
  b_Header b' = b_Header bArgs ->
  length (Requests b') = length (Requests bArgs) ->
  (t = h_Timestamp (req_Header a) \/ WallTime t = WallTime (b_Timestamp bArgs)) ->
  badRequest bArgs a = false ->
  badRequest b' (req_setTimestamp a t) = false.
Proof.
  intros Hh Hl Ht. unfold badRequest, b_Timestamp, GetUserPriority. rewrite Hh, Hl.
  cbn [req_setTimestamp req_Method req_Header setTimestamp h_Timestamp
       h_UserPriority h_Txn h_ReadConsistency].
  destruct Ht as [->|Ht]; [tauto|].
  rewrite Ht, Z.eqb_refl. cbn [negb orb].
  rewrite !orb_false_iff. tauto.
Qed.

Lemma checkBatchRequest_loop_forward bArgs b' bTS :
  b_Header b' = b_Header bArgs ->
  length (Requests b') = length (Requests bArgs) ->
  (forall t s, ts_Forward t s = t \/ ts_Forward t s = s) ->
  (forall l, WallTime (ts_Add bTS 0 l) = WallTime (b_Timestamp bArgs)) ->
  forall reqs i j ro,
    checkBatchRequest_loop bArgs reqs i ro = None ->
    checkBatchRequest_loop b' (setBatchTimestamps_loop bTS j reqs) i ro = None.
Proof.
  intros Hh Hl Hfw Hadd.
  assert (Hnone : forall o : option Error, o = None <-> isSome o = false).
  { intros [e|]; cbn; split; congruence. }
  induction reqs as [|a reqs IH]; intros i j ro; [reflexivity|].
  cbn [setBatchTimestamps_loop]. rewrite !Hnone, !checkBatchRequest_loop_cons.
  rewrite !orb_false_iff. intros [Hbad Hrest].
  assert (Hm : req_Method
                 (if negb (Method_eqb (req_Method a) PushTxn)
                  then req_setTimestamp a
                         (ts_Forward (h_Timestamp (req_Header a))
                            (ts_Add bTS 0 (int32 (Z.of_nat j))))
                  else a) = req_Method a).
  { destruct (Method_eqb (req_Method a) PushTxn); reflexivity. }
  split.
  - destruct (Method_eqb (req_Method a) PushTxn); cbn [negb].
    2: {
      apply (badRequest_forward bArgs); [exact Hh|exact Hl| |exact Hbad].
      destruct (Hfw (h_Timestamp (req_Header a)) (ts_Add bTS 0 (int32 (Z.of_nat j))))
        as [-> | ->]; [left; reflexivity|right; apply Hadd]. }
    replace a with (req_setTimestamp a (h_Timestamp (req_Header a))) at 1
      by (destruct a; unfold req_setTimestamp; cbn; rewrite setTimestamp_same;
          reflexivity).
    apply (badRequest_forward bArgs); [exact Hh|exact Hl|left; reflexivity|exact Hbad].
  - rewrite Hm. destruct (i =? 0)%nat.
    + rewrite <- Hnone in *. apply IH. exact Hrest.
    + rewrite orb_false_iff in *. destruct Hrest as [Hro Hrest].
      split; [exact Hro|]. rewrite <- Hnone in *. apply IH. exact Hrest.
Qed.

(** X18: [setBatchTimestamps] changes nothing but the timestamps of the
    requests: the header of the batch, the number of requests, and the
    method, the body and the other header fields of every request stay; a
    [PushTxn] request stays as it is.  In a batch it changes (a write batch
    outside a transaction with a timestamp that is not zero), the request of
    index [i] that is no [PushTxn] ends with a timestamp that is not before
    the batch timestamp plus [i] logical ticks.  A batch that
    [checkBatchRequest] accepts is still accepted afterwards.  [Forward],
    [Less] and [Add] are those of [proto.Timestamp]: forwarding takes the
    later of the two, no timestamp is before itself, logical ticks leave the
    wall time alone. *)
Theorem setBatchTimestamps_accepted (bArgs : BatchRequest) :
  (forall t s, ts_Forward t s = if ts_Less t s then s else t) ->
  (forall t, ts_Less t t = false) ->
  (forall t l, WallTime (ts_Add t 0 l) = WallTime t) ->
  let b' := setBatchTimestamps bArgs in
  b_Header b' = b_Header bArgs /\
  length (Requests b') = length (Requests bArgs) /\
  (forall i a,
     Requests bArgs !! i = Some a ->
     exists a',
       Requests b' !! i = Some a' /\
       req_Method a' = req_Method a /\
       req_Body a' = req_Body a /\
       setTimestamp (req_Header a') (h_Timestamp (req_Header a)) = req_Header a /\
       (req_Method a = PushTxn -> a' = a) /\
       (h_Txn (b_Header bArgs) = None ->
        ts_Equal (b_Timestamp bArgs) ZeroTimestamp = false ->
        batch_IsWrite bArgs = true ->
        req_Method a <> PushTxn ->
        ts_Less (h_Timestamp (req_Header a'))
          (ts_Add (b_Timestamp bArgs) 0 (int32 (Z.of_nat i))) = false)) /\
  (checkBatchRequest bArgs = None -> checkBatchRequest b' = None).
Proof.
  intros Hfw Hirr Hadd b'. subst b'. unfold setBatchTimestamps.
  destruct (isSome (h_Txn (b_Header bArgs))
            || ts_Equal (b_Timestamp bArgs) ZeroTimestamp
            || negb (batch_IsWrite bArgs)) eqn:Hcond.
  - split; [reflexivity|]. split; [reflexivity|]. split; [|auto].
    intros i a Ha. exists a. split; [exact Ha|]. split; [reflexivity|].
    split; [reflexivity|]. split; [apply setTimestamp_same|]. split; [reflexivity|].
    intros Htxn Hz Hw _. rewrite Htxn, Hz, Hw in Hcond. discriminate Hcond.
  - cbn [b_Header Requests]. split; [reflexivity|].
    split; [apply setBatchTimestamps_loop_length|]. split.
    + intros i a Ha. eexists. split.
      { apply setBatchTimestamps_loop_lookup with (i := 0%nat). exact Ha. }
      cbn [Nat.add].
      destruct (Method_eqb (req_Method a) PushTxn) eqn:Em; cbn [negb].
      * split; [reflexivity|]. split; [reflexivity|].
        split; [apply setTimestamp_same|]. split; [reflexivity|].
        intros _ _ _ Hne. apply Method_eqb_eq in Em. contradiction.
      * split; [reflexivity|]. split; [reflexivity|].
        split; [destruct a as [m [] body]; reflexivity|].
        split; [intros Hp; rewrite Hp in Em; discriminate Em|].
        intros _ _ _ _. cbn [req_setTimestamp req_Header setTimestamp h_Timestamp].
        rewrite Hfw.
        destruct (ts_Less (h_Timestamp (req_Header a)) _) eqn:El;
          [apply Hirr|exact El].
    + unfold checkBatchRequest. cbn [Requests]. intros Hok.
      apply (checkBatchRequest_loop_forward bArgs); try assumption.
      * reflexivity.
      * cbn [Requests]. apply setBatchTimestamps_loop_length.
      * intros t s. rewrite Hfw. destruct (ts_Less t s); auto.
      * intros l. apply Hadd.
Qed.

End setBatchTimestamps_facts.

(** *** Applying a command: commit, events *)
Section apply_more_facts.
Context {C : Collaborators}.

(** The triggers that follow a successful write return, or they end the
    process in [maybeGossipConfigsLocked]. *)
Lemma outcome_unit_cases (o : outcome (unit * State)) (msg : string) :
  match o with Done _ => True | Fatal m => m = msg end ->
  (exists s', o = Done (tt, s')) \/ o = Fatal msg.
Proof.
  destruct o as [[[] s']|m]; [left; eexists; reflexivity|].
  intros ->. right. reflexivity.
Qed.

Lemma gossipConfigs_loop_outcome match_ cds :
  forall i s,
    match gossipConfigs_loop match_ i cds s with
    | Done _ => True
    | Fatal m => m = "range splits configuration values for %s"
    end.
Proof.
  induction cds as [|[keyPrefix gossipKey] cds IH]; intros i s; cbn [gossipConfigs_loop].
  - exact I.
  - unfold mbind, M_bind.
    assert (Hone : (exists s1, gossipConfig match_ i (keyPrefix, gossipKey) s = Done (tt, s1)) \/
                   gossipConfig match_ i (keyPrefix, gossipKey) s =
                     Fatal "range splits configuration values for %s").
    { unfold gossipConfig. unfoldM.
      destruct (match_ keyPrefix); [|left; eexists; reflexivity].
      destruct (negb (ContainsKey _ _)); [right; reflexivity|].
      destruct (loadConfigMap _ _) as [[configMap hash] [e|]];
        [left; eexists; reflexivity|].
      destruct (match _ !! i with Some _ => _ | None => _ end);
        left; eexists; reflexivity. }
    destruct Hone as [[s1 ->]| ->]; [apply IH|reflexivity].
Qed.

Lemma writeTriggers_outcome (bArgs : BatchRequest) (ms : MVCCStats) (cond : bool) s :
  let triggers :=
    (if cond then
       updEnv (fun e => eventFeed_updateRange e (batch_Method bArgs) ms);;
       maybeAddToSplitQueue;;
       let key := h_Key (b_Header bArgs) in
       if key_Less key SystemMax && negb (isSome (h_Txn (b_Header bArgs)))
       then maybeGossipConfigs (fun configPrefix => HasPrefix key configPrefix)
       else mret tt
     else mret tt) in
  (exists s', triggers s = Done (tt, s')) \/
  triggers s = Fatal "range splits configuration values for %s".
Proof.
  cbn zeta. apply outcome_unit_cases.
  destruct cond; [|exact I].
  unfold mbind at 1, M_bind at 1, updEnv at 1.
  unfold mbind at 1, M_bind at 1.
  assert (Hq : forall s0, exists s1, maybeAddToSplitQueue s0 = Done (tt, s1)).
  { intros s0. unfold maybeAddToSplitQueue. unfoldM.
    destruct (_ && _); [|eexists; reflexivity].
    destruct (Clock_Now _). eexists. reflexivity. }
  match goal with
  | |- context [maybeAddToSplitQueue ?s0] => destruct (Hq s0) as [s1 ->]
  end.
  destruct (_ && _); [|exact I].
  unfold maybeGossipConfigs, maybeGossipConfigsLocked.
  unfold mbind at 1, M_bind at 1, getReplica at 1.
  destruct (_ || _); [exact I|].
  destruct (negb (lease_OwnedBy _ _)); [exact I|].
  unfold mbind at 1, M_bind at 1, callEnv.
  destruct (Clock_Now _) as [e now].
  unfold mbind at 1, M_bind at 1, getReplica at 1.
  destruct (negb _); [exact I|].
  apply gossipConfigs_loop_outcome.
Qed.

(** The part of [applyRaftCommand] after [applyRaftCommandInBatch]. *)
Lemma applyRaftCommand_unfold index originNode bArgs s batch ms bReply rErr0 s1 :
  0 < index ->
  appliedIndex (rep s) < index ->
  applyRaftCommandInBatch index originNode bArgs zeroMVCCStats s =
    Done ((batch, ms, bReply, rErr0), s1) ->
  applyRaftCommand index originNode bArgs s =
    match setAppliedIndex batch (RangeID (desc (rep s1))) index with
    | (_, Some _) => Fatal "setting applied index in a batch should never fail: %s"
    | (batch', None) =>
        match batch_Commit batch' with
        | Some err =>
            Done ((bReply,
                   Some (newReplicaCorruptionError
                           [Some (Errorf "could not commit batch"); Some err; rErr0])),
                  s1)
        | None =>
            match
              (if negb (isSome rErr0) && batch_IsWrite bArgs then
                 updEnv (fun e => eventFeed_updateRange e (batch_Method bArgs) ms);;
                 maybeAddToSplitQueue;;
                 let key := h_Key (b_Header bArgs) in
                 if key_Less key SystemMax && negb (isSome (h_Txn (b_Header bArgs)))
                 then maybeGossipConfigs (fun configPrefix => HasPrefix key configPrefix)
                 else mret tt
               else mret tt)
                (mkState (set_appliedIndex (set_engine (rep s1) batch') index) (trace s1))
            with
            | Done (_, s') => Done ((bReply, rErr0), s')
            | Fatal msg => Fatal msg
            end
        end
    end.
Proof.
  intros Hpos Hgt HB. unfold applyRaftCommand.
  destruct (Z.leb_spec index 0); [lia|].
  unfold mbind at 1, M_bind at 1, getReplica at 1.
  destruct (Z.leb_spec index (appliedIndex (rep s))); [lia|].
  unfold mbind at 1, M_bind at 1. rewrite HB.
  unfold mbind at 1, M_bind at 1, getReplica at 1.
  destruct (setAppliedIndex _ _ _) as [batch' [e|]]; [reflexivity|].
  unfold mbind at 1, M_bind at 1.
  destruct (batch_Commit batch') as [err|].
  - reflexivity.
  - unfold mbind at 1, M_bind at 1, setReplica at 1.
    unfold mret at 1, M_ret at 1.
    unfold mbind at 1, M_bind at 1.
    match goal with
    | |- context [match ?c ?st with Done _ => _ | Fatal _ => _ end] =>
        destruct (c st) as [[u s3]|]; reflexivity
    end.
Qed.

(** X21: when the commit of the batch fails, [applyRaftCommand] returns the
    reply of the command with a [replicaCorruptionError] and stops there:
    the replica is as [applyRaftCommandInBatch] left it, so the applied
    index in memory is not advanced ([executeCmd] does not write it), the
    engine is not replaced and none of the triggers of a write runs.  The
    error holds one error only, the error of the command, or the error of
    the commit when the command had none: the text about the commit is
    lost. *)
Theorem applyRaftCommand_commit_failure
    (s : State) (index originNode : Z) (bArgs : BatchRequest)
    (batch : Engine) (ms : MVCCStats) (bReply : option BatchResponse)
    (rErr0 : option Error) (s1 : State) (batch' : Engine) (err : Error) :
  0 < index ->
  appliedIndex (rep s) < index ->
  applyRaftCommandInBatch index originNode bArgs zeroMVCCStats s =
    Done ((batch, ms, bReply, rErr0), s1) ->
  setAppliedIndex batch (RangeID (desc (rep s1))) index = (batch', None) ->
  batch_Commit batch' = Some err ->
  applyRaftCommand index originNode bArgs s =
    Done ((bReply,
           Some (replicaCorruptionError false
                   (Some (mkChainedError (Some (default err rErr0)) None)))),
          s1) /\
  ((forall r b ms a, appliedIndex (ex_replica (executeCmd r b ms a)) = appliedIndex r) ->
   appliedIndex (rep s1) = appliedIndex (rep s)).
Proof.
  intros Hpos Hgt HB HS HC. split.
  - rewrite (applyRaftCommand_unfold _ _ _ _ _ _ _ _ _ Hpos Hgt HB), HS, HC.
    destruct rErr0; reflexivity.
  - intros Hexec. eapply applyRaftCommandInBatch_appliedIndex; eassumption.
Qed.

(** X22: when the commit of the batch succeeds, [applyRaftCommand] ends the
    process in the check of [maybeGossipConfigsLocked], or it returns the
    reply and the error of the command, and then the applied index of the
    replica is the index of the command and its engine holds the batch that
    was committed.  This is so too when the command itself has failed. *)
Theorem applyRaftCommand_commit_success
    (s : State) (index originNode : Z) (bArgs : BatchRequest)
    (batch : Engine) (ms : MVCCStats) (bReply : option BatchResponse)
    (rErr0 : option Error) (s1 : State) (batch' : Engine) :
  0 < index ->
  appliedIndex (rep s) < index ->
  applyRaftCommandInBatch index originNode bArgs zeroMVCCStats s =
    Done ((batch, ms, bReply, rErr0), s1) ->
  setAppliedIndex batch (RangeID (desc (rep s1))) index = (batch', None) ->
  batch_Commit batch' = None ->
  (exists s',
     applyRaftCommand index originNode bArgs s = Done ((bReply, rErr0), s') /\
     appliedIndex (rep s') = index /\
     engine (rep s') = batch' /\
     lease (rep s') = lease (rep s1) /\
     trace s' = trace s1) \/
  applyRaftCommand index originNode bArgs s =
    Fatal "range splits configuration values for %s".
Proof.
  intros Hpos Hgt HB HS HC.
  rewrite (applyRaftCommand_unfold _ _ _ _ _ _ _ _ _ Hpos Hgt HB), HS, HC.
  cbv zeta.
  match goal with
  | |- context [match ?c ?st with Done _ => _ | Fatal _ => _ end] =>
      destruct (writeTriggers_outcome bArgs ms (negb (isSome rErr0) && batch_IsWrite bArgs) st)
        as [[s' Ht]|Ht]
  end; cbv zeta in Ht; rewrite Ht.
  - left. exists s'. split; [reflexivity|].
    apply writeTriggers_keeps in Ht. destruct Ht as (Hi & He & Hl & Ht).
    rewrite Hi, He, Hl, Ht. repeat split.
  - right. reflexivity.
Qed.

(** The events of the loop of [applyRaftCommandInBatch]: the executions of
    the first requests, in their order. *)
Lemma applyLoop_trace originNode reqs :
  forall batch ms bReply s e s1,
    applyLoop originNode reqs batch ms bReply s = Done (e, s1) ->
    exists n, (n <= length reqs)%nat /\
      trace s1 = trace s ++ map EvExecute (take n reqs).
Proof.
  induction reqs as [|args reqs IH]; intros batch ms bReply s e s1.
  - cbn. unfoldM. intros H. inv_Done. exists 0%nat. rewrite app_nil_r. split; [lia|reflexivity].
  - rewrite applyLoop_cons. destruct (leaseMismatch _ _ _).
    { intros H. inv_Done. exists 0%nat. rewrite app_nil_r. split; [cbn; lia|reflexivity]. }
    cbn zeta.
    match goal with
    | |- context [match ?c ?st with Done _ => _ | Fatal _ => _ end] =>
        destruct (c st) as [[u s2]|] eqn:E; [|discriminate]
    end.
    apply skipped_keeps in E. destruct E as (_ & _ & _ & Htr). cbn [trace] in Htr.
    destruct (ex_err _).
    + intros H. inv_Done. exists 1%nat. split; [cbn; lia|]. rewrite Htr. reflexivity.
    + intros H. apply IH in H as (n & Hn & H). exists (S n). split; [cbn; lia|].
      rewrite H, Htr, <- app_assoc. reflexivity.
Qed.

(** The events of [applyRaftCommandInBatch]: executions, then for a write
    batch that was run the entry of the response cache, which holds the reply
    and the error that are returned. *)
Lemma applyRaftCommandInBatch_trace index originNode bArgs ms s batch ms' bReply rErr s1 :
  applyRaftCommandInBatch index originNode bArgs ms s =
    Done ((batch, ms', bReply, rErr), s1) ->
  exists n, (n <= length (Requests bArgs))%nat /\
    (trace s1 = trace s ++ map EvExecute (take n (Requests bArgs)) \/
     exists reply,
       batch_IsWrite bArgs = true /\ bReply = Some reply /\
       trace s1 =
         trace s ++ map EvExecute (take n (Requests bArgs)) ++
         [EvPutResponse (h_CmdID (b_Header bArgs))
            (mkResponseWithError (Some reply) rErr)]).
Proof.
  rewrite applyRaftCommandInBatch_unfold. cbn zeta.
  assert (Hnil : forall s0 : State,
            exists n, (n <= length (Requests bArgs))%nat /\
              (trace s0 = trace s0 ++ map EvExecute (take n (Requests bArgs)))).
  { intros s0. exists 0%nat. rewrite app_nil_r. split; [lia|reflexivity]. }
  destruct (batch_IsWrite bArgs) eqn:HW.
  - destruct (respCache_GetResponse _ _) as [[[reply|] err] [readErr|]].
    1-3: intros H; inv_Done; destruct (Hnil s1) as (n & Hn & Ht); exists n;
         split; [exact Hn|left; exact Ht].
    destruct (applyLoop _ _ _ _ _ _) as [[[b1 m1 e1|b1 m1 br1 [e1|]] s2]|] eqn:EL;
      try discriminate; apply applyLoop_trace in EL as (n & Hn & Ht).
    + intros H. inv_Done. exists n. split; [exact Hn|left; exact Ht].
    + destruct (respCache_PutResponse _ _ _) as [b3 [e3|]]; [discriminate|].
      intros H. inv_Done. exists n. split; [exact Hn|]. right. eexists.
      split; [reflexivity|]. split; [reflexivity|]. cbn [trace]. rewrite Ht, <- app_assoc.
      reflexivity.
    + destruct (MergeMVCCStats _ _ _ _) as [[st b2] [e2|]]; [discriminate|].
      destruct (respCache_PutResponse _ _ _) as [b3 [e3|]]; [discriminate|].
      intros H. inv_Done. exists n. split; [exact Hn|]. right. eexists.
      split; [reflexivity|]. split; [reflexivity|]. cbn [trace]. rewrite Ht, <- app_assoc.
      reflexivity.
  - destruct (applyLoop _ _ _ _ _ _) as [[[b1 m1 e1|b1 m1 br1 rErr1] s2]|] eqn:EL;
      try discriminate; apply applyLoop_trace in EL as (n & Hn & Ht);
      intros H; inv_Done; exists n; (split; [exact Hn|left; exact Ht]).
Qed.

(** X23: the events of an apply.  [applyRaftCommand] executes the first
    requests of the batch, in their order, and then writes at most one entry
    of the response cache: for a write batch, under the command id of the
    batch, and holding the reply that is returned with the error of the
    command (the error returned differs only when it tells of a corrupt
    replica).  It proposes nothing to Raft and answers no pending
    command. *)
Theorem applyRaftCommand_events
    (index originNode : Z) (bArgs : BatchRequest) (s : State)
    (bReply : option BatchResponse) (rErr : option Error) (s' : State) :
  applyRaftCommand index originNode bArgs s = Done ((bReply, rErr), s') ->
  exists n, (n <= length (Requests bArgs))%nat /\
    (trace s' = trace s ++ map EvExecute (take n (Requests bArgs)) \/
     exists reply err,
       batch_IsWrite bArgs = true /\ bReply = Some reply /\
       (rErr = err \/ isReplicaCorruptionError rErr = true) /\
       trace s' =
         trace s ++ map EvExecute (take n (Requests bArgs)) ++
         [EvPutResponse (h_CmdID (b_Header bArgs))
            (mkResponseWithError (Some reply) err)]).
Proof.
  intros H. apply applyRaftCommand_cases in H as [_ [(_ & -> & _)|Hrun]].
  - exists 0%nat. rewrite app_nil_r. split; [lia|left; reflexivity].
  - destruct Hrun as (_ & batch & ms & rErr0 & s1 & batch' & s2 & HB & _ & HC & Hk).
    apply applyRaftCommandInBatch_trace in HB as (n & Hn & Ht).
    destruct Hk as (_ & _ & _ & Hk).
    assert (Hs2 : trace s2 = trace s1).
    { destruct HC as [(_ & _ & ->)|(err & _ & _ & ->)]; reflexivity. }
    rewrite Hk, Hs2. exists n. split; [exact Hn|].
    destruct Ht as [Ht|(reply & HW & -> & Ht)]; [left; exact Ht|].
    right. exists reply, rErr0. split; [exact HW|]. split; [reflexivity|].
    split; [|exact Ht].
    destruct HC as [(_ & -> & _)|(err & _ & -> & _)]; [left|right]; reflexivity.
Qed.

(** X24: [processRaftCommand] needs an index that is not zero.  When it
    returns, the error it returns is no [replicaCorruptionError] that is not
    marked as processed; when the command was pending on this replica, the
    last event is the answer on the channel of the command, with the reply
    and the very error that is returned, and no other answer is sent;
    when it was not pending, no answer is sent at all. *)
Theorem processRaftCommand_done
    (idKey : cmdIDKey) (index : Z) (raftCmd : Proto.RaftCommand BatchRequest)
    (s : State) (err : option Error) (s' : State) :
  processRaftCommand idKey index raftCmd s = Done (err, s') ->
  0 < index /\
  (forall cause, err <> Some (replicaCorruptionError false cause)) /\
  exists evs,
    (forall k rwe, ~ In (EvDone k rwe) evs) /\
    (forall k cmd, ~ In (EvPropose k cmd) evs) /\
    match pendingCmds (rep s) !! idKey with
    | Some _ =>
        exists bReply,
          trace s' = trace s ++ evs ++ [EvDone idKey (mkResponseWithError bReply err)]
    | None => trace s' = trace s ++ evs
    end.
Proof.
  unfold processRaftCommand. destruct (Z.eqb_spec index 0) as [|Hnz]; [discriminate|].
  unfold mbind at 1, M_bind at 1, getReplica at 1.
  unfold mbind at 1, M_bind at 1, setReplica at 1.
  unfold mbind at 1, M_bind at 1.
  destruct (applyRaftCommand _ _ _ _) as [[[bReply err0] s1]|] eqn:EA; [|discriminate].
  pose proof (applyRaftCommand_cases _ _ _ _ _ _ _ EA) as [Hpos _].
  assert (Hev : exists evs,
            (forall k rwe, ~ In (EvDone k rwe) evs) /\
            (forall k cmd, ~ In (EvPropose k cmd) evs) /\
            trace s1 = trace s ++ evs).
  { apply applyRaftCommand_cases in EA as [_ [(_ & -> & _)|Hrun]].
    - exists []. rewrite app_nil_r. cbn. auto.
    - destruct Hrun as (_ & batch & ms & rErr0 & sB & batch' & s2 & HB & _ & HC & Hk).
      apply applyRaftCommandInBatch_trace in HB as (n & Hn & Ht).
      destruct Hk as (_ & _ & _ & Hk).
      assert (Hs2 : trace s2 = trace sB).
      { destruct HC as [(_ & _ & ->)|(e & _ & _ & ->)]; reflexivity. }
      rewrite Hk, Hs2. cbn [trace] in Ht.
      destruct Ht as [Ht|(reply & _ & _ & Ht)]; eexists; (split; [|split; [|exact Ht]]).
      all: intros k x Hin; repeat (apply in_app_or in Hin as [Hin|Hin]);
        try (apply in_map_iff in Hin as (a & Ha & _); discriminate Ha).
      all: destruct Hin as [Hin|[]]; discriminate Hin. }
  destruct Hev as (evs & Hnd & Hnp & Htr).
  assert (Hproc : forall cause, maybeSetCorrupt err0 <> Some (replicaCorruptionError false cause)).
  { intros cause. destruct err0 as [[]|]; cbn; congruence. }
  destruct (pendingCmds (rep s) !! idKey) as [[]|]; cbn [isSome].
  - unfoldM. intros H. inv_Done. split; [exact Hpos|]. split; [exact Hproc|].
    exists evs. split; [exact Hnd|]. split; [exact Hnp|].
    exists bReply. cbn [trace]. rewrite Htr, <- app_assoc. reflexivity.
  - unfoldM. intros H. inv_Done. split; [exact Hpos|]. split; [exact Hproc|].
    exists evs. split; [exact Hnd|]. split; [exact Hnp|]. exact Htr.
Qed.

End apply_more_facts.

(** *** The read-only path *)
Section read_path_facts.
Import Dispatch.
Context {C : Collaborators}.
Variable executeCmd_onEngine :
  Replica -> Request -> Replica * Response * list Intent * option Error.

(** [beginCmds] returns and hands out no event; an inconsistent read gets
    no key of the command queue. *)
Lemma beginCmds_outcome bArgs s :
  exists cmdKeys b1 s1,
    beginCmds bArgs s = Done ((cmdKeys, b1), s1) /\
    trace s1 = trace s /\
    (h_ReadConsistency (b_Header bArgs) = INCONSISTENT -> cmdKeys = []).
Proof.
  unfold beginCmds.
  destruct (h_ReadConsistency (b_Header bArgs)) eqn:Ec; cbn [isINCONSISTENT negb].
  1-2: unfold mbind at 1, M_bind at 1;
    unfold mbind at 1, M_bind at 1, getReplica at 1;
    destruct (cmdQ_Add _ _ _) as [q keys];
    unfold mbind at 1, M_bind at 1, setReplica at 1;
    unfold mbind at 1, M_bind at 1, waitGroup_Wait at 1;
    unfold mret at 1, M_ret at 1;
    unfold mbind at 1, M_bind at 1;
    (destruct (ts_Equal (b_Timestamp bArgs) ZeroTimestamp);
     [unfold mbind at 1, M_bind at 1, callEnv at 1;
      cbn [rep trace]; destruct (Clock_Now _) as [e now]|]);
    unfoldM; do 3 eexists; (split; [reflexivity|]); (split; [reflexivity|]);
    discriminate.
  unfold mbind at 1, M_bind at 1. unfold mret at 1, M_ret at 1.
  unfold mbind at 1, M_bind at 1.
  destruct (ts_Equal (b_Timestamp bArgs) ZeroTimestamp);
    [unfold mbind at 1, M_bind at 1, callEnv at 1;
     destruct (Clock_Now _) as [e now]|];
    unfoldM; do 3 eexists; (split; [reflexivity|]); (split; [reflexivity|]);
    reflexivity.
Qed.

(** [requestLeaderLease] proposes one command and returns. *)
Lemma requestLeaderLease_outcome timestamp s :
  exists err s' idKey rangeID node args,
    requestLeaderLease timestamp s = Done (err, s') /\
    trace s' =
      trace s ++
      [EvPropose idKey
         (Proto.mkRaftCommand rangeID node
            (batch_Add (mkBatchRequest zeroHeader []) args))] /\
    req_Method args = LeaderLease /\
    req_Body args =
      LeaseBody (mkLease timestamp (ts_Add timestamp 1000000000 0) node).
Proof.
  unfold requestLeaderLease.
  unfold mbind at 1, M_bind at 1, getReplica at 1.
  unfold mbind at 1, M_bind at 1, callEnv at 1.
  destruct (Clock_Now _) as [e1 now] eqn:En.
  unfold mbind at 1, M_bind at 1, callEnv at 1. cbn [rep env set_env].
  destruct (rand_Int63 e1) as [e2 random] eqn:Er.
  unfold mbind at 1, M_bind at 1, getReplica at 1. cbn [rep env set_env trace desc].
  unfold mbind at 1, M_bind at 1.
  unfold proposeRaftCommand.
  unfold mbind at 1, M_bind at 1, getReplica at 1.
  unfold mbind at 1, M_bind at 1, callEnv at 1. cbn [rep env set_env trace desc].
  destruct (GetOrCreateCmdID _ _ _) as [e3 cmdID].
  unfold mbind at 1, M_bind at 1, getReplica at 1.
  unfold mbind at 1, M_bind at 1, setReplica at 1.
  unfold mbind at 1, M_bind at 1, emit at 1.
  unfold mret at 1, M_ret at 1.
  unfold mbind at 1, M_bind at 1, recv_errChan at 1. cbn [rep trace].
  destruct (wait_errChan _ _) as [r1 [e|]].
  - unfoldM. do 6 eexists. split; [reflexivity|]. cbn [trace].
    split; [reflexivity|]. split; reflexivity.
  - unfold mbind at 1, M_bind at 1, recv_done at 1. cbn [rep trace].
    destruct (wait_done _ _) as [r2 rwe].
    unfoldM. do 6 eexists. split; [reflexivity|]. cbn [trace].
    split; [reflexivity|]. split; reflexivity.
Qed.

(** [redirectOnOrAcquireLeaderLease] returns; it proposes nothing, or one
    request for the lease. *)
Lemma redirectOnOrAcquireLeaderLease_outcome timestamp s :
  exists err s' evs,
    redirectOnOrAcquireLeaderLease timestamp s = Done (err, s') /\
    trace s' = trace s ++ evs /\
    (evs = [] \/
     exists idKey rangeID node args,
       evs = [EvPropose idKey
                (Proto.mkRaftCommand rangeID node
                   (batch_Add (mkBatchRequest zeroHeader []) args))] /\
       req_Method args = LeaderLease).
Proof.
  unfold redirectOnOrAcquireLeaderLease.
  unfold mbind at 1, M_bind at 1, getReplica at 1.
  destruct (lease_Covers _ _).
  - destruct (lease_OwnedBy _ _); unfoldM; do 2 eexists; exists [];
      rewrite app_nil_r; (split; [reflexivity|]); (split; [reflexivity|]);
      left; reflexivity.
  - unfold mbind at 1, M_bind at 1.
    destruct (requestLeaderLease_outcome timestamp s)
      as (err & s1 & idKey & rangeID & node & args & -> & Htr & Hm & _).
    unfold mbind at 1, M_bind at 1, getReplica at 1.
    destruct (_ && _); unfoldM; do 3 eexists; (split; [reflexivity|]);
      (split; [exact Htr|]); right; exists idKey, rangeID, node, args;
      (split; [reflexivity|exact Hm]).
Qed.

(** The loop of [addReadOnlyCmd] returns; it executes the first requests, in
    their order. *)
Lemma addReadOnlyCmd_loop_outcome reqs :
  forall bReply s,
    exists bReply' rErr s' n,
      addReadOnlyCmd_loop executeCmd_onEngine reqs bReply s =
        Done ((bReply', rErr), s') /\
      (n <= length reqs)%nat /\
      trace s' = trace s ++ map EvExecute (take n reqs) /\
      (rErr = None -> n = length reqs) /\
      (rErr <> None -> bReply' = mkBatchResponse ZeroTimestamp []).
Proof.
  induction reqs as [|args reqs IH]; intros bReply s; cbn [addReadOnlyCmd_loop].
  - unfoldM. exists bReply, None, s, 0%nat. rewrite app_nil_r.
    repeat split; try reflexivity. congruence.
  - unfold mbind at 1, M_bind at 1, emit at 1.
    unfold mbind at 1, M_bind at 1, getReplica at 1. cbn [rep trace].
    destruct (executeCmd_onEngine _ _) as [[[r' reply] intents] err].
    unfold mbind at 1, M_bind at 1, setReplica at 1. cbn [rep trace].
    unfold mbind at 1, M_bind at 1.
    match goal with
    | |- context [handleSkippedIntents args intents ?st] =>
        assert (Hs : exists s2, handleSkippedIntents args intents st = Done (tt, s2) /\
                                trace s2 = trace st)
    end.
    { unfold handleSkippedIntents. destruct intents; unfoldM; eexists; split; reflexivity. }
    destruct Hs as (s2 & -> & Htr2). cbn [trace] in Htr2.
    destruct err as [e|].
    + unfoldM. exists (mkBatchResponse ZeroTimestamp []), (Some e), s2, 1%nat.
      split; [reflexivity|]. split; [cbn; lia|]. split; [rewrite Htr2; reflexivity|].
      split; [discriminate|reflexivity].
    + destruct (IH (br_Add bReply reply) s2) as (b' & rErr & s' & n & -> & Hn & Htr & Hok & Herr).
      exists b', rErr, s', (S n). split; [reflexivity|]. split; [cbn; lia|].
      split; [rewrite Htr, Htr2, <- app_assoc; reflexivity|].
      split; [intros H; cbn [length]; f_equal; apply Hok, H|exact Herr].
Qed.

Lemma endCmds_outcome cmdKeys bArgs err s :
  endCmds cmdKeys bArgs err s =
    Done (tt,
          mkState
            (set_cmdQ
               (set_tsCache (rep s)
                  (match err with
                   | None => endCmds_tsCache (tsCache (rep s)) (Requests bArgs)
                   | Some _ => tsCache (rep s)
                   end))
               (fold_left cmdQ_Remove cmdKeys (cmdQ (rep s))))
            (trace s)).
Proof. reflexivity. Qed.

(** X19: [addReadOnlyCmd] always returns, and what it hands out is at most
    one proposal, a request for the leader lease, followed by the executions
    of the first requests of the batch, in their order: a read is never
    proposed to Raft.  For an inconsistent read there is no proposal at all,
    as the lease is not looked at.  Without an error every request has been
    executed and there is a reply; a call that returns no reply has executed
    nothing. *)
Theorem addReadOnlyCmd_events (bArgs : BatchRequest) (s : State) :
  exists b1 bReply err s' evs n,
    addReadOnlyCmd executeCmd_onEngine bArgs s = Done ((b1, bReply, err), s') /\
    (n <= length (Requests b1))%nat /\
    trace s' = trace s ++ evs ++ map EvExecute (take n (Requests b1)) /\
    (evs = [] \/
     exists idKey rangeID node args,
       evs = [EvPropose idKey
                (Proto.mkRaftCommand rangeID node
                   (batch_Add (mkBatchRequest zeroHeader []) args))] /\
       req_Method args = LeaderLease) /\
    (h_ReadConsistency (b_Header bArgs) = INCONSISTENT -> evs = []) /\
    (err = None -> n = length (Requests b1) /\ bReply <> None) /\
    (bReply = None -> n = 0%nat).
Proof.
  unfold addReadOnlyCmd.
  unfold mbind at 1, M_bind at 1, getReplica at 1.
  destruct (checkCmdHeader _ _) as [e|].
  { unfoldM. exists bArgs, None, (Some e), s, [], 0%nat. rewrite !app_nil_r.
    repeat split; try reflexivity; try (cbn; lia); try discriminate. left. reflexivity. }
  destruct (checkBatchRequest _) as [e|].
  { unfoldM. exists bArgs, None, (Some e), s, [], 0%nat. rewrite !app_nil_r.
    repeat split; try reflexivity; try (cbn; lia); try discriminate. left. reflexivity. }
  unfold mbind at 1, M_bind at 1.
  destruct (beginCmds_outcome bArgs s) as (cmdKeys & b1 & s1 & -> & Htr1 & Hinc).
  unfold mbind at 1, M_bind at 1.
  assert (Hlease : exists err s2 evs,
            (if (0 <? length cmdKeys)%nat
             then redirectOnOrAcquireLeaderLease (b_Timestamp b1)
             else mret None) s1 = Done (err, s2) /\
            trace s2 = trace s ++ evs /\
            (evs = [] \/
             exists idKey rangeID node args,
               evs = [EvPropose idKey
                        (Proto.mkRaftCommand rangeID node
                           (batch_Add (mkBatchRequest zeroHeader []) args))] /\
               req_Method args = LeaderLease) /\
            (h_ReadConsistency (b_Header bArgs) = INCONSISTENT -> evs = [])).
  { destruct (0 <? length cmdKeys)%nat eqn:Ek.
    - destruct (redirectOnOrAcquireLeaderLease_outcome (b_Timestamp b1) s1)
        as (err & s2 & evs & Hr & Htr & Hevs).
      exists err, s2, evs. split; [exact Hr|]. split; [rewrite Htr, Htr1; reflexivity|].
      split; [exact Hevs|]. intros Hi. rewrite (Hinc Hi) in Ek. discriminate Ek.
    - unfoldM. exists None, s1, []. rewrite app_nil_r. split; [reflexivity|].
      split; [exact Htr1|]. split; [left; reflexivity|reflexivity]. }
  destruct Hlease as (err & s2 & evs & -> & Htr2 & Hevs & Hnone).
  destruct err as [e|].
  - unfold mbind at 1, M_bind at 1. rewrite endCmds_outcome. unfoldM.
    eexists b1, None, (Some e), _, evs, 0%nat.
    split; [reflexivity|]. cbn [trace take map]. rewrite app_nil_r.
    split; [lia|]. split; [exact Htr2|].
    split; [exact Hevs|]. split; [exact Hnone|]. split; [discriminate|reflexivity].
  - unfold mbind at 1, M_bind at 1.
    destruct (addReadOnlyCmd_loop_outcome (Requests b1)
                (mkBatchResponse (b_Timestamp b1) []) s2)
      as (bReply & rErr & s3 & n & -> & Hn & Htr3 & Hok & _).
    unfold mbind at 1, M_bind at 1. rewrite endCmds_outcome. unfoldM.
    eexists b1, (Some bReply), rErr, _, evs, n.
    split; [reflexivity|]. split; [exact Hn|]. cbn [trace].
    split; [rewrite Htr3, Htr2, <- app_assoc; reflexivity|].
    split; [exact Hevs|]. split; [exact Hnone|].
    split; [intros H; split; [apply Hok, H|discriminate]|discriminate].
Qed.

Lemma set_tsCache_same (r : Replica) q :
  set_cmdQ (set_tsCache r (tsCache r)) q = set_cmdQ r q.
Proof. destruct r. reflexivity. Qed.

(** X20: a replica that does not hold the lease, while the lease of
    another node covers the timestamp of the batch, turns a write batch and
    a read batch with keys in the command queue away with a
    [NotLeaderError]: nothing is proposed and nothing is executed, the keys
    of the batch are taken out of the command queue again and the timestamp
    cache stays as it is.  The lease is the one the replica has after
    [beginCmds], that is after the wait for the commands before it. *)
Theorem addWriteCmd_not_leader
    (bArgs : BatchRequest) (s : State)
    (cmdKeys : list CmdKey) (b1 : BatchRequest) (s1 : State) :
  checkCmdHeader (rep s) (b_Header bArgs) = None ->
  checkBatchRequest bArgs = None ->
  beginCmds bArgs s = Done ((cmdKeys, b1), s1) ->
  lease_Covers (lease (rep s1)) (b_Timestamp b1) = true ->
  lease_OwnedBy (lease (rep s1)) (rm_RaftNodeID (env (rep s1))) = false ->
  let e :=
    newNotLeaderError (rep s1) (Some (lease (rep s1)))
      (rm_RaftNodeID (env (rep s1))) in
  let s2 :=
    mkState (set_cmdQ (rep s1) (fold_left cmdQ_Remove cmdKeys (cmdQ (rep s1))))
      (trace s) in
  addWriteCmd bArgs s = Done ((b1, None, Some e), s2) /\
  (cmdKeys <> [] ->
   addReadOnlyCmd executeCmd_onEngine bArgs s = Done ((b1, None, Some e), s2)) /\
  tsCache (rep s2) = tsCache (rep s1) /\
  isNotLeaderError (Some e) = true.
Proof.
  intros Hh Hb Hbegin Hcov Hown e s2.
  assert (Htr : trace s1 = trace s).
  { destruct (beginCmds_outcome bArgs s) as (k & b & s0 & Hb0 & Htr & _).
    rewrite Hbegin in Hb0. inv_Done. exact Htr. }
  assert (Hred : redirectOnOrAcquireLeaderLease (b_Timestamp b1) s1 = Done (Some e, s1)).
  { unfold redirectOnOrAcquireLeaderLease, mbind, M_bind, getReplica, mret, M_ret.
    rewrite Hcov, Hown. reflexivity. }
  assert (Hend : endCmds cmdKeys b1 (Some e) s1 = Done (tt, s2)).
  { rewrite endCmds_outcome, set_tsCache_same, Htr. reflexivity. }
  split; [|split; [|split]].
  - unfold addWriteCmd.
    unfold mbind at 1, M_bind at 1, getReplica at 1. rewrite Hh, Hb.
    unfold mbind at 1, M_bind at 1. rewrite Hbegin.
    unfold mbind at 1, M_bind at 1. rewrite Hred.
    unfold mbind at 1, M_bind at 1. rewrite Hend. reflexivity.
  - intros Hk. unfold addReadOnlyCmd.
    unfold mbind at 1, M_bind at 1, getReplica at 1. rewrite Hh, Hb.
    unfold mbind at 1, M_bind at 1. rewrite Hbegin.
    unfold mbind at 1, M_bind at 1.
    destruct cmdKeys as [|k ks]; [contradiction|]. cbn [length Nat.ltb Nat.leb].
    rewrite Hred.
    unfold mbind at 1, M_bind at 1. rewrite Hend. reflexivity.
  - subst s2. destruct (rep s1). reflexivity.
  - subst e. unfold newNotLeaderError. destruct (negb _); [|reflexivity].
    destruct (DecodeRaftNodeID _), (DecodeRaftNodeID _). reflexivity.
Qed.

End read_path_facts.

(** *** Gossip of the configuration maps *)
Section gossip_facts.
Context {C : Collaborators}.

Lemma bytes_Equal_refl (a : list Z) : bytes_Equal a a = true.
Proof. induction a as [|x a IH]; cbn; [reflexivity|]. rewrite Z.eqb_refl. exact IH. Qed.

Lemma set_configHashes_same (r : Replica) h :
  configHashes r = h -> set_configHashes r h = r.
Proof. intros <-. destruct r. reflexivity. Qed.

(** X25: the loop of [maybeGossipConfigsLocked] gossips a configuration
    map only when its hash has changed: run a second time on the replica the
    first run has left, it changes nothing, neither the hashes the replica
    remembers nor the state of gossip. *)
Theorem gossipConfigs_loop_idempotent (match_ : Key -> bool) (s s1 : State) :
  gossipConfigs_loop match_ 0 configDescriptors s = Done (tt, s1) ->
  gossipConfigs_loop match_ 0 configDescriptors s1 = Done (tt, s1).
Proof.
  unfold configDescriptors. cbn [gossipConfigs_loop].
  assert (Hone :
    gossipConfig match_ 0 (ConfigZonePrefix, KeyConfigZone) s = Done (tt, s1) ->
    gossipConfig match_ 0 (ConfigZonePrefix, KeyConfigZone) s1 = Done (tt, s1)).
  { unfold gossipConfig.
    destruct (match_ ConfigZonePrefix); [|unfoldM; intros H; inv_Done; reflexivity].
    unfold mbind at 1 3, M_bind at 1 3, getReplica at 1 2.
    unfold ContainsKey.
    destruct (negb (desc_ContainsKey (desc (rep s)) _)) eqn:Ec; [discriminate|].
    destruct (loadConfigMap (engine (rep s)) ConfigZonePrefix)
      as [[configMap hash] [e|]] eqn:El.
    { unfoldM. intros H. inv_Done. rewrite Ec, El. reflexivity. }
    destruct (default ∅ (configHashes (rep s)) !! 0%nat) as [prevHash|] eqn:Eh.
    - destruct (negb (bytes_Equal prevHash hash)) eqn:Eb.
      + unfoldM. intros H. inv_Done. cbn [rep desc engine set_env set_configHashes
                                           configHashes default].
        rewrite Ec, El. cbn [default from_option id]. rewrite lookup_insert_eq.
        rewrite bytes_Equal_refl. cbn [negb]. reflexivity.
      + unfoldM. intros H. inv_Done. cbn [rep desc engine set_configHashes
                                           configHashes default].
        rewrite Ec, El. cbn [default from_option id]. rewrite Eh, Eb.
        reflexivity.
    - unfoldM. intros H. inv_Done. cbn [rep desc engine set_env set_configHashes
                                         configHashes default].
      rewrite Ec, El. cbn [default from_option id]. rewrite lookup_insert_eq.
      rewrite bytes_Equal_refl. cbn [negb]. reflexivity. }
  unfold mbind, M_bind.
  destruct (gossipConfig match_ 0 (ConfigZonePrefix, KeyConfigZone) s)
    as [[[] s0]|] eqn:E; [|discriminate].
  unfoldM. intros H. inv_Done. rewrite (Hone eq_refl). reflexivity.
Qed.

End gossip_facts.

(** *** Pending commands *)
Section pending_facts.
Context {C : Collaborators}.

(** What the executions leave alone when [executeCmd] does: the table of
    the pending commands. *)
Hypothesis executeCmd_pendingCmds :
  forall r b ms a, pendingCmds (ex_replica (executeCmd r b ms a)) = pendingCmds r.

Lemma handleSkippedIntents_pendingCmds args intents s s' :
  handleSkippedIntents args intents s = Done (tt, s') ->
  pendingCmds (rep s') = pendingCmds (rep s).
Proof.
  unfold handleSkippedIntents. destruct intents; unfoldM; intros H; inv_Done;
    reflexivity.
Qed.

Lemma applyLoop_pendingCmds originNode reqs :
  forall batch ms bReply s e s',
    applyLoop originNode reqs batch ms bReply s = Done (e, s') ->
    pendingCmds (rep s') = pendingCmds (rep s).
Proof.
  induction reqs as [|args reqs IH]; intros batch ms bReply s e s'.
  - cbn. unfoldM. intros H. inv_Done. reflexivity.
  - rewrite applyLoop_cons. destruct (leaseMismatch _ _ _).
    { intros H. inv_Done. reflexivity. }
    cbn zeta.
    match goal with
    | |- context [match ?c ?st with Done _ => _ | Fatal _ => _ end] =>
        destruct (c st) as [[[] s2]|] eqn:E; [|discriminate]
    end.
    assert (Hp : pendingCmds (rep s2) = pendingCmds (rep s)).
    { destruct (_ =? _).
      - apply handleSkippedIntents_pendingCmds in E. rewrite E. cbn [rep].
        apply executeCmd_pendingCmds.
      - unfoldM. inv_Done. cbn [rep]. apply executeCmd_pendingCmds. }
    destruct (ex_err _).
    + intros H. inv_Done. exact Hp.
    + intros H. apply IH in H. congruence.
Qed.

Lemma applyRaftCommandInBatch_pendingCmds index originNode bArgs ms s x s' :
  applyRaftCommandInBatch index originNode bArgs ms s = Done (x, s') ->
  pendingCmds (rep s') = pendingCmds (rep s).
Proof.
  rewrite applyRaftCommandInBatch_unfold. cbn zeta.
  assert (Hloop : forall e s1,
    applyLoop originNode (Requests bArgs) (engine (rep s)) ms
      (mkBatchResponse (b_Timestamp bArgs) []) s = Done (e, s1) ->
    pendingCmds (rep s1) = pendingCmds (rep s)).
  { intros e s1. apply applyLoop_pendingCmds. }
  destruct (batch_IsWrite bArgs).
  - destruct (respCache_GetResponse _ _) as [[[reply|] err] [readErr|]];
      try (intros H; inv_Done; reflexivity).
    destruct (applyLoop _ _ _ _ _ _) as [[[b1 m1 e1|b1 m1 br1 [e1|]] s1]|] eqn:EL;
      try discriminate.
    + intros H. inv_Done. eapply Hloop; reflexivity.
    + destruct (respCache_PutResponse _ _ _) as [b3 [e3|]]; [discriminate|].
      intros H. inv_Done. cbn [rep]. eapply Hloop; reflexivity.
    + destruct (MergeMVCCStats _ _ _ _) as [[st b2] [e2|]]; [discriminate|].
      destruct (respCache_PutResponse _ _ _) as [b3 [e3|]]; [discriminate|].
      intros H. inv_Done. cbn [rep set_stats pendingCmds]. eapply Hloop; reflexivity.
  - destruct (applyLoop _ _ _ _ _ _) as [[[b1 m1 e1|b1 m1 br1 rErr] s1]|] eqn:EL;
      try discriminate; intros H; inv_Done; eapply Hloop; reflexivity.
Qed.

Lemma gossipConfigs_loop_pendingCmds match_ cds :
  forall i s s',
    gossipConfigs_loop match_ i cds s = Done (tt, s') ->
    pendingCmds (rep s') = pendingCmds (rep s).
Proof.
  induction cds as [|[keyPrefix gossipKey] cds IH]; intros i s s'; cbn [gossipConfigs_loop].
  - unfoldM. intros H. inv_Done. reflexivity.
  - unfold mbind, M_bind.
    destruct (gossipConfig match_ i (keyPrefix, gossipKey) s) as [[[] s1]|] eqn:E;
      [|discriminate].
    intros H. apply IH in H. rewrite H. clear H.
    revert E. unfold gossipConfig. unfoldM.
    destruct (match_ keyPrefix); [|intros H; inv_Done; reflexivity].
    destruct (negb _); [discriminate|].
    destruct (loadConfigMap _ _) as [[configMap hash] [e|]];
      [intros H; inv_Done; reflexivity|].
    destruct (match _ !! i with Some _ => _ | None => _ end);
      intros H; inv_Done; reflexivity.
Qed.

Lemma writeTriggers_pendingCmds (bArgs : BatchRequest) (ms : MVCCStats) (cond : bool) s u s' :
  (if cond then
     updEnv (fun e => eventFeed_updateRange e (batch_Method bArgs) ms);;
     maybeAddToSplitQueue;;
     let key := h_Key (b_Header bArgs) in
     if key_Less key SystemMax && negb (isSome (h_Txn (b_Header bArgs)))
     then maybeGossipConfigs (fun configPrefix => HasPrefix key configPrefix)
     else mret tt
   else mret tt) s = Done (u, s') ->
  pendingCmds (rep s') = pendingCmds (rep s).
Proof.
  destruct cond; [|unfoldM; intros H; inv_Done; reflexivity].
  unfold mbind at 1, M_bind at 1, updEnv at 1.
  unfold mbind at 1, M_bind at 1.
  destruct (maybeAddToSplitQueue _) as [[[] s1]|] eqn:E1; [|discriminate].
  assert (H1 : pendingCmds (rep s1) = pendingCmds (rep s)).
  { revert E1. unfold maybeAddToSplitQueue. unfoldM. cbn [rep env set_env maxBytes stats].
    destruct (_ && _).
    - destruct (Clock_Now _) as [e now]. intros H. inv_Done. reflexivity.
    - intros H. inv_Done. reflexivity. }
  cbn zeta. destruct (_ && _); [|unfoldM; intros H; inv_Done; exact H1].
  unfold maybeGossipConfigs, maybeGossipConfigsLocked.
  unfold mbind at 1, M_bind at 1, getReplica at 1.
  destruct (_ || _); [unfoldM; intros H; inv_Done; exact H1|].
  destruct (negb (lease_OwnedBy _ _)); [unfoldM; intros H; inv_Done; exact H1|].
  unfold mbind at 1, M_bind at 1, callEnv.
  destruct (Clock_Now _) as [e now].
  unfold mbind at 1, M_bind at 1, getReplica at 1. cbn [rep lease set_env].
  destruct (negb _); [unfoldM; intros H; inv_Done; exact H1|].
  destruct u. intros H. apply gossipConfigs_loop_pendingCmds in H.
  rewrite H. exact H1.
Qed.

Lemma applyRaftCommand_pendingCmds index originNode bArgs s x s' :
  applyRaftCommand index originNode bArgs s = Done (x, s') ->
  pendingCmds (rep s') = pendingCmds (rep s).
Proof.
  unfold applyRaftCommand.
  destruct (index <=? 0); [discriminate|].
  unfold mbind at 1, M_bind at 1, getReplica at 1.
  destruct (index <=? appliedIndex (rep s)); [unfoldM; intros H; inv_Done; reflexivity|].
  unfold mbind at 1, M_bind at 1.
  destruct (applyRaftCommandInBatch _ _ _ _ _) as [[[[[batch ms] bReply0] rErr0] s1]|] eqn:EB;
    [|discriminate].
  apply applyRaftCommandInBatch_pendingCmds in EB.
  unfold mbind at 1, M_bind at 1, getReplica at 1.
  destruct (setAppliedIndex _ _ _) as [batch' [e|]]; [discriminate|].
  unfold mbind at 1, M_bind at 1.
  destruct (batch_Commit batch') as [err|].
  - unfold mret at 1, M_ret at 1.
    unfold mbind at 1, M_bind at 1.
    match goal with
    | |- context [match ?c ?st with Done _ => _ | Fatal _ => _ end] =>
        destruct (c st) as [[u s3]|] eqn:ET; [|discriminate]
    end.
    apply writeTriggers_pendingCmds in ET.
    unfoldM. intros H. inv_Done. congruence.
  - unfold mbind at 1, M_bind at 1, setReplica at 1.
    unfold mret at 1, M_ret at 1.
    unfold mbind at 1, M_bind at 1.
    match goal with
    | |- context [match ?c ?st with Done _ => _ | Fatal _ => _ end] =>
        destruct (c st) as [[u s3]|] eqn:ET; [|discriminate]
    end.
    apply writeTriggers_pendingCmds in ET.
    unfoldM. intros H. inv_Done. rewrite ET. cbn [rep]. destruct (rep s1). exact EB.
Qed.

(** The events of [applyRaftCommand] hold no proposal and no answer. *)
Lemma applyRaftCommand_no_answer index originNode bArgs s x s1 :
  applyRaftCommand index originNode bArgs s = Done (x, s1) ->
  exists evs,
    (forall k rwe, ~ In (EvDone k rwe) evs) /\
    (forall k cmd, ~ In (EvPropose k cmd) evs) /\
    trace s1 = trace s ++ evs.
Proof.
  destruct x as [bReply rErr]. intros EA.
  apply applyRaftCommand_cases in EA as [_ [(_ & -> & _)|Hrun]].
  - exists []. rewrite app_nil_r. cbn. auto.
  - destruct Hrun as (_ & batch & ms & rErr0 & sB & batch' & s2 & HB & _ & HC & Hk).
    apply applyRaftCommandInBatch_trace in HB as (n & Hn & Ht).
    destruct Hk as (_ & _ & _ & Hk).
    assert (Hs2 : trace s2 = trace sB).
    { destruct HC as [(_ & _ & ->)|(e & _ & _ & ->)]; reflexivity. }
    rewrite Hk, Hs2.
    destruct Ht as [Ht|(reply & _ & _ & Ht)]; eexists; (split; [|split; [|exact Ht]]).
    all: intros k y Hin; repeat (apply in_app_or in Hin as [Hin|Hin]);
      try (apply in_map_iff in Hin as (a & Ha & _); discriminate Ha).
    all: destruct Hin as [Hin|[]]; discriminate Hin.
Qed.

(** X26: a command that [proposeRaftCommand] has proposed is answered
    exactly once.  [proposeRaftCommand] returns the key under which the
    command is pending and hands the command, with the range and the node of
    the replica, to Raft.  When [processRaftCommand] then returns for that
    key, the last event is the answer on the channel of the command; the
    command is no longer pending, and when the entry is processed again, no
    answer is sent. *)
Theorem proposeRaftCommand_answered (bArgs : BatchRequest) (s : State) :
  exists idKey s1,
    proposeRaftCommand bArgs s = Done (idKey, s1) /\
    pendingCmds (rep s1) !! idKey = Some tt /\
    trace s1 =
      trace s ++
      [EvPropose idKey
         (Proto.mkRaftCommand (RangeID (desc (rep s))) (rm_RaftNodeID (env (rep s)))
            bArgs)] /\
    forall index raftCmd err s2,
      processRaftCommand idKey index raftCmd s1 = Done (err, s2) ->
      (exists bReply evs,
         (forall k rwe, ~ In (EvDone k rwe) evs) /\
         trace s2 = trace s1 ++ evs ++ [EvDone idKey (mkResponseWithError bReply err)]) /\
      pendingCmds (rep s2) !! idKey = None /\
      forall index' raftCmd' err' s3,
        processRaftCommand idKey index' raftCmd' s2 = Done (err', s3) ->
        forall k rwe, In (EvDone k rwe) (trace s3) -> In (EvDone k rwe) (trace s2).
Proof.
  unfold proposeRaftCommand.
  unfold mbind at 1, M_bind at 1, getReplica at 1.
  unfold mbind at 1, M_bind at 1, callEnv at 1.
  destruct (GetOrCreateCmdID _ _ _) as [e1 cmdID].
  unfold mbind at 1, M_bind at 1, getReplica at 1.
  unfold mbind at 1, M_bind at 1, setReplica at 1.
  unfold mbind at 1, M_bind at 1, emit at 1.
  unfold mret, M_ret. cbn [rep trace].
  eexists. eexists. split; [reflexivity|]. cbn [rep trace pendingCmds set_pendingCmds].
  split; [apply lookup_insert_eq|]. split; [reflexivity|].
  assert (Hproc : forall idKey index raftCmd (sa : State) err sb,
            processRaftCommand idKey index raftCmd sa = Done (err, sb) ->
            pendingCmds (rep sb) !! idKey = None /\
            exists bReply evs,
              (forall k rwe, ~ In (EvDone k rwe) evs) /\
              trace sb =
                trace sa ++ evs ++
                (if isSome (pendingCmds (rep sa) !! idKey)
                 then [EvDone idKey (mkResponseWithError bReply err)] else [])).
  { intros idKey index raftCmd sa err sb. unfold processRaftCommand.
    destruct (index =? 0); [discriminate|].
    unfold mbind at 1, M_bind at 1, getReplica at 1.
    unfold mbind at 1, M_bind at 1, setReplica at 1.
    unfold mbind at 1, M_bind at 1.
    destruct (applyRaftCommand _ _ _ _) as [[[bReply err0] sc]|] eqn:EA; [|discriminate].
    pose proof (applyRaftCommand_pendingCmds _ _ _ _ _ _ EA) as Hp.
    apply applyRaftCommand_no_answer in EA as (evs & Hnd & _ & Htr).
    cbn [rep trace pendingCmds set_pendingCmds] in Hp, Htr.
    destruct (isSome (pendingCmds (rep sa) !! idKey)).
    - unfoldM. intros H. inv_Done. cbn [rep trace]. split.
      + rewrite Hp. apply lookup_delete_eq.
      + exists bReply, evs. split; [exact Hnd|]. rewrite Htr, <- app_assoc. reflexivity.
    - unfoldM. intros H. inv_Done. split.
      + rewrite Hp. apply lookup_delete_eq.
      + exists bReply, evs. split; [exact Hnd|]. rewrite Htr, app_nil_r. reflexivity. }
  intros index raftCmd err s2 H2.
  destruct (Hproc _ _ _ _ _ _ H2) as (Hgone & bReply & evs & Hnd & Htr).
  cbn [rep pendingCmds set_pendingCmds] in Htr. rewrite lookup_insert_eq in Htr.
  cbn [isSome] in Htr.
  split; [exists bReply, evs; split; [exact Hnd|exact Htr]|].
  split; [exact Hgone|].
  intros index' raftCmd' err' s3 H3 k rwe Hin.
  destruct (Hproc _ _ _ _ _ _ H3) as (_ & bReply' & evs' & Hnd' & Htr').
  rewrite Hgone in Htr'. cbn [isSome] in Htr'. rewrite app_nil_r in Htr'.
  rewrite Htr' in Hin. apply in_app_or in Hin as [Hin|Hin]; [exact Hin|].
  destruct (Hnd' _ _ Hin).
Qed.

End pending_facts.

(** *** Entering the command queue *)
Section beginCmds_facts.
Context {C : Collaborators}.

Lemma beginCmds_queue bArgs s :
  exists cmdKeys sA,
    (if negb (isINCONSISTENT (h_ReadConsistency (b_Header bArgs))) then
       r ← getReplica;
       let readOnly := batch_IsReadOnly bArgs in
       let spans :=
         map (fun a => mkSpan (h_Key (req_Header a)) (h_EndKey (req_Header a)))
             (Requests bArgs) in
       let wg := cmdQ_GetWait (cmdQ r) readOnly spans in
       let '(q, keys) := cmdQ_Add (cmdQ r) readOnly spans in
       setReplica (set_cmdQ r q);;
       waitGroup_Wait wg;;
       mret keys
     else mret []) s = Done (cmdKeys, sA) /\
    trace sA = trace s /\
    (h_ReadConsistency (b_Header bArgs) = INCONSISTENT -> cmdKeys = [] /\ sA = s).
Proof.
  destruct (h_ReadConsistency (b_Header bArgs)); cbn [isINCONSISTENT negb].
  1-2: unfold mbind at 1, M_bind at 1, getReplica at 1; cbv zeta;
    destruct (cmdQ_Add _ _ _) as [q keys];
    unfold waitGroup_Wait; unfoldM; do 2 eexists;
    (split; [reflexivity|]); (split; [reflexivity|]); discriminate.
  unfoldM. exists [], s. repeat split.
Qed.

(** X27: [beginCmds] always returns and hands out no event.  It leaves
    every request with a timestamp: a batch timestamp of zero is replaced by
    a reading of the clock, and a request keeps the timestamp it came with,
    or gets the batch timestamp if it came with zero; so afterwards a
    request has a zero timestamp only if the batch has one, that is only if
    the clock has returned zero.  Nothing else of the batch and of its
    requests changes.  For an inconsistent read the command queue is not
    used: there are no keys and the queue is as before. *)
Theorem beginCmds_timestamps (bArgs : BatchRequest) (s : State) :
  exists cmdKeys b1 s1,
    beginCmds bArgs s = Done ((cmdKeys, b1), s1) /\
    trace s1 = trace s /\
    (if ts_Equal (b_Timestamp bArgs) ZeroTimestamp
     then exists e, b_Timestamp b1 = snd (Clock_Now e) /\ env (rep s1) = fst (Clock_Now e)
     else b_Timestamp b1 = b_Timestamp bArgs) /\
    setTimestamp (b_Header b1) (b_Timestamp bArgs) = b_Header bArgs /\
    length (Requests b1) = length (Requests bArgs) /\
    (forall i a,
       Requests bArgs !! i = Some a ->
       Requests b1 !! i =
         Some (if ts_Equal (h_Timestamp (req_Header a)) ZeroTimestamp
               then req_setTimestamp a (b_Timestamp b1) else a)) /\
    (forall a',
       a' ∈ Requests b1 ->
       ts_Equal (h_Timestamp (req_Header a')) ZeroTimestamp = true ->
       ts_Equal (b_Timestamp b1) ZeroTimestamp = true) /\
    (h_ReadConsistency (b_Header bArgs) = INCONSISTENT ->
     cmdKeys = [] /\ cmdQ (rep s1) = cmdQ (rep s)).
Proof.
  unfold beginCmds. unfold mbind at 1, M_bind at 1.
  destruct (beginCmds_queue bArgs s) as (cmdKeys & sA & Hq & HtrA & Hinc).
  match goal with
  | |- context [match ?c s with Done _ => _ | Fatal _ => _ end] =>
      replace (c s) with (Done (A := list CmdKey * State) (cmdKeys, sA))
        by (symmetry; exact Hq)
  end.
  unfold mbind at 1, M_bind at 1.
  assert (Hts : exists b0 sB,
            (if ts_Equal (b_Timestamp bArgs) ZeroTimestamp
             then now ← callEnv Clock_Now; mret (b_setTimestamp bArgs now)
             else mret bArgs) sA = Done (b0, sB) /\
            trace sB = trace sA /\ cmdQ (rep sB) = cmdQ (rep sA) /\
            Requests b0 = Requests bArgs /\
            setTimestamp (b_Header b0) (b_Timestamp bArgs) = b_Header bArgs /\
            (if ts_Equal (b_Timestamp bArgs) ZeroTimestamp
             then exists e, b_Timestamp b0 = snd (Clock_Now e) /\
                            env (rep sB) = fst (Clock_Now e)
             else b_Timestamp b0 = b_Timestamp bArgs)).
  { destruct (ts_Equal (b_Timestamp bArgs) ZeroTimestamp).
    - unfold mbind, M_bind, callEnv, mret, M_ret.
      destruct (Clock_Now (env (rep sA))) as [e' now] eqn:En.
      do 2 eexists. split; [reflexivity|]. cbn [trace rep cmdQ set_env].
      split; [reflexivity|]. split; [reflexivity|]. split; [reflexivity|].
      split; [unfold b_setTimestamp, b_Timestamp; cbn [b_Header];
              destruct (b_Header bArgs); reflexivity|].
      exists (env (rep sA)). rewrite En. split; reflexivity.
    - unfoldM. exists bArgs, sA. repeat split. apply setTimestamp_same. }
  destruct Hts as (b0 & sB & Hb0 & HtrB & HqB & Hreqs & Hhead & Hnow).
  match goal with
  | |- context [match ?c sA with Done _ => _ | Fatal _ => _ end] =>
      replace (c sA) with (Done (A := BatchRequest * State) (b0, sB))
        by (symmetry; exact Hb0)
  end.
  unfoldM. do 3 eexists. split; [reflexivity|]. cbn [b_Header Requests].
  unfold b_Timestamp at 1 3 4. cbn [b_Header]. fold (b_Timestamp b0).
  split; [congruence|]. split; [exact Hnow|]. split; [exact Hhead|].
  rewrite Hreqs. split; [apply length_map|]. split; [|split].
  - intros i a Ha. rewrite list_lookup_fmap, Ha. reflexivity.
  - intros a' Hin Hz. apply list_elem_of_fmap_1 in Hin as (a & -> & _).
    destruct (ts_Equal (h_Timestamp (req_Header a)) ZeroTimestamp) eqn:Ea.
    + exact Hz.
    + rewrite Ea in Hz. discriminate Hz.
  - intros Hi. destruct (Hinc Hi) as [-> ->]. split; [reflexivity|exact HqB].
Qed.

End beginCmds_facts.

(** ** The small store *)

Ltac run_lhs :=
  match goal with
  | |- ?lhs = _ =>
      let v := eval vm_compute in lhs in
      transitivity v; [exact (eq_refl v)|reflexivity]
  end.

Lemma toy_put_get :
  forall (e : Toy.toyEngine) id rwe e',
    respCache_PutResponse (Collaborators := Toy.toy) e id rwe = (e', None) ->
    respCache_GetResponse (Collaborators := Toy.toy) e' id = (rwe, None).
Proof.
  intros e id rwe e' H. cbn in H. inversion H; subst. cbn.
  unfold Toy.lookupCache. cbn. unfold Toy.cmdID_eqb. rewrite !Z.eqb_refl. reflexivity.
Defined.

Lemma toy_setAppliedIndex :
  forall (e : Toy.toyEngine) rangeID i e' id,
    setAppliedIndex (Collaborators := Toy.toy) e rangeID i = (e', None) ->
    respCache_GetResponse (Collaborators := Toy.toy) e' id =
    respCache_GetResponse (Collaborators := Toy.toy) e id.
Proof. intros e rangeID i e' id H. cbn in H. inversion H; subst. reflexivity. Defined.

Lemma toy_executeCmd_appliedIndex :
  forall (r : Toy.toyReplica) b ms a,
    appliedIndex (ex_replica (executeCmd (Collaborators := Toy.toy) r b ms a)) =
    appliedIndex r.
Proof.
  intros r b ms a. cbn. unfold Toy.execute.
  destruct (req_Method a), (req_Body a); try reflexivity.
  destruct (_ && _); reflexivity.
Defined.

Lemma toy_less_spec (a b : Timestamp) :
  Toy.less a b = true <->
  WallTime a < WallTime b \/ (WallTime a = WallTime b /\ Logical a < Logical b).
Proof.
  unfold Toy.less.
  destruct (Z.ltb_spec (WallTime a) (WallTime b)),
    (Z.eqb_spec (WallTime a) (WallTime b)),
    (Z.ltb_spec (Logical a) (Logical b)); cbn; split; intros; try lia; auto;
    discriminate.
Defined.

Lemma toy_less_false (a b : Timestamp) :
  Toy.less a b = false <->
  ~ (WallTime a < WallTime b \/ (WallTime a = WallTime b /\ Logical a < Logical b)).
Proof.
  rewrite <- toy_less_spec. destruct (Toy.less a b); split; intros H;
    congruence.
Defined.

Lemma toy_Less_irrefl :
  forall t, ts_Less (Collaborators := Toy.toy) t t = false.
Proof. intros t. cbn. apply toy_less_false. lia. Defined.

Lemma toy_Less_trans :
  forall a b c,
    ts_Less (Collaborators := Toy.toy) a b = true -> ts_Less b c = true ->
    ts_Less a c = true.
Proof.
  intros a b c. cbn. rewrite !toy_less_spec. lia.
Defined.

Lemma toy_Less_total :
  forall a b,
    ts_Less (Collaborators := Toy.toy) a b = false -> ts_Less b a = false -> a = b.
Proof.
  intros [wa la] [wb lb]. cbn. rewrite !toy_less_false. cbn. intros H1 H2.
  f_equal; lia.
Defined.

Lemma toy_Less_Next :
  forall t, ts_Less (Collaborators := Toy.toy) t (ts_Next t) = true.
Proof. intros [w l]. cbn. apply toy_less_spec. cbn. lia. Defined.

Lemma applyRaftCommandInBatch_cached_witness :
  batch_IsWrite (Collaborators := Toy.toy) (Toy.putBatch 100 42 [118]) = true /\
  applyRaftCommandInBatch (C := Toy.toy) 2 1 (Toy.putBatch 100 42 [118]) (0, 0) Toy.state1
    = Done ((engine (rep Toy.state1), (0, 0), Some Toy.reply42, None), Toy.state1) /\
  exists s1,
    applyRaftCommand (C := Toy.toy) 1 1 (Toy.putBatch 100 42 [118]) (Toy.state0 1 0)
      = Done ((Some Toy.reply42, None), s1) /\
    applyRaftCommandInBatch (C := Toy.toy) 2 1 (Toy.putBatch 100 42 [118]) (0, 0) s1
      = Done ((engine (rep s1), (0, 0), Some Toy.reply42, None), s1).
Proof.
  split; [reflexivity|]. split.
  - apply (proj1 (@applyRaftCommandInBatch_cached Toy.toy)); reflexivity.
  - eexists. split; [run_lhs|].
    apply (proj2 (@applyRaftCommandInBatch_cached Toy.toy)
             toy_put_get toy_setAppliedIndex (Toy.state0 1 0) 1 1);
      reflexivity.
Defined.

(** At index 0 the process ends: nothing is returned. *)
Lemma applyRaftCommand_index_zero :
  0 <= appliedIndex (rep (Toy.state0 1 0)) /\
  applyRaftCommand (C := Toy.toy) 0 1 (Toy.putBatch 100 42 [118]) (Toy.state0 1 0)
    = Fatal "raft command index is <= 0" /\
  ~ (exists bReply e s',
       applyRaftCommand (C := Toy.toy) 0 1 (Toy.putBatch 100 42 [118]) (Toy.state0 1 0)
         = Done ((bReply, Some e), s') /\
       isReplicaCorruptionError (Some e) = true).
Proof.
  split; [cbn; lia|]. split; [reflexivity|].
  intros (bReply & e & s' & H & _). discriminate H.
Qed.

Lemma applyRaftCommand_stale_index_witness :
  0 < 5 <= appliedIndex (rep (Toy.state0 1 5)) /\
  (exists e,
     applyRaftCommand (C := Toy.toy) 5 1 (Toy.putBatch 100 42 [118]) (Toy.state0 1 5)
       = Done ((None, Some e), Toy.state0 1 5) /\
     isReplicaCorruptionError (Some e) = true) /\
  (exists s',
     applyAll (C := Toy.toy)
       [(1, 1, Toy.putBatch 100 42 [118]); (2, 1, Toy.putBatch 100 43 [119])]
       (Toy.state0 1 0) = Done (tt, s') /\
     appliedIndex (rep (Toy.state0 1 0)) <= appliedIndex (rep s')).
Proof.
  split; [cbn; lia|]. split.
  - apply (proj1 (@applyRaftCommand_stale_index Toy.toy)). cbn. lia.
  - eexists. split; [run_lhs|].
    apply (proj2 (@applyRaftCommand_stale_index Toy.toy) toy_executeCmd_appliedIndex
             [(1, 1, Toy.putBatch 100 42 [118]); (2, 1, Toy.putBatch 100 43 [119])]).
    reflexivity.
Defined.

(** A command that has been applied and is replayed from node 2, which
    does not own the lease: the cached answer comes back, not a
    [NotLeaderError]. *)
Lemma applyRaftCommandInBatch_replay_not_NotLeader :
  batch_IsWrite (Collaborators := Toy.toy) (Toy.putBatch 100 42 [118]) = true /\
  Requests (Toy.putBatch 100 42 [118]) = [Toy.put 100 42 [118]] /\
  leaseMismatch (C := Toy.toy) (lease (rep Toy.state1)) 2 (Toy.put 100 42 [118]) = true /\
  applyRaftCommandInBatch (C := Toy.toy) 2 2 (Toy.putBatch 100 42 [118]) (0, 0) Toy.state1
    = Done ((engine (rep Toy.state1), (0, 0), Some Toy.reply42, None), Toy.state1) /\
  isNotLeaderError None = false.
Proof. repeat split. Qed.

Lemma applyRaftCommandInBatch_NotLeader_witness :
  leaseMismatch (C := Toy.toy) (lease (rep (Toy.state0 1 0))) 2 (Toy.put 100 42 [118]) = true /\
  exists e,
    applyRaftCommandInBatch (C := Toy.toy) 1 2 (Toy.putBatch 100 42 [118]) (0, 0)
      (Toy.state0 1 0)
      = Done ((engine (rep (Toy.state0 1 0)), (0, 0), None, Some e), Toy.state0 1 0) /\
    isNotLeaderError (Some e) = true /\
    trace (Toy.state0 1 0) = trace (Toy.state0 1 0) ++ map EvExecute [] /\
    (forall cmdID rwe,
       In (EvPutResponse cmdID rwe) (trace (Toy.state0 1 0)) ->
       In (EvPutResponse cmdID rwe) (trace (Toy.state0 1 0))).
Proof.
  split; [reflexivity|].
  apply (@applyRaftCommandInBatch_NotLeader Toy.toy (Toy.state0 1 0) 1 2
           (Toy.putBatch 100 42 [118]) (0, 0) [] [] (Toy.put 100 42 [118])
           (engine (rep (Toy.state0 1 0))) (0, 0)
           (mkBatchResponse (mkTimestamp 100 0) []) (Toy.state0 1 0)).
  - reflexivity.
  - intros _. exists None. reflexivity.
  - reflexivity.
  - reflexivity.
Defined.

Lemma addWriteCmd_forwards_timestamp_witness :
  ts_Less (Collaborators := Toy.toy) (mkTimestamp 50 0) (mkTimestamp 50 0) = false /\
  exists proposed bReply err s',
    addWriteCmd (C := Toy.toy) (Toy.putBatch 50 42 [118]) (Toy.state0 1 0)
      = Done ((proposed, bReply, err), s') /\
    b_Timestamp proposed = mkTimestamp 50 1.
Proof.
  split; [reflexivity|].
  edestruct (proj2 (@addWriteCmd_forwards_timestamp Toy.toy toy_Less_irrefl
                      toy_Less_trans toy_Less_total toy_Less_Next)
               (Toy.state0 1 0) (Toy.putBatch 50 42 [118]))
    as (idKey & proposed & bReply & err & s' & Hrun & Htr & Habove & Hexact);
    [reflexivity|reflexivity|run_lhs|run_lhs|].
  exists proposed, bReply, err, s'. split; [exact Hrun|].
  apply (Hexact (Toy.put 50 42 [118]) (mkTimestamp 50 0) ZeroTimestamp
           eq_refl eq_refl eq_refl eq_refl).
  left. reflexivity.
Defined.

(** *** The small store: dispatch, commit and events *)

Lemma toy_Forward :
  forall t s,
    ts_Forward (Collaborators := Toy.toy) t s = if ts_Less t s then s else t.
Proof. reflexivity. Defined.

Lemma toy_Add_WallTime :
  forall t l, WallTime (ts_Add (Collaborators := Toy.toy) t 0 l) = WallTime t.
Proof. intros t l. cbn. lia. Defined.

Lemma newChainedError_last_witness :
  newChainedError [Some (Errorf "could not commit batch"); Some (OtherError "disk full")]
    = Some (mkChainedError (Some (OtherError "disk full")) None) /\
  newChainedError [None; None] = Some (mkChainedError None None).
Proof.
  split.
  - apply (proj1 (proj2 (newChainedError_last
                           [Some (Errorf "could not commit batch");
                            Some (OtherError "disk full")]))
             [Some (Errorf "could not commit batch")] (OtherError "disk full") eq_refl).
  - apply (proj2 (proj2 (proj2 (newChainedError_last [None; None]))) None [None] eq_refl).
    + discriminate.
    + repeat constructor.
Defined.

Lemma setBatchTimestamps_accepted_witness :
  let b := mkBatchRequest (Toy.header 100 42) [Toy.put 100 42 [118]; Toy.put 100 42 [119]] in
  checkBatchRequest (C := Toy.toy) b = None /\
  checkBatchRequest (C := Toy.toy) (Dispatch.setBatchTimestamps b) = None /\
  exists a',
    Requests (Dispatch.setBatchTimestamps (C := Toy.toy) b) !! 1%nat = Some a' /\
    ts_Less (Collaborators := Toy.toy) (h_Timestamp (req_Header a'))
      (mkTimestamp 100 1) = false.
Proof.
  intros b.
  destruct (@setBatchTimestamps_accepted Toy.toy b toy_Forward toy_Less_irrefl
              toy_Add_WallTime) as (_ & _ & Hreq & Hok).
  split; [reflexivity|]. split; [apply Hok; reflexivity|].
  destruct (Hreq 1%nat (Toy.put 100 42 [119]) eq_refl)
    as (a' & Ha & _ & _ & _ & _ & Hts).
  exists a'. split; [exact Ha|].
  apply Hts; [reflexivity|reflexivity|reflexivity|discriminate].
Defined.

Lemma addWriteCmd_not_leader_witness :
  exists e s2,
    addWriteCmd (C := Toy.toy) (Toy.putBatch 100 42 [118]) (Toy.state0 2 0)
      = Done ((Toy.putBatch 100 42 [118], None, Some e), s2) /\
    Dispatch.addReadOnlyCmd (C := Toy.toy) Faulty.executeRead
      (Faulty.getBatch 100 43 CONSISTENT) (Toy.state0 2 0)
      = Done ((Faulty.getBatch 100 43 CONSISTENT, None, Some e), s2) /\
    isNotLeaderError (Some e) = true /\
    trace s2 = [].
Proof.
  destruct (@addWriteCmd_not_leader Toy.toy Faulty.executeRead
              (Toy.putBatch 100 42 [118]) (Toy.state0 2 0) [0%nat]
              (Toy.putBatch 100 42 [118])
              (mkState (set_cmdQ (C := Toy.toy) (Toy.replica0 2 0) (1%nat, [0%nat])) []))
    as (Hw & _ & _ & Hnl); [reflexivity|reflexivity|run_lhs|reflexivity|reflexivity|].
  destruct (@addWriteCmd_not_leader Toy.toy Faulty.executeRead
              (Faulty.getBatch 100 43 CONSISTENT) (Toy.state0 2 0) [0%nat]
              (Faulty.getBatch 100 43 CONSISTENT)
              (mkState (set_cmdQ (C := Toy.toy) (Toy.replica0 2 0) (1%nat, [0%nat])) []))
    as (_ & Hr & _ & _); [reflexivity|reflexivity|run_lhs|reflexivity|reflexivity|].
  eexists. eexists. split; [exact Hw|]. split; [apply Hr; discriminate|].
  split; [exact Hnl|reflexivity].
Defined.

Lemma applyRaftCommand_commit_failure_witness :
  exists s1,
    applyRaftCommand (C := Faulty.fullDisk) 1 1 (Toy.putBatch 100 42 [118])
      (mkState (C := Faulty.fullDisk) (Toy.replica0 1 0) [])
      = Done ((Some Toy.reply42,
               Some (replicaCorruptionError false
                       (Some (mkChainedError (Some (OtherError "disk full")) None)))),
              s1) /\
    appliedIndex (rep s1) = 0 /\
    engine (rep s1) = engine (Toy.replica0 1 0).
Proof.
  eexists.
  destruct (@applyRaftCommand_commit_failure Faulty.fullDisk
              (mkState (C := Faulty.fullDisk) (Toy.replica0 1 0) []) 1 1
              (Toy.putBatch 100 42 [118])
              (Toy.mkToyEngine [([107], [118])]
                 [(mkClientCmdID 42 1, mkResponseWithError (Some Toy.reply42) None)] 0)
              (1, 1) (Some Toy.reply42) None
              (mkState (C := Faulty.fullDisk)
                 (set_stats (C := Toy.toy) (Toy.replica0 1 0) (1, 1))
                 [EvExecute (Toy.put 100 42 [118]);
                  EvPutResponse (mkClientCmdID 42 1)
                    (mkResponseWithError (Some Toy.reply42) None)])
              (Toy.mkToyEngine [([107], [118])]
                 [(mkClientCmdID 42 1, mkResponseWithError (Some Toy.reply42) None)] 1)
              (OtherError "disk full"))
    as (Hrun & Hidx); [lia|cbn; lia|run_lhs|reflexivity|reflexivity|].
  split; [exact Hrun|]. split; [|reflexivity].
  rewrite (Hidx toy_executeCmd_appliedIndex). reflexivity.
Defined.

Lemma applyRaftCommand_commit_success_witness :
  exists s',
    applyRaftCommand (C := Toy.toy) 1 1 (Toy.putBatch 100 42 [118]) (Toy.state0 1 0)
      = Done ((Some Toy.reply42, None), s') /\
    appliedIndex (rep s') = 1 /\
    engine (rep s') =
      Toy.mkToyEngine [([107], [118])]
        [(mkClientCmdID 42 1, mkResponseWithError (Some Toy.reply42) None)] 1.
Proof.
  destruct (@applyRaftCommand_commit_success Toy.toy (Toy.state0 1 0) 1 1
              (Toy.putBatch 100 42 [118])
              (Toy.mkToyEngine [([107], [118])]
                 [(mkClientCmdID 42 1, mkResponseWithError (Some Toy.reply42) None)] 0)
              (1, 1) (Some Toy.reply42) None
              (mkState (set_stats (C := Toy.toy) (Toy.replica0 1 0) (1, 1))
                 [EvExecute (Toy.put 100 42 [118]);
                  EvPutResponse (mkClientCmdID 42 1)
                    (mkResponseWithError (Some Toy.reply42) None)])
              (Toy.mkToyEngine [([107], [118])]
                 [(mkClientCmdID 42 1, mkResponseWithError (Some Toy.reply42) None)] 1))
    as [(s' & Hrun & Hidx & Heng & _)|Hfatal];
    [lia|cbn; lia|run_lhs|reflexivity|reflexivity| |].
  - exists s'. split; [exact Hrun|]. split; [exact Hidx|exact Heng].
  - exfalso.
    assert (Hd : exists x, applyRaftCommand (C := Toy.toy) 1 1 (Toy.putBatch 100 42 [118])
                             (Toy.state0 1 0) = Done x).
    { eexists. run_lhs. }
    destruct Hd as [x Hd]. rewrite Hd in Hfatal. discriminate Hfatal.
Defined.

Lemma applyRaftCommand_events_witness :
  exists s',
    applyRaftCommand (C := Toy.toy) 1 1 (Toy.putBatch 100 42 [118]) (Toy.state0 1 0)
      = Done ((Some Toy.reply42, None), s') /\
    exists n, (n <= 1)%nat /\
      (trace s' = map EvExecute (take n [Toy.put 100 42 [118]]) \/
       exists reply err,
         trace s' =
           map EvExecute (take n [Toy.put 100 42 [118]]) ++
           [EvPutResponse (mkClientCmdID 42 1) (mkResponseWithError (Some reply) err)]).
Proof.
  eexists. split; [run_lhs|].
  match goal with
  | |- context [trace ?st] =>
      destruct (@applyRaftCommand_events Toy.toy 1 1 (Toy.putBatch 100 42 [118])
                  (Toy.state0 1 0) (Some Toy.reply42) None st)
        as (n & Hn & Hev); [run_lhs|]
  end.
  exists n. split; [exact Hn|].
  destruct Hev as [Hev|(reply & err & _ & _ & _ & Hev)]; [left; exact Hev|].
  right. exists reply, err. exact Hev.
Defined.

Lemma processRaftCommand_done_witness :
  exists s',
    processRaftCommand (C := Toy.toy) "k" 1
      (Proto.mkRaftCommand 1 1 (Toy.putBatch 100 42 [118])) (Toy.state0 1 0)
      = Done (None, s') /\
    exists evs,
      (forall k rwe, ~ In (EvDone k rwe) evs) /\ trace s' = evs.
Proof.
  eexists. split; [run_lhs|].
  match goal with
  | |- context [trace ?st] =>
      destruct (@processRaftCommand_done Toy.toy "k" 1
                  (Proto.mkRaftCommand 1 1 (Toy.putBatch 100 42 [118]))
                  (Toy.state0 1 0) None st)
        as (_ & _ & evs & Hnd & _ & Htr); [run_lhs|]
  end.
  exists evs. split; [exact Hnd|]. exact Htr.
Defined.

Lemma gossipConfigs_loop_idempotent_witness :
  exists s1,
    gossipConfigs_loop (C := Toy.toy) (fun _ => true) 0 configDescriptors (Toy.state0 1 0)
      = Done (tt, s1) /\
    Toy.gossiped (env (rep s1)) = ["zones"] /\
    gossipConfigs_loop (C := Toy.toy) (fun _ => true) 0 configDescriptors s1
      = Done (tt, s1).
Proof.
  eexists. split; [run_lhs|]. split; [reflexivity|].
  apply (@gossipConfigs_loop_idempotent Toy.toy (fun _ => true) (Toy.state0 1 0)).
  run_lhs.
Defined.

Lemma toy_executeCmd_pendingCmds :
  forall (r : Toy.toyReplica) b ms a,
    pendingCmds (ex_replica (executeCmd (Collaborators := Toy.toy) r b ms a)) =
    pendingCmds r.
Proof.
  intros r b ms a. cbn. unfold Toy.execute.
  destruct (req_Method a), (req_Body a); try reflexivity.
  destruct (_ && _); reflexivity.
Defined.

Lemma proposeRaftCommand_answered_witness :
  exists idKey s1,
    proposeRaftCommand (C := Toy.toy) (Toy.putBatch 100 42 [118]) (Toy.state0 1 0)
      = Done (idKey, s1) /\
    pendingCmds (rep s1) !! idKey = Some tt /\
    forall err s2,
      processRaftCommand idKey 1
        (Proto.mkRaftCommand 1 1 (Toy.putBatch 100 42 [118])) s1 = Done (err, s2) ->
      pendingCmds (rep s2) !! idKey = None.
Proof.
  destruct (@proposeRaftCommand_answered Toy.toy toy_executeCmd_pendingCmds
              (Toy.putBatch 100 42 [118]) (Toy.state0 1 0))
    as (idKey & s1 & Hrun & Hpending & _ & Hanswer).
  exists idKey, s1. split; [exact Hrun|]. split; [exact Hpending|].
  intros err s2 H2. apply (Hanswer _ _ _ _ H2).
Defined.

End storage_facts.
